(* ===== verification/_CoqProject ===== *)
-Q . S2P
Prelude.v
GoFloat.v
GoStrings.v
GoNet.v
GoJson.v
GoTime.v
GoFlag.v
OsFs.v
GoRegexp.v
GoMarshal.v
Redact.v
Ipam.v
Host.v
PodNet.v
PrivPolicy.v
PrivHelper.v
PodNetPolicy.v
Exec.v
WireGuard.v
NetConfig.v
SvcRoute.v
SvcStop.v
Filepath.v
Launchd.v
Bundle.v
Sha256.v
PodSpec.v
PodEnv.v
Volumes.v
Runtime.v
KeyedMutex.v
Driver.v
DriverStats.v
Cleanup.v
Provider.v
Lifecycle.v
Reclaim.v
Config.v
Netd.v
Metrics.v
Bench.v
NodeStatus.v
Health.v
LocalHealth.v
Access.v
Retry.v
Startup.v
Serving.v
Doctor.v
Bootstrap.v
BundleCmd.v
Commands.v
MeshCmd.v
