(* ===== verification/Prelude.v ===== *)
(** * macvz-kubelet, verified

    macvz is a Virtual Kubelet node for Macs.  A Pod becomes one Linux micro-VM
    of the host's container runtime; the node hands out Pod addresses, wires
    each micro-VM into the Pod network with pf rules, joins the other nodes
    over WireGuard, routes ClusterIP Services, and runs every privileged host
    command through a small root daemon that checks it against a policy.  This
    library models that program (the Go code under [src/]) and proves what its
    parts owe each other.

    ** The parts and where they are modelled

    Each Go package has a file; a struct is a [Record] with the source's field
    names (prefixed where two structs share one), a method is a function from
    the state to the state and its results, a function returning [error] yields
    a [result].  A mutex-protected method is one atomic step.

    - [Prelude]: [result] and its notation, bounded search, Go map iteration
      ([MapRange]), lemmas on lists, maps and integers.  [GoStrings], [GoNet],
      [GoFloat], [GoJson], [GoMarshal], [GoTime], [Filepath], [Sha256]: the
      standard-library functions the code calls (strings, strconv, base64, net,
      netip, IEEE doubles, encoding/json both ways, time, path/filepath,
      crypto/sha256), executable.
    - [Ipam]: the Pod IP allocator, [pkg/network/ipam.go], and the recovery of
      allocations after a restart, [pkg/provider/ipam.go].
    - [Host]: the command runner of the network packages, runner.go.  [Exec]: that
      runner and the daemon's executor over a process.  [PodNet]: the router
      that owns one pf anchor, [pkg/network/podnet/{router,service}.go].
    - [PrivPolicy]: the request policy of the root daemon,
      [pkg/network/privhelper/policy.go].  [PrivHelper]: its protocol, server
      and client, with the exchange between them: the JSON of a request and the
      limit on its size, strings coerced to UTF-8 both ways, and the class [Link]
      of what can become of an exchange (it goes through, it does not get there,
      its reply is lost).  [PodNetPolicy]: the router running through the daemon.
    - [WireGuard]: keys, configuration rendering and the mesh with its routes,
      [pkg/network/wireguard].  [NetConfig]: the configuration of mesh, router
      and policy from one file, [pkg/config/{mesh,podnetwork,policy}.go], and
      the SIGHUP reload of [cmd/macvz-kubelet/mesh_reconcile.go].
    - [SvcRoute]: the Service controller, [pkg/network/svcroute].  [SvcStop]: its
      workers and how it is stopped, with [startServiceController] of serve.go.
    - [PodSpec]: what a Pod may ask for and its translation into a workload
      spec, [pkg/provider/{translate,securitycontext,dns}.go].  [PodEnv]: the
      environment and the pull credentials, [configmap.go], [secrets.go],
      [downward.go], [pullsecrets.go].  [Volumes]: the volumes, [volumes.go],
      [projected.go].
    - [Runtime]: the interface [pkg/runtime.Runtime], what its clients rely on
      (class [VmHost]) and an executable instance.  [Driver]: the driver that
      implements it over the [container] command, [pkg/runtime/container]
      driver.go and runner.go; the command is a parameter ([Cli]) with its
      documented behaviour as the class [ContainerTool].  [KeyedMutex]: the
      driver's per-workload locks, keyedmutex.go, under any interleaving.
      [DriverStats]: workload samples and the image cache, stats.go, disk.go.
    - [Provider]: the store of Pods, status reconciliation, restart decisions
      and probe loops, [provider.go], [status.go], [restart.go], [probe.go].
      [Lifecycle]: the handlers [CreatePod], [UpdatePod], [DeletePod], [GetPod],
      [GetPodStatus], [GetPods] of [pod.go] and the restart goroutine, as a
      transition system.  [Reclaim]: the resource accounting of those handlers.
    - [Cleanup]: the drain cleaner, the orphan reaper and the node removal
      workflow, [pkg/drain], [pkg/orphan], [pkg/noderemove].
    - [Config]: the configuration file, its defaults and validation, and the
      mesh metadata nodes exchange, [pkg/config/{config,metadata}.go].
      [NodeStatus]: the node object and the readiness loop, [node.go],
      [node_status.go].  [Health]: checks, report and the diagnostics endpoint,
      [pkg/health], [cmd/macvz-kubelet/diagnostics.go]; [LocalHealth]: its checkers
      as operations on the host.  [Metrics]: scrape, rate
      cache, Summary and Prometheus families, [pkg/metrics].  [Access]: logs,
      exec, port-forward and the inputs of the metrics, [logs_exec.go],
      [portforward.go], [metrics.go].
    - [Launchd]: the property list, the log rotation entry and the installer,
      [pkg/network/privhelper/{launchd,newsyslog}.go].  [Netd]: the daemon's
      program, [cmd/macvz-netd], and its socket.
    - [Retry], [Startup], [Serving]: [cmd/macvz-kubelet/{main,serve}.go]: the waits
      for the API server, the Pod CIDR and the port; the order in which [run] brings
      the node up, its gates and how it unwinds; the address pool, the reaper's
      wiring, TLS and the listeners of the running node.
    - [Redact], [Bundle], [BundleCmd]: [pkg/diagbundle] and the bundle command.
      [Doctor], [Bootstrap]: [pkg/bootstrap] with the doctor and bootstrap commands.
      [Commands]: the cleanup and remove commands.  [MeshCmd]: [cmd/macvz-mesh].
      [GoFlag], [GoRegexp] and [OsFs] are what they use of flag, regexp and os; a
      command is a function of its arguments and the host's files ([Os]).
    - [Bench]: [cmd/mvz-bench].

    How they interact: the provider calls [Ipam] for an address, [Runtime] for
    a micro-VM and [PodNet] to attach it; [SvcRoute] calls [PodNet] for service
    rules; [PodNet] and [WireGuard] call a [Runner], which in production is the
    client of [PrivHelper].  The interfaces are type classes or records that
    the clients are verified against: [Runner] (any host), [PfHost] (a packet
    filter that loads anchors atomically), [VmHost] (a runtime that creates and
    destroys the micro-VM it is told to; the driver is one), [NodeHost] (one whose destroy does
    not fail), [FileHost] (files that change only as asked), [MapRange] (any iteration
    order of Go maps), [Link] (any connection to the daemon), [Traced] (a host
    that records the commands it runs).  A router that runs through the daemon
    over a connection where every exchange goes through, with commands within the
    limits of the exchange, loads its anchor as a [PfHost] does
    ([via_daemon_load_ok], [via_daemon_load_failed]).  [pf_sim] and [vm_sim] are
    executable instances with scripted failures, on which the witnesses run.

    ** What the theorems show

    - Addresses.  Every history of calls of the allocator, with its replies, is
      one of an abstract map from Pods to addresses of a pool; it hands out a free
      address whenever there is one, and is rebuilt exactly after a restart.  Over the whole node, for every
      interleaving of handlers, restarts and probe outcomes, a running Pod holds
      the address the allocator recorded and no two Pods share one.
    - Pod network.  After any history the loaded anchor is the rendering of the
      router's maps, which contains exactly the rules they call for and does not
      depend on map iteration order.
    - Privilege separation.  The policy accepts exactly the listed request
      shapes; no sequence of requests makes the daemon run anything else; a
      refusal has no effect.  Conversely what the router, the mesh and the
      Services ask for under a consistent configuration is accepted.  Over a
      connection where every exchange goes through, a client whose commands are
      permitted and fit the exchange, on a host that prints UTF-8, cannot tell the
      daemon from running them itself; over any other connection a command has run
      as it would have, or not at all, and a lost reply hides which
      ([lost_reply_acts]).  The daemon launchd starts after an install enforces the policy of the
      installed configuration.
    - Mesh.  Keys survive restarts, rendering is canonical, tracked routes are
      in the kernel after any history, removal needs no memory.
    - Services.  The controller converges: a Service whose key is not queued has
      exactly the rules its objects call for, unless a slice was moved away from it
      and nothing has queued it since.  Once the router is stopped, no worker
      still running touches the host, and all of them can end.
    - Pods.  Volumes stay below the volume root or an allowed host path, Pods'
      storage is disjoint, names are DNS labels with the node's prefix, literal
      environment values arrive unchanged, Ready means running, addressed and
      passing the probes that are being run, liveness kills at the threshold, restarts back off exponentially.
    - Resources.  A failed creation, and the creation and deletion of a Pod of
      which the node had nothing, leave the Pods, addresses and micro-VMs as they
      were; the reaper and the removal workflow
      destroy only what is the node's own and orphaned.
    - Driver.  Over any [container] command that behaves as documented the driver
      keeps the contract the provider is verified against; the arguments it
      builds say exactly what the spec asks for; a pull drops the credential it
      logged in with; operations on one workload exclude each other, those on
      different ones do not wait for each other, and the locks never deadlock.
    - Configuration.  What [Load] accepts from a file is well-formed; what
      validation leaves to the mesh is characterised exactly; what
      one node exports every other node can use as a peer.
    - Startup.  The data plane comes up only behind a helper that answers, speaks the
      protocol and enforces a policy; a start that fails at any point takes down what
      it had brought up; the waits end within their limits; the reaper a node starts
      never takes a live Pod's micro-VM; diagnostics and exec are served only where
      the configuration says.
    - Operations.  Cleanup spares what the API server lists and refuses to guess;
      removal changes no micro-VM without its confirmation; nothing the redactor
      recognises is left in a source or an error a bundle writes, and making one runs
      only commands that look; a generated configuration loads, a green preflight passes
      the kubelet's gate, exported mesh metadata comes back as the peer it describes.
    - Benchmark.  The parallel launch keeps its bounds in every interleaving and can
      always end; a run removes what it created or says what it could not; the
      percentiles are nearest-rank ones.
    - Observation.  The cluster sees every readiness change after the loop
      starts; the diagnostics are ready under exactly the listed observations;
      a scrape adds up what was sampled and its cache does not grow; exit codes
      and forwarded streams are accounted for.

    Some theorems state what goes wrong at the edges of these: for example
    [failed_detach_not_retried] in [PodNet], [peer_removal_blocked] and
    [disabled_mesh_blocks_pods] in [NetConfig], [relabelled_slice_stale] in
    [SvcRoute], [lost_workload_succeeds] and [restarting_stays_ready] in
    [Provider], [lost_reply_acts] in [Exec], the runs at the end of
    [Reclaim], [exec_confuses_guest_output] in [Driver],
    [startup_change_missed] in [NodeStatus], [pod_rates_never_reported] in
    [Metrics], [helper_gap_never_reported] in [Health],
    [cancelled_forward_leaves_copy] in [Access], [uninstall_leaves_daemon] in
    [Launchd], [plist_values_unescaped] in [Netd], [failed_mesh_left_up] in
    [Startup], [failed_listing_reassigns] in [Serving], [Redact_misses] in [Redact],
    [manifest_leaks_errors] in [Bundle], [truncated_archive_reported] in
    [BundleCmd], [preflight_misses_client_ca] in [Doctor],
    [serving_key_permissions] in [Bootstrap], [cleanup_flushes_live] and
    [planning_makes_key] in [Commands], [stop_does_not_drain] in [SvcStop] and
    [no_slots_hangs] in [Bench].

    ** Bounds

    No definition needs fuel that could run out.  The JSON parser recurses on a
    bound computed from the length of the text; [Parse_complete] shows that no
    larger bound accepts more.  Duration groups and quoted runes recurse on the
    length of the text.  [Allocate] searches with
    [iter_until] for as many steps as there are usable offsets, a binary
    positive, so large CIDRs cost nothing; [Allocate_exact] shows that this
    many steps find a free address when there is one.  [observeVMIPByID] takes
    the source's own attempt limit.  A probe loop is a fold over the list of
    attempt outcomes it sees, of any length.  Integers that wrap in Go (probe
    counters, restart counts, exit codes, durations, CPU and memory quotients)
    are Z with their width written out; quotients of quantities use IEEE double
    precision as the source does.

    The retry loops of [Retry] recurse on a number of attempts computed from the
    limit and the delay, 31 for the API server, which [api_wait_bounded] shows to
    be enough.  The percentiles of [Bench] are proved to be nearest-rank ones for
    up to 4096 samples, by computing every rank.  A pattern of [GoRegexp] is
    matched with the length of the text as its bound.

    ** Not modelled

    Parameters: the host's executables behind a [Runner], a [Cli] or a [Spawn], the
    YAML codec, [resource.ParseQuantity], [json.Unmarshal] of registry credentials,
    the Kubernetes API behind getters, probes and informer caches, Curve25519,
    X.509 and PEM, the tar and gzip writers, launchctl,
    random bytes, [statfs], the wall clock.  A Kubernetes object is the record of
    the fields the node reads; [resource.Quantity] is the record of the
    observations made of it.  Log lines and the texts of many errors are left
    out.  Handlers are atomic steps; the restart goroutine is split at the points
    where it releases the provider's lock, the driver's locks and the
    port-forward goroutines at every synchronisation, the goroutines of the Service
    controller and of the benchmark at every call.

    Left out, because little of it is this program's own: the Pod and node
    controllers of Virtual Kubelet and the informers [startPodController] hands
    them, the HTTP routes behind the listeners, the accept loop of the daemon, the
    texts of the JSON decoder's errors, the probes of the host that [Doctor] takes as observations, usage texts, the tables
    the commands print, the link-time version, and the stubs for other systems. *)

From stdpp Require Export base tactics option list numbers strings gmap sorting.
From Stdlib Require Export ZArith Lia.

(** ** Fallible Go functions

    A Go function that returns [(T, error)] becomes a function into
    [result E T]: [Ok v] when the error is nil, [Err e] otherwise.  The error
    types are inductive, one constructor per error the source can return. *)

Inductive result (E A : Type) : Type :=
  | Ok (a : A)
  | Err (e : E).
Arguments Ok {E A} a.
Arguments Err {E A} e.

Declare Scope go_scope.
Delimit Scope go_scope with go.
Open Scope go_scope.

Notation "x <-- m ; k" :=
  (match m with Ok x => k | Err e => Err e end)
  (at level 100, m at next level, right associativity) : go_scope.
Notation "m ;-- k" :=
  (match m with Ok _ => k | Err e => Err e end)
  (at level 100, right associativity) : go_scope.

Definition is_ok {E A} (r : result E A) : bool :=
  match r with Ok _ => true | Err _ => false end.

(** [guard b e] is the early return [if !b { return e }]. *)
Definition guard {E} (b : bool) (e : E) : result E unit :=
  if b then Ok tt else Err e.

(** [for _, x := range l { if err := f(x); err != nil { return err } }] *)
Fixpoint for_each {E A} (f : A → result E unit) (l : list A) : result E unit :=
  match l with
  | [] => Ok tt
  | x :: l' => f x ;-- for_each f l'
  end.

(** The same loop when each iteration yields a value that is appended. *)
Fixpoint map_result {E A B} (f : A → result E B) (l : list A)
    : result E (list B) :=
  match l with
  | [] => Ok []
  | x :: l' => y <-- f x; ys <-- map_result f l'; Ok (y :: ys)
  end.

(** ** Automation *)

(** Case on the scrutinee of a [match] or [if] of the goal or a hypothesis. *)
Ltac case_head :=
  match goal with
  | |- context [match ?x with _ => _ end] => destruct x eqn:?
  | H : context [match ?x with _ => _ end] |- _ => destruct x eqn:?
  end.

(** Turn boolean tests into propositions. *)
Ltac bools :=
  repeat match goal with
  | H : _ && _ = true |- _ => apply andb_true_iff in H as [? ?]
  | H : _ || _ = false |- _ => apply orb_false_iff in H as [? ?]
  | H : negb _ = true |- _ => apply negb_true_iff in H
  | H : negb _ = false |- _ => apply negb_false_iff in H
  | H : (_ =? _)%Z = true |- _ => apply Z.eqb_eq in H
  | H : (_ =? _)%Z = false |- _ => apply Z.eqb_neq in H
  | H : (_ <=? _)%Z = true |- _ => apply Z.leb_le in H
  | H : (_ <=? _)%Z = false |- _ => apply Z.leb_gt in H
  | H : (_ <? _)%Z = true |- _ => apply Z.ltb_lt in H
  | H : (_ <? _)%Z = false |- _ => apply Z.ltb_ge in H
  | H : String.eqb _ _ = true |- _ => apply String.eqb_eq in H
  | H : String.eqb _ _ = false |- _ => apply String.eqb_neq in H
  | H : bool_decide _ = true |- _ => apply bool_decide_eq_true in H
  | H : bool_decide _ = false |- _ => apply bool_decide_eq_false in H
  end.

(** Walk a chain of early returns backwards from its outcome. *)
Ltac chase := repeat (simplify_eq/=; try case_head); simplify_eq/=; bools.

Create HintDb go discriminated.
Create Rewrite HintDb go.

(** ** Loops with an early exit

    [iter_until f n s] runs the loop body [f] at most [n] times: [inl s'] asks
    for another iteration, [inr r] breaks out with [r].  The counter is binary
    so that loops bounded by the size of an address range stay executable. *)

Fixpoint iter_until {S R} (f : S → S + R) (n : positive) (s : S) : S + R :=
  match n with
  | xH => f s
  | xO m =>
      match iter_until f m s with
      | inl s' => iter_until f m s'
      | inr r => inr r
      end
  | xI m =>
      match f s with
      | inl s' =>
          match iter_until f m s' with
          | inl s'' => iter_until f m s''
          | inr r => inr r
          end
      | inr r => inr r
      end
  end.

(** The reference definition, one iteration per successor. *)
Fixpoint iter_nat {S R} (f : S → S + R) (n : nat) (s : S) : S + R :=
  match n with
  | O => inl s
  | Datatypes.S m => match f s with inl s' => iter_nat f m s' | inr r => inr r end
  end.

Lemma iter_nat_add {S R} (f : S → S + R) m n s :
  iter_nat f (m + n) s =
  match iter_nat f m s with inl s' => iter_nat f n s' | inr r => inr r end.
Proof.
  revert s. induction m as [|m IH]; intros s; [done|].
  simpl. by destruct (f s).
Qed.

Lemma iter_until_nat {S R} (f : S → S + R) n s :
  iter_until f n s = iter_nat f (Pos.to_nat n) s.
Proof.
  revert s. induction n as [m IH|m IH|]; intros s; cbn [iter_until].
  - rewrite Pos2Nat.inj_xI. cbn [iter_nat]. destruct (f s); [|done].
    replace (2 * Pos.to_nat m)%nat with (Pos.to_nat m + Pos.to_nat m)%nat by lia.
    rewrite iter_nat_add, <- IH. by destruct (iter_until f m _).
  - rewrite Pos2Nat.inj_xO.
    replace (2 * Pos.to_nat m)%nat with (Pos.to_nat m + Pos.to_nat m)%nat by lia.
    rewrite iter_nat_add, <- IH. by destruct (iter_until f m s).
  - change (Pos.to_nat 1) with 1%nat. simpl. by destruct (f s).
Qed.

(** ** Results *)

Lemma for_each_Ok {E A} (f : A → result E unit) l :
  for_each f l = Ok tt ↔ Forall (λ x, f x = Ok tt) l.
Proof.
  induction l as [|x l IH]; simpl; [by split|].
  rewrite Forall_cons, <- IH. clear IH. destruct (f x) as [[]|]; naive_solver.
Qed.

Lemma for_each_app {E A} (f : A → result E unit) l k :
  for_each f (l ++ k) = (for_each f l ;-- for_each f k).
Proof. induction l as [|x l IH]; simpl; [done|]. by destruct (f x). Qed.

Lemma for_each_total {E A} (f : A → result E unit) l :
  (∃ e, for_each f l = Err e) ∨ for_each f l = Ok tt.
Proof.
  induction l as [|x l IH]; simpl; [by right|]. destruct (f x) as [[]|e]; eauto.
Qed.

Lemma map_result_Ok {E A B} (f : A → result E B) l k :
  map_result f l = Ok k ↔ Forall2 (λ x y, f x = Ok y) l k.
Proof.
  revert k. induction l as [|x l IH]; intros k; simpl.
  - split; [intros; by simplify_eq|]. by inversion 1.
  - split.
    + intros H. destruct (f x) eqn:?; [|done].
      destruct (map_result f l) eqn:?; simplify_eq. by constructor; [|apply IH].
    + intros (y & k' & Hy & Hk & ->)%Forall2_cons_inv_l. apply IH in Hk.
      by rewrite Hy, Hk.
Qed.

(** ** Sorted key lists

    [slices.Sort] and [sort.Strings] order strings bytewise, which is
    [String.le]; the merge sort of the library is the executable counterpart. *)

Definition sort_strings (l : list string) : list string := merge_sort String.le l.

Lemma sort_strings_perm l : sort_strings l ≡ₚ l.
Proof. apply merge_sort_Permutation. Qed.

Lemma sort_strings_sorted l : StronglySorted String.le (sort_strings l).
Proof. apply StronglySorted_merge_sort; apply _. Qed.

(** Sorting forgets the iteration order of a Go map. *)
Lemma sort_strings_canonical l k : l ≡ₚ k → sort_strings l = sort_strings k.
Proof.
  intros Hlk. apply (StronglySorted_unique String.le);
    [apply sort_strings_sorted..|]. by rewrite !sort_strings_perm.
Qed.

Lemma elem_of_sort_strings x l : x ∈ sort_strings l ↔ x ∈ l.
Proof. by rewrite sort_strings_perm. Qed.

Lemma Forall_sort_strings P l : Forall P (sort_strings l) ↔ Forall P l.
Proof. by rewrite sort_strings_perm. Qed.

#[export] Hint Resolve sort_strings_sorted : go.
#[export] Hint Rewrite @elem_of_sort_strings : go.

(** ** [sort.Slice]

    A stable insertion sort under the less-or-equal test derived from the
    source's less function: [sort.SliceStable], and what [sort.Slice] runs on
    slices of at most twelve elements.  On longer ones [sort.Slice] may reorder
    elements its less function does not tell apart.  Most slices
    the source sorts with it hold no two of those, being keyed by Pod key,
    public key or workload ID, and then the result is the same for every sort
    ([sort_by_canonical]).  The rules of a Service are ordered by address and
    port, where a TCP and a UDP port may tie: on a Service with more than twelve
    ports their lines may come in another order; the theorems about them use
    only that the result is a permutation. *)

Fixpoint insert_by {A} (le : A → A → bool) (x : A) (l : list A) : list A :=
  match l with
  | [] => [x]
  | y :: l' => if le x y then x :: l else y :: insert_by le x l'
  end.

Definition sort_by {A} (le : A → A → bool) (l : list A) : list A :=
  foldr (insert_by le) [] l.

Lemma insert_by_perm {A} (le : A → A → bool) x l : insert_by le x l ≡ₚ x :: l.
Proof.
  induction l as [|y l IH]; simpl; [done|]. destruct (le x y); [done|].
  rewrite IH. by rewrite Permutation_swap.
Qed.

Lemma sort_by_perm {A} (le : A → A → bool) l : sort_by le l ≡ₚ l.
Proof.
  induction l as [|x l IH]; simpl; [done|]. by rewrite insert_by_perm, IH.
Qed.

Section sort_by.
Context {A} (le : A → A → bool).
Context (le_total : ∀ x y, le x y = true ∨ le y x = true).
Context (le_trans : ∀ x y z, le x y = true → le y z = true → le x z = true).

Lemma insert_by_sorted x l :
  StronglySorted (λ a b, le a b = true) l →
  StronglySorted (λ a b, le a b = true) (insert_by le x l).
Proof.
  induction l as [|y l IH]; intros Hs; simpl; [by repeat constructor|].
  apply StronglySorted_cons in Hs as [Hy Hs].
  destruct (le x y) eqn:E.
  - apply StronglySorted_cons. split; [|by apply StronglySorted_cons].
    constructor; [done|]. eapply Forall_impl; [done|]. simpl. eauto.
  - apply StronglySorted_cons. split; [|by apply IH].
    rewrite insert_by_perm. constructor; [|done].
    by destruct (le_total x y); congruence.
Qed.

Lemma sort_by_sorted l : StronglySorted (λ a b, le a b = true) (sort_by le l).
Proof. induction l; simpl; [constructor|]. by apply insert_by_sorted. Qed.

(** With distinct sort keys the result does not depend on the input order. *)
Lemma sort_by_canonical l k :
  (∀ x y, x ∈ l → y ∈ l → le x y = true → le y x = true → x = y) →
  l ≡ₚ k → sort_by le l = sort_by le k.
Proof.
  intros Hk Hlk. apply (StronglySorted_unique_strong (λ a b, le a b = true)).
  - intros x y. rewrite !sort_by_perm, <- Hlk. apply Hk.
  - apply sort_by_sorted.
  - apply sort_by_sorted.
  - by rewrite !sort_by_perm.
Qed.
End sort_by.

(** Sorting by a string key, [out[i].Key < out[j].Key]. *)
Definition le_key {A} (key : A → string) (x y : A) : bool := String.leb (key x) (key y).

Lemma le_key_total {A} (key : A → string) x y : le_key key x y = true ∨ le_key key y x = true.
Proof. unfold le_key. destruct (String.leb_total (key x) (key y)); auto. Qed.

Lemma string_leb_trans s t u :
  String.leb s t = true → String.leb t u = true → String.leb s u = true.
Proof.
  intros H1 H2. assert (String.le s u) as H.
  { transitivity t; unfold String.le; by rewrite ?H1, ?H2. }
  unfold String.le in H. by destruct (String.leb s u).
Qed.

Lemma le_key_trans {A} (key : A → string) x y z :
  le_key key x y = true → le_key key y z = true → le_key key x z = true.
Proof. apply string_leb_trans. Qed.

(** ** Iteration over a Go map

    [range m] visits every entry once in an unspecified order: the order is an
    operation of this class, constrained only to enumerate the map. *)

Class MapRange := {
  range : ∀ {A}, gmap string A → list (string * A);
  range_perm : ∀ {A} (m : gmap string A), range m ≡ₚ map_to_list m;
}.

(** One admissible order, used to run examples. *)
Definition canonical_range : MapRange :=
  {| range := λ A m, map_to_list m; range_perm := λ A m, Permutation_refl _ |}.

Section range.
Context `{MapRange} {A : Type}.
Implicit Types m : gmap string A.

Lemma elem_of_range m k x : (k, x) ∈ range m ↔ m !! k = Some x.
Proof. by rewrite range_perm, elem_of_map_to_list. Qed.

Lemma range_keys_NoDup m : NoDup (range m).*1.
Proof. rewrite range_perm. apply NoDup_fst_map_to_list. Qed.

Lemma range_keys_elem m k : k ∈ (range m).*1 ↔ is_Some (m !! k).
Proof.
  rewrite list_elem_of_fmap. split.
  - intros ([k' x] & -> & H'%elem_of_range). by exists x.
  - intros [x Hx]. exists (k, x). by rewrite elem_of_range.
Qed.
End range.

(** The keys of a map, sorted: [for k := range m { keys = append(keys, k) };
    sort.Strings(keys)]. *)
Definition sorted_map_keys `{MapRange} {A} (m : gmap string A) : list string :=
  sort_strings (range m).*1.

Lemma sorted_map_keys_det (R1 R2 : MapRange) {A} (m : gmap string A) :
  @sorted_map_keys R1 A m = @sorted_map_keys R2 A m.
Proof.
  unfold sorted_map_keys. apply sort_strings_canonical. by rewrite !range_perm.
Qed.

(** A set of strings collected in a [map[string]struct{}] and sorted. *)
Definition sorted_set (l : list string) : list string :=
  sort_strings (remove_dups l).

Lemma elem_of_sorted_set x l : x ∈ sorted_set l ↔ x ∈ l.
Proof. unfold sorted_set. by rewrite elem_of_sort_strings, elem_of_remove_dups. Qed.

Lemma sorted_set_canonical l k : (∀ x, x ∈ l ↔ x ∈ k) → sorted_set l = sorted_set k.
Proof.
  intros Hlk. apply sort_strings_canonical. apply NoDup_Permutation.
  - apply NoDup_remove_dups.
  - apply NoDup_remove_dups.
  - intros x. by rewrite !elem_of_remove_dups, Hlk.
Qed.
