(* ===== verification/GoFloat.v ===== *)
(** * Double-precision arithmetic

    The [float64] operations the program uses, on the Standard Library's
    specification of IEEE 754.  Conversions to integers saturate, as the arm64
    instructions do. *)

From Stdlib Require Export SpecFloat.
From S2P Require Import Prelude.

Open Scope Z_scope.

Definition float64 (n : Z) : spec_float := binary_normalize 53 1024 n 0 false.
Definition fdiv (a b : spec_float) : spec_float := SFdiv 53 1024 a b.
Definition fmul (a b : spec_float) : spec_float := SFmul 53 1024 a b.
Definition fadd (a b : spec_float) : spec_float := SFadd 53 1024 a b.

(** [math.Ceil] followed by the conversion to [int64]. *)
Definition ceil_int64 (f : spec_float) : Z :=
  match f with
  | S754_finite s m e =>
      let v := if s then Z.neg m else Z.pos m in
      let c := if 0 <=? e then v * 2 ^ e else - ((- v) / 2 ^ (- e)) in
      Z.max (- 2 ^ 63) (Z.min (2 ^ 63 - 1) c)
  | S754_infinity s => if s then - 2 ^ 63 else 2 ^ 63 - 1
  | _ => 0
  end.

(** The conversion to [uint64], which truncates. *)
Definition trunc_uint64 (f : spec_float) : Z :=
  match f with
  | S754_finite false m e =>
      Z.min (2 ^ 64 - 1) (if 0 <=? e then Z.pos m * 2 ^ e else Z.pos m / 2 ^ (- e))
  | S754_infinity false => 2 ^ 64 - 1
  | _ => 0
  end.
