(* ===== verification/GoStrings.v ===== *)
(** * The Go [strings] and [strconv] functions the program uses

    Go strings are byte sequences; the model uses Rocq [string]s, whose
    characters are bytes.  [space_len] recognises the UTF-8 encodings of all
    the runes of [unicode.IsSpace], so [TrimSpace] and [Fields] agree with Go
    on every byte sequence: a leading byte of an encoded rune is never a
    continuation byte, hence matching the encodings from left to right is the
    same as decoding the runes.  [ToLower] maps the ASCII letters and the two
    non-ASCII runes whose lower case is ASCII (U+0130 and U+212A); it leaves
    the other non-ASCII bytes alone, which no caller inspects. *)

From S2P Require Import Prelude.
From Stdlib Require Export Ascii.

Definition c2n (a : ascii) : N := N_of_ascii a.
Definition ch (n : N) : ascii := ascii_of_N n.
Definition newline : ascii := ch 10.
Definition nl : string := String newline "".

(** ** Byte strings *)

Fixpoint s_forall (P : ascii → bool) (s : string) : bool :=
  match s with
  | EmptyString => true
  | String a r => P a && s_forall P r
  end.

Definition no_char (c : ascii) (s : string) : bool :=
  s_forall (λ a, negb (Ascii.eqb a c)) s.

(** Printable ASCII without the space: the bytes of a token. *)
Definition graph_char (a : ascii) : bool := (33 <=? c2n a)%N && (c2n a <=? 126)%N.
Definition graphic (s : string) : bool := s_forall graph_char s.

Fixpoint HasPrefix (s p : string) : bool :=
  match p, s with
  | EmptyString, _ => true
  | String a p', String b s' => Ascii.eqb a b && HasPrefix s' p'
  | _, EmptyString => false
  end.

Fixpoint drop (n : nat) (s : string) : string :=
  match n, s with
  | O, _ => s
  | S m, String _ r => drop m r
  | S _, EmptyString => ""
  end.

Fixpoint take (n : nat) (s : string) : string :=
  match n, s with
  | S m, String a r => String a (take m r)
  | _, _ => ""
  end.

Definition TrimPrefix (s p : string) : string :=
  if HasPrefix s p then drop (String.length p) s else s.

Definition HasSuffix (s p : string) : bool :=
  (String.length p <=? String.length s)%nat &&
  String.eqb (drop (String.length s - String.length p) s) p.

Definition TrimSuffix (s p : string) : string :=
  if HasSuffix s p then take (String.length s - String.length p) s else s.

Fixpoint Contains (s sub : string) : bool :=
  HasPrefix s sub || match s with EmptyString => false | String _ r => Contains r sub end.

Fixpoint ContainsByte (c : ascii) (s : string) : bool :=
  match s with EmptyString => false | String a r => Ascii.eqb a c || ContainsByte c r end.

(** ** Split, Cut, Join *)

Fixpoint split_on (c : ascii) (s : string) : list string :=
  match s with
  | EmptyString => [""]
  | String a r =>
      if Ascii.eqb a c then "" :: split_on c r
      else match split_on c r with
           | [] => [String a ""]
           | t :: ts => String a t :: ts
           end
  end.

(** [strings.Cut(s, sep)] for a one-byte separator. *)
Fixpoint cut_on (c : ascii) (s : string) : option (string * string) :=
  match s with
  | EmptyString => None
  | String a r =>
      if Ascii.eqb a c then Some ("", r)
      else match cut_on c r with
           | Some (h, t) => Some (String a h, t)
           | None => None
           end
  end.

Fixpoint Join (l : list string) (sep : string) : string :=
  match l with
  | [] => ""
  | [x] => x
  | x :: l' => x +:+ sep +:+ Join l' sep
  end.

(** Concatenation of a list, the contents of a [strings.Builder]. *)
Fixpoint Concat (l : list string) : string :=
  match l with [] => "" | x :: l' => x +:+ Concat l' end.

(** ** White space *)

Definition ascii_space (n : N) : bool := ((9 <=? n) && (n <=? 13) || (n =? 32))%N.

(** Length in bytes of the white-space rune [s] starts with, 0 if none. *)
Definition space_len (s : string) : nat :=
  match s with
  | EmptyString => 0
  | String a r =>
      let n := c2n a in
      if ascii_space n then 1
      else if (n =? 194)%N then
        match r with
        | String b _ => if ((c2n b =? 133) || (c2n b =? 160))%N then 2 else 0
        | _ => 0
        end
      else if (n =? 225)%N then
        match r with
        | String b (String c _) => if ((c2n b =? 154) && (c2n c =? 128))%N then 3 else 0
        | _ => 0
        end
      else if (n =? 226)%N then
        match r with
        | String b (String c _) =>
            let k := c2n c in
            if ((c2n b =? 128) &&
                ((128 <=? k) && (k <=? 138) || (k =? 168) || (k =? 169) || (k =? 175))
                || (c2n b =? 129) && (k =? 159))%N then 3 else 0
        | _ => 0
        end
      else if (n =? 227)%N then
        match r with
        | String b (String c _) => if ((c2n b =? 128) && (c2n c =? 128))%N then 3 else 0
        | _ => 0
        end
      else 0
  end%nat.

(** Drop [skip] bytes, then the leading white space. *)
Fixpoint drop_spaces (skip : nat) (s : string) : string :=
  match s with
  | EmptyString => ""
  | String a r =>
      match skip with
      | S k => drop_spaces k r
      | O => match space_len s with O => s | S k => drop_spaces k r end
      end
  end.

Fixpoint trim_right (s : string) : string :=
  match s with
  | EmptyString => ""
  | String a r =>
      if String.eqb (drop_spaces 0 s) "" then "" else String a (trim_right r)
  end.

Definition TrimSpace (s : string) : string := trim_right (drop_spaces 0 s).

Definition nonempty (t : string) : list string :=
  if String.eqb t "" then [] else [t].

(** The token being read at the front of [s], and the tokens after it. *)
Fixpoint tokens (skip : nat) (s : string) : string * list string :=
  match s with
  | EmptyString => ("", [])
  | String a r =>
      match skip with
      | S k => tokens k r
      | O =>
          match space_len s with
          | O => let '(t, ts) := tokens 0 r in (String a t, ts)
          | S k => let '(t, ts) := tokens k r in ("", nonempty t ++ ts)
          end
      end
  end.

Definition Fields (s : string) : list string :=
  let '(t, ts) := tokens 0 s in nonempty t ++ ts.

(** ** Case *)

Definition lower_char (a : ascii) : ascii :=
  let n := c2n a in if ((65 <=? n) && (n <=? 90))%N then ch (n + 32) else a.

Fixpoint lower_go (skip : nat) (s : string) : string :=
  match s with
  | EmptyString => ""
  | String a r =>
      match skip with
      | S k => lower_go k r
      | O =>
          match r with
          | String b (String c _) =>
              if ((c2n a =? 226) && (c2n b =? 132) && (c2n c =? 170))%N
              then String (ch 107) (lower_go 2 r)
              else if ((c2n a =? 196) && (c2n b =? 176))%N
              then String (ch 105) (lower_go 1 r)
              else String (lower_char a) (lower_go 0 r)
          | String b EmptyString =>
              if ((c2n a =? 196) && (c2n b =? 176))%N
              then String (ch 105) (lower_go 1 r)
              else String (lower_char a) (lower_go 0 r)
          | EmptyString => String (lower_char a) ""
          end
      end
  end.

Definition ToLower (s : string) : string := lower_go 0 s.

(** ** Numbers: [strconv.Itoa], [strconv.Atoi] and digit strings *)

Definition digit_char (d : Z) : ascii :=
  if (d <? 10)%Z then ch (Z.to_N (48 + d)) else ch (Z.to_N (87 + d)).

(** Value of a digit, lower or upper case, below 16. *)
Definition digit_val (a : ascii) : option Z :=
  let n := Z.of_N (c2n a) in
  if ((48 <=? n) && (n <=? 57))%Z then Some (n - 48)%Z
  else if ((97 <=? n) && (n <=? 102))%Z then Some (n - 87)%Z
  else if ((65 <=? n) && (n <=? 70))%Z then Some (n - 55)%Z
  else None.

Definition digit_in (base : Z) (a : ascii) : option Z :=
  match digit_val a with
  | Some d => if (d <? base)%Z then Some d else None
  | None => None
  end.

Fixpoint fmt_go (base : Z) (fuel : nat) (n : Z) (acc : string) : string :=
  match fuel with
  | O => acc
  | S f =>
      let acc' := String (digit_char (n mod base)) acc in
      if (n <? base)%Z then acc' else fmt_go base f (n / base) acc'
  end.

(** [strconv.FormatUint]: one digit per iteration, and the binary logarithm
    bounds the number of digits in any base above one. *)
Definition FormatUint (base n : Z) : string :=
  fmt_go base (S (Z.to_nat (Z.log2 n))) n "".

Definition Itoa (z : Z) : string :=
  if (z <? 0)%Z then String "-" (FormatUint 10 (- z)) else FormatUint 10 z.

Fixpoint digits_go (base acc : Z) (s : string) : option Z :=
  match s with
  | EmptyString => Some acc
  | String a r =>
      match digit_in base a with
      | Some d => digits_go base (acc * base + d) r
      | None => None
      end
  end.

Definition digits (base : Z) (s : string) : option Z :=
  if String.eqb s "" then None else digits_go base 0 s.

Definition in_int64 (z : Z) : bool := ((- 2 ^ 63 <=? z) && (z <? 2 ^ 63))%Z.

(** [None] is a syntax or range error. *)
Definition Atoi (s : string) : option Z :=
  let v :=
    match s with
    | String a r =>
        if Ascii.eqb a "+" then digits 10 r
        else if Ascii.eqb a "-" then option_map Z.opp (digits 10 r)
        else digits 10 s
    | EmptyString => None
    end in
  match v with
  | Some z => if in_int64 z then Some z else None
  | None => None
  end.

(** ** Lemmas on byte strings *)

Lemma sapp_nil_r s : s +:+ "" = s.
Proof. induction s as [|a s IH]; simpl; [done|]. unfold String.app in *. simpl. by f_equal. Qed.

Lemma sapp_cons a s t : String a s +:+ t = String a (s +:+ t).
Proof. done. Qed.

Lemma sapp_nil_l s : "" +:+ s = s.
Proof. done. Qed.

Lemma sapp_assoc s t u : (s +:+ t) +:+ u = s +:+ (t +:+ u).
Proof.
  induction s as [|a s IH]; [done|]. by rewrite !sapp_cons, IH.
Qed.

Lemma sapp_eq_nil s t : s +:+ t = "" ↔ s = "" ∧ t = "".
Proof. destruct s; [|rewrite sapp_cons]; naive_solver. Qed.

Lemma slength_app s t : String.length (s +:+ t) = (String.length s + String.length t)%nat.
Proof. induction s as [|a s IH]; [done|]. rewrite sapp_cons. simpl. by rewrite IH. Qed.

Lemma sapp_inj_r s t u : s +:+ u = t +:+ u → s = t.
Proof.
  revert t. induction s as [|a s IH]; intros [|b t] H; [done|..].
  - apply (f_equal String.length) in H. rewrite !slength_app in H. simpl in H. lia.
  - apply (f_equal String.length) in H. rewrite !slength_app in H. simpl in H. lia.
  - rewrite !sapp_cons in H. simplify_eq. f_equal. by apply IH.
Qed.

#[export] Hint Rewrite sapp_nil_r sapp_nil_l sapp_cons sapp_assoc : go.

Lemma s_forall_app P s t : s_forall P (s +:+ t) = s_forall P s && s_forall P t.
Proof.
  induction s as [|a s IH]; [done|]. rewrite sapp_cons. simpl. rewrite IH.
  by rewrite andb_assoc.
Qed.

Lemma s_forall_impl (P Q : ascii → bool) s :
  (∀ a, P a = true → Q a = true) → s_forall P s = true → s_forall Q s = true.
Proof.
  intros HPQ. induction s as [|a s IH]; simpl; [done|].
  intros [HP Hs]%andb_true_iff. by rewrite HPQ, IH.
Qed.

Lemma no_char_app c s t : no_char c (s +:+ t) = no_char c s && no_char c t.
Proof. apply s_forall_app. Qed.

Lemma no_char_cons c a s : no_char c (String a s) = negb (Ascii.eqb a c) && no_char c s.
Proof. done. Qed.

Lemma graphic_cons a s : graphic (String a s) = graph_char a && graphic s.
Proof. done. Qed.

Lemma graphic_app s t : graphic (s +:+ t) = graphic s && graphic t.
Proof. apply s_forall_app. Qed.

Lemma graphic_no_char c s : graph_char c = false → graphic s = true → no_char c s = true.
Proof.
  intros Hc. apply s_forall_impl. intros a Ha.
  apply negb_true_iff, Ascii.eqb_neq. intros ->. congruence.
Qed.

Lemma HasPrefix_spec s p : HasPrefix s p = true ↔ ∃ t, s = p +:+ t.
Proof.
  revert s. induction p as [|a p IH]; intros s.
  - split; [intros _; by exists s|]. by destruct s.
  - destruct s as [|b s]; simpl.
    + split; [done|]. by intros [t ?].
    + rewrite andb_true_iff, Ascii.eqb_eq, IH.
      split.
      * intros [-> [t ->]]. by exists t.
      * intros [t Ht]. rewrite sapp_cons in Ht. simplify_eq. eauto.
Qed.

Lemma HasPrefix_app p t : HasPrefix (p +:+ t) p = true.
Proof. apply HasPrefix_spec. eauto. Qed.

Lemma drop_app p t : drop (String.length p) (p +:+ t) = t.
Proof. induction p as [|a p IH]; [done|]. rewrite sapp_cons. simpl. done. Qed.

Lemma take_app p t : take (String.length p) (p +:+ t) = p.
Proof. induction p as [|a p IH]; [by destruct t|]. rewrite sapp_cons. simpl. by rewrite IH. Qed.

Lemma TrimPrefix_app p t : TrimPrefix (p +:+ t) p = t.
Proof. unfold TrimPrefix. by rewrite HasPrefix_app, drop_app. Qed.

Lemma HasSuffix_app p t : HasSuffix (p +:+ t) t = true.
Proof.
  unfold HasSuffix. rewrite slength_app.
  replace (String.length p + String.length t - String.length t)%nat
    with (String.length p) by lia.
  rewrite drop_app, String.eqb_refl, andb_true_r. apply Nat.leb_le. lia.
Qed.

Lemma TrimSuffix_app p t : TrimSuffix (p +:+ t) t = p.
Proof.
  unfold TrimSuffix. rewrite HasSuffix_app, slength_app.
  replace (String.length p + String.length t - String.length t)%nat
    with (String.length p) by lia. apply take_app.
Qed.

(** ** Split and Cut *)

Lemma split_on_app c t s :
  no_char c t = true → split_on c (t +:+ String c s) = t :: split_on c s.
Proof.
  induction t as [|a t IH]; intros Ht.
  - rewrite sapp_nil_l. simpl. by rewrite Ascii.eqb_refl.
  - rewrite no_char_cons in Ht. apply andb_true_iff in Ht as [Ha%negb_true_iff Ht].
    rewrite sapp_cons. simpl. by rewrite Ha, (IH Ht).
Qed.

Lemma split_on_none c t : no_char c t = true → split_on c t = [t].
Proof.
  induction t as [|a t IH]; intros Ht; [done|].
  rewrite no_char_cons in Ht. apply andb_true_iff in Ht as [Ha%negb_true_iff Ht].
  simpl. by rewrite Ha, (IH Ht).
Qed.

Lemma cut_on_app c t s :
  no_char c t = true → cut_on c (t +:+ String c s) = Some (t, s).
Proof.
  induction t as [|a t IH]; intros Ht.
  - rewrite sapp_nil_l. simpl. by rewrite Ascii.eqb_refl.
  - rewrite no_char_cons in Ht. apply andb_true_iff in Ht as [Ha%negb_true_iff Ht].
    rewrite sapp_cons. simpl. by rewrite Ha, (IH Ht).
Qed.

Lemma cut_on_spec c s h t :
  cut_on c s = Some (h, t) → s = h +:+ String c t ∧ no_char c h = true.
Proof.
  revert h. induction s as [|a s IH]; intros h; simpl; [done|].
  destruct (Ascii.eqb a c) eqn:E.
  - apply Ascii.eqb_eq in E as ->. intros; by simplify_eq.
  - destruct (cut_on c s) as [[h' t']|]; [|done]. intros; simplify_eq.
    destruct (IH h' eq_refl) as [-> Hh]. split; [done|].
    by rewrite no_char_cons, E, Hh.
Qed.

(** ** White space *)

Lemma graph_char_bounds a : graph_char a = true → (33 ≤ c2n a ≤ 126)%N.
Proof. unfold graph_char. rewrite andb_true_iff, !N.leb_le. lia. Qed.

Lemma space_len_graph a r : graph_char a = true → space_len (String a r) = 0%nat.
Proof.
  intros Ha%graph_char_bounds. unfold space_len, ascii_space.
  repeat match goal with
  | |- context [(?x =? ?y)%N] =>
      replace (x =? y)%N with false by (symmetry; apply N.eqb_neq; lia)
  end.
  replace (c2n a <=? 13)%N with false by (symmetry; apply N.leb_gt; lia).
  by rewrite andb_false_r.
Qed.

Lemma drop_spaces_graph a r :
  graph_char a = true → drop_spaces 0 (String a r) = String a r.
Proof. intros Ha. cbn [drop_spaces]. by rewrite space_len_graph. Qed.

(** A white-space rune does not run over a graphic byte. *)
Lemma space_len_before_graph b s a r :
  graph_char a = true →
  (Nat.pred (space_len (String b (s +:+ String a r))) ≤ String.length s)%nat.
Proof.
  intros Ha%graph_char_bounds. destruct s as [|c [|d s]].
  - rewrite sapp_nil_l. unfold space_len.
    repeat match goal with
    | |- context [(c2n a =? ?y)%N] =>
        replace (c2n a =? y)%N with false by (symmetry; apply N.eqb_neq; lia)
    end.
    rewrite ?andb_false_l, ?orb_false_l. repeat case_match; simpl; (done || lia).
  - rewrite sapp_cons, sapp_nil_l. unfold space_len.
    repeat match goal with
    | |- context [(c2n a =? ?y)%N] =>
        replace (c2n a =? y)%N with false by (symmetry; apply N.eqb_neq; lia)
    | |- context [(128 <=? c2n a)%N] =>
        replace (128 <=? c2n a)%N with false by (symmetry; apply N.leb_gt; lia)
    end.
    rewrite !andb_false_r, ?andb_false_l, ?orb_false_l, ?orb_false_r, ?andb_false_r.
    repeat case_match; simpl; lia.
  - rewrite !sapp_cons. unfold space_len. repeat case_match; simpl; lia.
Qed.

Lemma drop_spaces_ends_graph s a r k :
  graph_char a = true → (k ≤ String.length s)%nat →
  drop_spaces k (s +:+ String a r) ≠ "".
Proof.
  intros Ha. revert k. induction s as [|b s IH]; intros k Hk; simpl in Hk.
  - replace k with 0%nat by lia. rewrite sapp_nil_l. by rewrite drop_spaces_graph.
  - rewrite sapp_cons. cbn [drop_spaces]. destruct k as [|k]; [|apply IH; lia].
    pose proof (space_len_before_graph b s a r Ha) as Hl.
    destruct (space_len _) as [|n]; [done|]. apply IH. simpl in Hl. lia.
Qed.

Lemma trim_right_graph s a r :
  graph_char a = true → trim_right (s +:+ String a r) = s +:+ String a (trim_right r).
Proof.
  intros Ha. induction s as [|b s IH].
  - rewrite !sapp_nil_l. cbn [trim_right].
    destruct (String.eqb _ "") eqn:E; [|done]. apply String.eqb_eq in E.
    by rewrite drop_spaces_graph in E.
  - rewrite !sapp_cons. cbn [trim_right].
    destruct (String.eqb _ "") eqn:E; [|by rewrite IH]. apply String.eqb_eq in E.
    rewrite <- sapp_cons in E. by apply drop_spaces_ends_graph in E; [|done|simpl; lia].
Qed.

(** Trimming a line that starts with a graphic byte keeps everything up to any
    later graphic byte. *)
Lemma TrimSpace_keeps a s b r :
  graph_char a = true → graph_char b = true →
  TrimSpace (String a (s +:+ String b r)) = String a (s +:+ String b (trim_right r)).
Proof.
  intros Ha Hb. unfold TrimSpace. rewrite drop_spaces_graph by done.
  rewrite <- !sapp_cons. by apply trim_right_graph.
Qed.

(** [edged s]: the first and last bytes of [s] are graphic, so [s] is trimmed. *)
Definition edged (s : string) : Prop :=
  ∃ a b r, graph_char a = true ∧ graph_char b = true ∧
    (s = String a "" ∨ s = String a (r +:+ String b "")).

Lemma TrimSpace_edged s : edged s → TrimSpace s = s.
Proof.
  intros (a & b & r & Ha & Hb & [-> | ->]); unfold TrimSpace;
    rewrite drop_spaces_graph by done.
  - by apply (trim_right_graph "" a "").
  - rewrite <- sapp_cons. by apply (trim_right_graph _ b "").
Qed.

Lemma graphic_snoc s : graphic s = true → s ≠ "" →
  ∃ t b, s = t +:+ String b "" ∧ graph_char b = true.
Proof.
  induction s as [|a s IH]; intros Hs Hne; [done|].
  rewrite graphic_cons in Hs. apply andb_true_iff in Hs as [Ha Hs].
  destruct s as [|a' s].
  - by exists "", a.
  - destruct IH as (t & b & Ht & Hb); [done..|]. exists (String a t), b.
    by rewrite sapp_cons, <- Ht.
Qed.

(** A line that starts with a graphic byte and ends with a non-empty graphic
    word is already trimmed. *)
Lemma edged_words a r w :
  graph_char a = true → graphic w = true → w ≠ "" → edged (String a (r +:+ w)).
Proof.
  intros Ha Hw Hne. destruct (graphic_snoc w Hw Hne) as (t & b & -> & Hb).
  exists a, b, (r +:+ t). repeat split; [done..|]. right. by rewrite sapp_assoc.
Qed.

Lemma tokens_graphic t s :
  graphic t = true →
  tokens 0 (t +:+ s) = (let '(u, us) := tokens 0 s in (t +:+ u, us)).
Proof.
  induction t as [|a t IH]; intros Ht.
  - rewrite sapp_nil_l. by destruct (tokens 0 s).
  - rewrite graphic_cons in Ht. apply andb_true_iff in Ht as [Ha Ht].
    rewrite sapp_cons. cbn [tokens]. rewrite space_len_graph, (IH Ht) by done.
    by destruct (tokens 0 s).
Qed.

Lemma Fields_word t s :
  graphic t = true → t ≠ "" → Fields (t +:+ String " " s) = t :: Fields s.
Proof.
  intros Ht Hne. unfold Fields. rewrite tokens_graphic by done.
  change (tokens 0 (String " " s)) with
    (let '(u, us) := tokens 0 s in ("", nonempty u ++ us)).
  destruct (tokens 0 s) as [u us]. rewrite sapp_nil_r. unfold nonempty at 1.
  destruct (String.eqb t "") eqn:E; [by apply String.eqb_eq in E|done].
Qed.

Lemma Fields_last t : graphic t = true → t ≠ "" → Fields t = [t].
Proof.
  intros Ht Hne. unfold Fields.
  rewrite <- (sapp_nil_r t), tokens_graphic by done. simpl.
  rewrite !sapp_nil_r. unfold nonempty.
  destruct (String.eqb t "") eqn:E; [by apply String.eqb_eq in E|done].
Qed.

(** [words l]: non-empty graphic words, the shape of a rendered rule. *)
Definition is_word (t : string) : bool := graphic t && negb (String.eqb t "").

Lemma is_word_spec t : is_word t = true ↔ graphic t = true ∧ t ≠ "".
Proof. unfold is_word. by rewrite andb_true_iff, negb_true_iff, String.eqb_neq. Qed.

Lemma Fields_Join l :
  Forall (λ t, is_word t = true) l → Fields (Join l " ") = l.
Proof.
  induction l as [|t l IH]; [done|].
  intros [[Ht Hne]%is_word_spec Hl]%Forall_cons. destruct l as [|u l].
  - by apply Fields_last.
  - change (Join (t :: u :: l) " ") with (t +:+ String " " (Join (u :: l) " ")).
    by rewrite Fields_word, (IH Hl).
Qed.

(** ** Digit strings *)

Lemma Z_in_seqZ n m : (0 ≤ n < m)%Z → n ∈ seqZ 0 m.
Proof. intros ?. apply elem_of_seqZ. lia. Qed.

(** Check a boolean property on every integer below [m]. *)
Lemma forall_below (P : Z → bool) m :
  forallb P (seqZ 0 m) = true → ∀ n, (0 ≤ n < m)%Z → P n = true.
Proof.
  intros H n Hn. rewrite forallb_forall in H.
  apply H, list_elem_of_In, Z_in_seqZ, Hn.
Qed.

Definition digit_ok (n : Z) : bool :=
  match digit_val (digit_char n) with Some m => (m =? n)%Z | None => false end &&
  graph_char (digit_char n).

Lemma digit_char_props d :
  (0 ≤ d < 16)%Z →
  digit_val (digit_char d) = Some d ∧ graph_char (digit_char d) = true.
Proof.
  intros Hd. assert (digit_ok d = true) as H.
  { apply (forall_below digit_ok 16); [by vm_compute|done]. }
  unfold digit_ok in H. apply andb_true_iff in H as [H ?].
  destruct (digit_val _); [|done]. by apply Z.eqb_eq in H as ->.
Qed.

Lemma digit_in_char base d :
  (0 ≤ d < base)%Z → (base ≤ 16)%Z → digit_in base (digit_char d) = Some d.
Proof.
  intros Hd Hb. unfold digit_in. destruct (digit_char_props d) as [-> _]; [lia|].
  by destruct (Z.ltb_spec d base); [|lia].
Qed.

Lemma digits_fmt_go base fuel n acc :
  (2 ≤ base ≤ 16)%Z → (0 ≤ n < base ^ Z.of_nat fuel)%Z →
  ∃ k, (0 ≤ k)%Z ∧ ∀ a, digits_go base a (fmt_go base fuel n acc) =
                         digits_go base (a * base ^ k + n) acc.
Proof.
  intros Hb. revert n acc. induction fuel as [|f IH]; intros n acc Hn.
  - simpl in Hn. assert (n = 0)%Z as -> by lia. exists 0%Z. split; [lia|].
    intros a. simpl. f_equal. lia.
  - cbn [fmt_go]. rewrite Nat2Z.inj_succ, Z.pow_succ_r in Hn by lia.
    assert (0 ≤ n mod base < base)%Z as Hm by (apply Z.mod_pos_bound; lia).
    destruct (Z.ltb_spec n base) as [Hlt|Hge].
    + exists 1%Z. split; [lia|]. intros a. cbn [digits_go].
      rewrite digit_in_char by lia. f_equal.
      rewrite Z.mod_small by lia. lia.
    + destruct (IH (n / base)%Z (String (digit_char (n mod base)) acc)) as (k & Hk & Hd).
      { split; [apply Z.div_pos; lia|]. apply Z.div_lt_upper_bound; lia. }
      exists (k + 1)%Z. split; [lia|]. intros a. rewrite Hd. cbn [digits_go].
      rewrite digit_in_char by lia. f_equal.
      rewrite Z.pow_add_r, Z.pow_1_r by lia.
      pose proof (Z.div_mod n base ltac:(lia)). nia.
Qed.

Lemma FormatUint_fuel base n :
  (2 ≤ base)%Z → (0 ≤ n)%Z → (n < base ^ Z.of_nat (S (Z.to_nat (Z.log2 n))))%Z.
Proof.
  intros Hb Hn. pose proof (Z.log2_nonneg n).
  rewrite Nat2Z.inj_succ, Z2Nat.id by lia. destruct (Z.eq_dec n 0) as [->|Hne].
  - simpl. rewrite Z.pow_1_r. lia.
  - pose proof (Z.log2_spec n ltac:(lia)) as [_ Hl].
    eapply Z.lt_le_trans; [apply Hl|]. apply Z.pow_le_mono_l. lia.
Qed.

Lemma fmt_go_nonempty base fuel n acc : fmt_go base (S fuel) n acc ≠ "".
Proof.
  revert n acc. induction fuel as [|f IH]; intros n acc; cbn [fmt_go].
  - by destruct (n <? base)%Z.
  - destruct (n <? base)%Z; [done|]. apply IH.
Qed.

Lemma digits_FormatUint base n :
  (2 ≤ base ≤ 16)%Z → (0 ≤ n)%Z → digits base (FormatUint base n) = Some n.
Proof.
  intros Hb Hn. unfold digits, FormatUint.
  destruct (String.eqb _ "") eqn:E.
  { apply String.eqb_eq in E. by apply fmt_go_nonempty in E. }
  destruct (digits_fmt_go base (S (Z.to_nat (Z.log2 n))) n "" Hb) as (k & Hk & Hd).
  { split; [done|]. by apply FormatUint_fuel; [lia|]. }
  rewrite Hd. done.
Qed.

Definition digit_string (s : string) : bool :=
  s_forall (λ a, match digit_val a with Some _ => true | None => false end) s.

Lemma digit_string_fmt_go base fuel n acc :
  (2 ≤ base ≤ 16)%Z → digit_string acc = true →
  digit_string (fmt_go base fuel n acc) = true.
Proof.
  intros Hb. revert n acc. induction fuel as [|f IH]; intros n acc Hacc; [done|].
  cbn [fmt_go].
  assert (digit_string (String (digit_char (n mod base)) acc) = true) as Hs.
  { unfold digit_string. simpl.
    pose proof (Z.mod_pos_bound n base ltac:(lia)).
    destruct (digit_char_props (n mod base)) as [-> _]; [lia|]. done. }
  destruct (n <? base)%Z; [done|]. by apply IH.
Qed.

Lemma digit_string_FormatUint base n :
  (2 ≤ base ≤ 16)%Z → digit_string (FormatUint base n) = true.
Proof. intros. by apply digit_string_fmt_go. Qed.

Lemma digit_val_graph a d : digit_val a = Some d → graph_char a = true.
Proof.
  unfold digit_val, graph_char. intros H.
  apply andb_true_iff; rewrite !N.leb_le. repeat case_match; bools; simplify_eq; lia.
Qed.

Lemma digit_string_graphic s : digit_string s = true → graphic s = true.
Proof.
  apply s_forall_impl. intros a. destruct (digit_val a) eqn:E; [|done].
  intros _. by eapply digit_val_graph.
Qed.

Lemma Itoa_nonneg n : (0 ≤ n)%Z → Itoa n = FormatUint 10 n.
Proof. intros. unfold Itoa. by destruct (Z.ltb_spec n 0); [lia|]. Qed.

Lemma is_word_Itoa n : is_word (Itoa n) = true.
Proof.
  apply is_word_spec. unfold Itoa.
  assert (∀ m, graphic (FormatUint 10 m) = true) as Hg.
  { intros m. apply digit_string_graphic, digit_string_FormatUint. lia. }
  destruct (n <? 0)%Z; split; [|done|apply Hg|apply fmt_go_nonempty].
  rewrite graphic_cons. by rewrite Hg.
Qed.

Lemma digit_not_sign s : digit_string s = true → s ≠ "" →
  Atoi s = match digits 10 s with
           | Some z => if in_int64 z then Some z else None
           | None => None
           end.
Proof.
  destruct s as [|a s]; [done|]. intros Hd _. unfold Atoi.
  unfold digit_string in Hd. simpl in Hd. apply andb_true_iff in Hd as [Ha _].
  destruct (Ascii.eqb a "+") eqn:E; [by apply Ascii.eqb_eq in E as ->|].
  destruct (Ascii.eqb a "-") eqn:E'; [by apply Ascii.eqb_eq in E' as ->|]. done.
Qed.

(** [strconv.Atoi] reads back what [strconv.Itoa] prints. *)
Lemma Atoi_Itoa n : in_int64 n = true → Atoi (Itoa n) = Some n.
Proof.
  intros Hn. unfold Itoa. destruct (Z.ltb_spec n 0) as [Hlt|Hge].
  - unfold Atoi. cbn [Ascii.eqb]. simpl (Ascii.eqb "-" "+").
    simpl (Ascii.eqb "-" "-"). cbn iota.
    rewrite digits_FormatUint by lia. simpl. by rewrite Z.opp_involutive, Hn.
  - rewrite digit_not_sign, digits_FormatUint, Hn; [done|lia..| |].
    + apply digit_string_FormatUint. lia.
    + apply fmt_go_nonempty.
Qed.

#[export] Hint Resolve is_word_Itoa : go.

Example Itoa_ex : Itoa 65535 = "65535" ∧ Itoa (-7) = "-7" ∧ Itoa 0 = "0".
Proof. by vm_compute. Qed.

Example Fields_ex : Fields "  rdr on   en0 " = ["rdr"; "on"; "en0"].
Proof. by vm_compute. Qed.

Lemma digit_string_no_char c s :
  digit_val c = None → digit_string s = true → no_char c s = true.
Proof.
  intros Hc. apply s_forall_impl. intros a Ha. apply negb_true_iff, Ascii.eqb_neq. intros ->.
  by rewrite Hc in Ha.
Qed.

Lemma Itoa_no_char c n : digit_val c = None → c ≠ "-"%char → no_char c (Itoa n) = true.
Proof.
  intros Hc Hm. unfold Itoa.
  assert (∀ m, no_char c (FormatUint 10 m) = true) as Hd.
  { intros m. apply digit_string_no_char, digit_string_FormatUint; [done|lia]. }
  destruct (n <? 0)%Z; [|done]. rewrite no_char_cons, Hd.
  by destruct (Ascii.eqb_spec "-" c); [congruence|].
Qed.
