(* ===== verification/GoNet.v ===== *)
(** * The Go [net] and [net/netip] functions the program uses

    A [net.IP] is a byte slice of length 4 or 16, modelled by its width and
    the big-endian value of its bytes; a nil IP is [None].  [ParseAddr],
    [ParseIP], [ParseCIDR], [IP.To4], [IP.String], [IPNet.Contains] and
    [IPNet.String] follow the standard library's code case by case, including
    IPv6 with [::], embedded IPv4 and zones. *)

From S2P Require Import Prelude GoStrings.

Open Scope Z_scope.

Inductive width : Type := W4 | W16.

#[export] Instance width_eq_dec : EqDecision width.
Proof. solve_decision. Defined.

Definition bits (w : width) : Z := match w with W4 => 32 | W16 => 128 end.

Record IP := mkIP { ip_w : width; ip_v : Z }.

#[export] Instance IP_eq_dec : EqDecision IP.
Proof. solve_decision. Defined.

Definition ip_wf (ip : IP) : Prop := 0 ≤ ip_v ip < 2 ^ bits (ip_w ip).

(** The 12-byte prefix 00..00ffff of an IPv4-mapped address. *)
Definition v4mapped (v : Z) : bool := v / 2 ^ 32 =? 65535.

Definition To4 (ip : IP) : option IP :=
  match ip_w ip with
  | W4 => Some ip
  | W16 => if v4mapped (ip_v ip) then Some (mkIP W4 (ip_v ip mod 2 ^ 32)) else None
  end.

Definition To16 (ip : IP) : IP :=
  match ip_w ip with
  | W4 => mkIP W16 (65535 * 2 ^ 32 + ip_v ip)
  | W16 => ip
  end.

(** ** Parsing *)

(** A decimal octet: no empty field, no leading zero, at most 255. *)
Definition octet (s : string) : option Z :=
  match s with
  | String a r =>
      if Ascii.eqb a "0" && negb (String.eqb r "") then None
      else match digits 10 s with
           | Some n => if n <=? 255 then Some n else None
           | None => None
           end
  | EmptyString => None
  end.

Definition parseIPv4 (s : string) : option Z :=
  match split_on "." s with
  | [a; b; c; d] =>
      match octet a, octet b, octet c, octet d with
      | Some a, Some b, Some c, Some d => Some (((a * 256 + b) * 256 + c) * 256 + d)
      | _, _, _, _ => None
      end
  | _ => None
  end.

(** The longest prefix of hexadecimal digits, and the rest. *)
Fixpoint hex_run (s : string) : string * string :=
  match s with
  | EmptyString => ("", "")
  | String a r =>
      match digit_val a with
      | Some _ => let '(h, t) := hex_run r in (String a h, t)
      | None => ("", s)
      end
  end.

(** The field loop of [parseIPv6].  [gs] are the 16-bit fields read so far and
    [ell] the position of the ellipsis; at most eight fields are read, so a
    fuel of eight is the loop's own bound [i < 16]. *)
Fixpoint v6_loop (fuel : nat) (gs : list Z) (ell : option nat) (s : string)
    : option (list Z * option nat * string) :=
  match fuel with
  | O => Some (gs, ell, s)
  | S f =>
      let '(h, t) := hex_run s in
      if (4 <? String.length h)%nat then None else
      match digits 16 h with
      | None => None
      | Some acc =>
          match t with
          | EmptyString => Some (gs ++ [acc], ell, "")
          | String a t' =>
              if Ascii.eqb a "." then
                if bool_decide (ell = None) && negb (length gs =? 6)%nat then None
                else if (6 <? length gs)%nat then None
                else match parseIPv4 s with
                     | Some v => Some (gs ++ [v / 65536; v mod 65536], ell, "")
                     | None => None
                     end
              else if Ascii.eqb a ":" then
                match t' with
                | EmptyString => None
                | String b t'' =>
                    if Ascii.eqb b ":" then
                      match ell with
                      | Some _ => None
                      | None =>
                          if String.eqb t'' "" then Some (gs ++ [acc], Some (S (length gs)), "")
                          else v6_loop f (gs ++ [acc]) (Some (S (length gs))) t''
                      end
                    else v6_loop f (gs ++ [acc]) ell t'
                end
              else None
          end
      end
  end.

Definition groups_val (gs : list Z) : Z := foldl (λ acc g, acc * 65536 + g) 0 gs.

Definition v6_finish (r : list Z * option nat * string) : option Z :=
  let '(gs, ell, s) := r in
  if negb (String.eqb s "") then None
  else if (length gs <? 8)%nat then
    match ell with
    | None => None
    | Some e => Some (groups_val (list.take e gs ++ replicate (8 - length gs) 0 ++ list.drop e gs))
    end
  else match ell with Some _ => None | None => Some (groups_val gs) end.

Definition v6_body (s : string) : option Z :=
  match s with
  | String a (String b r) =>
      if Ascii.eqb a ":" && Ascii.eqb b ":" then
        if String.eqb r "" then Some 0
        else match v6_loop 8 [] (Some O) r with Some x => v6_finish x | None => None end
      else match v6_loop 8 [] None s with Some x => v6_finish x | None => None end
  | _ => match v6_loop 8 [] None s with Some x => v6_finish x | None => None end
  end.

Inductive Addr : Type := A4 (v : Z) | A6 (v : Z) (zone : string).

Definition parseIPv6 (s : string) : option Addr :=
  match cut_on "%" s with
  | None => option_map (λ v, A6 v "") (v6_body s)
  | Some (h, zone) =>
      if String.eqb zone "" then None else option_map (λ v, A6 v zone) (v6_body h)
  end.

(** The first of ['.'], [':'] and ['%'] decides the family. *)
Fixpoint addr_family (s : string) : option width :=
  match s with
  | EmptyString => None
  | String a r =>
      if Ascii.eqb a "." then Some W4
      else if Ascii.eqb a ":" then Some W16
      else if Ascii.eqb a "%" then None
      else addr_family r
  end.

Definition ParseAddr (s : string) : option Addr :=
  match addr_family s with
  | Some W4 => option_map A4 (parseIPv4 s)
  | Some W16 => parseIPv6 s
  | None => None
  end.

(** The 16-byte form, as [net.ParseIP] returns it. *)
Definition ParseIP (s : string) : option IP :=
  match ParseAddr s with
  | Some (A4 v) => Some (To16 (mkIP W4 v))
  | Some (A6 v zone) => if String.eqb zone "" then Some (mkIP W16 v) else None
  | None => None
  end.

(** ** Networks *)

(** [IPNet]: the address, and a mask of [net_ones] leading ones. *)
Record IPNet := mkNet { net_ip : IP; net_ones : Z; net_mw : width }.

Definition clear_low (v k : Z) : Z := Z.ldiff v (Z.ones k).

Definition ParseCIDR (s : string) : option (IP * IPNet) :=
  match cut_on "/" s with
  | None => None
  | Some (addr, mask) =>
      match ParseAddr addr, digits 10 mask with
      | Some (A4 v), Some n =>
          if n <=? 32
          then Some (To16 (mkIP W4 v), mkNet (mkIP W4 (clear_low v (32 - n))) n W4)
          else None
      | Some (A6 v zone), Some n =>
          if String.eqb zone "" && (n <=? 128)
          then Some (mkIP W16 v, mkNet (mkIP W16 (clear_low v (128 - n))) n W16)
          else None
      | _, _ => None
      end
  end.

(** [networkNumberAndMask]: the 4-byte form when there is one, and the number
    of leading ones of the mask at that width. *)
Definition net_number (n : IPNet) : IP * Z :=
  match To4 (net_ip n) with
  | Some ip => (ip, match net_mw n with W4 => net_ones n | W16 => Z.max 0 (net_ones n - 96) end)
  | None => (net_ip n, net_ones n)
  end.

Definition Net_Contains (n : IPNet) (ip : IP) : bool :=
  let '(nn, ones) := net_number n in
  let ip' := match To4 ip with Some x => x | None => ip end in
  bool_decide (ip_w ip' = ip_w nn) &&
  (clear_low (ip_v nn) (bits (ip_w nn) - ones) =? clear_low (ip_v ip') (bits (ip_w nn) - ones)).

(** ** Printing *)

Definition octets (v : Z) : list Z :=
  [v / 2 ^ 24; (v / 2 ^ 16) mod 256; (v / 2 ^ 8) mod 256; v mod 256].

Definition string4 (v : Z) : string := Join (Itoa <$> octets v) ".".

Definition groups_of (v : Z) : list Z :=
  (λ i, (v / 2 ^ (16 * i)) mod 65536) <$> [7; 6; 5; 4; 3; 2; 1; 0].

Fixpoint zero_run (gs : list Z) : nat :=
  match gs with
  | g :: gs' => if g =? 0 then S (zero_run gs') else O
  | [] => O
  end.

(** The first longest run of at least two zero fields, as (start, length). *)
Fixpoint best_run (i : nat) (gs : list Z) (best : option (nat * nat)) : option (nat * nat) :=
  match gs with
  | [] => best
  | _ :: gs' =>
      let l := zero_run gs in
      let cur := match best with Some (_, l') => l' | None => O end in
      best_run (S i) gs' (if (2 <=? l)%nat && (cur <? l)%nat then Some (i, l) else best)
  end.

Definition string6 (v : Z) : string :=
  let gs := groups_of v in
  let hex := FormatUint 16 <$> gs in
  match best_run 0 gs None with
  | Some (i, l) =>
      Join (list.take i hex) ":" +:+ "::" +:+ Join (list.drop (i + l) hex) ":"
  | None => Join hex ":"
  end.

Definition IP_String (ip : IP) : string :=
  match To4 ip with
  | Some x => string4 (ip_v x)
  | None => string6 (ip_v ip)
  end.

Definition Net_String (n : IPNet) : string :=
  let '(nn, ones) := net_number n in IP_String nn +:+ "/" +:+ Itoa ones.

(** [IP.Equal]: equal as 16-byte addresses. *)
Definition IP_Equal (a b : IP) : bool := bool_decide (To16 a = To16 b).

(** ** [net.SplitHostPort] *)

(** The parts before and after the last [c]. *)
Fixpoint cut_last (c : ascii) (s : string) : option (string * string) :=
  match s with
  | EmptyString => None
  | String a r =>
      match cut_last c r with
      | Some (h, t) => Some (String a h, t)
      | None => if Ascii.eqb a c then Some ("", r) else None
      end
  end.

Definition SplitHostPort (s : string) : option (string * string) :=
  match cut_last ":" s with
  | None => None
  | Some (h, port) =>
      if HasPrefix s "[" then
        match cut_on "]" s with
        | None => None
        | Some (pre, rest) =>
            if (String.length pre + 1 =? String.length h)%nat &&
               negb (ContainsByte "[" (drop 1 s)) && negb (ContainsByte "]" rest)
            then Some (drop 1 pre, port) else None
        end
      else if ContainsByte ":" h || ContainsByte "[" s || ContainsByte "]" s then None
      else Some (h, port)
  end.

Example SplitHostPort_ex :
  SplitHostPort "mac-2.local:51820" = Some ("mac-2.local", "51820") ∧
  SplitHostPort "[fd00::1]:51820" = Some ("fd00::1", "51820") ∧
  SplitHostPort "fd00::1:51820" = None ∧ SplitHostPort "[fd00::1]" = None ∧
  SplitHostPort "mac-2" = None ∧ SplitHostPort "[a]b:1" = None ∧ SplitHostPort ":1" = Some ("", "1").
Proof. by vm_compute. Qed.

Example ParseIP_ex1 : IP_String <$> ParseIP "10.244.1.7" = Some "10.244.1.7".
Proof. by vm_compute. Qed.
Example ParseIP_ex2 : ParseIP "10.244.01.7" = None ∧ ParseIP "1.2.3" = None ∧ ParseIP "" = None.
Proof. by vm_compute. Qed.
Example ParseIP_ex3 : IP_String <$> ParseIP "fd00:0:0:1::5" = Some "fd00:0:0:1::5".
Proof. by vm_compute. Qed.
Example ParseIP_ex4 :
  IP_String <$> ParseIP "0:0:0:0:0:ffff:1.2.3.4" = Some "1.2.3.4" ∧
  IP_String <$> ParseIP "::" = Some "::" ∧ ParseIP "1::2::3" = None ∧
  IP_String <$> ParseIP "1:0:0:2:0:0:0:3" = Some "1:0:0:2::3" ∧
  ParseIP "fe80::1%en0" = None ∧ IP_String <$> ParseIP "ABCD::" = Some "abcd::".
Proof. by vm_compute. Qed.
Example ParseCIDR_ex :
  (Net_String ∘ snd) <$> ParseCIDR "10.244.1.77/24" = Some "10.244.1.0/24" ∧
  (Net_String ∘ snd) <$> ParseCIDR "fd00::1/64" = Some "fd00::/64" ∧
  ParseCIDR "10.0.0.0/33" = None.
Proof. by vm_compute. Qed.

(** ** Masks *)

Lemma clear_low_eq v k : 0 ≤ k → clear_low v k = v / 2 ^ k * 2 ^ k.
Proof.
  intros Hk. unfold clear_low. rewrite Z.ldiff_ones_r by lia.
  by rewrite Z.shiftl_mul_pow2, Z.shiftr_div_pow2 by lia.
Qed.

Lemma clear_low_same a b k :
  0 ≤ k → clear_low a k = clear_low b k ↔ a / 2 ^ k = b / 2 ^ k.
Proof.
  intros Hk. rewrite !clear_low_eq by done.
  pose proof (Z.pow_pos_nonneg 2 k ltac:(lia) Hk). nia.
Qed.

Lemma clear_low_idem v k : 0 ≤ k → clear_low (clear_low v k) k = clear_low v k.
Proof.
  intros Hk. rewrite !clear_low_eq by done.
  rewrite Z.div_mul; [done|]. apply Z.pow_nonzero; lia.
Qed.

(** Adding a host part below [2^k] to a cleared address stays in the block. *)
Lemma clear_low_add v k o :
  0 ≤ k → 0 ≤ o < 2 ^ k → clear_low (clear_low v k + o) k = clear_low v k.
Proof.
  intros Hk Ho. rewrite !clear_low_eq by done.
  rewrite Z.add_comm, Z.div_add, (Z.div_small o) by lia. f_equal.
Qed.

Lemma clear_low_bounds v k n :
  0 ≤ k ≤ n → 0 ≤ v < 2 ^ n → 0 ≤ clear_low v k ∧ clear_low v k + 2 ^ k ≤ 2 ^ n.
Proof.
  intros Hk Hv. rewrite clear_low_eq by lia.
  assert (2 ^ n = 2 ^ (n - k) * 2 ^ k) as Hp.
  { rewrite <- Z.pow_add_r by lia. f_equal. lia. }
  assert (0 < 2 ^ k) by (apply Z.pow_pos_nonneg; lia).
  assert (0 ≤ v / 2 ^ k < 2 ^ (n - k)) as Hd.
  { split; [apply Z.div_pos; lia|]. apply Z.div_lt_upper_bound; lia. }
  nia.
Qed.

(** ** IPv4 text *)

Lemma digit_in_bounds base a d : digit_in base a = Some d → 0 ≤ d < base.
Proof.
  unfold digit_in, digit_val. intros H. repeat case_match; bools; simplify_eq; lia.
Qed.

(** A digit string of length [n] is below [base^n]. *)
Lemma digits_go_bounds base x s v :
  1 < base → 0 ≤ x → digits_go base x s = Some v →
  0 ≤ v < (x + 1) * base ^ Z.of_nat (String.length s).
Proof.
  intros Hb. revert x. induction s as [|a s IH]; intros x Hx; simpl digits_go.
  - intros; simplify_eq. simpl. lia.
  - destruct (digit_in base a) as [d|] eqn:E; [|done]. apply digit_in_bounds in E.
    intros H%IH; [|nia]. simpl String.length.
    rewrite Nat2Z.inj_succ, Z.pow_succ_r by lia.
    assert (0 < base ^ Z.of_nat (String.length s)) by (apply Z.pow_pos_nonneg; lia). nia.
Qed.

Lemma digits_bounds base s v :
  1 < base → digits base s = Some v → 0 ≤ v < base ^ Z.of_nat (String.length s).
Proof.
  intros Hb. unfold digits. case_match; [done|]. intros H0%digits_go_bounds; lia.
Qed.

Lemma octet_bounds s n : octet s = Some n → 0 ≤ n ≤ 255.
Proof.
  destruct s as [|a r]; [done|]. unfold octet.
  destruct (_ && _); [done|]. destruct (digits 10 (String a r)) as [m|] eqn:E; [|done].
  apply digits_bounds in E; [|lia]. destruct (Z.leb_spec m 255); naive_solver.
Qed.

Lemma parseIPv4_bounds s v : parseIPv4 s = Some v → 0 ≤ v < 2 ^ 32.
Proof.
  unfold parseIPv4. intros H. repeat case_match; simplify_eq.
  repeat match goal with H : octet _ = Some _ |- _ => apply octet_bounds in H end. lia.
Qed.

Definition octet_ok (n : Z) : bool :=
  match octet (Itoa n) with Some m => m =? n | None => false end &&
  no_char "." (Itoa n) && no_char ":" (Itoa n) && no_char "%" (Itoa n) &&
  no_char "/" (Itoa n).

Lemma octet_Itoa n : 0 ≤ n < 256 →
  octet (Itoa n) = Some n ∧ no_char "." (Itoa n) = true ∧
  no_char ":" (Itoa n) = true ∧ no_char "%" (Itoa n) = true ∧
  no_char "/" (Itoa n) = true.
Proof.
  intros Hn. assert (octet_ok n = true) as H.
  { apply (forall_below octet_ok 256); [by vm_compute|done]. }
  unfold octet_ok in H. bools. destruct (octet (Itoa n)) as [m|]; [|done].
  bools. by subst.
Qed.

Lemma octets_bounds v : 0 ≤ v < 2 ^ 32 → Forall (λ o, 0 ≤ o < 256) (octets v).
Proof.
  intros Hv. unfold octets. repeat constructor; try (apply Z.mod_pos_bound; lia).
  - apply Z.div_pos; lia.
  - apply Z.div_lt_upper_bound; lia.
Qed.

Lemma octets_val v a b c d :
  octets v = [a; b; c; d] → ((a * 256 + b) * 256 + c) * 256 + d = v.
Proof.
  unfold octets. intros; simplify_eq.
  change (2 ^ 24) with (2 ^ 16 * 2 ^ 8). change (2 ^ 16) with (2 ^ 8 * 2 ^ 8).
  rewrite <- !Z.div_div by lia. change (2 ^ 8) with 256.
  pose proof (Z.div_mod v 256). pose proof (Z.div_mod (v / 256) 256).
  pose proof (Z.div_mod (v / 256 / 256) 256). lia.
Qed.

Lemma addr_family_app s t :
  no_char "." s = true → no_char ":" s = true → no_char "%" s = true →
  addr_family (s +:+ t) = addr_family t.
Proof.
  induction s as [|a s IH]; [done|]. rewrite !no_char_cons.
  intros [H1 ?]%andb_true_iff [H2 ?]%andb_true_iff [H3 ?]%andb_true_iff.
  rewrite sapp_cons. simpl. apply negb_true_iff in H1 as ->, H2 as ->, H3 as ->. auto.
Qed.

(** The dotted form is read back. *)
Lemma ParseAddr_string4 v : 0 ≤ v < 2 ^ 32 → ParseAddr (string4 v) = Some (A4 v).
Proof.
  intros Hv. pose proof (octets_bounds v Hv) as Hb.
  pose proof (octets_val v) as Hval. unfold string4.
  destruct (octets v) as [|a [|b [|c [|d [|]]]]] eqn:E; try done.
  decompose_Forall.
  destruct (octet_Itoa a) as (Oa & Da & Ca & Pa & _); [done|].
  destruct (octet_Itoa b) as (Ob & Db & _); [done|].
  destruct (octet_Itoa c) as (Oc & Dc & _); [done|].
  destruct (octet_Itoa d) as (Od & Dd & _); [done|].
  simpl. unfold ParseAddr. rewrite addr_family_app by done. simpl.
  unfold parseIPv4. unfold String.app. simpl.
  fold (Itoa a +:+ "." +:+ Itoa b +:+ "." +:+ Itoa c +:+ "." +:+ Itoa d).
  rewrite (split_on_app "." (Itoa a)) by done.
  change ("" ++ ?x)%string with x.
  rewrite (split_on_app "." (Itoa b)) by done.
  rewrite (split_on_app "." (Itoa c)) by done.
  rewrite split_on_none by done. rewrite Oa, Ob, Oc, Od. simpl. f_equal. f_equal.
  by apply Hval.
Qed.

Lemma string4_inj v w : 0 ≤ v < 2 ^ 32 → 0 ≤ w < 2 ^ 32 → string4 v = string4 w → v = w.
Proof.
  intros Hv Hw E. pose proof (ParseAddr_string4 v Hv) as Pv.
  rewrite E, ParseAddr_string4 in Pv by done. by simplify_eq.
Qed.

Lemma To4_To16_W4 v : 0 ≤ v < 2 ^ 32 → To4 (To16 (mkIP W4 v)) = Some (mkIP W4 v).
Proof.
  intros Hv. unfold To4, To16, v4mapped. cbn [ip_w ip_v].
  rewrite Z.add_comm, Z.div_add, (Z.div_small v) by lia. rewrite Z.add_0_l, Z.eqb_refl.
  by rewrite Z.add_comm, Z.add_comm, Z.mod_add, Z.mod_small by lia.
Qed.

Lemma ParseIP_string4 v : 0 ≤ v < 2 ^ 32 → ParseIP (string4 v) = Some (To16 (mkIP W4 v)).
Proof. intros. unfold ParseIP. by rewrite ParseAddr_string4. Qed.

Lemma ParseIP_IP_String4 v :
  0 ≤ v < 2 ^ 32 → ParseIP (IP_String (mkIP W4 v)) = Some (To16 (mkIP W4 v)).
Proof. apply ParseIP_string4. Qed.

(** A digit run without its separators stays a word. *)
Lemma digits_go_string base acc s v : digits_go base acc s = Some v → digit_string s = true.
Proof.
  revert acc. induction s as [|a s IH]; intros acc; simpl; [done|].
  unfold digit_in. destruct (digit_val a) eqn:E; [|done]. case_match; [|done].
  intros Hd. unfold digit_string. simpl. rewrite E. by eapply IH.
Qed.

Lemma digits_string base s v : digits base s = Some v → digit_string s = true ∧ s ≠ "".
Proof.
  unfold digits. destruct (String.eqb s "") eqn:E; [done|]. intros H.
  split; [by eapply digits_go_string|]. by apply String.eqb_neq.
Qed.

(** The bytes of an address. *)
Definition addr_char (a : ascii) : bool :=
  bool_decide (is_Some (digit_val a)) || Ascii.eqb a "." || Ascii.eqb a ":".
Definition addr_text (s : string) : bool := s_forall addr_char s.

Lemma addr_text_cons a s : addr_text (String a s) = addr_char a && addr_text s.
Proof. done. Qed.

Lemma addr_text_app s t : addr_text (s +:+ t) = addr_text s && addr_text t.
Proof. apply s_forall_app. Qed.

Lemma addr_char_graph a : addr_char a = true → graph_char a = true.
Proof.
  unfold addr_char. rewrite !orb_true_iff, bool_decide_eq_true, !Ascii.eqb_eq.
  intros [[[d Hd]| ->]| ->]; [by eapply digit_val_graph|done..].
Qed.

Lemma digit_string_addr s : digit_string s = true → addr_text s = true.
Proof.
  apply s_forall_impl. intros a. unfold addr_char. by destruct (digit_val a).
Qed.

Lemma octet_addr s n : octet s = Some n → addr_text s = true.
Proof.
  destruct s as [|a r]; [done|]. unfold octet. case_match; [done|].
  destruct (digits 10 (String a r)) eqn:E; [|done]. intros _.
  apply digit_string_addr. by eapply digits_string.
Qed.

Lemma split_on_addr c s :
  addr_char c = true → Forall (λ t, addr_text t = true) (split_on c s) → addr_text s = true.
Proof.
  intros Hc. induction s as [|a s IH]; [done|]. simpl.
  destruct (Ascii.eqb a c) eqn:E.
  - apply Ascii.eqb_eq in E as ->. intros [_ Hs]%Forall_cons.
    rewrite addr_text_cons, Hc. by apply IH.
  - destruct (split_on c s) as [|t ts] eqn:Es; intros [Ht Hts]%Forall_cons;
      rewrite addr_text_cons in Ht; apply andb_true_iff in Ht as [Ha Ht];
      rewrite addr_text_cons, Ha; apply IH; by constructor.
Qed.

Lemma parseIPv4_addr s v : parseIPv4 s = Some v → addr_text s = true.
Proof.
  unfold parseIPv4. intros H. apply (split_on_addr "."); [done|].
  repeat case_match; simplify_eq.
  repeat constructor; by eapply octet_addr.
Qed.

Lemma hex_run_spec s h t : hex_run s = (h, t) → s = h +:+ t ∧ digit_string h = true.
Proof.
  revert h t. induction s as [|a s IH]; intros h t; simpl.
  - intros; by simplify_eq.
  - destruct (digit_val a) eqn:E; [|intros; by simplify_eq].
    destruct (hex_run s) as [h' t'] eqn:Es. intros; simplify_eq.
    destruct (IH h' t eq_refl) as [-> Hh]. split; [done|].
    unfold digit_string. simpl. by rewrite E.
Qed.

Lemma v6_loop_addr fuel gs ell s gs' ell' :
  v6_loop fuel gs ell s = Some (gs', ell', "") → addr_text s = true.
Proof.
  revert gs ell s. induction fuel as [|f IH]; intros gs ell s; cbn [v6_loop].
  - intros; by simplify_eq.
  - destruct (hex_run s) as [h t] eqn:Eh. apply hex_run_spec in Eh as [Es Hh].
    apply digit_string_addr in Hh. case_match; [done|].
    destruct (digits 16 h) as [acc|]; [|done].
    destruct t as [|a t']; [intros; subst; by rewrite sapp_nil_r|].
    destruct (Ascii.eqb a ".") eqn:Ea.
    { case_match; [done|]. case_match; [done|].
      destruct (parseIPv4 s) eqn:E4; [|done]. intros _. by eapply parseIPv4_addr. }
    destruct (Ascii.eqb a ":") eqn:Ea'; [|done]. apply Ascii.eqb_eq in Ea' as ->.
    destruct t' as [|b t'']; [done|]. intros Hr.
    assert (addr_text (String b t'') = true) as Ht.
    { destruct (Ascii.eqb b ":") eqn:Eb; [|by eapply IH].
      apply Ascii.eqb_eq in Eb as ->. destruct ell; [done|].
      rewrite addr_text_cons. destruct (String.eqb t'' "") eqn:Et.
      - by apply String.eqb_eq in Et as ->.
      - by rewrite (IH _ _ _ Hr). }
    rewrite Es, addr_text_app, addr_text_cons, Hh. by rewrite Ht.
Qed.

Lemma v6_body_addr s v : v6_body s = Some v → addr_text s = true ∧ s ≠ "".
Proof.
  assert (∀ ell t, (match v6_loop 8 [] ell t with
                    | Some x => v6_finish x | None => None end) = Some v →
                   addr_text t = true ∧ t ≠ "") as Hloop.
  { intros ell t. destruct (v6_loop 8 [] ell t) as [[[gs' ell'] r]|] eqn:E; [|done].
    intros H. split.
    - unfold v6_finish in H. destruct (String.eqb r "") eqn:Er; [|done].
      apply String.eqb_eq in Er as ->. by eapply v6_loop_addr.
    - intros ->. simpl in E. by repeat case_match. }
  unfold v6_body. destruct s as [|a [|b r]]; [by intros []%Hloop|by apply Hloop|].
  destruct (Ascii.eqb a ":" && Ascii.eqb b ":") eqn:E; [|by apply Hloop].
  apply andb_true_iff in E as [->%Ascii.eqb_eq ->%Ascii.eqb_eq].
  destruct (String.eqb r "") eqn:Er.
  - by apply String.eqb_eq in Er as ->.
  - intros [Hg _]%Hloop. by rewrite !addr_text_cons, Hg.
Qed.

Lemma ParseIP_addr s ip : ParseIP s = Some ip → addr_text s = true ∧ s ≠ "".
Proof.
  unfold ParseIP, ParseAddr. intros H.
  destruct (addr_family s) as [[]|] eqn:Ef; simpl in H.
  - destruct (parseIPv4 s) eqn:E; [|done]. split; [by eapply parseIPv4_addr|].
    by intros ->.
  - unfold parseIPv6 in H. destruct (cut_on "%" s) as [[h zone]|].
    + destruct (String.eqb zone "") eqn:Ez; [done|].
      destruct (v6_body h); simpl in H; [|done]. by rewrite Ez in H.
    + destruct (v6_body s) eqn:E; [|done]. by eapply v6_body_addr.
  - done.
Qed.

(** Every string [net.ParseIP] accepts is one non-empty word without any byte
    but digits, dots and colons. *)
Lemma ParseIP_word s ip : ParseIP s = Some ip → is_word s = true.
Proof.
  intros [Ha Hne]%ParseIP_addr. apply is_word_spec. split; [|done].
  revert Ha. apply s_forall_impl, addr_char_graph.
Qed.

Lemma ParseIP_no_char c s ip : ParseIP s = Some ip → addr_char c = false → no_char c s = true.
Proof.
  intros [Ha _]%ParseIP_addr Hc. revert Ha. apply s_forall_impl. intros a Ha.
  apply negb_true_iff, Ascii.eqb_neq. intros ->. congruence.
Qed.

(** ** Well-formed results *)

Definition fields_ok (gs : list Z) : Prop := Forall (λ g, 0 ≤ g < 65536) gs.

Lemma v6_loop_fields fuel gs ell s gs' ell' r :
  v6_loop fuel gs ell s = Some (gs', ell', r) →
  fields_ok gs → (length gs + fuel ≤ 8)%nat → fields_ok gs' ∧ (length gs' ≤ 8)%nat.
Proof.
  unfold fields_ok. revert gs ell s. induction fuel as [|f IH]; intros gs ell s.
  { cbn [v6_loop]. intros; simplify_eq. split; [done|lia]. }
  cbn [v6_loop]. destruct (hex_run s) as [h t] eqn:Eh.
  destruct (Nat.ltb_spec 4 (String.length h)) as [|Hlen]; [done|].
  destruct (digits 16 h) as [acc|] eqn:Ed; [|done].
  assert (0 ≤ acc < 65536) as Hacc.
  { apply digits_bounds in Ed; [|lia]. split; [lia|].
    eapply Z.lt_le_trans; [apply Ed|]. change 65536 with (16 ^ 4).
    apply Z.pow_le_mono_r; lia. }
  intros Hr Hgs Hle.
  assert (Forall (λ g, 0 ≤ g < 65536) (gs ++ [acc])) as Hsnoc.
  { apply Forall_app. split; [done|]. by apply Forall_singleton. }
  assert (length (gs ++ [acc]) + f ≤ 8)%nat as Hlen'.
  { rewrite length_app. simpl. lia. }
  destruct t as [|a t']; [simplify_eq; split; [done|lia]|].
  destruct (Ascii.eqb a ".").
  { case_match; [done|]. destruct (Nat.ltb_spec 6 (length gs)); [done|].
    destruct (parseIPv4 s) as [v|] eqn:E4; [|done]. simplify_eq.
    apply parseIPv4_bounds in E4. split.
    - pose proof (Z.mod_pos_bound v 65536). pose proof (Z.div_pos v 65536).
      pose proof (Z.div_lt_upper_bound v 65536 65536).
      rewrite Forall_app, Forall_cons, Forall_singleton. repeat split; auto with lia.
    - rewrite length_app. simpl. lia. }
  destruct (Ascii.eqb a ":"); [|done]. destruct t' as [|b t'']; [done|].
  destruct (Ascii.eqb b ":"); [|by eapply IH]. destruct ell; [done|].
  case_match; [simplify_eq; split; [done|lia]|]. by eapply IH.
Qed.

Lemma groups_val_bounds gs :
  fields_ok gs → 0 ≤ groups_val gs < 2 ^ (16 * Z.of_nat (length gs)).
Proof.
  assert (∀ x, 0 ≤ x → fields_ok gs →
    0 ≤ foldl (λ acc g, acc * 65536 + g) x gs < (x + 1) * 2 ^ (16 * Z.of_nat (length gs))) as H.
  { induction gs as [|g gs IH]; intros x Hx Hgs; [simpl; lia|].
    apply Forall_cons in Hgs as [Hg Hgs]. simpl foldl. simpl length.
    specialize (IH (x * 65536 + g) ltac:(lia) Hgs).
    replace (16 * Z.of_nat (S (length gs))) with (16 + 16 * Z.of_nat (length gs)) by lia.
    rewrite Z.pow_add_r by lia. change (2 ^ 16) with 65536.
    assert (0 < 2 ^ (16 * Z.of_nat (length gs))) by (apply Z.pow_pos_nonneg; lia). nia. }
  intros Hgs. unfold groups_val. specialize (H 0 ltac:(lia) Hgs). lia.
Qed.

Lemma v6_finish_bounds gs ell r v :
  v6_finish (gs, ell, r) = Some v → fields_ok gs → (length gs ≤ 8)%nat → 0 ≤ v < 2 ^ 128.
Proof.
  unfold v6_finish. intros H Hgs Hle. case_match; [done|].
  destruct (Nat.ltb_spec (length gs) 8) as [Hlt|Hge]; destruct ell as [e|]; simplify_eq.
  - match goal with |- 0 ≤ groups_val ?l < _ => pose proof (groups_val_bounds l) as Hb end.
    rewrite !length_app, length_take, length_drop, length_replicate in Hb.
    replace (16 * Z.of_nat _) with 128 in Hb by lia. apply Hb.
    unfold fields_ok in *. rewrite !Forall_app. split; [by apply Forall_take|].
    split; [apply Forall_replicate; lia|by apply Forall_drop].
  - pose proof (groups_val_bounds gs Hgs) as Hb.
    by replace (16 * Z.of_nat (length gs)) with 128 in Hb by lia.
Qed.

Lemma v6_body_bounds s v : v6_body s = Some v → 0 ≤ v < 2 ^ 128.
Proof.
  assert (∀ ell t, (match v6_loop 8 [] ell t with
                    | Some x => v6_finish x | None => None end) = Some v →
                   0 ≤ v < 2 ^ 128) as Hloop.
  { intros ell t. destruct (v6_loop 8 [] ell t) as [[[gs' ell'] r]|] eqn:E; [|done].
    apply v6_loop_fields in E as [??]; [|by constructor|simpl; lia].
    intros Hf. by eapply v6_finish_bounds. }
  unfold v6_body. destruct s as [|a [|b r]]; [apply Hloop..|].
  destruct (_ && _); [|apply Hloop]. destruct (String.eqb r ""); [|apply Hloop].
  intros; simplify_eq. lia.
Qed.

Definition addr_wf (a : Addr) : Prop :=
  match a with A4 v => 0 ≤ v < 2 ^ 32 | A6 v _ => 0 ≤ v < 2 ^ 128 end.

Lemma ParseAddr_wf s a : ParseAddr s = Some a → addr_wf a.
Proof.
  unfold ParseAddr, parseIPv6. intros H.
  repeat (case_match; simplify_eq/=);
    try match goal with H : option_map _ ?o = Some _ |- _ => destruct o eqn:?; simplify_eq/= end;
    eauto using parseIPv4_bounds, v6_body_bounds.
Qed.

Lemma ParseIP_wf s ip : ParseIP s = Some ip → ip_wf ip ∧ ip_w ip = W16.
Proof.
  unfold ParseIP. destruct (ParseAddr s) as [[v|v z]|] eqn:E; [| |done];
    apply ParseAddr_wf in E; simpl in E; intros; repeat case_match; simplify_eq;
    unfold ip_wf; simpl; split; lia || done.
Qed.

(** What a successful [ParseCIDR] returns, by family. *)
Lemma ParseCIDR_inv s ip n :
  ParseCIDR s = Some (ip, n) →
  ∃ w v, 0 ≤ v < 2 ^ bits w ∧ 0 ≤ net_ones n ≤ bits w ∧ net_mw n = w ∧
    ip = To16 (mkIP w v) ∧ net_ip n = mkIP w (clear_low v (bits w - net_ones n)).
Proof.
  unfold ParseCIDR. destruct (cut_on "/" s) as [[addr mask]|]; [|done].
  destruct (ParseAddr addr) as [a|] eqn:Ea; [|done]. apply ParseAddr_wf in Ea.
  destruct (digits 10 mask) as [k|] eqn:Ed; [|by destruct a].
  apply digits_bounds in Ed; [|lia]. destruct a as [v|v z]; simpl in Ea.
  - destruct (Z.leb_spec k 32); [|done]. intros; simplify_eq/=. exists W4, v. simpl. auto with lia.
  - destruct (String.eqb z ""); [|done]. destruct (Z.leb_spec k 128); [|done].
    intros; simplify_eq/=. exists W16, v. simpl. auto with lia.
Qed.

(** The text of a CIDR: an address, a slash and digits. *)
Lemma ParseCIDR_text s r : ParseCIDR s = Some r →
  ∃ a m, s = a +:+ String "/" m ∧ addr_text a = true ∧ a ≠ "" ∧ digit_string m = true ∧ m ≠ "".
Proof.
  unfold ParseCIDR. destruct (cut_on "/" s) as [[addr mask]|] eqn:Ec; [|done].
  apply cut_on_spec in Ec as [-> _]. intros Hr. exists addr, mask.
  destruct (ParseAddr addr) as [a|] eqn:Ea; [|done].
  destruct (digits 10 mask) as [d|] eqn:Ed; [|by destruct a].
  apply digits_string in Ed as [? ?].
  assert (is_Some (ParseIP addr)) as [ip Hip].
  { unfold ParseIP. rewrite Ea. destruct a as [v|v z]; [by eexists|].
    destruct (String.eqb z ""); [by eexists|done]. }
  apply ParseIP_addr in Hip as [? ?]. done.
Qed.

Lemma ParseCIDR_word s r : ParseCIDR s = Some r → is_word s = true.
Proof.
  intros (a & m & -> & Ha & Hne & Hm & _)%ParseCIDR_text. apply is_word_spec. split.
  - rewrite graphic_app, graphic_cons. apply andb_true_iff. split.
    + revert Ha. apply s_forall_impl, addr_char_graph.
    + by rewrite digit_string_graphic.
  - intros [? ?]%sapp_eq_nil. done.
Qed.

Lemma ParseCIDR_no_char c s r :
  ParseCIDR s = Some r → addr_char c = false → c ≠ "/"%char → no_char c s = true.
Proof.
  intros (a & m & -> & Ha & _ & Hm & _)%ParseCIDR_text Hc Hs.
  rewrite no_char_app, no_char_cons. apply andb_true_iff. split; [|apply andb_true_iff; split].
  - revert Ha. apply s_forall_impl. intros x Hx. apply negb_true_iff, Ascii.eqb_neq. congruence.
  - apply negb_true_iff, Ascii.eqb_neq. congruence.
  - apply digit_string_addr in Hm. revert Hm. apply s_forall_impl.
    intros x Hx. apply negb_true_iff, Ascii.eqb_neq. congruence.
Qed.

(** An IPv4 network is read back from its printed form. *)
Lemma ParseCIDR_Net_String s ip n :
  ParseCIDR s = Some (ip, n) → net_mw n = W4 →
  ∃ ip', ParseCIDR (Net_String n) = Some (ip', n).
Proof.
  intros (w & v & Hv & Ho & Hw & -> & Hn)%ParseCIDR_inv Hm. rewrite Hm in Hw. subst w.
  cbn [bits] in *. destruct n as [nip ones mw]. cbn in *. subst.
  pose proof (clear_low_bounds v (32 - ones) 32) as Hb.
  set (u := clear_low v (32 - ones)) in *. assert (0 ≤ u < 2 ^ 32) as Hu.
  { assert (0 < 2 ^ (32 - ones)) by (apply Z.pow_pos_nonneg; lia). lia. }
  exists (To16 (mkIP W4 u)).
  change (Net_String (mkNet (mkIP W4 u) ones W4)) with (string4 u +:+ String "/" (Itoa ones)).
  unfold ParseCIDR.
  rewrite cut_on_app.
  - rewrite ParseAddr_string4 by done. rewrite Itoa_nonneg, digits_FormatUint by lia.
    destruct (Z.leb_spec ones 32); [|lia]. subst u. by rewrite clear_low_idem by lia.
  - by apply (ParseIP_no_char _ _ _ (ParseIP_string4 u Hu)).
Qed.
