(* ===== verification/GoJson.v ===== *)
(** * JSON: the part of [encoding/json] the program uses

    [Unmarshal] checks that the input is one JSON value and decodes it into a
    Go value.  Decoding is a function of the previous value ([Decoder]), as in
    Go: absent fields keep what they had, a field is matched by its exact name
    or else case-insensitively, unknown fields are skipped, [null] leaves a
    non-pointer alone, and any value of the wrong type is an error.  The
    callers discard the value when there is an error, so a failure is [None]. *)

From S2P Require Import Prelude GoStrings.

Open Scope Z_scope.

(** A string keeps its text between the quotes (for custom unmarshalers) and
    its decoded bytes; a number keeps its literal. *)
#[warnings="-register-all"]
Inductive json : Type :=
  | JNull
  | JBool (b : bool)
  | JNum (lit : string)
  | JStr (raw s : string)
  | JArr (l : list json)
  | JObj (l : list (string * json)).

(** ** Text *)

Definition byte (n : Z) : ascii := ch (Z.to_N n).
Definition code (a : ascii) : Z := Z.of_N (c2n a).
Definition quote : ascii := byte 34.
Definition backslash : ascii := byte 92.

Definition json_space (a : ascii) : bool :=
  let n := code a in (n =? 32) || (n =? 9) || (n =? 10) || (n =? 13).

Fixpoint skip_ws (s : string) : string :=
  match s with
  | String a r => if json_space a then skip_ws r else s
  | EmptyString => ""
  end.

Definition between (lo hi n : Z) : bool := (lo <=? n) && (n <=? hi).
Definition cont (a : ascii) : bool := between 128 191 (code a).

(** The length of the valid UTF-8 encoding at the head of [s], 0 if there is
    none ([utf8.DecodeRune]). *)
Definition rune_len (s : string) : nat :=
  match s with
  | EmptyString => 0
  | String a r =>
      let n := code a in
      if n <? 128 then 1%nat
      else match r with
      | String b r2 =>
          if between 194 223 n then if cont b then 2%nat else 0%nat
          else match r2 with
          | String c r3 =>
              if between 224 239 n then
                let lo := if n =? 224 then 160 else 128 in
                let hi := if n =? 237 then 159 else 191 in
                if between lo hi (code b) && cont c then 3%nat else 0%nat
              else match r3 with
              | String d _ =>
                  if between 240 244 n then
                    let lo := if n =? 240 then 144 else 128 in
                    let hi := if n =? 244 then 143 else 191 in
                    if between lo hi (code b) && cont c && cont d then 4%nat else 0%nat
                  else 0%nat
              | EmptyString => 0%nat
              end
          | EmptyString => 0%nat
          end
      | EmptyString => 0%nat
      end
  end.

(** [utf8.AppendRune] *)
Definition encode_rune (r : Z) : string :=
  if r <? 128 then String (byte r) ""
  else if r <? 2048 then String (byte (192 + r / 64)) (String (byte (128 + r mod 64)) "")
  else if r <? 65536 then
    String (byte (224 + r / 4096)) (String (byte (128 + (r / 64) mod 64)) (String (byte (128 + r mod 64)) ""))
  else
    String (byte (240 + r / 262144)) (String (byte (128 + (r / 4096) mod 64))
      (String (byte (128 + (r / 64) mod 64)) (String (byte (128 + r mod 64)) ""))).

Definition RuneError : Z := 65533.

(** Four hexadecimal digits, upper or lower case. *)
Definition hex_digit (a : ascii) : option Z := digit_in 16 (lower_char a).

Definition getu4 (s : string) : option (Z * string) :=
  match s with
  | String a (String b (String c (String d r))) =>
      match hex_digit a, hex_digit b, hex_digit c, hex_digit d with
      | Some x, Some y, Some z, Some t => Some (((x * 16 + y) * 16 + z) * 16 + t, r)
      | _, _, _, _ => None
      end
  | _ => None
  end.

Definition simple_escape (a : ascii) : option Z :=
  let n := code a in
  if (n =? 34) || (n =? 92) || (n =? 47) then Some n
  else if n =? 98 then Some 8 else if n =? 102 then Some 12 else if n =? 110 then Some 10
  else if n =? 114 then Some 13 else if n =? 116 then Some 9 else None.

(** The rune of a [\u] escape, looking ahead for the second half of a surrogate
    pair; a half on its own is the replacement character. *)
Definition u_rune (r : Z) (rest : string) : Z * string :=
  if between 55296 57343 r then
    match rest with
    | String a (String b s) =>
        match (if Ascii.eqb a backslash && Ascii.eqb b "u" then getu4 s else None) with
        | Some (r2, s') =>
            if between 55296 56319 r && between 56320 57343 r2
            then (65536 + (r - 55296) * 1024 + (r2 - 56320), s') else (RuneError, rest)
        | None => (RuneError, rest)
        end
    | _ => (RuneError, rest)
    end
  else (r, rest).

(** The text after the opening quote: the decoded string and what follows the
    closing quote.  [raw] is found from the lengths. *)
Fixpoint string_body (n : nat) (s : string) : option (string * string) :=
  match n with
  | O => None
  | S m =>
      match s with
      | EmptyString => None
      | String a r =>
          if Ascii.eqb a quote then Some ("", r)
          else if code a <? 32 then None
          else if Ascii.eqb a backslash then
            match r with
            | EmptyString => None
            | String b r2 =>
                if Ascii.eqb b "u" then
                  match getu4 r2 with
                  | None => None
                  | Some (u, r3) =>
                      let '(rune, r4) := u_rune u r3 in
                      match string_body m r4 with
                      | Some (t, rest) => Some (encode_rune rune +:+ t, rest)
                      | None => None
                      end
                  end
                else
                  match simple_escape b with
                  | None => None
                  | Some x =>
                      match string_body m r2 with
                      | Some (t, rest) => Some (String (byte x) t, rest)
                      | None => None
                      end
                  end
            end
          else
            let len := rune_len s in
            let '(piece, r2) := match len with O => (encode_rune RuneError, r) | _ => (take len s, drop len s) end in
            match string_body m r2 with
            | Some (t, rest) => Some (piece +:+ t, rest)
            | None => None
            end
      end
  end.

Definition string_lit (s : string) : option (json * string) :=
  match string_body (S (String.length s)) s with
  | Some (t, rest) => Some (JStr (take (String.length s - String.length rest - 1) s) t, rest)
  | None => None
  end.

(** ** Numbers *)

Definition is_digit (a : ascii) : bool := between 48 57 (code a).

Fixpoint span_digits (s : string) : string * string :=
  match s with
  | String a r => if is_digit a then let '(d, t) := span_digits r in (String a d, t) else ("", s)
  | EmptyString => ("", "")
  end.

(** Digits, at least one. *)
Definition digits1 (s : string) : option (string * string) :=
  let '(d, r) := span_digits s in if String.eqb d "" then None else Some (d, r).

Definition int_part (s : string) : option (string * string) :=
  match s with
  | String a r => if Ascii.eqb a "0" then Some ("0", r) else digits1 s
  | EmptyString => None
  end.

Definition frac_part (s : string) : option (string * string) :=
  match s with
  | String a r =>
      if Ascii.eqb a "." then
        match digits1 r with Some (d, t) => Some (String a d, t) | None => None end
      else Some ("", s)
  | EmptyString => Some ("", "")
  end.

Definition exp_part (s : string) : option (string * string) :=
  match s with
  | String a r =>
      if Ascii.eqb a "e" || Ascii.eqb a "E" then
        let '(sign, r2) :=
          match r with
          | String b t => if Ascii.eqb b "+" || Ascii.eqb b "-" then (String b "", t) else ("", r)
          | EmptyString => ("", "")
          end in
        match digits1 r2 with Some (d, t) => Some (String a (sign +:+ d), t) | None => None end
      else Some ("", s)
  | EmptyString => Some ("", "")
  end.

Definition number (s : string) : option (json * string) :=
  let '(minus, r0) :=
    match s with String a r => if Ascii.eqb a "-" then ("-", r) else ("", s) | EmptyString => ("", "") end in
  match int_part r0 with
  | None => None
  | Some (i, r1) =>
      match frac_part r1 with
      | None => None
      | Some (f, r2) =>
          match exp_part r2 with
          | None => None
          | Some (e, r3) => Some (JNum (minus +:+ i +:+ f +:+ e), r3)
          end
      end
  end.

(** ** Values

    [n] bounds the recursion (each call is at most two steps from consuming a
    byte); [d] is the nesting depth still allowed. *)

Definition eat (c : ascii) (s : string) : option string :=
  match skip_ws s with String a r => if Ascii.eqb a c then Some r else None | EmptyString => None end.

Definition scalar (s : string) : option (json * string) :=
  match s with
  | String a r =>
      if Ascii.eqb a quote then string_lit r
      else if HasPrefix s "null" then Some (JNull, drop 4 s)
      else if HasPrefix s "true" then Some (JBool true, drop 4 s)
      else if HasPrefix s "false" then Some (JBool false, drop 5 s)
      else number s
  | EmptyString => None
  end.

Fixpoint value (n : nat) (d : Z) (s0 : string) {struct n} : option (json * string) :=
  match n with
  | O => None
  | S m =>
      let s := skip_ws s0 in
      match eat "[" s with
      | Some r =>
          if d <=? 0 then None
          else match eat "]" r with
          | Some r' => Some (JArr [], r')
          | None => match elems m (d - 1) r with Some (l, r') => Some (JArr l, r') | None => None end
          end
      | None =>
          match eat "{" s with
          | Some r =>
              if d <=? 0 then None
              else match eat "}" r with
              | Some r' => Some (JObj [], r')
              | None => match members m (d - 1) r with Some (l, r') => Some (JObj l, r') | None => None end
              end
          | None => scalar s
          end
      end
  end
with elems (n : nat) (d : Z) (s : string) {struct n} : option (list json * string) :=
  match n with
  | O => None
  | S m =>
      match value m d s with
      | None => None
      | Some (v, r) =>
          match eat "," r with
          | Some r1 => match elems m d r1 with Some (l, r') => Some (v :: l, r') | None => None end
          | None => match eat "]" r with Some r' => Some ([v], r') | None => None end
          end
      end
  end
with members (n : nat) (d : Z) (s : string) {struct n} : option (list (string * json) * string) :=
  match n with
  | O => None
  | S m =>
      match eat quote s with
      | None => None
      | Some r0 =>
          match string_lit r0 with
          | Some (JStr _ key, r1) =>
              match eat ":" r1 with
              | None => None
              | Some r2 =>
                  match value m d r2 with
                  | None => None
                  | Some (v, r) =>
                      match eat "," r with
                      | Some r3 =>
                          match members m d r3 with Some (l, r') => Some ((key, v) :: l, r') | None => None end
                      | None => match eat "}" r with Some r' => Some ([(key, v)], r') | None => None end
                      end
                  end
              end
          | _ => None
          end
      end
  end.

Definition maxNestingDepth : Z := 10000.

(** [json.checkValid] and the value it accepted. *)
Definition Parse (s : string) : option json :=
  match value (2 * S (String.length s)) maxNestingDepth s with
  | Some (j, r) => if String.eqb (skip_ws r) "" then Some j else None
  | None => None
  end.

(** ** Decoding *)

Definition Decoder (A : Type) : Type := A → json → option A.

(** [strconv.ParseUint(s, 10, 64)] *)
Definition ParseUint (s : string) : option Z :=
  if s_forall is_digit s then
    match digits 10 s with Some n => if n <? 2 ^ 64 then Some n else None | None => None end
  else None.

Definition dec_string : Decoder string := λ old j,
  match j with JNull => Some old | JStr _ s => Some s | _ => None end.

Definition dec_int : Decoder Z := λ old j,
  match j with JNull => Some old | JNum lit => Atoi lit | _ => None end.

Definition dec_uint64 : Decoder Z := λ old j,
  match j with JNull => Some old | JNum lit => ParseUint lit | _ => None end.

Definition dec_ptr {A} (zero : A) (d : Decoder A) : Decoder (option A) := λ old j,
  match j with
  | JNull => Some None
  | _ => match d (default zero old) j with Some x => Some (Some x) | None => None end
  end.

(** The elements of an array are decoded in place over those the slice had. *)
Fixpoint dec_elems {A} (zero : A) (d : Decoder A) (old : list A) (l : list json) : option (list A) :=
  match l with
  | [] => Some []
  | j :: l' =>
      match d (match old with x :: _ => x | [] => zero end) j with
      | None => None
      | Some x => match dec_elems zero d (tail old) l' with Some r => Some (x :: r) | None => None end
      end
  end.

Definition dec_slice {A} (zero : A) (d : Decoder A) : Decoder (list A) := λ old j,
  match j with JNull => Some [] | JArr l => dec_elems zero d old l | _ => None end.

(** Each value of a map is decoded from zero. *)
Fixpoint dec_entries {A} (zero : A) (d : Decoder A) (m : gmap string A) (l : list (string * json))
    : option (gmap string A) :=
  match l with
  | [] => Some m
  | (k, j) :: l' =>
      match d zero j with Some x => dec_entries zero d (<[k := x]> m) l' | None => None end
  end.

Definition dec_map {A} (zero : A) (d : Decoder A) : Decoder (gmap string A) := λ old j,
  match j with JNull => Some ∅ | JObj l => dec_entries zero d old l | _ => None end.

(** Case folding of field names: ASCII letters, and the two non-ASCII runes that
    fold to one (U+017F to s, U+212A to k). *)
Fixpoint fold_name (n : nat) (s : string) : string :=
  match n, s with
  | S m, String a r =>
      if HasPrefix s (encode_rune 383) then String "s" (fold_name m (drop 2 s))
      else if HasPrefix s (encode_rune 8490) then String "k" (fold_name m (drop 3 s))
      else String (lower_char a) (fold_name m r)
  | _, _ => ""
  end.

Definition foldName (s : string) : string := fold_name (String.length s) s.

Definition Field (A : Type) : Type := string * Decoder A.

Definition find_field {A} (fields : list (Field A)) (key : string) : option (Decoder A) :=
  match List.find (λ f, String.eqb f.1 key) fields with
  | Some f => Some f.2
  | None =>
      match List.find (λ f, String.eqb (foldName f.1) (foldName key)) fields with
      | Some f => Some f.2
      | None => None
      end
  end.

Fixpoint dec_members {A} (fields : list (Field A)) (old : A) (l : list (string * json)) : option A :=
  match l with
  | [] => Some old
  | (k, j) :: l' =>
      match find_field fields k with
      | None => dec_members fields old l'
      | Some d => match d old j with Some x => dec_members fields x l' | None => None end
      end
  end.

Definition dec_struct {A} (fields : list (Field A)) : Decoder A := λ old j,
  match j with JNull => Some old | JObj l => dec_members fields old l | _ => None end.

(** A field of a struct, from its getter and setter. *)
Definition field {A B} (name : string) (get : A → B) (set : A → B → A) (d : Decoder B) : Field A :=
  (name, λ old j, match d (get old) j with Some x => Some (set old x) | None => None end).

(** [json.Unmarshal(data, &v)] for a [v] that starts at [zero]. *)
Definition Unmarshal {A} (zero : A) (d : Decoder A) (data : string) : option A :=
  match Parse data with Some j => d zero j | None => None end.

(** ** The recursion bound is enough

    Whatever some bound accepts, the bound of [Parse] accepts with the same
    result: running out of it never turns a document into an error. *)

Local Abbreviation slen := String.length.

Lemma skip_ws_length s : (slen (skip_ws s) ≤ slen s)%nat.
Proof. induction s as [|a s IH]; simpl; [done|]. destruct (json_space a); simpl; lia. Qed.

Lemma eat_length c s r : eat c s = Some r → (slen r < slen s)%nat.
Proof.
  unfold eat. pose proof (skip_ws_length s) as H. destruct (skip_ws s) as [|a t]; [done|].
  destruct (Ascii.eqb a c); [|done]. intros [= <-]. simpl in H. lia.
Qed.

Lemma drop_length n s : (slen (drop n s) ≤ slen s)%nat.
Proof. revert s. induction n as [|n IH]; intros [|a s]; simpl; try done. specialize (IH s). lia. Qed.

Lemma drop_S_length n a s : (slen (drop (S n) (String a s)) < slen (String a s))%nat.
Proof. pose proof (drop_length n s). simpl. lia. Qed.

Lemma getu4_length s u r : getu4 s = Some (u, r) → (slen r < slen s)%nat.
Proof.
  unfold getu4. destruct s as [|a [|b [|c [|d s]]]]; try done.
  destruct (hex_digit a), (hex_digit b), (hex_digit c), (hex_digit d); intros; simplify_eq. simpl. lia.
Qed.

Lemma u_rune_length u s r t : u_rune u s = (r, t) → (slen t ≤ slen s)%nat.
Proof.
  unfold u_rune. destruct (between _ _ u); [|by intros; simplify_eq].
  destruct s as [|a [|b s]]; [by intros; simplify_eq..|].
  destruct (if (_ : bool) then getu4 s else None) as [[r2 s']|] eqn:E; [|by intros; simplify_eq].
  destruct (_ && Ascii.eqb b "u"); [|done]. apply getu4_length in E.
  destruct (between _ _ u && _); intros; simplify_eq; simpl; lia.
Qed.

Lemma string_body_length n s t r : string_body n s = Some (t, r) → (slen r < slen s)%nat.
Proof.
  revert s t r. induction n as [|n IH]; intros s t r; [done|]. destruct s as [|a s]; [done|]. cbn [string_body].
  destruct (Ascii.eqb a quote); [intros; simplify_eq; simpl; lia|].
  destruct (code a <? 32); [done|]. destruct (Ascii.eqb a backslash).
  - destruct s as [|b s]; [done|]. destruct (Ascii.eqb b "u").
    + destruct (getu4 s) as [[u r3]|] eqn:Eu; [|done]. apply getu4_length in Eu.
      destruct (u_rune u r3) as [x r4] eqn:Er. apply u_rune_length in Er.
      destruct (string_body n r4) as [[t' rest]|] eqn:Es; [|done]. apply IH in Es.
      intros; simplify_eq. simpl. lia.
    + destruct (simple_escape b); [|done]. destruct (string_body n s) as [[t' rest]|] eqn:Es; [|done].
      apply IH in Es. intros; simplify_eq. simpl. lia.
  - destruct (rune_len (String a s)) as [|k].
    + destruct (string_body n s) as [[t' rest]|] eqn:Es; [|done]. apply IH in Es. intros; simplify_eq. simpl. lia.
    + destruct (string_body n (drop (S k) (String a s))) as [[t' rest]|] eqn:Es; [|done]. apply IH in Es.
      intros; simplify_eq. simpl in *. pose proof (drop_length k s). lia.
Qed.

Lemma string_lit_length s j r : string_lit s = Some (j, r) → (slen r < slen s)%nat.
Proof.
  unfold string_lit. destruct (string_body _ s) as [[t rest]|] eqn:E; [|done].
  apply string_body_length in E. intros; by simplify_eq.
Qed.

Lemma span_digits_length s d r : span_digits s = (d, r) → (slen d + slen r = slen s)%nat.
Proof.
  revert d r. induction s as [|a s IH]; intros d r; simpl; [by intros; simplify_eq|].
  destruct (is_digit a); [|by intros; simplify_eq]. destruct (span_digits s) as [d' t]. specialize (IH _ _ eq_refl).
  intros; simplify_eq. simpl. lia.
Qed.

Lemma digits1_length s d r : digits1 s = Some (d, r) → (slen r < slen s)%nat.
Proof.
  unfold digits1. destruct (span_digits s) as [d' r'] eqn:E. apply span_digits_length in E.
  destruct d'; [done|]. intros [= <- <-]. simpl in E. lia.
Qed.

Lemma number_length s j r : number s = Some (j, r) → (slen r < slen s)%nat.
Proof.
  unfold number.
  assert (∀ s1 i r1, int_part s1 = Some (i, r1) → (slen r1 < slen s1)%nat) as Hi.
  { intros [|a s1] i r1; simpl; [done|]. destruct (Ascii.eqb a "0"); [intros; simplify_eq; simpl; lia|].
    apply (digits1_length (String a s1)). }
  assert (∀ s1 f r1, frac_part s1 = Some (f, r1) → (slen r1 ≤ slen s1)%nat) as Hf.
  { intros [|a s1] f r1; simpl; [by intros; simplify_eq|]. destruct (Ascii.eqb a "."); [|by intros; simplify_eq].
    destruct (digits1 s1) as [[d t]|] eqn:E; [|done]. apply digits1_length in E. intros; simplify_eq. simpl. lia. }
  assert (∀ s1 e r1, exp_part s1 = Some (e, r1) → (slen r1 ≤ slen s1)%nat) as He.
  { intros [|a s1] e r1; simpl; [by intros; simplify_eq|]. destruct (_ || _); [|by intros; simplify_eq].
    set (p := match s1 with EmptyString => _ | String b t => _ end).
    assert (slen p.2 ≤ slen s1)%nat as Hp.
    { unfold p. destruct s1 as [|b t]; [done|]. destruct (_ || _); simpl; lia. }
    destruct p as [sign r2]. destruct (digits1 r2) as [[d t]|] eqn:E; [|done]. apply digits1_length in E.
    intros; simplify_eq. simpl in *. lia. }
  set (p := match s with EmptyString => _ | String a r0 => _ end).
  assert (slen p.2 ≤ slen s)%nat as Hp.
  { unfold p. destruct s as [|a t]; [done|]. destruct (Ascii.eqb a "-"); simpl; lia. }
  destruct p as [minus r0]. destruct (int_part r0) as [[i r1]|] eqn:E1; [|done]. apply Hi in E1.
  destruct (frac_part r1) as [[f r2]|] eqn:E2; [|done]. apply Hf in E2.
  destruct (exp_part r2) as [[e r3]|] eqn:E3; [|done]. apply He in E3. intros; simplify_eq. simpl in *. lia.
Qed.

Lemma scalar_length s j r : scalar s = Some (j, r) → (slen r < slen s)%nat.
Proof.
  unfold scalar. destruct s as [|a s]; [done|]. destruct (Ascii.eqb a quote).
  { intros E%string_lit_length. simpl. lia. }
  destruct (HasPrefix _ "null").
  { intros E. assert (r = drop 4 (String a s)) as -> by congruence. apply drop_S_length. }
  destruct (HasPrefix _ "true").
  { intros E. assert (r = drop 4 (String a s)) as -> by congruence. apply drop_S_length. }
  destruct (HasPrefix _ "false"); [|apply number_length].
  intros E. assert (r = drop 5 (String a s)) as -> by congruence. apply drop_S_length.
Qed.

(** A result uses up input, and every larger bound gives it too. *)
Lemma value_bound n :
  (∀ d s j r, value n d s = Some (j, r) →
     (slen r < slen s)%nat ∧ ∀ m, (2 * slen s ≤ m)%nat → value m d s = Some (j, r)) ∧
  (∀ d s l r, elems n d s = Some (l, r) →
     (slen r < slen s)%nat ∧ ∀ m, (2 * slen s + 1 ≤ m)%nat → elems m d s = Some (l, r)) ∧
  (∀ d s l r, members n d s = Some (l, r) →
     (slen r < slen s)%nat ∧ ∀ m, (2 * slen s + 1 ≤ m)%nat → members m d s = Some (l, r)).
Proof.
  induction n as [|n (IHv & IHe & IHm)]; [done|]. split_and!; intros d s.
  - intros j r. cbn [value]. pose proof (skip_ws_length s) as Hs.
    destruct (eat "[" (skip_ws s)) as [t|] eqn:E1.
    { pose proof (eat_length _ _ _ E1) as L1. destruct (d <=? 0) eqn:Ed; [done|].
      destruct (eat "]" t) as [r'|] eqn:E2.
      - pose proof (eat_length _ _ _ E2). intros; simplify_eq. split; [lia|]. intros m Hm.
        destruct m; [lia|]. cbn [value]. by rewrite E1, Ed, E2.
      - destruct (elems n (d - 1) t) as [[l r']|] eqn:E3; [|done]. apply IHe in E3 as [L3 H3].
        intros; simplify_eq. split; [lia|]. intros m Hm. destruct m; [lia|]. cbn [value].
        rewrite E1, Ed, E2, H3 by lia. done. }
    destruct (eat "{" (skip_ws s)) as [t|] eqn:E4.
    { pose proof (eat_length _ _ _ E4) as L1. destruct (d <=? 0) eqn:Ed; [done|].
      destruct (eat "}" t) as [r'|] eqn:E2.
      - pose proof (eat_length _ _ _ E2). intros; simplify_eq. split; [lia|]. intros m Hm.
        destruct m; [lia|]. cbn [value]. by rewrite E1, E4, Ed, E2.
      - destruct (members n (d - 1) t) as [[l r']|] eqn:E3; [|done]. apply IHm in E3 as [L3 H3].
        intros; simplify_eq. split; [lia|]. intros m Hm. destruct m; [lia|]. cbn [value].
        rewrite E1, E4, Ed, E2, H3 by lia. done. }
    intros E. pose proof (scalar_length _ _ _ E). split; [lia|]. intros m Hm.
    destruct m; [lia|]. cbn [value]. by rewrite E1, E4.
  - intros l r. cbn [elems]. destruct (value n d s) as [[v t]|] eqn:Ev; [|done]. apply IHv in Ev as [Lv Hv].
    destruct (eat "," t) as [t1|] eqn:E1.
    + pose proof (eat_length _ _ _ E1). destruct (elems n d t1) as [[l' r']|] eqn:E2; [|done].
      apply IHe in E2 as [L2 H2]. intros; simplify_eq. split; [lia|]. intros m Hm. destruct m; [lia|].
      cbn [elems]. rewrite Hv by lia. rewrite E1, H2 by lia. done.
    + destruct (eat "]" t) as [r'|] eqn:E2; [|done]. pose proof (eat_length _ _ _ E2). intros; simplify_eq.
      split; [lia|]. intros m Hm. destruct m; [lia|]. cbn [elems]. rewrite Hv by lia. by rewrite E1, E2.
  - intros l r. cbn [members]. destruct (eat quote s) as [r0|] eqn:E0; [|done].
    destruct (string_lit r0) as [[[] r1]|] eqn:El; try done.
    pose proof (eat_length _ _ _ E0). pose proof (string_lit_length _ _ _ El).
    destruct (eat ":" r1) as [r2|] eqn:E2; [|done]. pose proof (eat_length _ _ _ E2).
    destruct (value n d r2) as [[v t]|] eqn:Ev; [|done]. apply IHv in Ev as [Lv Hv].
    destruct (eat "," t) as [t1|] eqn:E3.
    + pose proof (eat_length _ _ _ E3). destruct (members n d t1) as [[l' r']|] eqn:E4; [|done].
      apply IHm in E4 as [L4 H4]. intros; simplify_eq. split; [lia|]. intros m Hm. destruct m; [lia|].
      cbn [members]. rewrite E0, El, E2. rewrite Hv by lia. rewrite E3, H4 by lia. done.
    + destruct (eat "}" t) as [r'|] eqn:E4; [|done]. pose proof (eat_length _ _ _ E4). intros; simplify_eq.
      split; [lia|]. intros m Hm. destruct m; [lia|]. cbn [members]. rewrite E0, El, E2. rewrite Hv by lia.
      by rewrite E3, E4.
Qed.

Lemma Parse_complete n s j r :
  value n maxNestingDepth s = Some (j, r) → skip_ws r = "" → Parse s = Some j.
Proof.
  intros E Hr. unfold Parse. apply value_bound in E as [_ E]. rewrite E by lia. by rewrite Hr.
Qed.

(** ** Printing

    The compact rendering of a value whose strings need no escapes; parsing it
    gives the value back.  Numbers are left out: nothing prints them. *)

Definition plain_char (a : ascii) : bool := between 32 126 (code a) && negb (Ascii.eqb a quote || Ascii.eqb a backslash).
Definition plain_text (s : string) : bool := s_forall plain_char s.
Definition quoted (s : string) : string := String quote (s +:+ String quote "").

Fixpoint show (j : json) : string :=
  match j with
  | JNull => "null"
  | JBool b => if b then "true" else "false"
  | JNum lit => lit
  | JStr _ s => quoted s
  | JArr l => "[" +:+ Join (show <$> l) "," +:+ "]"
  | JObj l => "{" +:+ Join ((λ kv, quoted kv.1 +:+ ":" +:+ show kv.2) <$> l) "," +:+ "}"
  end.

Fixpoint printable (j : json) : bool :=
  match j with
  | JNull | JBool _ => true
  | JNum _ => false
  | JStr raw s => plain_text s && String.eqb raw s
  | JArr l => forallb printable l
  | JObj l => forallb (λ kv, plain_text kv.1 && printable kv.2) l
  end.

Fixpoint nesting (j : json) : nat :=
  match j with
  | JArr l => S (foldr (λ x m, Nat.max (nesting x) m) 0%nat l)
  | JObj l => S (foldr (λ kv m, Nat.max (nesting kv.2) m) 0%nat l)
  | _ => 0%nat
  end.

Lemma plain_char_spec a : plain_char a = true →
  (code a <? 32) = false ∧ (code a <? 128) = true ∧ Ascii.eqb a quote = false ∧ Ascii.eqb a backslash = false.
Proof.
  unfold plain_char, between. rewrite !andb_true_iff, negb_true_iff, orb_false_iff, !Z.leb_le.
  intros [[? ?] [? ?]]. split_and!; [by apply Z.ltb_ge|apply Z.ltb_lt; lia|done|done].
Qed.

Lemma string_body_plain n s rest :
  plain_text s = true → (String.length s < n)%nat →
  string_body n (s +:+ String quote rest) = Some (s, rest).
Proof.
  revert n. induction s as [|a s IH]; intros n Hs Hn; destruct n as [|n]; try lia.
  - simpl. done.
  - unfold plain_text in Hs. cbn [s_forall] in Hs. apply andb_true_iff in Hs as [Ha Hs].
    destruct (plain_char_spec a Ha) as (H1 & H2 & H3 & H4).
    rewrite sapp_cons. cbn [string_body]. rewrite H3, H1, H4. unfold rune_len. rewrite H2.
    cbn [take drop]. rewrite IH; [|done|simpl in Hn; lia]. done.
Qed.

Lemma string_lit_plain s rest :
  plain_text s = true → string_lit (s +:+ String quote rest) = Some (JStr s s, rest).
Proof.
  intros Hs. unfold string_lit. rewrite string_body_plain; [|done|rewrite slength_app; simpl; lia].
  replace (_ - _ - 1)%nat with (String.length s) by (rewrite slength_app; simpl; lia). by rewrite take_app.
Qed.

Lemma eat_here c s : json_space c = false → eat c (String c s) = Some s.
Proof. intros Hc. unfold eat. simpl. rewrite Hc. by rewrite Ascii.eqb_refl. Qed.

Lemma eat_other c a s : json_space a = false → Ascii.eqb a c = false → eat c (String a s) = None.
Proof. intros Ha Hc. unfold eat. simpl. by rewrite Ha, Hc. Qed.

(** The first byte of a printed value. *)
Definition starter (a : ascii) : bool :=
  negb (json_space a || Ascii.eqb a "]" || Ascii.eqb a "}" || Ascii.eqb a ",").

Lemma starter_spec a : starter a = true →
  json_space a = false ∧ Ascii.eqb a "]" = false ∧ Ascii.eqb a "}" = false ∧ Ascii.eqb a "," = false.
Proof. unfold starter. rewrite negb_true_iff, !orb_false_iff. tauto. Qed.

Lemma show_head j : printable j = true → ∃ a t, show j = String a t ∧ starter a = true.
Proof. destruct j as [|[]| | | |]; simpl; intros Hp; try done; unfold quoted; eexists _, _; (split; [done|]); done. Qed.

Lemma eat_show_none c j rest :
  printable j = true → c = "]"%char ∨ c = "}"%char ∨ c = ","%char → eat c (show j +:+ rest) = None.
Proof.
  intros Hp Hc. destruct (show_head j Hp) as (a & t & -> & Ha). apply starter_spec in Ha as (H1 & H2 & H3 & H4).
  rewrite sapp_cons. apply eat_other; [done|]. by destruct Hc as [->|[->| ->]].
Qed.

Definition parses (j : json) (d : nat) : Prop :=
  ∀ rest, ∃ n, value n (Z.of_nat d) (show j +:+ rest) = Some (j, rest).

Definition show_member (kv : string * json) : string := quoted kv.1 +:+ ":" +:+ show kv.2.

Lemma elems_show l d rest :
  l ≠ [] → Forall (λ j, printable j = true ∧ parses j d) l →
  ∃ n, elems n (Z.of_nat d) (Join (show <$> l) "," +:+ String "]" rest) = Some (l, rest).
Proof.
  intros Hne Hl. induction Hl as [|j l [Hp Hj] Hl IH]; [done|]. destruct l as [|k l].
  - destruct (Hj (String "]" rest)) as [n Hn]. exists (S n). cbn [fmap list_fmap Join elems].
    rewrite Hn. rewrite (eat_other "," "]" rest), (eat_here "]" rest) by done. done.
  - destruct (IH ltac:(done)) as [m Hm].
    set (tl := Join (show <$> k :: l) "," +:+ String "]" rest) in *.
    assert (Join (show <$> j :: k :: l) "," +:+ String "]" rest = show j +:+ String "," tl) as ->.
    { unfold tl. cbn [fmap list_fmap Join]. by rewrite !sapp_assoc. }
    destruct (Hj (String "," tl)) as [n Hn].
    apply value_bound in Hn as [Ln Hn]. apply value_bound in Hm as [Lm Hm].
    exists (S (2 * String.length (show j +:+ String "," tl) + 2 * String.length tl + 1)).
    cbn [elems]. rewrite Hn by lia. rewrite eat_here by done. by rewrite Hm by lia.
Qed.

Lemma members_show l d rest :
  l ≠ [] → Forall (λ kv, plain_text kv.1 = true ∧ printable kv.2 = true ∧ parses kv.2 d) l →
  ∃ n, members n (Z.of_nat d) (Join (show_member <$> l) "," +:+ String "}" rest) = Some (l, rest).
Proof.
  intros Hne Hl. induction Hl as [|[k j] l (Hk & Hp & Hj) Hl IH]; [done|]. simpl in Hk, Hp, Hj.
  assert (∀ tl, eat quote (show_member (k, j) +:+ tl) = Some (k +:+ String quote (String ":" (show j +:+ tl)))) as He.
  { intros tl. unfold show_member, quoted. cbn [fst snd]. rewrite !sapp_assoc, sapp_cons, !sapp_assoc.
    by rewrite eat_here. }
  destruct l as [|k2 l].
  - destruct (Hj (String "}" rest)) as [n Hn]. exists (S n). cbn [fmap list_fmap Join members].
    rewrite He, string_lit_plain by done. rewrite (eat_here ":") by done. rewrite Hn.
    rewrite (eat_other "," "}" rest), (eat_here "}" rest) by done. done.
  - destruct (IH ltac:(done)) as [m Hm].
    set (tl := Join (show_member <$> k2 :: l) "," +:+ String "}" rest) in *.
    assert (Join (show_member <$> (k, j) :: k2 :: l) "," +:+ String "}" rest =
      show_member (k, j) +:+ String "," tl) as ->.
    { unfold tl. cbn [fmap list_fmap Join]. by rewrite !sapp_assoc. }
    destruct (Hj (String "," tl)) as [n Hn].
    apply value_bound in Hn as [Ln Hn]. apply value_bound in Hm as [Lm Hm].
    exists (S (2 * String.length (show j +:+ String "," tl) + 2 * String.length tl + 1)).
    cbn [members]. rewrite He, string_lit_plain by done. rewrite (eat_here ":") by done.
    rewrite Hn by lia. rewrite eat_here by done. by rewrite Hm by lia.
Qed.

Lemma nesting_elem (l : list json) j : j ∈ l → (nesting j ≤ foldr (λ x m, Nat.max (nesting x) m) 0%nat l)%nat.
Proof. induction l as [|x l IH]; [by intros ?%not_elem_of_nil|]. intros [->|?]%elem_of_cons; simpl; [lia|]. specialize (IH H). lia. Qed.

Lemma nesting_member (l : list (string * json)) kv :
  kv ∈ l → (nesting kv.2 ≤ foldr (λ kv m, Nat.max (nesting kv.2) m) 0%nat l)%nat.
Proof. induction l as [|x l IH]; [by intros ?%not_elem_of_nil|]. intros [->|?]%elem_of_cons; simpl; [lia|]. specialize (IH H). lia. Qed.

(** The three literal names. *)
Lemma word_scalar w j rest :
  (w = "null" ∧ j = JNull) ∨ (w = "true" ∧ j = JBool true) ∨ (w = "false" ∧ j = JBool false) →
  scalar (w +:+ rest) = Some (j, rest).
Proof.
  intros H. pose proof (HasPrefix_app w rest) as Hw. pose proof (drop_app w rest) as Hd.
  destruct H as [[-> ->]|[[-> ->]|[-> ->]]]; unfold scalar; rewrite !sapp_cons in *; simpl (Ascii.eqb _ quote);
    cbn iota; rewrite ?Hw; simpl in Hd; try rewrite Hd; done.
Qed.

Lemma value_scalar d a r :
  json_space a = false → Ascii.eqb a "[" = false → Ascii.eqb a "{" = false → value 1 d (String a r) = scalar (String a r).
Proof. intros H1 H2 H3. cbn [value skip_ws]. rewrite H1. by rewrite !eat_other. Qed.

Lemma Join_head a t l sep tl : ∃ u, Join (String a t :: l) sep +:+ tl = String a u.
Proof. destruct l; cbn [Join]; rewrite ?sapp_cons; eauto. Qed.

Lemma show_parses d j : (nesting j ≤ d)%nat → printable j = true → parses j d.
Proof.
  revert j. induction d as [d IH] using lt_wf_ind. intros j Hd Hp rest.
  destruct j as [|b|lit|raw s|l|l]; simpl in Hp; try done.
  - exists 1%nat. cbn [show]. rewrite sapp_cons, value_scalar by done. apply (word_scalar "null"); tauto.
  - exists 1%nat. destruct b; cbn [show]; rewrite sapp_cons, value_scalar by done.
    + apply (word_scalar "true"); tauto.
    + apply (word_scalar "false"); tauto.
  - apply andb_true_iff in Hp as [Hs ->%String.eqb_eq]. exists 1%nat. cbn [show]. unfold quoted.
    rewrite sapp_cons, sapp_assoc, value_scalar by done. unfold scalar. rewrite Ascii.eqb_refl.
    change (String quote "" +:+ rest) with (String quote rest). by rewrite string_lit_plain.
  - destruct d as [|d]; [simpl in Hd; lia|]. cbn [nesting] in Hd. destruct l as [|x l].
    { exists 1%nat. done. }
    destruct (elems_show (x :: l) d rest) as [n Hn]; [done| |].
    { apply Forall_forall. intros j Hj. rewrite forallb_forall in Hp.
      pose proof (Hp j (proj1 (list_elem_of_In _ _) Hj)). split; [done|].
      apply IH; [lia| |done]. pose proof (nesting_elem _ _ Hj). lia. }
    exists (S n). cbn [show]. rewrite !sapp_assoc.
    change ("[" +:+ ?x) with (String "[" x). change ("]" +:+ rest) with (String "]" rest).
    cbn [value skip_ws]. change (json_space "[") with false. cbv iota. rewrite eat_here by done.
    destruct (Z.leb_spec (Z.of_nat (S d)) 0); [lia|].
    replace (Z.of_nat (S d) - 1) with (Z.of_nat d) by lia.
    rewrite forallb_forall in Hp.
    destruct (show_head x) as (a & t & Ea & Ha); [apply Hp; by left|].
    assert (∀ tl, eat "]" (Join (show <$> x :: l) "," +:+ tl) = None) as ->.
    { intros tl. apply starter_spec in Ha as (H1 & H2 & _). rewrite fmap_cons, Ea.
      destruct (Join_head a t (show <$> l) "," tl) as [u ->]. by apply eat_other. }
    by rewrite Hn.
  - destruct d as [|d]; [simpl in Hd; lia|]. cbn [nesting] in Hd. destruct l as [|x l].
    { exists 1%nat. done. }
    destruct (members_show (x :: l) d rest) as [n Hn]; [done| |].
    { apply Forall_forall. intros kv Hj. rewrite forallb_forall in Hp.
      pose proof (Hp kv (proj1 (list_elem_of_In _ _) Hj)) as [? ?]%andb_true_iff. split_and!; [done..|].
      apply IH; [lia| |done]. pose proof (nesting_member _ _ Hj). lia. }
    exists (S n). cbn [show]. rewrite !sapp_assoc.
    change ("{" +:+ ?x) with (String "{" x). change ("}" +:+ rest) with (String "}" rest).
    cbn [value skip_ws]. change (json_space "{") with false. cbv iota. rewrite eat_other, eat_here by done.
    destruct (Z.leb_spec (Z.of_nat (S d)) 0); [lia|].
    replace (Z.of_nat (S d) - 1) with (Z.of_nat d) by lia.
    assert (∀ tl, eat "}" (Join (show_member <$> x :: l) "," +:+ tl) = None) as He.
    { intros tl. rewrite fmap_cons. unfold show_member at 1, quoted. rewrite sapp_cons.
      match goal with |- context [Join (String ?a ?t :: ?k) ?sep] => destruct (Join_head a t k sep tl) as [u ->] end.
      by apply eat_other. }
    change ((λ kv, quoted kv.1 +:+ ":" +:+ show kv.2) <$> x :: l) with (show_member <$> x :: l).
    by rewrite He, Hn.
Qed.

Lemma Parse_show j : (Z.of_nat (nesting j) <= maxNestingDepth) → printable j = true → Parse (show j) = Some j.
Proof.
  intros Hd Hp. destruct (show_parses (Z.to_nat maxNestingDepth) j ltac:(lia) Hp "") as [n Hn].
  rewrite sapp_nil_r in Hn. rewrite Z2Nat.id in Hn by done. by eapply Parse_complete.
Qed.
