(* ===== verification/GoTime.v ===== *)
(** * Durations and RFC 3339 timestamps: the part of [time] the program uses

    A [time.Duration] is a number of nanoseconds, a [time.Time] the number of
    nanoseconds since the Unix epoch. *)

From S2P Require Import Prelude GoFloat GoStrings GoJson.

Open Scope Z_scope.

Definition Second : Z := 1000000000.
Definition Minute : Z := 60 * Second.
Definition Hour : Z := 60 * Minute.

(** ** [time.ParseDuration] *)

(** Leading digits as an integer of at most 2^63; [None] is overflow. *)
Fixpoint leadingInt (acc : Z) (s : string) : option (Z * string) :=
  match s with
  | String a r =>
      if is_digit a then
        if 2 ^ 63 / 10 <? acc then None
        else let x := acc * 10 + (code a - 48) in if 2 ^ 63 <? x then None else leadingInt x r
      else Some (acc, s)
  | EmptyString => Some (acc, "")
  end.

(** Leading digits as a fraction [x / scale]; digits past the precision are
    dropped. *)
Fixpoint leadingFraction (x scale : Z) (full : bool) (s : string) : Z * Z * string :=
  match s with
  | String a r =>
      if is_digit a then
        if full then leadingFraction x scale true r
        else if (2 ^ 63 - 1) / 10 <? x then leadingFraction x scale true r
        else let y := x * 10 + (code a - 48) in
             if 2 ^ 63 <? y then leadingFraction x scale true r else leadingFraction y (scale * 10) false r
      else (x, scale, s)
  | EmptyString => (x, scale, "")
  end.

Definition unit_char (a : ascii) : bool := negb (Ascii.eqb a "." || is_digit a).

Fixpoint span_unit (s : string) : string * string :=
  match s with
  | String a r => if unit_char a then let '(u, t) := span_unit r in (String a u, t) else ("", s)
  | EmptyString => ("", "")
  end.

Definition unit_of (u : string) : option Z :=
  if String.eqb u "ns" then Some 1
  else if String.eqb u "us" || String.eqb u (encode_rune 181 +:+ "s") || String.eqb u (encode_rune 956 +:+ "s")
  then Some 1000
  else if String.eqb u "ms" then Some 1000000
  else if String.eqb u "s" then Some Second
  else if String.eqb u "m" then Some Minute
  else if String.eqb u "h" then Some Hour
  else None.

(** The fraction's share of a unit is computed in floating point.  The scale is
    a product of tens below 10^19, so a float holds it as the source's product
    does. *)
Definition fraction_ns (f scale unit : Z) : Z :=
  if 0 <? f then trunc_uint64 (fmul (float64 f) (fdiv (float64 unit) (float64 scale))) else 0.

(** One [12.5s] group: its value and the rest. *)
Definition duration_group (s : string) : option (Z * string) :=
  match s with
  | EmptyString => None
  | String a _ =>
      if negb (Ascii.eqb a "." || is_digit a) then None
      else match leadingInt 0 s with
      | None => None
      | Some (v, s1) =>
          let pre := negb (Nat.eqb (String.length s1) (String.length s)) in
          let '(f, scale, post, s2) :=
            match s1 with
            | String c r =>
                if Ascii.eqb c "." then
                  let '(f, scale, t) := leadingFraction 0 1 false r in
                  (f, scale, negb (Nat.eqb (String.length t) (String.length r)), t)
                else (0, 1, false, s1)
            | EmptyString => (0, 1, false, s1)
            end in
          if negb pre && negb post then None
          else
            let '(u, s3) := span_unit s2 in
            match unit_of u with
            | None => None
            | Some unit =>
                if 2 ^ 63 / unit <? v then None
                else let v' := v * unit + fraction_ns f scale unit in
                     if 2 ^ 63 <? v' then None else Some (v', s3)
            end
      end
  end.

Fixpoint duration_groups (fuel : nat) (d : Z) (s : string) : option Z :=
  match s with
  | EmptyString => Some d
  | _ =>
      match fuel with
      | O => None
      | S m =>
          match duration_group s with
          | None => None
          | Some (v, r) => if 2 ^ 63 <? d + v then None else duration_groups m (d + v) r
          end
      end
  end.

Definition ParseDuration (s : string) : option Z :=
  let '(neg, r) :=
    match s with
    | String a t => if Ascii.eqb a "-" then (true, t) else if Ascii.eqb a "+" then (false, t) else (false, s)
    | EmptyString => (false, "")
    end in
  if String.eqb r "0" then Some 0
  else if String.eqb r "" then None
  else match duration_groups (String.length r) 0 r with
  | None => None
  | Some d => if neg then Some (- d) else if 2 ^ 63 - 1 <? d then None else Some d
  end.

(** Rounding to a multiple of [m > 0], halves away from zero, saturating. *)
Definition Round (d m : Z) : Z :=
  if m <=? 0 then d
  else
    let r := Z.rem d m in
    if d <? 0 then
      let r := - r in
      if r + r <? m then d + r
      else let d1 := d - m + r in if - 2 ^ 63 <=? d1 then d1 else - 2 ^ 63
    else
      if r + r <? m then d - r
      else let d1 := d + m - r in if d1 <? 2 ^ 63 then d1 else 2 ^ 63 - 1.

Example ParseDuration_ex :
  (ParseDuration "1h15m30.918s", ParseDuration "-1.5h", ParseDuration "0", ParseDuration "10", ParseDuration ".5s",
   ParseDuration "9223372036854775807ns", ParseDuration "9223372036854775808ns")
  = (Some 4530918000000, Some (-5400000000000), Some 0, None, Some 500000000, Some (2 ^ 63 - 1), None).
Proof. vm_compute. reflexivity. Qed.

(** ** [time.Parse(time.RFC3339, s)] *)

Definition leap (y : Z) : bool := (y mod 4 =? 0) && (negb (y mod 100 =? 0) || (y mod 400 =? 0)).

Definition daysIn (m y : Z) : Z :=
  if m =? 2 then if leap y then 29 else 28
  else if (m =? 4) || (m =? 6) || (m =? 9) || (m =? 11) then 30 else 31.

(** Days from the epoch to the first of January of [y]. *)
Definition days_to_year (y : Z) : Z :=
  let n := y - 1 in 365 * (y - 1970) + (n / 4 - n / 100 + n / 400) - 477.

Definition days_to_month (m y : Z) : Z :=
  foldr (λ k acc, daysIn k y + acc) 0 (seqZ 1 (m - 1)).

Definition unix_days (y m d : Z) : Z := days_to_year y + days_to_month m y + (d - 1).

(** Exactly [n] digits. *)
Fixpoint fixed_num (n : nat) (acc : Z) (s : string) : option (Z * string) :=
  match n with
  | O => Some (acc, s)
  | S m =>
      match s with
      | String a r => if is_digit a then fixed_num m (acc * 10 + (code a - 48)) r else None
      | EmptyString => None
      end
  end.

(** One or two digits (the hour). *)
Definition getnum (s : string) : option (Z * string) :=
  match fixed_num 2 0 s with Some x => Some x | None => fixed_num 1 0 s end.

Definition lit (c : ascii) (s : string) : option string :=
  match s with String a r => if Ascii.eqb a c then Some r else None | EmptyString => None end.

Fixpoint frac_ns (n : nat) (acc : Z) (s : string) : Z :=
  match n with
  | O => acc
  | S m =>
      match s with
      | String a r => frac_ns m (acc * 10 + (code a - 48)) r
      | EmptyString => frac_ns m (acc * 10) ""
      end
  end.

(** An optional fraction of a second, written after a dot or a comma. *)
Definition fraction (s : string) : Z * string :=
  match s with
  | String c r =>
      if Ascii.eqb c "." || Ascii.eqb c "," then
        let '(d, t) := span_digits r in if String.eqb d "" then (0, s) else (frac_ns 9 0 d, t)
      else (0, s)
  | EmptyString => (0, "")
  end.

(** [Z] or a signed offset: seconds east of UTC. *)
Definition zone (s : string) : option (Z * string) :=
  match s with
  | EmptyString => None
  | String c r =>
      if Ascii.eqb c "Z" then Some (0, r)
      else if Ascii.eqb c "+" || Ascii.eqb c "-" then
        match fixed_num 2 0 r with
        | None => None
        | Some (hh, r1) =>
            match lit ":" r1 with
            | None => None
            | Some r2 =>
                match fixed_num 2 0 r2 with
                | None => None
                | Some (mm, r3) =>
                    if (24 <? hh) || (60 <? mm) then None
                    else let off := (hh * 60 + mm) * 60 in Some (if Ascii.eqb c "-" then - off else off, r3)
                end
            end
        end
      else None
  end.

Notation "'let?' x := m 'in' k" := (match m with Some x => k | None => None end)
  (at level 10, x pattern, m at level 100, k at level 200) : go_scope.

Definition ParseRFC3339 (s : string) : option Z :=
  let? (year, s) := fixed_num 4 0 s in
  let? s := lit "-" s in
  let? (month, s) := fixed_num 2 0 s in
  let? s := lit "-" s in
  let? (day, s) := fixed_num 2 0 s in
  let? s := lit "T" s in
  let? (hour, s) := getnum s in
  let? s := lit ":" s in
  let? (min, s) := fixed_num 2 0 s in
  let? s := lit ":" s in
  let? (sec, s) := fixed_num 2 0 s in
  let '(ns, s) := fraction s in
  let? (off, s) := zone s in
  if String.eqb s "" && between 1 12 month && between 1 (daysIn month year) day &&
     (hour <? 24) && (min <? 60) && (sec <? 60)
  then Some ((unix_days year month day * 86400 + hour * 3600 + min * 60 + sec - off) * Second + ns)
  else None.

Example ParseRFC3339_ex :
  (ParseRFC3339 "1970-01-01T00:00:00Z", ParseRFC3339 "2024-02-29T12:00:00.5+01:00", ParseRFC3339 "2023-02-29T12:00:00Z")
  = (Some 0, Some (1709204400 * Second + 500000000), None).
Proof. vm_compute. reflexivity. Qed.

(** [time.Time.Sub], which saturates. *)
Definition Sub (t u : Z) : Z := Z.max (- 2 ^ 63) (Z.min (2 ^ 63 - 1) (t - u)).

(** ** [Duration.String] *)

(** The decimal digits of [v mod 10^prec] as a fraction, trailing zeros and an
    empty fraction left out. *)
Fixpoint frac_digits (prec : nat) (v : Z) (print : bool) (acc : string) : string :=
  match prec with
  | O => if print then String "." acc else acc
  | S p =>
      let digit := v mod 10 in
      let print := print || negb (digit =? 0) in
      frac_digits p (v / 10) print (if print then Itoa digit +:+ acc else acc)
  end.
Definition fmt_frac (prec : nat) (v : Z) : string := Itoa (v / 10 ^ Z.of_nat prec) +:+ frac_digits prec v false "".

Definition Duration_String (d : Z) : string :=
  let u := Z.abs d in
  let text :=
    if u <? Second then
      if u =? 0 then "0s"
      else if u <? 1000 then Itoa u +:+ "ns"
      else if u <? 1000000 then fmt_frac 3 u +:+ "µs"
      else fmt_frac 6 u +:+ "ms"
    else
      let sec := u / Second in
      let seconds := Itoa (sec mod 60) +:+ frac_digits 9 u false "" +:+ "s" in
      if sec <? 60 then seconds
      else
        let min := sec / 60 in
        let minutes := Itoa (min mod 60) +:+ "m" +:+ seconds in
        if min <? 60 then minutes else Itoa (min / 60) +:+ "h" +:+ minutes in
  if d <? 0 then "-" +:+ text else text.

Example Duration_String_ex :
  (Duration_String 0, Duration_String 1500, Duration_String (90 * Second), Duration_String (1500 * 1000000),
   Duration_String (-2 * Hour), Duration_String 1) = ("0s", "1.5µs", "1m30s", "1.5s", "-2h0m0s", "1ns").
Proof. vm_compute. reflexivity. Qed.
