(* ===== verification/GoFlag.v ===== *)
(** * Command-line flags: the part of [flag] the commands use

    A [FlagSet] is the map of the flags a command declares; parsing yields the
    flags that were given, with the text each was last given ([FlagSet.actual],
    what [Visit] walks), and the remaining arguments.  Getters read a flag with
    its declared default. *)

From S2P Require Import Prelude GoFloat GoStrings GoJson GoTime.

Inductive FlagKind : Type := KString | KBool | KDuration | KInt.

Inductive FlagError : Type :=
  | FlagSyntax (arg : string)
  | FlagUndefined (name : string)
  | FlagHelp
  | FlagNoArgument (name : string)
  | FlagInvalid (name value : string).

Definition FlagSet : Type := gmap string FlagKind.
Definition Given : Type := gmap string string.

(** [strconv.ParseBool] *)
Definition ParseBool (s : string) : option bool :=
  if bool_decide (s ∈ ["1"; "t"; "T"; "TRUE"; "true"; "True"]) then Some true
  else if bool_decide (s ∈ ["0"; "f"; "F"; "FALSE"; "false"; "False"]) then Some false
  else None.

Definition starts_with_byte (a : ascii) (s : string) : bool :=
  match s with String b _ => Ascii.eqb a b | EmptyString => false end.

(** [strconv.ParseInt] with base 0: the prefix chooses the base, and underscores
    may separate digits. *)
Fixpoint underscore_ok (hex : bool) (saw : ascii) (s : string) : bool :=
  match s with
  | EmptyString => negb (Ascii.eqb saw "_")
  | String a r =>
      if bool_decide (is_Some (digit_in (if hex then 16 else 10) a)) then underscore_ok hex "0" r
      else if Ascii.eqb a "_" then Ascii.eqb saw "0" && underscore_ok hex "_" r
      else negb (Ascii.eqb saw "_") && underscore_ok hex "!" r
  end.

Definition base_prefix (s : string) : Z * string * bool :=
  match s with
  | String z (String b r) =>
      if Ascii.eqb z "0" then
        let l := lower_char b in
        if negb (String.eqb r "") && Ascii.eqb l "b" then (2, r, true)
        else if negb (String.eqb r "") && Ascii.eqb l "o" then (8, r, true)
        else if negb (String.eqb r "") && Ascii.eqb l "x" then (16, r, true)
        else (8, String b r, false)
      else (10, s, false)
  | String z EmptyString => if Ascii.eqb z "0" then (8, "", false) else (10, s, false)
  | EmptyString => (10, "", false)
  end%Z.

Fixpoint drop_underscores (s : string) : string :=
  match s with
  | EmptyString => ""
  | String a r => if Ascii.eqb a "_" then drop_underscores r else String a (drop_underscores r)
  end.

Definition parse_uint0 (s : string) : option Z :=
  if String.eqb s "" then None
  else
    let '(base, body, prefixed) := base_prefix s in
    if underscore_ok (base =? 16)%Z (if prefixed then "0" else "^") (if prefixed then body else s)
    then digits_go base 0 (drop_underscores body) else None.

Definition ParseInt0 (s : string) : option Z :=
  let v :=
    if starts_with_byte "+" s then parse_uint0 (drop 1 s)
    else if starts_with_byte "-" s then option_map Z.opp (parse_uint0 (drop 1 s))
    else parse_uint0 s in
  match v with Some z => if in_int64 z then Some z else None | None => None end.

Example ParseInt0_ex :
  ParseInt0 "50" = Some 50%Z ∧ ParseInt0 "0x1F" = Some 31%Z ∧ ParseInt0 "-017" = Some (-15)%Z ∧
  ParseInt0 "1_000" = Some 1000%Z ∧ ParseInt0 "1__0" = None ∧ ParseInt0 "0" = Some 0%Z ∧ ParseInt0 "0x" = None ∧
  ParseInt0 "" = None ∧ ParseInt0 "9223372036854775808" = None ∧ ParseInt0 "08" = None ∧ ParseInt0 "0b101" = Some 5%Z.
Proof. vm_compute. done. Qed.

(** [Value.Set]: whether the text is a value of the kind. *)
Definition settable (k : FlagKind) (v : string) : bool :=
  match k with
  | KString => true
  | KBool => bool_decide (is_Some (ParseBool v))
  | KDuration => bool_decide (is_Some (ParseDuration v))
  | KInt => bool_decide (is_Some (ParseInt0 v))
  end.

(** The name in an argument, split at the first [=] past its first character. *)
Definition split_value (name : string) : string * option string :=
  match name with
  | EmptyString => (name, None)
  | String a r => match cut_on (ch 61) r with Some (n, v) => (String a n, Some v) | None => (name, None) end
  end.

(** What the first argument is to the parser. *)
Inductive Argument : Type :=
  | ArgStop            (* not a flag: parsing ends before it *)
  | ArgTerminator      (* the argument of two dashes: parsing ends after it *)
  | ArgBad             (* bad flag syntax *)
  | ArgFlag (name : string) (value : option string).

Definition flag_name (name : string) : Argument :=
  if String.eqb name "" || starts_with_byte "-" name || starts_with_byte "=" name then ArgBad
  else let '(n, v) := split_value name in ArgFlag n v.

Definition classify_arg (s : string) : Argument :=
  match s with
  | String a r =>
      if negb (Ascii.eqb a "-") || String.eqb r "" then ArgStop
      else match r with
           | String b r' =>
               if Ascii.eqb b "-" then (if String.eqb r' "" then ArgTerminator else flag_name r') else flag_name r
           | EmptyString => ArgStop
           end
  | EmptyString => ArgStop
  end.

(** [FlagSet.Parse] with [ContinueOnError]. *)
Fixpoint Parse (fs : FlagSet) (args : list string) (given : Given) : result FlagError (Given * list string) :=
  match args with
  | [] => Ok (given, [])
  | s :: rest =>
      match classify_arg s with
      | ArgStop => Ok (given, args)
      | ArgTerminator => Ok (given, rest)
      | ArgBad => Err (FlagSyntax s)
      | ArgFlag name value =>
          match fs !! name with
          | None => Err (if String.eqb name "help" || String.eqb name "h" then FlagHelp else FlagUndefined name)
          | Some KBool =>
              let v := default "true" value in
              if settable KBool v then Parse fs rest (<[name := v]> given) else Err (FlagInvalid name v)
          | Some k =>
              match value, rest with
              | Some v, _ => if settable k v then Parse fs rest (<[name := v]> given) else Err (FlagInvalid name v)
              | None, v :: rest' =>
                  if settable k v then Parse fs rest' (<[name := v]> given) else Err (FlagInvalid name v)
              | None, [] => Err (FlagNoArgument name)
              end
          end
      end
  end.

Definition parse_flags (fs : FlagSet) (args : list string) : result FlagError (Given * list string) := Parse fs args ∅.

Definition flag_string (g : Given) (name def : string) : string := default def (g !! name).
Definition flag_bool (g : Given) (name : string) (def : bool) : bool :=
  match g !! name with Some v => default def (ParseBool v) | None => def end.
Definition flag_duration (g : Given) (name : string) (def : Z) : Z :=
  match g !! name with Some v => default def (ParseDuration v) | None => def end.
Definition flag_int (g : Given) (name : string) (def : Z) : Z :=
  match g !! name with Some v => default def (ParseInt0 v) | None => def end.

(** ** Arguments written by a program *)

(** The arguments that give string flags their values, as [--name value]. *)
Fixpoint string_args (l : list (string * string)) : list string :=
  match l with [] => [] | (n, v) :: l' => ("--" +:+ n) :: v :: string_args l' end.

Definition plain_name (n : string) : bool :=
  negb (String.eqb n "") && negb (starts_with_byte "-" n) && no_char (ch 61) n.

Lemma cut_on_none c s : no_char c s = true → cut_on c s = None.
Proof.
  induction s as [|a s IH]; [done|]. rewrite no_char_cons. intros [Ha%negb_true_iff Hs]%andb_true_iff.
  simpl. by rewrite Ha, IH.
Qed.

Lemma classify_flag n : plain_name n = true → classify_arg ("--" +:+ n) = ArgFlag n None.
Proof.
  unfold plain_name. intros Hn. bools. destruct n as [|a r]; [done|].
  change ("--" +:+ String a r) with (String "-" (String "-" (String a r))).
  rewrite no_char_cons in H0. bools. unfold classify_arg, flag_name. cbn [Ascii.eqb Bool.eqb negb andb orb String.eqb].
  unfold starts_with_byte in *. rewrite (Ascii.eqb_sym "=" a). change "="%char with (ch 61). rewrite H0, H1.
  cbn. by rewrite cut_on_none.
Qed.

(** String flags are parsed back to the last value given to each, whatever the
    values are, and parsing goes on with the arguments after them. *)
Lemma Parse_string_args fs l rest given :
  Forall (λ nv, plain_name nv.1 = true ∧ fs !! nv.1 = Some KString) l →
  Parse fs (string_args l ++ rest) given = Parse fs rest (foldl (λ g nv, <[nv.1 := nv.2]> g) given l).
Proof.
  intros Hl. revert given. induction Hl as [|[n v] l [Hn Hk] Hl IH]; intros given; [done|].
  cbn [string_args app foldl fst snd] in *. rewrite <- IH. cbn [Parse]. by rewrite classify_flag, Hk.
Qed.

(** A boolean flag given by its name alone is set. *)
Lemma Parse_bool_arg fs n rest given :
  plain_name n = true → fs !! n = Some KBool →
  Parse fs (("--" +:+ n) :: rest) given = Parse fs rest (<[n := "true"]> given).
Proof. intros Hn Hk. cbn [Parse]. by rewrite classify_flag, Hk. Qed.
