(* ===== verification/OsFs.v ===== *)
(** * The files of the host: what the installer, the bundle and the bootstrap
      commands use of [os]

    An [Os W] is the set of file operations on a host in state [W]; every one
    may fail.  [FileHost] is their documented behaviour through the view [paths]
    of the files: an operation that succeeds does what it says to the path it
    names, one that fails changes nothing but the file it was writing, and no
    other path is touched.  A crash is a host on which every later operation
    fails, so what holds after every outcome holds after a crash.  Copying covers
    writing into the created file and closing it. *)

From S2P Require Import Prelude GoStrings.

Open Scope Z_scope.

(** A regular file with its content and permission bits, or something else
    (a directory, a socket). *)
Inductive Entry : Type := File (data : string) (mode : Z) | Other.

#[export] Instance Entry_eq_dec : EqDecision Entry.
Proof. solve_decision. Defined.

Inductive RemoveError : Type := RmNotExist | RmFailed (msg : string).

Record Os (W : Type) := mkOs {
  os_Stat : string → W → option string;
  os_Open : string → W → option string;
  os_ReadFile : string → W → result string string;
  os_MkdirAll : string → Z → W → W * option string;
  os_WriteFile : string → string → Z → W → W * option string;
  os_Remove : string → W → W * option RemoveError;
  os_CreateTemp : string → string → W → W * result string string;
  os_CopyFile : string → string → W → W * option string;
  os_Chmod : string → Z → W → W * option string;
  os_Rename : string → string → W → W * option string;
}.
Arguments os_Stat {W} _. Arguments os_Open {W} _. Arguments os_ReadFile {W} _. Arguments os_MkdirAll {W} _. Arguments os_WriteFile {W} _.
Arguments os_Remove {W} _. Arguments os_CreateTemp {W} _. Arguments os_CopyFile {W} _. Arguments os_Chmod {W} _.
Arguments os_Rename {W} _.

(** What [WriteFile] leaves at its path: an existing file keeps its permission
    bits, a new one gets at most those asked for. *)
Definition written (old : option Entry) (d : string) (mode : Z) (new : Entry) : Prop :=
  match old with
  | Some (File _ m) => new = File d m
  | _ => ∃ m, new = File d m ∧ Z.ldiff m mode = 0
  end.

Definition same_but (p : string) (m m' : gmap string Entry) : Prop := ∀ q, q ≠ p → m' !! q = m !! q.

Class FileHost {W} (O : Os W) := {
  paths : W → gmap string Entry;
  fh_stat p w : os_Stat O p w = None ↔ is_Some (paths w !! p);
  fh_open p w : os_Open O p w = None → is_Some (paths w !! p);
  fh_read p w d : os_ReadFile O p w = Ok d → ∃ m, paths w !! p = Some (File d m);
  fh_mkdir p m w w' e : os_MkdirAll O p m w = (w', e) →
    ∀ q, (∀ x, paths w !! q = Some x → paths w' !! q = Some x) ∧
         (∀ x, paths w' !! q = Some x → paths w !! q = Some x ∨ x = Other);
  fh_write p d m w w' e : os_WriteFile O p d m w = (w', e) →
    same_but p (paths w) (paths w') ∧
    (e = None → ∃ x, paths w' !! p = Some x ∧ written (paths w !! p) d m x);
  fh_remove p w w' e : os_Remove O p w = (w', e) →
    match e with
    | None => paths w' = delete p (paths w)
    | Some x => paths w' = paths w ∧ (x = RmNotExist → paths w !! p = None)
    end;
  fh_temp dir pre w w' r : os_CreateTemp O dir pre w = (w', r) →
    match r with
    | Ok name => (∃ s, name = dir +:+ "/" +:+ pre +:+ s) ∧ paths w !! name = None ∧ ∃ m, paths w' = <[name := File "" m]> (paths w)
    | Err _ => paths w' = paths w
    end;
  fh_copy src dst w w' e : os_CopyFile O src dst w = (w', e) →
    same_but dst (paths w) (paths w') ∧
    (e = None → ∃ d m m', paths w !! src = Some (File d m) ∧ paths w' !! dst = Some (File d m'));
  fh_chmod p m w w' e : os_Chmod O p m w = (w', e) →
    same_but p (paths w) (paths w') ∧
    (e = None → ∃ d m', paths w !! p = Some (File d m') ∧ paths w' !! p = Some (File d m)) ∧
    (e ≠ None → paths w' = paths w);
  fh_rename src dst w w' e : os_Rename O src dst w = (w', e) →
    match e with
    | None => ∃ x, paths w !! src = Some x ∧ paths w' = <[dst := x]> (delete src (paths w))
    | Some _ => paths w' = paths w
    end;
}.

(** ** An executable host with scripted failures

    [fs_fail] lists what the next operations are told: an entry of the list is
    consumed by each operation that changes the host, [Some msg] fails it. *)
Record FsSim := mkFsSim { fs_paths : gmap string Entry; fs_fail : list (option string); fs_fresh : nat }.

Definition fs_op {A} (w : FsSim) (ok : FsSim → FsSim * A) (err : string → FsSim → FsSim * A) : FsSim * A :=
  match fs_fail w with
  | Some msg :: l => err msg (mkFsSim (fs_paths w) l (fs_fresh w))
  | _ :: l => ok (mkFsSim (fs_paths w) l (fs_fresh w))
  | [] => ok w
  end.

Definition with_paths (w : FsSim) (m : gmap string Entry) : FsSim := mkFsSim m (fs_fail w) (fs_fresh w).

Definition refuse {A} (f : string → A) (msg : string) (w : FsSim) : FsSim * A := (w, f msg).

Definition sim_write (p d : string) (m : Z) (w : FsSim) : FsSim * option string :=
  fs_op w
    (λ w, let mode := match fs_paths w !! p with Some (File _ m') => m' | _ => m end in
          (with_paths w (<[p := File d mode]> (fs_paths w)), None))
    (refuse Some).

Definition sim_remove (p : string) (w : FsSim) : FsSim * option RemoveError :=
  fs_op w
    (λ w, match fs_paths w !! p with
          | Some _ => (with_paths w (delete p (fs_paths w)), None)
          | None => (w, Some RmNotExist)
          end)
    (refuse (λ m, Some (RmFailed m))).

(** A name with the prefix that no path has. *)
Definition sim_temp_name (dir pre : string) (w : FsSim) : string :=
  let stem := dir +:+ "/" +:+ pre in
  let taken : gset string := set_map (drop (String.length stem)) (dom (fs_paths w)) in
  stem +:+ fresh taken.

Definition sim_temp (dir pre : string) (w : FsSim) : FsSim * result string string :=
  fs_op w
    (λ w, let name := sim_temp_name dir pre w in (with_paths w (<[name := File "" 384]> (fs_paths w)), Ok name))
    (refuse Err).

Definition sim_copy (src dst : string) (w : FsSim) : FsSim * option string :=
  fs_op w
    (λ w, match fs_paths w !! src with
          | Some (File d _) =>
              let mode := match fs_paths w !! dst with Some (File _ m') => m' | _ => 384 end in
              (with_paths w (<[dst := File d mode]> (fs_paths w)), None)
          | _ => (w, Some "not a regular file")
          end)
    (λ msg w, (with_paths w (<[dst := File "partial" 384]> (fs_paths w)), Some msg)).

Definition sim_chmod (p : string) (m : Z) (w : FsSim) : FsSim * option string :=
  fs_op w
    (λ w, match fs_paths w !! p with
          | Some (File d _) => (with_paths w (<[p := File d m]> (fs_paths w)), None)
          | _ => (w, Some "no such file")
          end)
    (refuse Some).

Definition sim_rename (src dst : string) (w : FsSim) : FsSim * option string :=
  fs_op w
    (λ w, match fs_paths w !! src with
          | Some x => (with_paths w (<[dst := x]> (delete src (fs_paths w))), None)
          | None => (w, Some "no such file")
          end)
    (refuse Some).

Definition fs_sim : Os FsSim := {|
  os_Stat p w := match fs_paths w !! p with Some _ => None | None => Some "no such file" end;
  os_Open p w := match fs_paths w !! p with Some _ => None | None => Some "no such file" end;
  os_ReadFile p w := match fs_paths w !! p with Some (File d _) => Ok d | _ => Err "no such file" end;
  os_MkdirAll p m w := fs_op w (λ w, (w, None)) (refuse Some);
  os_WriteFile := sim_write;
  os_Remove := sim_remove;
  os_CreateTemp := sim_temp;
  os_CopyFile := sim_copy;
  os_Chmod := sim_chmod;
  os_Rename := sim_rename;
|}.

Lemma fs_op_cases {A} w ok err (r : FsSim * A) :
  fs_op w ok err = r →
  ∃ v, fs_paths v = fs_paths w ∧ (r = ok v ∨ ∃ msg, r = err msg v).
Proof.
  unfold fs_op. intros <-. destruct (fs_fail w) as [|[msg|] l].
  - by exists w; auto.
  - exists (mkFsSim (fs_paths w) l (fs_fresh w)). split; [done|]. eauto.
  - exists (mkFsSim (fs_paths w) l (fs_fresh w)). auto.
Qed.

(** The two outcomes of a simulated operation, its paths those of the host. *)
Ltac sim_cases Hr :=
  apply fs_op_cases in Hr as (v & Hv & [Hr|[msg Hr]]); unfold refuse in *; simplify_eq; cbn in *; rewrite ?Hv in *.

Lemma same_but_insert p x m : same_but p m (<[p := x]> m).
Proof. intros q Hq. by rewrite lookup_insert_ne. Qed.

Lemma sim_temp_fresh dir pre w :
  (∃ s, sim_temp_name dir pre w = dir +:+ "/" +:+ pre +:+ s) ∧ fs_paths w !! sim_temp_name dir pre w = None.
Proof.
  unfold sim_temp_name. set (stem := dir +:+ "/" +:+ pre). set (taken := set_map _ _ : gset string). split.
  - exists (fresh taken). unfold stem. by rewrite !sapp_assoc.
  - apply not_elem_of_dom. intros Hd. apply (is_fresh taken). unfold taken at 2. apply elem_of_map.
    exists (stem +:+ fresh taken). split; [|done]. symmetry; apply drop_app.
Qed.

#[export] Instance fs_sim_host : FileHost fs_sim.
Proof.
  refine {| paths := fs_paths |}; cbn [fs_sim os_Stat os_Open os_ReadFile os_MkdirAll os_WriteFile os_Remove os_CreateTemp
    os_CopyFile os_Chmod os_Rename].
  - intros p w. destruct (fs_paths w !! p); split; by try intros [? ?].
  - intros p w. by destruct (fs_paths w !! p).
  - intros p w d. destruct (fs_paths w !! p) as [[d' m|]|] eqn:E; intros; simplify_eq. by exists m.
  - intros p m w w' e Hr q. sim_cases Hr; naive_solver.
  - intros p d m w w' e Hr. sim_cases Hr; [|by split].
    split; [apply same_but_insert|]. intros _. eexists. split; [by rewrite lookup_insert_eq|].
    unfold written. destruct (fs_paths w !! p) as [[]|]; try done; (exists m; split; [done|]; apply Z.ldiff_diag).
  - intros p w w' e Hr. sim_cases Hr; [|done]. destruct (fs_paths w !! p) eqn:E; simplify_eq; cbn; by rewrite ?Hv.
  - intros dir pre w w' r Hr. sim_cases Hr; [|done].
    destruct (sim_temp_fresh dir pre v) as [Hs Hn]. rewrite Hv in Hn. split_and!; [done..|by eexists].
  - intros src dst w w' e Hr. sim_cases Hr; [|by split; [apply same_but_insert|]].
    destruct (fs_paths w !! src) as [[d m|]|] eqn:E; simplify_eq; cbn; rewrite ?Hv; [|by split..].
    split; [apply same_but_insert|]. intros _. eexists d, m, _. split; [done|]. by rewrite lookup_insert_eq.
  - intros p m w w' e Hr. sim_cases Hr; [|by split_and!].
    destruct (fs_paths w !! p) as [[d m'|]|] eqn:E; simplify_eq; cbn; rewrite ?Hv; [|by split_and!..].
    split_and!; [apply same_but_insert| |done]. intros _. exists d, m'. split; [done|]. by rewrite lookup_insert_eq.
  - intros src dst w w' e Hr. sim_cases Hr; [|done].
    destruct (fs_paths w !! src) eqn:E; simplify_eq; cbn; rewrite ?Hv; eauto.
Defined.

(** ** A host with more state than its files *)

Definition on_fst {W X A} (f : W → W * A) (wx : W * X) : (W * X) * A :=
  let '(w, x) := wx in let '(w', r) := f w in ((w', x), r).

Definition lift_os {W} (X : Type) (O : Os W) : Os (W * X) := {|
  os_Stat p wx := os_Stat O p wx.1;
  os_Open p wx := os_Open O p wx.1;
  os_ReadFile p wx := os_ReadFile O p wx.1;
  os_MkdirAll p m := on_fst (os_MkdirAll O p m);
  os_WriteFile p d m := on_fst (os_WriteFile O p d m);
  os_Remove p := on_fst (os_Remove O p);
  os_CreateTemp d p := on_fst (os_CreateTemp O d p);
  os_CopyFile s d := on_fst (os_CopyFile O s d);
  os_Chmod p m := on_fst (os_Chmod O p m);
  os_Rename s d := on_fst (os_Rename O s d);
|}.

Lemma on_fst_inv {W X A} (f : W → W * A) (wx wx' : W * X) r :
  on_fst f wx = (wx', r) → f wx.1 = (wx'.1, r) ∧ wx'.2 = wx.2.
Proof. destruct wx as [w x]. cbn. destruct (f w) eqn:E. intros; by simplify_eq. Qed.

#[export] Instance lift_os_host {W X} (O : Os W) `{!FileHost O} : FileHost (lift_os X O).
Proof.
  refine {| paths := λ wx : W * X, paths wx.1 |}; cbn [lift_os os_Stat os_Open os_ReadFile os_MkdirAll os_WriteFile
    os_Remove os_CreateTemp os_CopyFile os_Chmod os_Rename]; intros;
    repeat match goal with Hf : on_fst _ _ = _ |- _ => apply on_fst_inv in Hf as [Hf _] end.
  - apply fh_stat.
  - by apply fh_open.
  - by apply fh_read.
  - by eapply fh_mkdir.
  - by eapply fh_write.
  - by eapply fh_remove.
  - by eapply fh_temp.
  - by eapply fh_copy.
  - by eapply fh_chmod.
  - by eapply fh_rename.
Defined.
