(* ===== verification/GoRegexp.v ===== *)
(** * Regular expressions: the part of [regexp] that the redactor uses

    A text is matched rune by rune ([runes]: the bytes of each rune, an invalid
    byte standing alone).  An expression is a sequence of items; [run] lists the
    places where a match can end, in the order a backtracking search of a Perl
    expression would find them, which is the order Go's leftmost-first semantics
    prefers.  [replaceAll] is [ReplaceAllString] for expressions that do not
    match the empty text, with a kept group at the front. *)

From S2P Require Import Prelude GoFloat GoStrings GoJson.

(** ** Runes *)

Fixpoint runes_go (fuel : nat) (s : string) : list string :=
  match fuel, s with
  | S m, String a r =>
      match rune_len s with
      | S (S k) => take (S (S k)) s :: runes_go m (drop (S (S k)) s)
      | _ => String a "" :: runes_go m r
      end
  | _, _ => []
  end.

(** A rune takes at least one byte, so the length bounds their number. *)
Definition runes (s : string) : list string := runes_go (String.length s) s.

(** ** Expressions *)

Definition rset : Type := string → bool.

Inductive item : Type :=
  | ISet (p : rset)
  | IOpt (p : rset)
  | IStar (greedy : bool) (p : rset)
  | IAlt (words : list (list rset))
  | IBol | IEol | IWord.

(** A place in the text: the runes before it, nearest first, and after it. *)
Definition place : Type := list string * list string.

Definition is_newline (c : string) : bool := String.eqb c nl.

(** [\w] of the word boundary is ASCII. *)
Definition word_rune (c : string) : bool :=
  match c with
  | String a EmptyString =>
      let n := code a in (between 48 57 n || between 65 90 n || between 97 122 n || (n =? 95))%Z
  | _ => false
  end.

Definition word_at (l : list string) : bool := match l with c :: _ => word_rune c | [] => false end.

Fixpoint star_ends (p : rset) (b r : list string) : list place :=
  match r with
  | c :: r' => (b, r) :: (if p c then star_ends p (c :: b) r' else [])
  | [] => [(b, r)]
  end.

Fixpoint word_run (w : list rset) (b r : list string) : list place :=
  match w, r with
  | [], _ => [(b, r)]
  | p :: w', c :: r' => if p c then word_run w' (c :: b) r' else []
  | _ :: _, [] => []
  end.

Definition set_run (p : rset) (b r : list string) : list place :=
  match r with c :: r' => if p c then [(c :: b, r')] else [] | [] => [] end.

Definition item_run (it : item) (z : place) : list place :=
  let '(b, r) := z in
  match it with
  | ISet p => set_run p b r
  | IOpt p => set_run p b r ++ [z]
  | IStar greedy p => let l := star_ends p b r in if greedy then rev l else l
  | IAlt ws => ws ≫= λ w, word_run w b r
  | IBol => match b with [] => [z] | c :: _ => if is_newline c then [z] else [] end
  | IEol => match r with [] => [z] | c :: _ => if is_newline c then [z] else [] end
  | IWord => if Bool.eqb (word_at b) (word_at r) then [] else [z]
  end.

Fixpoint run (its : list item) (z : place) : list place :=
  match its with
  | [] => [z]
  | it :: its' => item_run it z ≫= run its'
  end.

(** An expression whose first part, the group, is kept by a replacement. *)
Record regex := mkRegex { re_group : list item; re_rest : list item }.

(** The preferred match at a place: how many runes the group and the rest take. *)
Definition match_at (e : regex) (z : place) : option (nat * nat) :=
  head (run (re_group e) z ≫= λ z1, (λ z2 : place, (length z1.1 - length z.1, length z2.1 - length z1.1)%nat) <$> run (re_rest e) z1).

Fixpoint replace (e : regex) (ph : list string) (b r : list string) (skip : nat) : list string :=
  match r with
  | [] => []
  | c :: r' =>
      match skip with
      | S k => replace e ph (c :: b) r' k
      | O =>
          match match_at e (b, r) with
          | Some (n, m) => list.take n r ++ ph ++ replace e ph (c :: b) r' (n + m - 1)
          | None => c :: replace e ph (c :: b) r' 0
          end
      end
  end.

Definition replaceAll (e : regex) (ph s : string) : string :=
  Concat (replace e (runes ph) [] (runes s) 0).

(** ** Building expressions *)

Definition one (a : ascii) : rset := λ c, String.eqb c (String a "").
Definition lit (s : string) : list item := (λ a, ISet (one a)) <$> String.list_ascii_of_string s.

Definition class (p : Z → bool) : rset := λ c, match c with String a EmptyString => p (code a) | _ => false end.

(** Case folding: besides the other case, Go folds the Kelvin sign to [k] and the
    long s to [s]. *)
Definition kelvin : string := encode_rune 8490.
Definition long_s : string := encode_rune 383.

Definition fold_rune (c : string) : string :=
  if String.eqb c kelvin then "k" else if String.eqb c long_s then "s"
  else match c with String a EmptyString => String (lower_char a) "" | _ => c end.

Definition folded (p : rset) : rset := λ c, p c || p (fold_rune c).
Definition word_ci (s : string) : list rset := (λ a c, String.eqb (fold_rune c) (String a "")) <$> String.list_ascii_of_string s.
Definition lit_ci (s : string) : list item := ISet <$> word_ci s.

Definition plus (p : rset) : list item := [ISet p; IStar true p].
Fixpoint at_least (n : nat) (p : rset) : list item := match n with O => [IStar true p] | S m => ISet p :: at_least m p end.

Definition space : rset := class (λ n, (n =? 9) || (n =? 10) || (n =? 12) || (n =? 13) || (n =? 32))%Z.
Definition not_space : rset := λ c, negb (space c).
Definition not_newline : rset := λ c, negb (is_newline c).
Definition any : rset := λ _, true.

(** ** What an expression matches

    Without anchors, the texts an expression matches do not depend on where they
    stand: [lang] is its language. *)

Definition anchor (it : item) : bool := match it with IBol | IEol | IWord => true | _ => false end.
Definition plain (its : list item) : Prop := Forall (λ it, anchor it = false) its.

Definition lang_item (it : item) (x : list string) : Prop :=
  match it with
  | ISet p => ∃ c, x = [c] ∧ p c = true
  | IOpt p => x = [] ∨ ∃ c, x = [c] ∧ p c = true
  | IStar _ p => Forall (λ c, p c = true) x
  | IAlt ws => ∃ w, w ∈ ws ∧ Forall2 (λ (p : rset) c, p c = true) w x
  | _ => False
  end.

Fixpoint lang (its : list item) (x : list string) : Prop :=
  match its with
  | [] => x = []
  | it :: its' => ∃ x1 x2, x = x1 ++ x2 ∧ lang_item it x1 ∧ lang its' x2
  end.

(** [z'] is [z] moved over the runes [x]. *)
Definition moved (x : list string) (z z' : place) : Prop := z.2 = x ++ z'.2 ∧ z'.1 = rev x ++ z.1.

Lemma moved_nil z : moved [] z z.
Proof. done. Qed.
Lemma moved_app x y z1 z2 z3 : moved x z1 z2 → moved y z2 z3 → moved (x ++ y) z1 z3.
Proof. intros [H1 H2] [H3 H4]. split; [by rewrite H1, H3, app_assoc|]. by rewrite H4, H2, rev_app_distr, app_assoc. Qed.
Lemma moved_cons c b r : moved [c] (b, c :: r) (c :: b, r).
Proof. done. Qed.

Lemma star_ends_spec p b r z : z ∈ star_ends p b r ↔ ∃ x, moved x (b, r) z ∧ Forall (λ c, p c = true) x.
Proof.
  revert b. induction r as [|c r IH]; intros b; cbn [star_ends].
  - rewrite list_elem_of_singleton. split; [intros ->; by exists []|].
    intros (x & [H1 H2] & _). symmetry in H1. apply app_eq_nil in H1 as [-> ?]. destruct z; by simplify_eq/=.
  - rewrite elem_of_cons. split.
    + intros [-> | Hz]; [by exists []|]. destruct (p c) eqn:Ep; [|by apply not_elem_of_nil in Hz].
      apply IH in Hz as (x & Hm & Hx). exists (c :: x). split; [|by constructor].
      by apply (moved_app [c] x _ (c :: b, r)).
    + intros (x & [H1 H2] & Hx). destruct x as [|d x]; [left; destruct z; by simplify_eq/=|]. right.
      cbn in H1. simplify_eq/=. apply Forall_cons in Hx as [-> Hx]. apply IH. exists x. split; [split; [done|]|done].
      cbn. by rewrite H2, <- app_assoc.
Qed.

Lemma word_run_spec w b r z : z ∈ word_run w b r ↔ ∃ x, moved x (b, r) z ∧ Forall2 (λ (p : rset) c, p c = true) w x.
Proof.
  revert b r. induction w as [|p w IH]; intros b r; cbn [word_run].
  - rewrite list_elem_of_singleton. split; [intros ->; by exists []|].
    intros (x & [H1 H2] & ->%Forall2_nil_inv_l). destruct z; by simplify_eq/=.
  - destruct r as [|c r].
    + split; [by intros ?%not_elem_of_nil|]. intros (x & [H1 _] & Hx). by inv Hx.
    + split.
      * intros Hz. destruct (p c) eqn:Ep; [|by apply not_elem_of_nil in Hz].
        apply IH in Hz as (x & Hm & Hx). exists (c :: x). split; [|by constructor]. by apply (moved_app [c] x _ (c :: b, r)).
      * intros (x & [H1 H2] & Hx). inv Hx. cbn in H1. simplify_eq/=. rewrite H3. apply IH. eexists. split; [split; [done|]|done].
        cbn. by rewrite H2, <- app_assoc.
Qed.

Lemma set_run_spec p b r z : z ∈ set_run p b r ↔ ∃ c, moved [c] (b, r) z ∧ p c = true.
Proof.
  unfold set_run. destruct r as [|c r].
  - split; [by intros ?%not_elem_of_nil|]. by intros (c & [H1 _] & _).
  - split.
    + destruct (p c) eqn:Ep; [|by intros ?%not_elem_of_nil]. intros ->%list_elem_of_singleton. by exists c.
    + intros (d & [H1 H2] & Hp). destruct z as [b' r']. simplify_eq/=. rewrite Hp. by apply list_elem_of_singleton.
Qed.

Lemma elem_of_rev {A} (x : A) l : x ∈ rev l ↔ x ∈ l.
Proof. rewrite rev_alt. apply elem_of_reverse. Qed.

Lemma item_run_spec it z z' : anchor it = false → z' ∈ item_run it z ↔ ∃ x, moved x z z' ∧ lang_item it x.
Proof.
  intros Ha. destruct z as [b r], it as [p|p|g p|ws| | |]; try done; cbn [item_run lang_item].
  - rewrite set_run_spec. naive_solver.
  - rewrite elem_of_app, set_run_spec, list_elem_of_singleton. split.
    + intros [? | ->]; [naive_solver|]. exists []. auto using moved_nil.
    + intros (x & Hm & [->|(c & -> & Hp)]); [right|left; eauto]. destruct z', Hm; by simplify_eq/=.
  - destruct g; rewrite ?elem_of_rev, star_ends_spec; done.
  - rewrite list_elem_of_bind. setoid_rewrite word_run_spec. naive_solver.
Qed.

Lemma elem_of_run_cons it its z z' : z' ∈ run (it :: its) z ↔ ∃ z1, z1 ∈ item_run it z ∧ z' ∈ run its z1.
Proof. cbn [run]. rewrite list_elem_of_bind. naive_solver. Qed.

Lemma run_spec its z z' : plain its → z' ∈ run its z ↔ ∃ x, moved x z z' ∧ lang its x.
Proof.
  intros Hp. revert z. induction Hp as [|it its Hit Hits IH]; intros z.
  - cbn. rewrite list_elem_of_singleton. split; [intros ->; by exists []|].
    intros (x & [H1 H2] & ->). destruct z, z'; by simplify_eq/=.
  - rewrite elem_of_run_cons. split.
    + intros (z1 & (x1 & M1 & L1)%item_run_spec & (x2 & M2 & L2)%IH); [|done].
      exists (x1 ++ x2). split; [by eapply moved_app|]. by exists x1, x2.
    + intros (x & [H1 H2] & x1 & x2 & -> & L1 & L2). exists (rev x1 ++ z.1, x2 ++ z'.2). split.
      * apply item_run_spec; [done|]. exists x1. split; [split; [by rewrite H1, <- app_assoc|done]|done].
      * apply IH. exists x2. split; [split; [done|by rewrite H2, rev_app_distr, <- app_assoc]|done].
Qed.

Lemma item_run_moved it z z' : z' ∈ item_run it z → ∃ x, moved x z z'.
Proof.
  destruct (anchor it) eqn:Ha; [|intros (x & Hm & _)%item_run_spec; eauto].
  intros Hz. exists []. destruct z as [b r], it; try done; cbn in Hz;
    repeat case_match; apply list_elem_of_singleton in Hz || apply not_elem_of_nil in Hz; by subst.
Qed.

Lemma run_moved its z z' : z' ∈ run its z → ∃ x, moved x z z'.
Proof.
  revert z. induction its as [|it its IH]; intros z.
  - intros ->%list_elem_of_singleton. by exists [].
  - intros (z1 & [x1 M1]%item_run_moved & [x2 M2]%IH)%elem_of_run_cons. eauto using moved_app.
Qed.

(** A match: the group takes [a], the rest takes [v]. *)
Definition candidate (e : regex) (a v : list string) (z : place) : Prop :=
  ∃ z1 z2, z1 ∈ run (re_group e) z ∧ moved a z z1 ∧ z2 ∈ run (re_rest e) z1 ∧ moved v z1 z2.

Lemma moved_length x z z' : moved x z z' → (length z'.1 - length z.1)%nat = length x.
Proof. intros [_ ->]. rewrite length_app, length_rev. lia. Qed.

Lemma match_at_None e z : match_at e z = None ↔ ∀ a v, ¬ candidate e a v z.
Proof.
  unfold match_at. rewrite head_None. split.
  - intros Hn a v (z1 & z2 & H1 & _ & H2 & _).
    assert (∃ y, y ∈ run (re_group e) z ≫= λ z1, (λ z2 : place, (length z1.1 - length z.1, length z2.1 - length z1.1)%nat) <$> run (re_rest e) z1)
      as [y Hy]; [|rewrite Hn in Hy; by apply not_elem_of_nil in Hy].
    eexists. apply list_elem_of_bind. exists z1. split; [|done]. by apply list_elem_of_fmap_2.
  - intros Hc. apply elem_of_nil_inv. intros y (z1 & (z2 & -> & H2)%list_elem_of_fmap & H1)%list_elem_of_bind.
    destruct (run_moved _ _ _ H1) as [a Ma], (run_moved _ _ _ H2) as [v Mv]. apply (Hc a v). by exists z1, z2.
Qed.

Lemma match_at_Some e b r n m :
  match_at e (b, r) = Some (n, m) →
  ∃ a v i, r = a ++ v ++ i ∧ length a = n ∧ length v = m ∧ candidate e a v (b, r).
Proof.
  unfold match_at. intros Hh%head_Some_elem_of.
  apply list_elem_of_bind in Hh as (z1 & (z2 & Heq & H2)%list_elem_of_fmap & H1).
  destruct (run_moved _ _ _ H1) as [a Ma], (run_moved _ _ _ H2) as [v Mv].
  rewrite (moved_length _ _ _ Ma), (moved_length _ _ _ Mv) in Heq. simplify_eq.
  destruct Ma as [M1 M2], Mv as [M3 M4]. exists a, v, z2.2. split_and!; [by rewrite <- M3, <- M1|done..|].
  exists z1, z2. split_and!; done.
Qed.

(** ** Replacement as a relation

    The output of [replace], place by place: a rune is copied where nothing
    matches, and a match keeps its group and has the rest replaced. *)

Inductive subst (e : regex) (ph : list string) : list string → list string → list string → Prop :=
  | subst_nil b : subst e ph b [] []
  | subst_copy b c i o :
      match_at e (b, c :: i) = None → subst e ph (c :: b) i o → subst e ph b (c :: i) (c :: o)
  | subst_match b a v i o :
      match_at e (b, a ++ v ++ i) = Some (length a, length v) → candidate e a v (b, a ++ v ++ i) → v ≠ [] →
      subst e ph (rev v ++ rev a ++ b) i o → subst e ph b (a ++ v ++ i) (a ++ ph ++ o).

(** The part after the group never matches the empty text. *)
Definition consumes (e : regex) : Prop := ∀ a v z, candidate e a v z → v ≠ [].

Lemma replace_skip e ph b x r : replace e ph b (x ++ r) (length x) = replace e ph (rev x ++ b) r 0.
Proof. revert b. induction x as [|c x IH]; intros b; [done|]. cbn. by rewrite IH, <- app_assoc. Qed.

Lemma replace_subst e ph b r : consumes e → subst e ph b r (replace e ph b r 0).
Proof.
  intros He. remember (length r) as n eqn:Hn. revert b r Hn.
  induction n as [n IH] using lt_wf_ind. intros b r ->. destruct r as [|c r]; [constructor|]. cbn [replace].
  destruct (match_at e (b, c :: r)) as [[k m]|] eqn:Em.
  - pose proof Em as (a & v & i & Hr & <- & <- & Hc)%match_at_Some. pose proof (He _ _ _ Hc) as Hv.
    assert (0 < length v)%nat by (destruct v; cbn; [done|lia]).
    assert (replace e ph (c :: b) r (length a + length v - 1) = replace e ph (rev v ++ rev a ++ b) i 0) as ->.
    { rewrite app_assoc, <- rev_app_distr, <- replace_skip, <- app_assoc, <- Hr.
      destruct (a ++ v) as [|d y] eqn:Ey; [apply app_eq_nil in Ey as [_ ?]; done|].
      apply (f_equal length) in Ey. rewrite length_app in Ey. rewrite Ey. cbn. by rewrite Nat.sub_0_r. }
    rewrite Hr in *. rewrite take_app_length. apply subst_match; try done.
    eapply (IH (length i)); [|done]. rewrite !length_app. lia.
  - apply subst_copy; [done|]. apply (IH (length r)); cbn; auto.
Qed.

(** ** Following a replacement

    [sync P ph b bo i o]: the output [o] after [bo] came from the input [i] after
    [b] by copying runes and by putting [ph] for values that satisfy [P]. *)

Section sync.
Context (P : list string → list string → list string → Prop) (ph : list string).

Inductive sync : list string → list string → list string → list string → Prop :=
  | sync_nil b bo : sync b bo [] []
  | sync_copy b bo c i o : sync (c :: b) (c :: bo) i o → sync b bo (c :: i) (c :: o)
  | sync_sub b bo v i o : P b v i → v ≠ [] → sync (rev v ++ b) (rev ph ++ bo) i o → sync b bo (v ++ i) (ph ++ o).

(** The runes before a place are the same on both sides, or a value on the input
    side and the placeholder on the output side. *)
Definition linked (b bo i : list string) : Prop :=
  head b = head bo ∨ ∃ v b0, b = rev v ++ b0 ∧ P b0 v i ∧ v ≠ [] ∧ head bo = head (rev ph).

Lemma sync_copies b bo x i o : sync (rev x ++ b) (rev x ++ bo) i o → sync b bo (x ++ i) (x ++ o).
Proof.
  revert b bo. induction x as [|c x IH]; intros b bo Hs; [done|]. cbn in *. rewrite <- !app_assoc in Hs.
  constructor. by apply IH.
Qed.

Lemma head_rev_app {A} (l b : list A) : l ≠ [] → head (rev l ++ b) = head (rev l).
Proof. intros Hl. destruct (rev l) eqn:E; [|done]. destruct Hl. rewrite <- (rev_involutive l). by rewrite E. Qed.

(** A place of the output is a place of the input, or lies within a placeholder. *)
Lemma sync_split b bo i o o1 o2 :
  ph ≠ [] → sync b bo i o → linked b bo i → o = o1 ++ o2 →
  (∃ i1 i2, i = i1 ++ i2 ∧ sync (rev i1 ++ b) (rev o1 ++ bo) i2 o2 ∧ linked (rev i1 ++ b) (rev o1 ++ bo) i2) ∨
  (∃ p s o3, ph = p ++ s ∧ p ≠ [] ∧ s ≠ [] ∧ o2 = s ++ o3).
Proof.
  intros Hph Hs. revert o1 o2. induction Hs as [b bo|b bo c i o Hs IH|b bo v i o Hv Hne Hs IH]; intros o1 o2 Hl Ho.
  - symmetry in Ho. apply app_eq_nil in Ho as [-> ->]. left. exists [], []. split_and!; [done|constructor|done].
  - destruct o1 as [|d o1]; cbn in Ho; simplify_eq.
    { left. exists [], (c :: i). split_and!; [done|by constructor|done]. }
    destruct (IH o1 o2) as [(i1 & i2 & -> & H1 & H2)|H3]; [by left|done| |by right].
    left. exists (d :: i1), i2. cbn. rewrite <- !app_assoc. by split_and!.
  - destruct (decide (o1 = [])) as [->|H1].
    { left. exists [], (v ++ i). cbn in *. subst. split_and!; [done|by constructor|done]. }
    assert (linked (rev v ++ b) (rev ph ++ bo) i) as Hl'.
    { right. exists v, b. split_and!; try done. by apply head_rev_app. }
    apply app_eq_app in Ho as (l & [[Hp ->]|[-> ->]]).
    + destruct (decide (l = [])) as [->|Hn]; [|right; by exists o1, l, o].
      rewrite app_nil_r in Hp. subst o1. left. exists v, i. by split_and!.
    + destruct (IH l o2) as [(i1 & i2 & -> & H2 & H3)|H3]; [done|done| |by right].
      left. exists (v ++ i1), i2. rewrite !rev_app_distr, <- !app_assoc. by split_and!.
Qed.

Lemma sync_inv b bo i o : sync b bo i o →
  (i = [] ∧ o = []) ∨ (∃ c i' o', i = c :: i' ∧ o = c :: o' ∧ sync (c :: b) (c :: bo) i' o') ∨
  (∃ d v i' o', i = d :: v ++ i' ∧ o = ph ++ o' ∧ P b (d :: v) i').
Proof.
  intros [|? ? c i' o' Hs|? ? [|d v] i' o' Hp Hv Hs]; [by left|right; left..|by right; right; exists d, v, i', o']; [|done].
  by exists c, i', o'.
Qed.

(** Output runes that the placeholder does not begin with were copied. *)
Lemma sync_run b bo x i o2 d ph' :
  ph = d :: ph' → sync b bo i (x ++ o2) → Forall (λ c, c ≠ d) x →
  ∃ i2, i = x ++ i2 ∧ sync (rev x ++ b) (rev x ++ bo) i2 o2.
Proof.
  intros Hph. revert b bo i. induction x as [|c x IH]; intros b bo i Hs Hx; [by exists i|].
  apply Forall_cons in Hx as [Hc Hx]. cbn in Hs.
  inversion Hs as [|? ? ? i' ? Hs'|? ? v ? ? Hp Hv Hs' E1 E2 Hi Ho]; simplify_eq.
  - destruct (IH _ _ _ Hs' Hx) as (i2 & -> & Hs2). exists i2. split; [done|]. cbn. by rewrite <- !app_assoc.
  - rewrite Hph in Ho. by simplify_eq/=.
Qed.
End sync.

(** What was replaced where, for an expression. *)
Definition replaced (e : regex) (b v i : list string) : Prop :=
  ∃ a b0, b = rev a ++ b0 ∧ candidate e a v (b0, a ++ v ++ i) ∧ match_at e (b0, a ++ v ++ i) = Some (length a, length v).

Lemma subst_sync e ph b bo i o : subst e ph b i o → sync (replaced e) ph b bo i o.
Proof.
  intros Hs. revert bo. induction Hs as [b|b c i o Hm Hs IH|b a v i o Hm Hc Hv Hs IH]; intros bo.
  - constructor.
  - by constructor.
  - apply sync_copies. apply sync_sub; [by exists a, b|done|done].
Qed.

(** ** Decoding again

    A replacement by ASCII runes leaves the runes around it as they were: decoding
    its output yields the runes it was built from. *)

Definition blen : string → nat := String.length.
Definition single (c : string) : Prop := blen c = 1%nat.
Definition rune_chunk (c : string) : Prop := single c ∨ (2 ≤ blen c ∧ rune_len c = blen c)%nat.

(** No neighbouring stray bytes form a rune. *)
Definition no_merge (l : list string) : Prop :=
  ∀ p x q, l = p ++ x ++ q → (2 ≤ length x)%nat → Forall single x → rune_len (Concat x) ≠ blen (Concat x).

Definition decoded (l : list string) : Prop := Forall rune_chunk l ∧ no_merge l.

Lemma rune_len_app s t : rune_len s = blen s → s ≠ "" → rune_len (s +:+ t) = blen s.
Proof.
  destruct s as [|a [|b [|c [|d [|e s]]]]]; rewrite ?sapp_cons, ?sapp_nil_l; cbn -[between cont Z.eqb Z.ltb];
    intros H1 H2; try done;
    repeat (case_match; try done; try discriminate).
Qed.

(** The bytes of a rune of two or more bytes: a lead, then continuation bytes. *)
Ltac rune_cases r Hr :=
  destruct r as [|? [|? [|? r]]]; unfold rune_len in Hr; cbv zeta in Hr; repeat (case_match; try done; try discriminate);
  simplify_eq.

Lemma cont_between lo a : (128 ≤ lo)%Z → between lo 191 (code a) = true → cont a = true.
Proof. unfold cont, between. intros Hlo H. bools. by rewrite !(proj2 (Z.leb_le _ _)) by lia. Qed.
Lemma cont_between' hi a : (hi ≤ 191)%Z → between 128 hi (code a) = true → cont a = true.
Proof. unfold cont, between. intros Hlo H. bools. by rewrite !(proj2 (Z.leb_le _ _)) by lia. Qed.

Lemma rune_lead a r k : rune_len (String a r) = S (S k) → cont a = false.
Proof.
  intros Hr. unfold cont. assert (192 ≤ code a)%Z; [|unfold between; apply andb_false_iff; right; by apply Z.leb_gt; lia].
  rune_cases r Hr; unfold between in *; bools; lia.
Qed.

Lemma rune_tail a r k : rune_len (String a r) = S (S k) →
  s_forall cont (take (S k) r) = true ∧ blen (take (S k) r) = S k.
Proof.
  intros Hr. rune_cases r Hr; bools; cbn [take s_forall blen String.length]; rewrite ?andb_true_iff; split_and!; try done;
    first [eapply cont_between; [|eassumption]; lia | eapply cont_between'; [|eassumption]; lia | exfalso; lia].
Qed.

Lemma rune_take a r k : rune_len (String a r) = S (S k) → rune_len (String a (take (S k) r)) = S (S k).
Proof.
  intros Hr. rune_cases r Hr; cbn [take]; unfold rune_len;
    repeat match goal with H : ?x = true |- _ => rewrite H | H : ?x = false |- _ => rewrite H end; done.
Qed.

Lemma single_inv c : single c → ∃ a, c = String a "".
Proof. unfold single, blen. destruct c as [|a [|b c]]; cbn; [done| |done]. by exists a. Qed.

Lemma multi_inv c : (2 ≤ blen c ∧ rune_len c = blen c)%nat → ∃ a r k, c = String a r ∧ rune_len c = S (S k) ∧ blen c = S (S k).
Proof.
  unfold blen. intros [H1 H2]. destruct c as [|a [|b r]]; cbn in H1; [lia..|].
  exists a, (String b r), (String.length r). split_and!; [done|by rewrite H2|done].
Qed.

(** Continuation bytes are runes of their own. *)
Lemma cont_singles m l :
  Forall rune_chunk l → s_forall cont (take m (Concat l)) = true → blen (take m (Concat l)) = m →
  ∃ x q, l = x ++ q ∧ Forall single x ∧ length x = m ∧ Concat x = take m (Concat l).
Proof.
  revert l. induction m as [|m IH]; intros l Hl Hc Hn.
  { exists [], l. split_and!; by destruct (Concat l). }
  destruct Hl as [|c l [Hs|Hm] Hl]; [done| |].
  - pose proof Hs as [a ->]%single_inv. cbn [Concat] in *. rewrite sapp_cons, sapp_nil_l in *. cbn in Hc, Hn. simplify_eq.
    apply andb_true_iff in Hc as [_ Hc].
    destruct (IH l) as (x & q & -> & Hx & <- & Hcx); [done..|]. exists (String a "" :: x), q. split_and!; try done.
    + by constructor.
    + cbn [Concat]. by rewrite Hcx.
  - apply multi_inv in Hm as (a & r & k & -> & Hr & _). apply rune_lead in Hr. cbn [Concat] in Hc. rewrite sapp_cons in Hc.
    cbn -[cont] in Hc. by rewrite Hr in Hc.
Qed.

Lemma no_merge_app l k : no_merge (l ++ k) → no_merge k.
Proof. intros Hn p x q ->. apply (Hn (l ++ p) x q). by rewrite app_assoc. Qed.

Lemma runes_go_decoded n l : decoded l → (blen (Concat l) ≤ n)%nat → runes_go n (Concat l) = l.
Proof.
  revert n. induction l as [|c l IH]; intros n [Hf Hn] Hlen; [by destruct n|].
  apply Forall_cons in Hf as [Hc Hf]. assert (decoded l) as Hl by (split; [done|]; by apply (no_merge_app [c])).
  cbn [Concat] in *. unfold blen in *. rewrite slength_app in Hlen. destruct Hc as [Hs|Hm].
  - pose proof Hs as [a ->]%single_inv. rewrite sapp_cons, sapp_nil_l in *. cbn in Hlen. destruct n as [|n]; [lia|].
    cbn [runes_go]. rewrite IH by (done || lia).
    destruct (rune_len (String a (Concat l))) as [|[|k]] eqn:Er; [done..|]. exfalso.
    pose proof (rune_tail _ _ _ Er) as [Ht1 Ht2]. apply rune_take in Er.
    destruct (cont_singles _ _ Hf Ht1 Ht2) as (x & q & -> & Hx & Hlx & Hcx).
    apply (Hn [] (String a "" :: x) q); [done|cbn; lia|by constructor|]. cbn [Concat]. rewrite sapp_cons, sapp_nil_l, Hcx.
    rewrite Er. unfold blen in *. cbn [String.length]. by rewrite Ht2.
  - apply multi_inv in Hm as (a & r & k & -> & Hr & Hb). unfold blen in Hb. destruct n as [|n]; [cbn in *; lia|].
    rewrite sapp_cons. cbn [runes_go]. rewrite <- sapp_cons, rune_len_app by (rewrite ?Hr; done). unfold blen. rewrite Hb.
    f_equal; [by rewrite <- Hb, take_app|]. rewrite <- Hb, drop_app. apply IH; [done|]. lia.
Qed.

Lemma runes_Concat l : decoded l → runes (Concat l) = l.
Proof. intros Hl. by apply runes_go_decoded. Qed.

Lemma take_drop_id n s : take n s +:+ drop n s = s.
Proof. revert s. induction n as [|n IH]; intros [|a s]; try done. cbn. by rewrite sapp_cons, IH. Qed.

(** One step of decoding: a rune and what follows it. *)
Lemma runes_go_cons n a r : ∃ c s', runes_go (S n) (String a r) = c :: runes_go n s' ∧ String a r = c +:+ s' ∧
  rune_chunk c ∧ (single c → ∀ k, rune_len (String a r) ≠ S (S k)).
Proof.
  cbn [runes_go]. destruct (rune_len (String a r)) as [|[|k]] eqn:Er.
  1,2: exists (String a ""), r; split_and!; [done..|by left|done].
  exists (take (S (S k)) (String a r)), (drop (S (S k)) (String a r)). pose proof (rune_tail _ _ _ Er) as [_ Ht].
  unfold rune_chunk, single, blen in *. cbn [take String.length] in *. split_and!.
  - done.
  - by rewrite <- (take_drop_id (S (S k)) (String a r)) at 1.
  - right. rewrite Ht. split; [lia|]. by apply rune_take.
  - by rewrite Ht.
Qed.

Lemma runes_go_spec n s : (blen s ≤ n)%nat → Concat (runes_go n s) = s ∧ Forall rune_chunk (runes_go n s) ∧
  ∀ p l, runes_go n s = p ++ l → ∃ m, (blen (Concat l) ≤ m)%nat ∧ l = runes_go m (Concat l).
Proof.
  unfold blen. revert s. induction n as [|n IH]; intros [|a r] Hn.
  1,3: split_and!; [done|constructor|]; intros p l Hpl; symmetry in Hpl; apply app_eq_nil in Hpl as [_ ->]; by exists 0%nat.
  { cbn in Hn. lia. }
  destruct (runes_go_cons n a r) as (c & s' & Heq & Hs & Hc & _).
  assert (String.length s' ≤ n)%nat as Hn'.
  { rewrite Hs, slength_app in Hn. destruct Hc as [Hc|[Hc _]]; unfold single, blen in Hc; lia. }
  destruct (IH s' Hn') as (H1 & H2 & H3). rewrite Heq. split_and!; [by cbn; rewrite H1|by constructor|].
  intros [|d p] l Hpl; cbn in Hpl; [|simplify_eq; by apply (H3 p)]. subst l. exists (S n). cbn [Concat]. rewrite H1, <- Hs.
  done.
Qed.

Lemma Concat_app l k : Concat (l ++ k) = Concat l +:+ Concat k.
Proof. induction l as [|s l IH]; [done|]. cbn [app Concat]. by rewrite IH, sapp_assoc. Qed.

Lemma runes_decoded s : decoded (runes s) ∧ Concat (runes s) = s.
Proof.
  destruct (runes_go_spec (String.length s) s) as (H1 & H2 & H3); [done|]. split; [|done]. split; [done|].
  intros p x q Hx Hlen Hs Hr. destruct (H3 p (x ++ q) Hx) as (m & Hm & Hl).
  destruct Hs as [|c x Hc Hs]; [cbn in Hlen; lia|]. pose proof Hc as [a ->]%single_inv.
  assert (Concat (((String a "") :: x) ++ q) = String a (Concat (x ++ q))) as He by done.
  rewrite He in *. unfold blen in *. destruct m as [|m]; [cbn in Hm; lia|].
  destruct (runes_go_cons m a (Concat (x ++ q))) as (c2 & s2 & Heq & _ & _ & Hk). rewrite Heq in Hl. cbn in Hl. simplify_eq.
  destruct x as [|d x]; [cbn in Hlen; lia|].
  rewrite Concat_app, <- sapp_cons in Hk. 
  assert (String a (Concat (d :: x)) = Concat (String a "" :: d :: x)) as Ha by done. rewrite Ha, rune_len_app in Hk; [|done|done].
  apply Forall_cons in Hs as [Hd _]. apply single_inv in Hd as [b ->]. unfold blen in Hk. cbn in Hk. by eapply Hk.
Qed.

Definition ascii_rune (c : string) : Prop := ∃ a, c = String a "" ∧ (code a < 128)%Z.
Definition high (a : ascii) : bool := (128 <=? code a)%Z.

Lemma ascii_not_high c : ascii_rune c → ¬ (∃ a, c = String a "" ∧ high a = true).
Proof. unfold high. intros (a & -> & Ha) (b & ? & Hb). simplify_eq. bools. lia. Qed.

Lemma singles_forall f x : Forall single x → s_forall f (Concat x) = true → Forall (λ c, ∃ a, c = String a "" ∧ f a = true) x.
Proof.
  induction 1 as [|c x Hc Hx IH]; [done|]. pose proof Hc as [a ->]%single_inv.
  cbn [Concat]. rewrite sapp_cons, sapp_nil_l. cbn. intros [Ha Hr]%andb_true_iff. constructor; eauto.
Qed.

Lemma take_all s : take (String.length s) s = s.
Proof. induction s as [|a s IH]; [done|]. cbn. by rewrite IH. Qed.

(** The bytes of a rune of several bytes are not ASCII. *)
Lemma merged_high x : Forall single x → (2 ≤ length x)%nat → rune_len (Concat x) = blen (Concat x) →
  Forall (λ c, ∃ a, c = String a "" ∧ high a = true) x.
Proof.
  intros Hs Hl Hr. apply singles_forall; [done|].
  destruct Hs as [|c x Hc [|d x' Hd Hs]]; [cbn in Hl; lia..|].
  pose proof Hc as [a ->]%single_inv. pose proof Hd as [b ->]%single_inv. unfold blen in Hr.
  cbn [Concat] in *. rewrite !sapp_cons, !sapp_nil_l in *. cbn [String.length] in Hr.
  set (r := String b (Concat x')) in *. pose proof (rune_tail _ _ _ Hr) as [Ht _].
  change (S (String.length (Concat x'))) with (String.length r) in Ht. rewrite take_all in Ht.
  cbn [s_forall]. apply andb_true_iff. split.
  - unfold high. apply Z.leb_le. unfold rune_len in Hr. destruct (code a <? 128)%Z eqn:Ea; [done|]. by bools.
  - eapply s_forall_impl; [|exact Ht]. unfold cont, between, high. intros e He. bools. by apply Z.leb_le.
Qed.

Lemma sync_chunks P ph b bo i o : Forall rune_chunk ph → sync P ph b bo i o → Forall rune_chunk i → Forall rune_chunk o.
Proof.
  intros Hph. induction 1 as [| |b bo v i o Hv Hne Hs IH]; [done| |].
  - rewrite !Forall_cons. naive_solver.
  - rewrite !Forall_app. naive_solver.
Qed.

Lemma sync_decoded P ph i o d ph' :
  ph = d :: ph' → Forall ascii_rune ph → sync P ph [] [] i o → decoded i → decoded o.
Proof.
  intros Hph Ha Hs [Hi Hm]. split.
  - eapply sync_chunks; [|done|done]. eapply Forall_impl; [exact Ha|]. intros c (a & -> & _). by left.
  - intros p x q -> Hl Hx Hr. pose proof (merged_high _ Hx Hl Hr) as Hh.
    destruct (sync_split P ph [] [] i (p ++ x ++ q) p (x ++ q)) as [(i1 & i2 & -> & Hs' & _)|(p' & s & o3 & Hps & _ & Hs' & He)];
      [by rewrite Hph|done|by left|done| |].
    + eapply sync_run in Hs' as (i3 & -> & _); [|done|].
      * by eapply (Hm i1 x i3).
      * eapply Forall_impl; [exact Hh|]. intros c Hc ->. eapply ascii_not_high; [|exact Hc].
        rewrite Hph in Ha. by apply Forall_cons in Ha as [? _].
    + destruct s as [|c s]; [done|]. destruct Hh as [|c' x Hc Hh]; [cbn in Hl; lia|]. cbn in He. simplify_eq.
      eapply ascii_not_high; [|exact Hc]. rewrite Hps in Ha. apply Forall_app in Ha as [_ Ha]. by apply Forall_cons in Ha as [? _].
Qed.

(** A pass over text is a pass over its runes, and leaves runes. *)
Lemma replaceAll_runes e ph s d ph' :
  consumes e → runes ph = d :: ph' → Forall ascii_rune (runes ph) →
  ∃ o, runes (replaceAll e ph s) = o ∧ subst e (runes ph) [] (runes s) o.
Proof.
  intros He Hph Ha. pose proof (replace_subst e (runes ph) [] (runes s) He) as Hs. eexists. split; [|exact Hs].
  unfold replaceAll. apply runes_Concat. eapply sync_decoded; [done|done| |apply runes_decoded]. by apply subst_sync.
Qed.

(** ** Shapes of languages *)

(** Every rune an expression matches satisfies [Q]. *)
Definition item_within (Q : string → Prop) (it : item) : Prop :=
  match it with
  | ISet p | IOpt p | IStar _ p => ∀ c, p c = true → Q c
  | IAlt ws => Forall (Forall (λ p : rset, ∀ c, p c = true → Q c)) ws
  | _ => True
  end.

Lemma lang_Forall (Q : string → Prop) its x : Forall (item_within Q) its → lang its x → Forall Q x.
Proof.
  intros Hi. revert x. induction Hi as [|it its Hit Hits IH]; intros x Hx; cbn in Hx; [by subst|].
  destruct Hx as (x1 & x2 & -> & H1 & H2). apply Forall_app. split; [|by apply IH].
  destruct it as [p|p|g p|ws| | |]; cbn in *; try done.
  - destruct H1 as (c & -> & Hc). constructor; auto.
  - destruct H1 as [->|(c & -> & Hc)]; [done|]. constructor; auto.
  - eapply Forall_impl; [exact H1|]. auto.
  - destruct H1 as (w & Hw & H2w). eapply Forall_forall in Hit; [|done].
    clear Hw. revert Hit. induction H2w as [|p c w x1 Hp H2w IHw]; intros Hit; [done|].
    apply Forall_cons in Hit as [Hq Hit]. constructor; auto.
Qed.

Lemma lang_app its1 its2 x : lang (its1 ++ its2) x ↔ ∃ x1 x2, x = x1 ++ x2 ∧ lang its1 x1 ∧ lang its2 x2.
Proof.
  revert x. induction its1 as [|it its1 IH]; intros x; cbn.
  - split; [intros Hx; by exists [], x|]. by intros (x1 & x2 & -> & -> & Hx).
  - setoid_rewrite IH. split.
    + intros (x1 & x2 & -> & H1 & y1 & y2 & -> & H2 & H3). exists (x1 ++ y1), y2. rewrite <- app_assoc. split; [done|]. eauto 10.
    + intros (y1 & y2 & -> & (x1 & x2 & -> & H1 & H2) & H3). exists x1, (x2 ++ y2). rewrite <- app_assoc. split; [done|]. eauto 10.
Qed.

Lemma lang_lit s x : lang (lit s) x ↔ x = (λ a, String a "") <$> String.list_ascii_of_string s.
Proof.
  unfold lit. generalize (String.list_ascii_of_string s). intros l. revert x.
  induction l as [|a l IH]; intros x; cbn; [done|]. split.
  - intros (x1 & x2 & -> & (c & -> & Hc) & H2). apply IH in H2 as ->. unfold one in Hc. by apply String.eqb_eq in Hc as ->.
  - intros ->. exists [String a ""], ((λ a, String a "") <$> l). split_and!; [done| |by apply IH].
    exists (String a ""). split; [done|]. unfold one. apply String.eqb_refl.
Qed.

(** Candidates of an expression without anchors. *)
Lemma candidate_plain e a v b r : plain (re_group e) → plain (re_rest e) →
  candidate e a v (b, r) ↔ (∃ i, r = a ++ v ++ i) ∧ lang (re_group e) a ∧ lang (re_rest e) v.
Proof.
  intros Hg Hr. unfold candidate. split.
  - intros (z1 & z2 & H1 & [M1 M2] & H2 & [M3 M4]).
    apply run_spec in H1 as (x1 & [N1 N2] & L1); [|done]. apply run_spec in H2 as (x2 & [N3 N4] & L2); [|done].
    cbn in *. rewrite M1 in N1. apply app_inv_tail in N1 as <-. rewrite M3 in N3. apply app_inv_tail in N3 as <-.
    split_and!; [|done..]. exists z2.2. by rewrite M1, M3.
  - intros ([i ->] & L1 & L2). exists (rev a ++ b, v ++ i), (rev v ++ rev a ++ b, i).
    assert (moved a (b, a ++ v ++ i) (rev a ++ b, v ++ i)) by done.
    assert (moved v (rev a ++ b, v ++ i) (rev v ++ rev a ++ b, i)) by done.
    split_and!; [|done| |done]; (apply run_spec; [done|]; eauto).
Qed.

(** ** Greedy repetition at the end

    The preferred match of an expression that ends in a greedy repetition stops
    where the repetition cannot go on. *)

Lemma head_bind {A B} (f : A → list B) l y : head (l ≫= f) = Some y → ∃ x, x ∈ l ∧ head (f x) = Some y.
Proof.
  induction l as [|x l IH]; [done|]. change ((x :: l) ≫= f) with (f x ++ (l ≫= f)).
  destruct (f x) as [|y' ys] eqn:E; cbn.
  - intros (x' & Hx & Hh)%IH. exists x'. split; [by right|done].
  - intros [= ->]. exists x. rewrite E. split; [by left|done].
Qed.

Lemma bind_assoc {A B C} (f : A → list B) (g : B → list C) l : (l ≫= f) ≫= g = l ≫= λ x, f x ≫= g.
Proof. induction l as [|x l IH]; [done|]. cbn. by rewrite bind_app, IH. Qed.

Lemma bind_ext {A B} (f g : A → list B) l : (∀ x, f x = g x) → l ≫= f = l ≫= g.
Proof. intros Hfg. induction l as [|x l IH]; [done|]. cbn. by rewrite Hfg, IH. Qed.

Lemma run_app its1 its2 z : run (its1 ++ its2) z = run its1 z ≫= run its2.
Proof.
  revert z. induction its1 as [|it its IH]; intros z; cbn [app run].
  - cbn. by rewrite app_nil_r.
  - rewrite bind_assoc. by apply bind_ext.
Qed.

Definition stops (p : rset) (i : list string) : Prop := match i with c :: _ => p c = false | [] => True end.

Lemma star_ends_last p b r z : last (star_ends p b r) = Some z → stops p z.2.
Proof.
  revert b. induction r as [|c r IH]; intros b; cbn [star_ends].
  - by intros [= <-].
  - destruct (p c) eqn:Ep; [|by intros [= <-]]. rewrite last_cons.
    destruct (last (star_ends p (c :: b) r)) eqn:El; intros [= <-]; [by apply (IH (c :: b))|].
    apply last_None in El. by destruct r.
Qed.

Lemma bind_single {A} (l : list A) : (l ≫= λ x, [x]) = l.
Proof. induction l as [|x l IH]; [done|]. cbn. by rewrite IH. Qed.

Lemma greedy_end its p z z2 : head (run (its ++ [IStar true p]) z) = Some z2 → stops p z2.2.
Proof.
  rewrite run_app. intros ([b r] & _ & Hh)%head_bind. apply (star_ends_last p b r).
  cbn [run item_run] in Hh. rewrite bind_single, rev_alt in Hh. change (head (reverse (star_ends p b r)) = Some z2) in Hh.
  by rewrite head_reverse in Hh.
Qed.

Lemma head_fmap {A B} (f : A → B) l y : head (f <$> l) = Some y → ∃ x, head l = Some x ∧ y = f x.
Proof. destruct l as [|x l]; cbn; [done|]. intros [= <-]. eauto. Qed.

Lemma match_at_stops e its p b a v i : re_rest e = its ++ [IStar true p] →
  match_at e (b, a ++ v ++ i) = Some (length a, length v) → stops p i.
Proof.
  intros He. unfold match_at. intros (z1 & H1 & (z2 & H2 & Heq)%head_fmap)%head_bind.
  rewrite He in H2. pose proof (greedy_end _ _ _ _ H2) as Hs.
  destruct (run_moved _ _ _ H1) as [x1 M1]. assert (z2 ∈ run (its ++ [IStar true p]) z1) as H2'.
  { destruct (run _ z1); [done|]. cbn in H2. simplify_eq. by left. }
  destruct (run_moved _ _ _ H2') as [x2 M2]. rewrite (moved_length _ _ _ M1), (moved_length _ _ _ M2) in Heq.
  destruct M1 as [M1 _], M2 as [M2 _]. cbn in M1. rewrite M2 in M1.
  apply app_inj_1 in M1 as [_ M1]; [|by injection Heq]. apply app_inj_1 in M1 as [_ ->]; [done|by injection Heq].
Qed.

(** ** Places of an output

    A place of the output where something stands is a copied rune at which
    nothing matched, lies in the kept group of a match or at its end, or lies
    within a placeholder. *)
Inductive place_of (e : regex) (ph b bo i o1 o2 : list string) : Prop :=
  | at_copy i1 c i2 o3 :
      i = i1 ++ c :: i2 → o2 = c :: o3 → match_at e (rev i1 ++ b, c :: i2) = None →
      subst e ph (c :: rev i1 ++ b) i2 o3 →
      linked (replaced e) ph (rev i1 ++ b) (rev o1 ++ bo) (c :: i2) → place_of e ph b bo i o1 o2
  | at_group i1 a1 a2 v i2 o0 o3 :
      candidate e (a1 ++ a2) v (rev i1 ++ b, (a1 ++ a2) ++ v ++ i2) → o1 = o0 ++ a1 → o2 = a2 ++ ph ++ o3 →
      subst e ph (rev v ++ rev (a1 ++ a2) ++ rev i1 ++ b) i2 o3 → place_of e ph b bo i o1 o2
  | at_placeholder p s o3 : ph = p ++ s → p ≠ [] → s ≠ [] → o2 = s ++ o3 → place_of e ph b bo i o1 o2.

Lemma subst_place e ph b bo i o o1 o2 :
  ph ≠ [] → subst e ph b i o → linked (replaced e) ph b bo i → o = o1 ++ o2 → o2 ≠ [] → place_of e ph b bo i o1 o2.
Proof.
  intros Hph Hs. revert bo o1 o2.
  induction Hs as [b|b c i o Hm Hs IH|b a v i o Hm Hc Hv Hs IH]; intros bo o1 o2 Hl Ho Hne.
  - symmetry in Ho. by apply app_eq_nil in Ho as [_ ->].
  - destruct o1 as [|d o1]; cbn in Ho; simplify_eq.
    { by eapply (at_copy _ _ _ _ _ _ _ []). }
    destruct (IH (d :: bo) o1 o2) as [i1 c' i2 o3 -> -> H1 H2 H3|i1 a1 a2 v i2 o0 o3 H1 -> -> H2|p s o3 H1 H2 H3 H4]; [by left|done|done|..].
    + eapply (at_copy _ _ _ _ _ _ _ (d :: i1)); cbn; rewrite <- ?app_assoc; done.
    + eapply (at_group _ _ _ _ _ _ _ (d :: i1) a1 a2 v i2 (d :: o0)); cbn; rewrite <- ?app_assoc in *; done.
    + by eapply at_placeholder.
  - apply app_eq_app in Ho as (l & [[-> ->]|[-> Ho]]).
    { eapply (at_group _ _ _ _ _ _ _ [] o1 l v i []); done. }
    destruct (decide (l = [])) as [->|Hl0].
    { cbn in Ho. subst o2. rewrite app_nil_r. apply (at_group _ _ _ _ _ _ _ [] a [] v i [] o); rewrite ?app_nil_r; done. }
    assert ((∃ k, k ≠ [] ∧ ph = l ++ k ∧ o2 = k ++ o) ∨ ∃ k, l = ph ++ k ∧ o = k ++ o2) as [(k & Hk & Hp & ->)|(k & -> & ->)].
    { apply app_eq_app in Ho as (k & [[Hp ->]|[-> ->]]); [|right; eauto].
      destruct (decide (k = [])) as [->|Hk]; [right; exists []; by rewrite app_nil_r in *|left; eauto]. }
    { by eapply at_placeholder. }
    destruct (IH (rev ph ++ rev a ++ bo) k o2) as [i1 c' i2 o3 -> -> H1 H2 H3|i1 a1 a2 v' i2 o0 o3 H1 -> -> H2|p s o3 H1 H2 H3 H4].
    + right. exists v, (rev a ++ b). split_and!; [done| |done|by apply head_rev_app]. exists a, b. by split_and!.
    + done.
    + done.
    + eapply (at_copy _ _ _ _ _ _ _ (a ++ v ++ i1)); [by rewrite <- !app_assoc|done|..];
        rewrite !rev_app_distr, <- !app_assoc; done.
    + eapply (at_group _ _ _ _ _ _ _ (a ++ v ++ i1) a1 a2 v' i2 (a ++ ph ++ o0)); [|by rewrite <- !app_assoc|done|];
        rewrite !rev_app_distr, <- !app_assoc in *; done.
    + by eapply at_placeholder.
Qed.

Lemma moved_inj x y z z' : moved x z z' → moved y z z' → x = y.
Proof. intros [H1 _] [H2 _]. rewrite H1 in H2. by apply app_inv_tail in H2. Qed.

(** The first rune of what is replaced. *)
Lemma candidate_first e p its a v z : re_rest e = ISet p :: its → candidate e a v z → ∃ c v', v = c :: v' ∧ p c = true.
Proof.
  intros He (z1 & z2 & _ & _ & H2 & M2). rewrite He in H2. apply elem_of_run_cons in H2 as (z3 & H3 & H4).
  destruct z1 as [b1 r1]. apply set_run_spec in H3 as (c & M3 & Hc). destruct (run_moved _ _ _ H4) as [x M4].
  exists c, x. split; [|done]. eapply moved_inj; [exact M2|]. by apply (moved_app [c] x _ z3).
Qed.

Lemma consumes_first e p its : re_rest e = ISet p :: its → consumes e.
Proof. intros He a v z (c & v' & -> & _)%(candidate_first _ _ _ _ _ _ He). done. Qed.
