(* ===== verification/GoMarshal.v ===== *)
(** * Encoding strings as JSON: the part of [encoding/json] behind [Marshal]

    A string is written rune by rune with the escapes of the default encoder, which
    also escapes HTML; a byte that is not part of valid UTF-8 is written as the
    replacement character.  So a string read back is the one written with every such
    byte replaced ([to_valid]). *)

From S2P Require Import Prelude GoStrings GoJson GoRegexp.

Open Scope Z_scope.

Definition invalid (u : string) : bool := Nat.eqb (rune_len u) 0.

Definition to_valid (s : string) : string := Concat ((λ u, if invalid u then encode_rune RuneError else u) <$> runes s).

#[global] Arguments to_valid _ : simpl never.

Definition valid_utf8 (s : string) : bool := forallb (λ u, negb (invalid u)) (runes s).

Definition hex2 (n : Z) : string := String (digit_char (n / 16)) (String (digit_char (n mod 16)) "").

(** One rune as the encoder writes it. *)
Definition escape_rune (u : string) : string :=
  if invalid u then "\ufffd" else
  match u with
  | String a "" =>
      let n := code a in
      if (n =? 34) || (n =? 92) then String backslash u
      else if n =? 8 then "\b" else if n =? 12 then "\f" else if n =? 10 then "\n" else if n =? 13 then "\r" else if n =? 9 then "\t"
      else if (n <? 32) || (n =? 60) || (n =? 62) || (n =? 38) then "\u00" +:+ hex2 n
      else u
  | _ => if String.eqb u (encode_rune 8232) then "\u2028" else if String.eqb u (encode_rune 8233) then "\u2029" else u
  end.

Definition json_string (s : string) : string := quoted (Concat (escape_rune <$> runes s)).

Definition json_member (key value : string) : string := quoted key +:+ ":" +:+ value.

Definition json_object (members : list string) : string := "{" +:+ Join members "," +:+ "}".
Definition json_array (elems : list string) : string := "[" +:+ Join elems "," +:+ "]".

Example json_string_ex :
  json_string ("a<b" +:+ nl +:+ String (byte 255) (String (byte 1) "z")) = quoted "a\u003cb\n\ufffd\u0001z" ∧
  to_valid (String (byte 255) "z") = encode_rune RuneError +:+ "z".
Proof. by vm_compute. Qed.

(** Valid text travels as it is. *)

Lemma Concat_runes_go n s : (String.length s ≤ n)%nat → Concat (runes_go n s) = s.
Proof.
  revert s. induction n as [|n IH]; intros [|a r] Hn; cbn [runes_go]; cbn in Hn; try done; [lia|].
  destruct (rune_len (String a r)) as [|[|k]]; cbn [Concat]; [rewrite IH by (cbn in *; lia); done..|].
  pose proof (drop_S_length (S k) a r) as Hd. change (String.length (String a r)) with (S (String.length r)) in Hd. rewrite IH by lia.
  clear. revert a r. generalize (S (S k)). intros m a r. generalize (String a r). clear. induction m as [|m IH]; intros [|a s]; cbn; try done.
  by rewrite sapp_cons, IH.
Qed.

Lemma Concat_runes s : Concat (runes s) = s.
Proof. by apply Concat_runes_go. Qed.

Lemma to_valid_id s : valid_utf8 s = true → to_valid s = s.
Proof.
  unfold to_valid, valid_utf8. intros Hv. rewrite <- (Concat_runes s) at 2. f_equal. induction (runes s) as [|u l IH]; [done|].
  cbn in *. apply andb_true_iff in Hv as [Hu Hv]. apply negb_true_iff in Hu. by rewrite Hu, IH.
Qed.

(** ASCII text is valid. *)
Definition ascii_text (s : string) : bool := s_forall (λ a, code a <? 128) s.

Lemma ascii_valid s : ascii_text s = true → valid_utf8 s = true.
Proof.
  unfold ascii_text, valid_utf8, runes. generalize (le_n (String.length s)). generalize (String.length s) at 2 3 as n. intros n.
  revert s. induction n as [|n IH]; intros [|a r] Hn Ha; try done. cbn [runes_go]. cbn [s_forall] in Ha. apply andb_true_iff in Ha as [Ha Hr].
  assert (∀ t, rune_len (String a t) = 1%nat) as Hl by (intros t; cbn; by rewrite Ha). rewrite Hl. cbn [forallb].
  unfold invalid at 1. rewrite Hl. cbn [negb Nat.eqb andb]. apply IH; [cbn in Hn; lia|done].
Qed.

(** Replacing a byte leaves a mark that is not ASCII. *)
Lemma to_valid_ascii s : ascii_text (to_valid s) = true → to_valid s = s.
Proof.
  intros Ha. apply to_valid_id. unfold to_valid, valid_utf8, ascii_text in *. induction (runes s) as [|u l IH]; [done|].
  cbn [fmap list_fmap Concat forallb] in *. rewrite s_forall_app in Ha. apply andb_true_iff in Ha as [Hu Hl]. rewrite IH by done.
  by destruct (invalid u).
Qed.
