(* ===== verification/Ipam.v ===== *)
(** * Pod IP allocation: [pkg/network/ipam.go]

    [PodIPAM] is the allocator's struct; the methods are state-passing
    functions.  The mutex makes each method one atomic step, so concurrent
    callers are the interleavings of [ipam_step].  The big.Int fields are Z. *)

From S2P Require Import Prelude GoStrings GoNet.

Open Scope Z_scope.

Inductive IpamError : Type :=
  | ErrParsePodCIDR (cidr : string)
  | ErrExhausted
  | ErrInvalidIP (key ip : string)
  | ErrOutOfRange (key ip : string)
  | ErrAlreadyHeld (canon key owner : string)
  | ErrKeyHolds (key canon existing : string).

Record PodIPAM := mkIPAM {
  ipnet : IPNet;
  bytes : width;
  base : Z;
  first : Z;
  last : Z;
  byKey : gmap string string;
  byIP : gmap string string;
  cursor : Z;
}.

(** The integer of the canonical byte form ([SetBytes] of To4, else To16). *)
Definition ipToBig (ip : IP) : Z :=
  match To4 ip with Some v4 => ip_v v4 | None => ip_v (To16 ip) end.

(** The last [width] bytes of the zero-padded big-endian representation. *)
Definition bigToIP (n : Z) (w : width) : IP := mkIP w (n mod 2 ^ bits w).

Definition canonIP (ip : IP) (w : width) : string :=
  match w with
  | W4 => match To4 ip with Some v4 => IP_String v4 | None => "" end
  | W16 => IP_String ip
  end.

Definition NewPodIPAM (cidr : string) : result IpamError PodIPAM :=
  match ParseCIDR cidr with
  | None => Err (ErrParsePodCIDR cidr)
  | Some (ip, ipnet) =>
      let width := net_mw ipnet in
      let isIPv4 := match To4 ip with Some _ => bool_decide (width = W4) | None => false end in
      let size := 2 ^ (bits width - net_ones ipnet) in
      let last := size - 1 in
      let last := if isIPv4 then last - 1 else last in
      Ok (mkIPAM ipnet width (ipToBig (net_ip ipnet)) 2 last ∅ ∅ 2)
  end.

Definition CIDR (a : PodIPAM) : string := Net_String (ipnet a).

Definition offsetIP (a : PodIPAM) (off : Z) : string :=
  IP_String (bigToIP (base a + off) (bytes a)).

Definition usable (a : PodIPAM) (ip : IP) : bool :=
  if negb (Net_Contains (ipnet a) ip) then false
  else let off := ipToBig ip - base a in (first a <=? off) && (off <=? last a).

(** One iteration of Allocate's scan: wrap, then test the offset. *)
Definition scan (a : PodIPAM) (off : Z) : Z + (Z * string) :=
  let off := if last a <? off then first a else off in
  let ip := offsetIP a off in
  match byIP a !! ip with
  | None => inr (off, ip)
  | Some _ => inl (off + 1)
  end.

Definition assign (a : PodIPAM) (key ip : string) : PodIPAM :=
  mkIPAM (ipnet a) (bytes a) (base a) (first a) (last a)
    (<[key := ip]> (byKey a)) (<[ip := key]> (byIP a)) (cursor a).

Definition set_cursor (a : PodIPAM) (c : Z) : PodIPAM :=
  mkIPAM (ipnet a) (bytes a) (base a) (first a) (last a) (byKey a) (byIP a) c.

Definition Allocate (a : PodIPAM) (key : string) : PodIPAM * result IpamError string :=
  match byKey a !! key with
  | Some ip => (a, Ok ip)
  | None =>
      if last a <? first a then (a, Err ErrExhausted)
      else
        let span := last a - first a + 1 in
        match iter_until (scan a) (Z.to_pos span) (cursor a) with
        | inr (off, ip) => (set_cursor (assign a key ip) (off + 1), Ok ip)
        | inl _ => (a, Err ErrExhausted)
        end
  end.

Definition Reserve (a : PodIPAM) (key ip : string) : PodIPAM * result IpamError unit :=
  match ParseIP ip with
  | None => (a, Err (ErrInvalidIP key ip))
  | Some parsed =>
      let canon := canonIP parsed (bytes a) in
      if String.eqb canon "" || negb (usable a parsed)
      then (a, Err (ErrOutOfRange key ip))
      else
        match byIP a !! canon with
        | Some owner =>
            if String.eqb owner key then (a, Ok tt)
            else (a, Err (ErrAlreadyHeld canon key owner))
        | None =>
            match byKey a !! key with
            | Some existing =>
                if String.eqb existing canon then (assign a key canon, Ok tt)
                else (a, Err (ErrKeyHolds key canon existing))
            | None => (assign a key canon, Ok tt)
            end
        end
  end.

Definition Release (a : PodIPAM) (key : string) : PodIPAM :=
  match byKey a !! key with
  | None => a
  | Some ip =>
      mkIPAM (ipnet a) (bytes a) (base a) (first a) (last a)
        (delete key (byKey a)) (delete ip (byIP a)) (cursor a)
  end.

(** The address held by a key, [""] if none. *)
Definition IPOf (a : PodIPAM) (key : string) : string := default "" (byKey a !! key).

Definition Allocations (a : PodIPAM) : gmap string string := byKey a.

(** ** Steps and reachable allocators *)

Inductive ipam_step : PodIPAM → PodIPAM → Prop :=
  | step_allocate a key : ipam_step a (Allocate a key).1
  | step_reserve a key ip : ipam_step a (Reserve a key ip).1
  | step_release a key : ipam_step a (Release a key).

(** Allocators over [cidr] after any sequence of calls. *)
Inductive ipam_reach (cidr : string) : PodIPAM → Prop :=
  | reach_new a : NewPodIPAM cidr = Ok a → ipam_reach cidr a
  | reach_step a b : ipam_reach cidr a → ipam_step a b → ipam_reach cidr b.

(** ** Invariant *)

(** The network is not written as an IPv4-mapped IPv6 block: then the base
    integer and the width of the addresses belong to the same family. *)
Definition plain_net (n : IPNet) : Prop :=
  net_mw n = W4 ∨ v4mapped (ip_v (net_ip n)) = false.

Record ipam_inv (a : PodIPAM) : Prop := {
  inv_inverse : ∀ key ip, byKey a !! key = Some ip ↔ byIP a !! ip = Some key;
  inv_cursor : first a ≤ last a → first a ≤ cursor a ≤ last a + 1;
  inv_range : ∀ ip key, byIP a !! ip = Some key →
    ∃ off, first a ≤ off ≤ last a ∧ ip = offsetIP a off;
}.

(** The immutable fields agree with the CIDR the allocator was built from. *)
Definition ipam_shape (a : PodIPAM) : Prop :=
  ∃ v, let w := net_mw (ipnet a) in
    let k := bits w - net_ones (ipnet a) in
    bytes a = w ∧ 0 ≤ v < 2 ^ bits w ∧ 0 ≤ k ≤ bits w ∧
    net_ip (ipnet a) = mkIP w (clear_low v k) ∧
    base a = ipToBig (net_ip (ipnet a)) ∧ first a = 2 ∧
    last a = (match w with W4 => 2 ^ k - 2 | W16 => 2 ^ k - 1 end).

(** ** The scan of Allocate *)

Definition norm (a : PodIPAM) (s : Z) : Z := if last a <? s then first a else s.

(** How many iterations after position [o] the scan reaches offset [t]. *)
Definition dist (a : PodIPAM) (o t : Z) : Z :=
  if o <=? t then t - o else t - o + (last a - first a + 1).

Definition taken (a : PodIPAM) (off : Z) : Prop := is_Some (byIP a !! offsetIP a off).

Lemma scan_norm a s :
  scan a s = match byIP a !! offsetIP a (norm a s) with
             | None => inr (norm a s, offsetIP a (norm a s))
             | Some _ => inl (norm a s + 1)
             end.
Proof. done. Qed.

Lemma norm_range a s :
  first a ≤ last a → first a ≤ s ≤ last a + 1 → first a ≤ norm a s ≤ last a.
Proof. unfold norm. destruct (Z.ltb_spec (last a) s); lia. Qed.

Lemma dist_next a o t :
  first a ≤ o ≤ last a → first a ≤ t ≤ last a → t ≠ o →
  dist a (norm a (o + 1)) t = dist a o t - 1.
Proof.
  intros Ho Ht Hne. unfold dist, norm. destruct (Z.ltb_spec (last a) (o + 1));
    repeat match goal with |- context [?x <=? ?y] => destruct (Z.leb_spec x y) end; lia.
Qed.

Lemma scan_free a n s off ip :
  first a ≤ last a → first a ≤ s ≤ last a + 1 →
  iter_nat (scan a) n s = inr (off, ip) →
  first a ≤ off ≤ last a ∧ ip = offsetIP a off ∧ byIP a !! ip = None.
Proof.
  intros Hfl. revert s. induction n as [|n IH]; intros s Hs; [done|]. cbn [iter_nat].
  pose proof (norm_range a s Hfl Hs). rewrite scan_norm.
  destruct (byIP a !! offsetIP a (norm a s)) eqn:E; [apply IH; lia|].
  intros; by simplify_eq.
Qed.

Lemma scan_full a n s s' t :
  first a ≤ last a → first a ≤ s ≤ last a + 1 → first a ≤ t ≤ last a →
  iter_nat (scan a) n s = inl s' → dist a (norm a s) t < Z.of_nat n → taken a t.
Proof.
  intros Hfl. revert s. induction n as [|n IH]; intros s Hs Ht.
  { unfold dist. pose proof (norm_range a s Hfl Hs).
    destruct (Z.leb_spec (norm a s) t); intros; lia. }
  cbn [iter_nat]. pose proof (norm_range a s Hfl Hs) as Ho. rewrite scan_norm.
  destruct (byIP a !! offsetIP a (norm a s)) eqn:E; [|done].
  destruct (Z.eq_dec t (norm a s)) as [->|Hne]; [by exists s0|].
  intros Hi Hd. eapply (IH (norm a s + 1)); [lia..|done|].
  rewrite dist_next by done. lia.
Qed.

(** Allocate on a key that holds nothing yet. *)
Lemma Allocate_fresh a key :
  ipam_inv a → byKey a !! key = None →
  (∃ off, first a ≤ off ≤ last a ∧ byIP a !! offsetIP a off = None ∧
     Allocate a key = (set_cursor (assign a key (offsetIP a off)) (off + 1),
                       Ok (offsetIP a off))) ∨
  ((∀ off, first a ≤ off ≤ last a → taken a off) ∧ Allocate a key = (a, Err ErrExhausted)).
Proof.
  intros Hinv Hkey. unfold Allocate. rewrite Hkey.
  destruct (Z.ltb_spec (last a) (first a)) as [Hlt|Hge]; [right; split; [lia|done]|].
  pose proof (inv_cursor a Hinv Hge) as Hc. rewrite iter_until_nat.
  destruct (iter_nat _ _ _) as [s'|[off ip]] eqn:E.
  - right. split; [|done]. intros t Ht. eapply scan_full; [done..|].
    unfold dist. pose proof (norm_range a (cursor a) Hge Hc).
    rewrite positive_nat_Z, Z2Pos.id by lia.
    destruct (Z.leb_spec (norm a (cursor a)) t); lia.
  - left. apply scan_free in E as (Hoff & -> & Hfree); [|done..]. by exists off.
Qed.

(** ** The invariant is established and preserved *)

Lemma NewPodIPAM_shape cidr a : NewPodIPAM cidr = Ok a → ipam_shape a.
Proof.
  unfold NewPodIPAM. destruct (ParseCIDR cidr) as [[ip n]|] eqn:E; [|done].
  apply ParseCIDR_inv in E as (w & v & Hv & Hk & Hw & -> & Hip).
  intros; simplify_eq. exists v. cbn [ipnet bytes base first last].
  repeat split; try done; try lia.
  destruct (net_mw n); simpl in *.
  - rewrite To4_To16_W4 by done. simpl. lia.
  - by destruct (To4 _).
Qed.

Lemma NewPodIPAM_inv cidr a : NewPodIPAM cidr = Ok a → ipam_inv a.
Proof.
  unfold NewPodIPAM. destruct (ParseCIDR cidr) as [[ip n]|] eqn:E; [|done].
  intros; simplify_eq. split; simpl.
  - intros ??. by rewrite !lookup_empty.
  - lia.
  - intros ??. by rewrite lookup_empty.
Qed.

Lemma assign_inv a key off :
  ipam_inv a → byKey a !! key = None → byIP a !! offsetIP a off = None →
  first a ≤ off ≤ last a → ipam_inv (assign a key (offsetIP a off)).
Proof.
  intros [Hi Hc Hr] Hk Hf Ho. split; simpl; [| done |].
  - intros k ip. rewrite !lookup_insert. repeat case_decide; subst; naive_solver.
  - intros ip k. rewrite lookup_insert. case_decide; [subst; intros; by exists off|].
    apply Hr.
Qed.

Lemma set_cursor_inv a c :
  ipam_inv a → (first a ≤ last a → first a ≤ c ≤ last a + 1) → ipam_inv (set_cursor a c).
Proof. intros [Hi Hc Hr] ?. by split. Qed.

Lemma Allocate_inv a key : ipam_inv a → ipam_inv (Allocate a key).1.
Proof.
  intros Hinv. destruct (byKey a !! key) as [ip|] eqn:Hk.
  - unfold Allocate. by rewrite Hk.
  - destruct (Allocate_fresh a key Hinv Hk) as [(off & Ho & Hf & ->)|[_ ->]]; [|done].
    apply set_cursor_inv; [by apply assign_inv|]. simpl. lia.
Qed.

Lemma Release_inv a key : ipam_inv a → ipam_inv (Release a key).
Proof.
  intros Hinv. unfold Release. destruct (byKey a !! key) as [ip|] eqn:Hk; [|done].
  destruct Hinv as [Hi Hc Hr]. split; simpl; [|done|].
  - intros k ip'. rewrite !lookup_delete_Some, Hi.
    split; intros [Hne H]; (split; [intros ->|done]).
    + apply Hi in Hk. congruence.
    + apply Hi in H. congruence.
  - intros ip' k [_ H]%lookup_delete_Some. by eapply Hr.
Qed.

(** The canonical text of a usable address is the text of its offset. *)
Lemma canon_offset a ip :
  ipam_shape a → plain_net (ipnet a) → ip_wf ip → ip_w ip = W16 → usable a ip = true →
  first a ≤ ipToBig ip - base a ≤ last a ∧
  canonIP ip (bytes a) = offsetIP a (ipToBig ip - base a).
Proof.
  intros (v & Hb & Hv & Hk & Hnet & Hbase & Hf & Hl) Hp Hwf Hw.
  unfold usable. destruct (Net_Contains (ipnet a) ip) eqn:Hc; [|done]. simpl.
  intros H; bools. split; [done|]. unfold offsetIP.
  replace (base a + (ipToBig ip - base a)) with (ipToBig ip) by lia.
  unfold Net_Contains, net_number in Hc. rewrite Hnet in Hc.
  unfold canonIP, ipToBig, bigToIP. rewrite Hb. destruct (net_mw (ipnet a)) eqn:Em.
  - simpl in Hc. destruct (To4 ip) as [x|] eqn:E4.
    + unfold To4 in E4. rewrite Hw in E4. case_match; simplify_eq. simpl.
      by rewrite Z.mod_mod.
    + rewrite Hw in Hc. by rewrite bool_decide_false in Hc.
  - unfold plain_net in Hp. rewrite Em, Hnet in Hp. simpl in Hp.
    destruct Hp as [|Hp]; [done|]. unfold To4 in Hc at 1. simpl in Hc. rewrite Hp in Hc.
    destruct (To4 ip) as [x|] eqn:E4.
    + unfold To4 in E4. rewrite Hw in E4. case_match; simplify_eq.
    + unfold To16. rewrite Hw, Z.mod_small; [by destruct ip; simplify_eq/=|].
      unfold ip_wf in Hwf. by rewrite Hw in Hwf.
Qed.

Lemma Reserve_inv a key ip :
  ipam_shape a → plain_net (ipnet a) → ipam_inv a → ipam_inv (Reserve a key ip).1.
Proof.
  intros Hsh Hp Hinv. unfold Reserve. destruct (ParseIP ip) as [parsed|] eqn:Eip; [|done].
  apply ParseIP_wf in Eip as [Hwf Hw].
  destruct (String.eqb _ "") eqn:Ec; [done|]. simpl.
  destruct (usable a parsed) eqn:Eu; [|done]. simpl.
  destruct (canon_offset a parsed Hsh Hp Hwf Hw Eu) as [Ho ->].
  destruct (byIP a !! _) as [owner|] eqn:Eo; [by destruct (String.eqb owner key)|].
  destruct (byKey a !! key) as [ex|] eqn:Ek; [|by apply assign_inv].
  destruct (String.eqb ex _) eqn:Ex; [|done]. apply String.eqb_eq in Ex as ->.
  apply (inv_inverse a Hinv) in Ek. congruence.
Qed.

Lemma ipam_step_shape a b : ipam_step a b → ipam_shape a → ipam_shape b ∧ ipnet b = ipnet a.
Proof.
  intros Hs Hsh. assert (ipnet b = ipnet a ∧ bytes b = bytes a ∧ base b = base a ∧
    first b = first a ∧ last b = last a) as (E1 & E2 & E3 & E4 & E5).
  { destruct Hs; unfold Allocate, Reserve, Release; repeat case_match; done. }
  split; [|done]. unfold ipam_shape in *. by rewrite E1, E2, E3, E4, E5.
Qed.

Lemma ipam_reach_wf cidr a :
  ipam_reach cidr a → ipam_shape a ∧ (plain_net (ipnet a) → ipam_inv a).
Proof.
  induction 1 as [a Hn|a b Hr [Hsh IH] Hs].
  - split; [by eapply NewPodIPAM_shape|]. intros _. by eapply NewPodIPAM_inv.
  - destruct (ipam_step_shape a b Hs Hsh) as [Hsb En]. split; [done|].
    rewrite En. intros Hp. specialize (IH Hp). destruct Hs;
      eauto using Allocate_inv, Reserve_inv, Release_inv.
Qed.

(** ** IPv4 allocators *)

Section ipv4.
Context (a : PodIPAM) (Hsh : ipam_shape a) (H4 : net_mw (ipnet a) = W4).

(** The network address as the base of the offsets. *)
Lemma offset_ipv4 off :
  first a ≤ off ≤ last a →
  offsetIP a off = string4 (base a + off) ∧ 0 ≤ base a + off < 2 ^ 32 ∧
  0 ≤ base a ∧ base a + 2 ^ (32 - net_ones (ipnet a)) ≤ 2 ^ 32 ∧
  last a = 2 ^ (32 - net_ones (ipnet a)) - 2 ∧ first a = 2 ∧ bytes a = W4 ∧
  net_ip (ipnet a) = mkIP W4 (base a) ∧
  clear_low (base a + off) (32 - net_ones (ipnet a)) = base a.
Proof.
  destruct Hsh as (v & Hb & Hv & Hk & Hnet & Hbase & Hf & Hl).
  rewrite H4 in *. simpl in *. set (k := 32 - net_ones (ipnet a)) in *.
  assert (base a = clear_low v k) as Hbv by (by rewrite Hbase, Hnet).
  pose proof (clear_low_bounds v k 32 ltac:(lia) Hv) as [Hlo Hhi].
  intros Ho. repeat split; try lia; try done.
  - unfold offsetIP, bigToIP. rewrite Hb. simpl. rewrite Z.mod_small by lia. done.
  - by rewrite Hnet, Hbv.
  - rewrite Hbv. apply clear_low_add; lia.
Qed.

(** Every usable offset passes Reserve's checks at its canonical text. *)
Lemma reserve_offset off :
  first a ≤ off ≤ last a →
  ∃ parsed, ParseIP (offsetIP a off) = Some parsed ∧
    Net_Contains (ipnet a) parsed = true ∧ usable a parsed = true ∧
    canonIP parsed (bytes a) = offsetIP a off.
Proof.
  intros Ho. destruct (offset_ipv4 off Ho) as (E & Hb & H0 & Hhi & Hl & Hf & Hby & Hn & Hc).
  set (k := 32 - net_ones (ipnet a)) in *.
  assert (0 ≤ k) as Hk.
  { destruct Hsh as (v & _ & _ & Hk & _). rewrite H4 in Hk. simpl in Hk. lia. }
  exists (To16 (mkIP W4 (base a + off))). rewrite E.
  assert (Net_Contains (ipnet a) (To16 (mkIP W4 (base a + off))) = true) as HC.
  { unfold Net_Contains, net_number. rewrite Hn, H4. simpl To4 at 1. cbn iota.
    rewrite To4_To16_W4 by done. simpl. apply Z.eqb_eq. fold k. rewrite Hc.
    rewrite <- Hc at 1. rewrite clear_low_idem by done. done. }
  split; [by apply ParseIP_string4|]. split; [done|].
  assert (ipToBig (To16 (mkIP W4 (base a + off))) = base a + off) as HB.
  { unfold ipToBig. by rewrite To4_To16_W4. }
  split.
  - unfold usable. rewrite HC, HB. simpl.
    apply andb_true_iff. rewrite !Z.leb_le. lia.
  - unfold canonIP. rewrite Hby, To4_To16_W4 by done. done.
Qed.

Lemma offsetIP_inj o o' :
  first a ≤ o ≤ last a → first a ≤ o' ≤ last a → offsetIP a o = offsetIP a o' → o = o'.
Proof.
  intros Ho Ho'. destruct (offset_ipv4 o Ho) as (-> & ? & _).
  destruct (offset_ipv4 o' Ho') as (-> & ? & _).
  intros E%string4_inj; [lia|done..].
Qed.

Lemma plain_ipv4 : plain_net (ipnet a).
Proof. by left. Qed.
End ipv4.

(** [Provider.RecoverAllocations] of pkg/provider/ipam.go: the Pods are the
    (key, status.podIP) pairs read from the API server; a Pod without an
    address, and one whose reservation fails, is skipped. *)
Definition recover_one (a : PodIPAM) (pod : string * string) : PodIPAM :=
  let '(key, ip) := pod in
  if String.eqb ip "" then a else (Reserve a key ip).1.

Definition RecoverAllocations (a : PodIPAM) (pods : list (string * string)) : PodIPAM :=
  foldl recover_one a pods.

(** A usable address nobody holds is bound to a key that holds nothing. *)
Lemma recover_one_fresh a key off :
  ipam_shape a → net_mw (ipnet a) = W4 → first a ≤ off ≤ last a →
  byKey a !! key = None → byIP a !! offsetIP a off = None →
  recover_one a (key, offsetIP a off) = assign a key (offsetIP a off).
Proof.
  intros Hsh H4 Ho Hk Hi. unfold recover_one.
  destruct (reserve_offset a Hsh H4 off Ho) as (p & Hp & _ & Hu & Hc).
  assert (offsetIP a off ≠ "") as Hne.
  { apply ParseIP_word, is_word_spec in Hp. by apply Hp. }
  apply String.eqb_neq in Hne. rewrite Hne. unfold Reserve.
  by rewrite Hp, Hc, Hne, Hu, Hi, Hk.
Qed.

(** Reserving a list of distinct pairs adds exactly those pairs. *)
Lemma recover_list a l :
  ipam_shape a → net_mw (ipnet a) = W4 →
  NoDup l.*1 → NoDup l.*2 →
  Forall (λ p, ∃ off, first a ≤ off ≤ last a ∧ p.2 = offsetIP a off) l →
  Forall (λ p, byKey a !! p.1 = None ∧ byIP a !! p.2 = None) l →
  let b := RecoverAllocations a l in
  (∀ k ip, byKey b !! k = Some ip ↔ (k, ip) ∈ l ∨ byKey a !! k = Some ip) ∧
  (∀ ip k, byIP b !! ip = Some k ↔ (k, ip) ∈ l ∨ byIP a !! ip = Some k).
Proof.
  revert a. induction l as [|[key ip] l IH]; intros a Hsh H4 Hd1 Hd2 Hr Hf; cbn zeta.
  { split; intros; set_solver. }
  apply NoDup_cons in Hd1 as [Hn1 Hd1], Hd2 as [Hn2 Hd2].
  apply Forall_cons in Hr as [(off & Ho & Hip) Hr], Hf as [[Hk Hi] Hf].
  simpl in Hip, Hk, Hi. subst ip. unfold RecoverAllocations. cbn [foldl].
  rewrite recover_one_fresh by done.
  destruct (IH (assign a key (offsetIP a off))) as [IH1 IH2]; [done..| |].
  - rewrite Forall_forall in *. intros [k ip] Hin. simpl.
    destruct (Hf (k, ip) Hin) as [Hk' Hi']. simpl in Hk', Hi'.
    rewrite !lookup_insert_ne; [done| |].
    + intros <-. apply Hn2. by apply (list_elem_of_fmap_2 snd) in Hin.
    + intros <-. apply Hn1. by apply (list_elem_of_fmap_2 fst) in Hin.
  - split.
    + intros k ip. unfold RecoverAllocations in IH1. rewrite IH1. simpl.
      rewrite elem_of_cons, lookup_insert. case_decide; subst; naive_solver.
    + intros ip k. unfold RecoverAllocations in IH2. rewrite IH2. simpl.
      rewrite elem_of_cons, lookup_insert. case_decide; subst; naive_solver.
Qed.

(** An allocator keeps the fields of the CIDR it was built from. *)
Lemma same_fields cidr a b :
  ipam_reach cidr a → NewPodIPAM cidr = Ok b →
  ipnet b = ipnet a ∧ bytes b = bytes a ∧ base b = base a ∧ first b = first a ∧
  last b = last a ∧ byKey b = ∅ ∧ byIP b = ∅.
Proof.
  intros Hr Hb. assert (byKey b = ∅ ∧ byIP b = ∅) as [Ek Ei].
  { unfold NewPodIPAM in Hb. repeat case_match; by simplify_eq. }
  rewrite Ek, Ei. clear Ek Ei. induction Hr as [a Ha|a c Hr IH Hs].
  - rewrite Hb in Ha. by simplify_eq.
  - destruct IH as (-> & -> & -> & -> & -> & _ & _).
    destruct Hs; unfold Allocate, Reserve, Release; repeat case_match; done.
Qed.

(** ** Properties *)

(** Every allocator reachable from NewPodIPAM by any interleaving of
    Allocate, Reserve and Release keeps its two maps mutually inverse, its
    cursor inside the usable range, and only holds addresses of usable
    offsets. *)
Theorem ipam_reachable_inv cidr a :
  ipam_reach cidr a → plain_net (ipnet a) → ipam_inv a.
Proof. intros Hr Hp. by apply (ipam_reach_wf cidr a Hr). Qed.

(** The allocator of the examples: 10.244.1.0/29 has the usable offsets 2..6. *)
Definition ex_cidr : string := "10.244.1.0/29".
Definition ex_new : PodIPAM :=
  match NewPodIPAM ex_cidr with Ok a => a | Err _ => mkIPAM (mkNet (mkIP W4 0) 0 W4) W4 0 0 0 ∅ ∅ 0 end.
Definition ex_two : PodIPAM := (Allocate (Allocate ex_new "ns/a").1 "ns/b").1.

Lemma ex_two_reach : ipam_reach ex_cidr ex_two.
Proof.
  eapply reach_step; [eapply reach_step; [apply reach_new; by vm_compute|]|];
    apply step_allocate.
Defined.

Lemma ipam_reachable_inv_witness : ipam_inv ex_two.
Proof. apply (ipam_reachable_inv ex_cidr ex_two); [apply ex_two_reach|by left]. Defined.

(** C9: over a CIDR not written as an IPv4-mapped IPv6 block, Allocate is
    exact: a key that holds an address gets it back and
    nothing changes; otherwise a free usable offset is bound to the key, with
    every other binding untouched, or ErrExhausted is returned with the state
    unchanged, and the latter happens only when every usable offset is taken. *)
Theorem Allocate_exact cidr a key :
  ipam_reach cidr a → plain_net (ipnet a) →
  match byKey a !! key with
  | Some ip => Allocate a key = (a, Ok ip)
  | None =>
      match Allocate a key with
      | (b, Ok ip) =>
          (∃ off, first a ≤ off ≤ last a ∧ ip = offsetIP a off) ∧
          byIP a !! ip = None ∧
          byKey b = <[key := ip]> (byKey a) ∧ byIP b = <[ip := key]> (byIP a)
      | (b, Err e) =>
          e = ErrExhausted ∧ b = a ∧
          ∀ off, first a ≤ off ≤ last a → is_Some (byIP a !! offsetIP a off)
      end
  end.
Proof.
  intros Hr Hp. destruct (ipam_reach_wf cidr a Hr) as [_ Hinv]. specialize (Hinv Hp).
  destruct (byKey a !! key) eqn:Hk; [unfold Allocate; by rewrite Hk|].
  destruct (Allocate_fresh a key Hinv Hk) as [(off & Ho & Hf & ->)|[Hfull ->]].
  - split; [by exists off|]. done.
  - done.
Qed.

Lemma Allocate_exact_witness :
  (Allocate ex_two "ns/c").2 = Ok "10.244.1.4" ∧ byIP ex_two !! "10.244.1.4" = None.
Proof.
  assert ((Allocate ex_two "ns/c").2 = Ok "10.244.1.4") as E by (by vm_compute).
  assert (byKey ex_two !! "ns/c" = None) as Ek by (by vm_compute).
  pose proof (Allocate_exact ex_cidr ex_two "ns/c" ex_two_reach ltac:(by left)) as H.
  rewrite Ek in H. split; [done|].
  destruct (Allocate ex_two "ns/c") as [b [ip|e]]; simpl in E; [|discriminate E].
  injection E as ->. apply H.
Defined.

(** Within an IPv4 node every held address parses, lies in the node's
    CIDR, and is none of the network address, the gateway (the first host) and
    the broadcast address. *)
Theorem ipv4_addresses_in_cidr cidr a key ip :
  ipam_reach cidr a → net_mw (ipnet a) = W4 → byKey a !! key = Some ip →
  (∃ parsed, ParseIP ip = Some parsed ∧ Net_Contains (ipnet a) parsed = true) ∧
  ip ≠ string4 (base a) ∧ ip ≠ string4 (base a + 1) ∧
  ip ≠ string4 (base a + 2 ^ (32 - net_ones (ipnet a)) - 1).
Proof.
  intros Hr H4 Hk. destruct (ipam_reach_wf cidr a Hr) as [Hsh Hinv].
  specialize (Hinv (plain_ipv4 a H4)).
  apply (inv_inverse a Hinv), (inv_range a Hinv) in Hk as (off & Ho & ->).
  destruct (reserve_offset a Hsh H4 off Ho) as (p & Hp & Hc & _).
  destruct (offset_ipv4 a Hsh H4 off Ho) as (E & Hb & H0 & Hhi & Hl & Hf & _).
  split; [by exists p|]. rewrite E.
  repeat split; intros Heq%string4_inj; lia.
Qed.

Lemma ipv4_addresses_in_cidr_witness :
  byKey ex_two !! "ns/b" = Some "10.244.1.3" ∧ "10.244.1.3" ≠ string4 (base ex_two + 1).
Proof.
  split; [by vm_compute|].
  apply (ipv4_addresses_in_cidr ex_cidr ex_two "ns/b"); [apply ex_two_reach|by vm_compute..].
Defined.

(** No two Pods share an address, on one node or across nodes whose IPv4
    CIDRs are disjoint. *)
Theorem no_shared_address cidr1 cidr2 a b k1 k2 ip :
  ipam_reach cidr1 a → ipam_reach cidr2 b →
  net_mw (ipnet a) = W4 → net_mw (ipnet b) = W4 →
  (a = b ∨ ∀ p, Net_Contains (ipnet a) p = true → Net_Contains (ipnet b) p = false) →
  byKey a !! k1 = Some ip → byKey b !! k2 = Some ip → a = b ∧ k1 = k2.
Proof.
  intros Ha Hb Ha4 Hb4 [<-|Hd] H1 H2.
  - split; [done|]. destruct (ipam_reach_wf cidr1 a Ha) as [_ Hinv].
    specialize (Hinv (plain_ipv4 a Ha4)).
    apply (inv_inverse a Hinv) in H1, H2. by simplify_eq.
  - exfalso.
    assert (∀ c x, ipam_reach c x → net_mw (ipnet x) = W4 → ∀ k, byKey x !! k = Some ip →
      ∃ p, ParseIP ip = Some p ∧ Net_Contains (ipnet x) p = true) as Hin.
    { intros c x Hx Hx4 k Hk. destruct (ipam_reach_wf c x Hx) as [Hsh Hinv].
      specialize (Hinv (plain_ipv4 x Hx4)).
      apply (inv_inverse x Hinv), (inv_range x Hinv) in Hk as (off & Ho & ->).
      destruct (reserve_offset x Hsh Hx4 off Ho) as (p & Hp & Hc & _). by exists p. }
    destruct (Hin _ _ Ha Ha4 _ H1) as (p & Hp & Hpa).
    destruct (Hin _ _ Hb Hb4 _ H2) as (p' & Hp' & Hpb). simplify_eq.
    by rewrite Hd in Hpb.
Qed.

Lemma no_shared_address_witness : "ns/a" = "ns/a" ∧ byKey ex_two !! "ns/a" = Some "10.244.1.2".
Proof.
  split; [|by vm_compute].
  apply (no_shared_address ex_cidr ex_cidr ex_two ex_two "ns/a" "ns/a" "10.244.1.2");
    [apply ex_two_reach..|by vm_compute|by vm_compute|by left|by vm_compute|by vm_compute].
Defined.

(** C30: restart recovery is exact: reserving, in any order, the addresses the
    previous IPv4 allocator had handed out into a fresh allocator over the same
    CIDR rebuilds exactly the same bindings. *)
Theorem recovery_roundtrip cidr a b l :
  ipam_reach cidr a → NewPodIPAM cidr = Ok b → net_mw (ipnet a) = W4 →
  l ≡ₚ map_to_list (byKey a) →
  byKey (RecoverAllocations b l) = byKey a ∧ byIP (RecoverAllocations b l) = byIP a.
Proof.
  intros Hr Hb H4 Hl. destruct (ipam_reach_wf cidr a Hr) as [Hsh Hinv].
  specialize (Hinv (plain_ipv4 a H4)).
  destruct (same_fields cidr a b Hr Hb) as (En & Eby & Eba & Ef & El & Ek & Ei).
  pose proof (NewPodIPAM_shape cidr b Hb) as Hshb.
  assert (∀ k ip, (k, ip) ∈ l ↔ byKey a !! k = Some ip) as Hmem.
  { intros k ip. by rewrite Hl, elem_of_map_to_list. }
  destruct (recover_list b l) as [H1 H2].
  - done.
  - congruence.
  - rewrite Hl. apply NoDup_fst_map_to_list.
  - rewrite Hl. apply (NoDup_fmap_2_strong snd); [|apply NoDup_map_to_list].
    intros [k1 i1] [k2 i2] Hin1%elem_of_map_to_list Hin2%elem_of_map_to_list E.
    simpl in E. subst. apply (inv_inverse a Hinv) in Hin1, Hin2. by simplify_eq.
  - apply Forall_forall. intros [k ip] Hin%Hmem. simpl.
    apply (inv_inverse a Hinv), (inv_range a Hinv) in Hin as (off & Ho & ->).
    exists off. unfold offsetIP. rewrite Ef, El, Eba, Eby. done.
  - apply Forall_forall. intros p _. rewrite Ek, Ei, !lookup_empty. done.
  - split; apply map_eq; intros x; apply option_eq; intros y.
    + rewrite H1, Hmem, Ek, lookup_empty. naive_solver.
    + rewrite H2, Hmem, Ei, lookup_empty, (inv_inverse a Hinv). naive_solver.
Qed.

Lemma recovery_roundtrip_witness :
  byKey (RecoverAllocations ex_new [("ns/b", "10.244.1.3"); ("ns/a", "10.244.1.2")]) = byKey ex_two.
Proof.
  refine (proj1 (recovery_roundtrip ex_cidr ex_two ex_new _ ex_two_reach _ _ _));
    [by vm_compute..|].
  vm_compute. first [apply Permutation_refl | apply perm_swap].
Defined.

(** An IPv4 allocator never holds more bindings than the CIDR has hosts
    beyond the network address, the gateway and the broadcast address. *)
Theorem ipv4_capacity cidr a :
  ipam_reach cidr a → net_mw (ipnet a) = W4 →
  Z.of_nat (size (byKey a)) ≤ Z.max 0 (2 ^ (32 - net_ones (ipnet a)) - 3).
Proof.
  intros Hr H4. destruct (ipam_reach_wf cidr a Hr) as [Hsh Hinv].
  specialize (Hinv (plain_ipv4 a H4)).
  set (ips := (map_to_list (byKey a)).*2). set (offs := seqZ (first a) (last a - first a + 1)).
  assert (NoDup ips) as Hnd.
  { apply (NoDup_fmap_2_strong snd); [|apply NoDup_map_to_list].
    intros [k1 i1] [k2 i2] Hin1%elem_of_map_to_list Hin2%elem_of_map_to_list E.
    simpl in E. subst. apply (inv_inverse a Hinv) in Hin1, Hin2. by simplify_eq. }
  assert (ips ⊆+ (offsetIP a <$> offs)) as Hsub.
  { apply NoDup_submseteq; [done|]. intros ip ([k i] & -> & Hin)%list_elem_of_fmap.
    apply elem_of_map_to_list, (inv_inverse a Hinv), (inv_range a Hinv) in Hin
      as (off & Ho & ->). apply list_elem_of_fmap. exists off. split; [done|].
    apply elem_of_seqZ. lia. }
  apply submseteq_length in Hsub. subst ips offs.
  rewrite !length_fmap, length_map_to_list, length_seqZ in Hsub.
  destruct Hsh as (v & _ & _ & _ & _ & _ & Hf & Hl). rewrite H4 in Hl. simpl in Hl. lia.
Qed.

Lemma ipv4_capacity_witness : Z.of_nat (size (byKey ex_two)) ≤ 5.
Proof. apply (ipv4_capacity ex_cidr ex_two); [apply ex_two_reach|by vm_compute]. Defined.

(** ** Refinement of an abstract allocator

    The contract the provider relies on: a finite map from Pod keys to the
    addresses of a pool.  A call carries its arguments, a reply what the caller
    sees; the relation below says which replies and which next map each call
    has, so a call that did nothing, or answered another address, is no step
    of it. *)
Inductive Call : Type :=
  | CallAllocate (key : string)
  | CallReserve (key ip : string)
  | CallRelease (key : string).

Inductive Reply : Type :=
  | Address (ip : string)
  | Reserved
  | Released
  | Refused (e : IpamError).

(** The allocator answering one call, and a history of calls. *)
Definition ipam_call (a : PodIPAM) (c : Call) : PodIPAM * Reply :=
  match c with
  | CallAllocate key =>
      let '(b, r) := Allocate a key in
      (b, match r with Ok ip => Address ip | Err e => Refused e end)
  | CallReserve key ip =>
      let '(b, r) := Reserve a key ip in
      (b, match r with Ok _ => Reserved | Err e => Refused e end)
  | CallRelease key => (Release a key, Released)
  end.

Fixpoint ipam_calls (a : PodIPAM) (cs : list Call) : PodIPAM * list Reply :=
  match cs with
  | [] => (a, [])
  | c :: cs' =>
      let '(a1, r) := ipam_call a c in
      let '(a2, rs) := ipam_calls a1 cs' in (a2, r :: rs)
  end.

(** The pool of an allocator, and the address of it a text names. *)
Definition in_pool (a : PodIPAM) (ip : string) : Prop :=
  ∃ off, first a ≤ off ≤ last a ∧ ip = offsetIP a off.

Definition names (a : PodIPAM) (text ip : string) : Prop :=
  ∃ parsed off, ParseIP text = Some parsed ∧ Net_Contains (ipnet a) parsed = true ∧
    first a ≤ off ≤ last a ∧ ipToBig parsed = base a + off ∧ ip = offsetIP a off.

Section contract.
Context (pool : string → Prop) (named : string → string → Prop).

(** The address is held by no key. *)
Definition free (m : gmap string string) (ip : string) : Prop := ∀ k, m !! k ≠ Some ip.

Inductive spec_step : gmap string string → Call → Reply → gmap string string → Prop :=
  | spec_again m key ip :
      m !! key = Some ip → spec_step m (CallAllocate key) (Address ip) m
  | spec_fresh m key ip :
      m !! key = None → pool ip → free m ip →
      spec_step m (CallAllocate key) (Address ip) (<[key := ip]> m)
  | spec_exhausted m key :
      m !! key = None → (∀ ip, pool ip → ∃ k, m !! k = Some ip) →
      spec_step m (CallAllocate key) (Refused ErrExhausted) m
  | spec_bind m key text ip :
      named text ip → m !! key = None → free m ip →
      spec_step m (CallReserve key text) Reserved (<[key := ip]> m)
  | spec_same m key text ip :
      named text ip → m !! key = Some ip →
      spec_step m (CallReserve key text) Reserved m
  | spec_held m key text ip owner :
      named text ip → m !! owner = Some ip → owner ≠ key →
      spec_step m (CallReserve key text) (Refused (ErrAlreadyHeld ip key owner)) m
  | spec_moved m key text ip other :
      named text ip → free m ip → m !! key = Some other →
      spec_step m (CallReserve key text) (Refused (ErrKeyHolds key ip other)) m
  | spec_invalid m key text :
      ParseIP text = None →
      spec_step m (CallReserve key text) (Refused (ErrInvalidIP key text)) m
  | spec_outside m key text :
      is_Some (ParseIP text) → (∀ ip, ¬ named text ip) →
      spec_step m (CallReserve key text) (Refused (ErrOutOfRange key text)) m
  | spec_forget m key : spec_step m (CallRelease key) Released (delete key m).

Inductive spec_run :
    gmap string string → list Call → list Reply → gmap string string → Prop :=
  | spec_done m : spec_run m [] [] m
  | spec_more m c r m1 cs rs m2 :
      spec_step m c r m1 → spec_run m1 cs rs m2 → spec_run m (c :: cs) (r :: rs) m2.
End contract.

Lemma IP_String_nonempty ip : IP_String ip ≠ "".
Proof.
  unfold IP_String. destruct (To4 ip) as [x|].
  - unfold string4, octets. simpl. by destruct (Itoa _).
  - unfold string6. destruct (best_run _ _ _) as [[i l]|]; simpl.
    + by destruct (Join _ _).
    + by destruct (FormatUint _ _).
Qed.

(** An allocator in the middle of a history. *)
Section simulation.
Context (a : PodIPAM) (Hsh : ipam_shape a) (Hp : plain_net (ipnet a)) (Hinv : ipam_inv a).

Lemma free_byIP ip : byIP a !! ip = None → free (byKey a) ip.
Proof. intros Hn k Hk%(inv_inverse a Hinv). congruence. Qed.

(** What Reserve's checks decide about a text. *)
Lemma reserve_checks text parsed :
  ParseIP text = Some parsed →
  if String.eqb (canonIP parsed (bytes a)) "" || negb (usable a parsed)
  then ∀ ip, ¬ names a text ip
  else names a text (canonIP parsed (bytes a)).
Proof.
  intros E. destruct (ParseIP_wf _ _ E) as [Hwf Hw].
  destruct (usable a parsed) eqn:Eu.
  - destruct (canon_offset a parsed Hsh Hp Hwf Hw Eu) as [Ho ->].
    assert (offsetIP a (ipToBig parsed - base a) ≠ "") as ->%String.eqb_neq
      by apply IP_String_nonempty.
    simpl. exists parsed, (ipToBig parsed - base a). split_and!; try done; try lia.
    unfold usable in Eu. by destruct (Net_Contains _ _).
  - rewrite orb_true_r. intros ip (p & off & E' & Hc & Ho & Hb & _).
    rewrite E in E'. simplify_eq. unfold usable in Eu. rewrite Hc in Eu. simpl in Eu.
    replace (ipToBig p - base a) with off in Eu by lia.
    apply andb_false_iff in Eu. rewrite !Z.leb_gt in Eu. lia.
Qed.

Lemma Allocate_simulates key :
  let '(b, r) := ipam_call a (CallAllocate key) in
  spec_step (in_pool a) (names a) (byKey a) (CallAllocate key) r (byKey b).
Proof.
  simpl. destruct (byKey a !! key) as [ip|] eqn:Hk.
  { unfold Allocate. rewrite Hk. by constructor. }
  destruct (Allocate_fresh a key Hinv Hk) as [(off & Ho & Hf & ->)|[Hfull ->]].
  - apply spec_fresh; [done|by exists off|by apply free_byIP].
  - apply spec_exhausted; [done|]. intros ip (off & Ho & ->).
    destruct (Hfull off Ho) as [k Hk']. exists k. by apply (inv_inverse a Hinv).
Qed.

Lemma Reserve_simulates key text :
  let '(b, r) := ipam_call a (CallReserve key text) in
  spec_step (in_pool a) (names a) (byKey a) (CallReserve key text) r (byKey b).
Proof.
  simpl. unfold Reserve. destruct (ParseIP text) as [parsed|] eqn:E; [|by constructor].
  pose proof (reserve_checks text parsed E) as Hn.
  destruct (_ || _); [by constructor|]. set (ip := canonIP parsed (bytes a)) in *.
  destruct (byIP a !! ip) as [owner|] eqn:Eo.
  - apply (inv_inverse a Hinv) in Eo.
    destruct (String.eqb_spec owner key) as [->|Hne]; [by eapply spec_same|].
    by apply spec_held.
  - pose proof (free_byIP ip Eo) as Hf. destruct (byKey a !! key) as [other|] eqn:Ek.
    + destruct (String.eqb_spec other ip) as [->|_]; [by destruct (Hf key)|].
      by apply spec_moved.
    + by eapply spec_bind.
Qed.

Lemma Release_simulates key :
  byKey (Release a key) = delete key (byKey a).
Proof.
  unfold Release. destruct (byKey a !! key) eqn:Ek; [done|]. by rewrite delete_id.
Qed.

Lemma call_simulates c :
  let '(b, r) := ipam_call a c in
  spec_step (in_pool a) (names a) (byKey a) c r (byKey b).
Proof.
  destruct c as [key|key text|key]; [apply Allocate_simulates|apply Reserve_simulates|].
  simpl. rewrite Release_simulates. constructor.
Qed.
End simulation.

(** A call is a step of the allocator, so the pool stays what it was. *)
Lemma call_step a c : ipam_step a (ipam_call a c).1.
Proof.
  destruct c as [key|key ip|key]; simpl.
  - pose proof (step_allocate a key). by destruct (Allocate a key).
  - pose proof (step_reserve a key ip). by destruct (Reserve a key ip).
  - apply step_release.
Qed.

Lemma step_fields a b :
  ipam_step a b →
  ipnet b = ipnet a ∧ bytes b = bytes a ∧ base b = base a ∧ first b = first a ∧ last b = last a.
Proof. destruct 1; unfold Allocate, Reserve, Release; repeat case_match; done. Qed.

Lemma step_pool a b : ipam_step a b → in_pool b = in_pool a ∧ names b = names a.
Proof.
  intros (En & Eb & Ea & Ef & El)%step_fields. unfold in_pool, names, offsetIP.
  by rewrite En, Eb, Ea, Ef, El.
Qed.

Lemma calls_simulate cidr a cs :
  ipam_reach cidr a → plain_net (ipnet a) →
  spec_run (in_pool a) (names a) (byKey a) cs (ipam_calls a cs).2 (byKey (ipam_calls a cs).1).
Proof.
  revert a. induction cs as [|c cs IH]; intros a Hr Hp; simpl; [constructor|].
  destruct (ipam_reach_wf cidr a Hr) as [Hsh Hinv]. specialize (Hinv Hp).
  pose proof (call_simulates a Hsh Hp Hinv c) as Hs. pose proof (call_step a c) as Hstep.
  destruct (ipam_call a c) as [a1 r]. simpl in Hstep.
  specialize (IH a1 (reach_step _ _ _ Hr Hstep)).
  destruct (step_pool _ _ Hstep) as [E1 E2], (step_fields _ _ Hstep) as [E3 _].
  rewrite E1, E2, E3 in IH. specialize (IH Hp).
  destruct (ipam_calls a1 cs) as [a2 rs]. by eapply spec_more.
Qed.

(** C8: over a CIDR not written as an IPv4-mapped IPv6 block, whatever
    sequence of Allocate, Reserve and Release calls an allocator answers from
    NewPodIPAM on, its replies and its bindings are those of the contract
    [spec_step], call by call: Allocate answers the key's address again, or
    binds one of the pool nobody holds, or says exhausted when every address of
    the pool is held; Reserve binds the address its text names when that is free
    and the key holds none, accepts it again for its holder, and refuses by the
    error of each other case, leaving the bindings alone; Release removes
    exactly its key. *)
Theorem ipam_refines cidr a cs :
  NewPodIPAM cidr = Ok a → plain_net (ipnet a) →
  let '(b, replies) := ipam_calls a cs in
  spec_run (in_pool a) (names a) ∅ cs replies (Allocations b).
Proof.
  intros Hn Hp. pose proof (calls_simulate cidr a cs (reach_new _ _ Hn) Hp) as H.
  assert (byKey a = ∅) as E by (by eapply same_fields; [apply reach_new|]).
  rewrite E in H. by destruct (ipam_calls a cs).
Qed.

(** Two Pods allocate; a third claims an address that is held, then, once
    it is released, that address. *)
Definition ex_calls : list Call :=
  [CallAllocate "ns/a"; CallAllocate "ns/b"; CallAllocate "ns/a";
   CallReserve "ns/c" "::ffff:10.244.1.2"; CallRelease "ns/a";
   CallReserve "ns/c" "10.244.1.2"; CallReserve "ns/d" "10.244.1.7";
   CallReserve "ns/d" "nowhere"; CallReserve "ns/c" "10.244.1.4"].

Definition ex_replies : list Reply :=
  [Address "10.244.1.2"; Address "10.244.1.3"; Address "10.244.1.2";
   Refused (ErrAlreadyHeld "10.244.1.2" "ns/c" "ns/a"); Released; Reserved;
   Refused (ErrOutOfRange "ns/d" "10.244.1.7"); Refused (ErrInvalidIP "ns/d" "nowhere");
   Refused (ErrKeyHolds "ns/c" "10.244.1.4" "10.244.1.2")].

Lemma ipam_refines_witness :
  spec_run (in_pool ex_new) (names ex_new) ∅ ex_calls ex_replies
    (Allocations (ipam_calls ex_new ex_calls).1).
Proof.
  assert ((ipam_calls ex_new ex_calls).2 = ex_replies) as <- by (by vm_compute).
  pose proof (ipam_refines ex_cidr ex_new ex_calls) as H.
  destruct (ipam_calls ex_new ex_calls) as [b rs]. apply H; [by vm_compute|by left].
Defined.

(** The plain-network condition is needed: over an IPv4-mapped block the
    base is taken from the 4-byte form while addresses are printed at 16 bytes,
    and the first address handed out is not in the CIDR. *)
Theorem mapped_cidr_escapes :
  ∃ a b ip parsed, NewPodIPAM "::ffff:10.0.0.0/120" = Ok a ∧
    Allocate a "ns/pod" = (b, Ok ip) ∧ ip = "::a00:2" ∧
    ParseIP ip = Some parsed ∧ Net_Contains (ipnet a) parsed = false.
Proof. do 4 eexists. split_and!; [by vm_compute..]. Qed.
