(* ===== verification/Host.v ===== *)
(** * Running host commands: [pkg/network/podnet/runner.go] and
      [pkg/network/wireguard/runner.go]

    The two packages declare the same [command] struct, [runner] interface and
    [runTolerating] helper.  A [Runner W] is the interface: it runs a command
    against the state [W] of the host and yields the stdout and, on a non-zero
    exit or a refused request, a [CommandError].  The clients are verified for
    every [Runner]; the privileged helper is one of them. *)

From S2P Require Import Prelude GoStrings.

Record Command := mkCmd { c_name : string; c_args : list string; c_stdin : string }.

#[export] Instance Command_eq_dec : EqDecision Command.
Proof. solve_decision. Defined.

Record CommandError := mkCE { ce_exit : Z; ce_stderr : string; ce_err : string }.

Record Runner (W : Type) := mkRunner {
  run : Command → W → W * (string * option CommandError);
}.
Arguments mkRunner {W} _.
Arguments run {W} _ _ _.

(** Whether the lower-cased stderr contains one of the benign fragments. *)
Definition is_benign (ce : CommandError) (benign : list string) : bool :=
  let msg := ToLower (ce_stderr ce) in
  existsb (λ b, negb (String.eqb b "") && Contains msg b) benign.

Definition runTolerating {W} (R : Runner W) (c : Command) (benign : list string) (w : W)
    : W * (string * option CommandError) :=
  let '(w', (out, err)) := run R c w in
  match err with
  | None => (w', (out, None))
  | Some ce => (w', (out, if is_benign ce benign then None else Some ce))
  end.

(** A runner that also records the commands it is given, oldest first. *)
Definition traced {W} (R : Runner W) : Runner (list Command * W) :=
  mkRunner (λ c tw,
    let '(tr, w) := tw in
    let '(w', r) := run R c w in ((tr ++ [c], w'), r)).

(** A command runs exactly once, tolerated or not. *)
Lemma runTolerating_trace {W} (R : Runner W) c benign tr w :
  (runTolerating (traced R) c benign (tr, w)).1.1 = tr ++ [c].
Proof. unfold runTolerating. simpl. destruct (run R c w) as [w' [out [ce|]]]; done. Qed.

Lemma runTolerating_world {W} (R : Runner W) c benign w :
  (runTolerating R c benign w).1 = (run R c w).1.
Proof. unfold runTolerating. by destruct (run R c w) as [w' [out [ce|]]]. Qed.

(** Scripted host: a list of answers consumed one per command, then success. *)
Definition scripted : Runner (list (string * option CommandError)) :=
  mkRunner (λ _ w, match w with [] => ([], ("", None)) | r :: w' => (w', r) end).
