(* ===== verification/PodNet.v ===== *)
(** * The Pod network path: [pkg/network/podnet/router.go] and [service.go]

    [Router] owns one pf anchor and regenerates it wholesale on every change.
    Every operation takes the router and the host state and returns both with
    its error; the mutex makes an operation one atomic step. *)

From S2P Require Import Prelude GoStrings GoNet Host.

Open Scope Z_scope.

Definition DefaultAnchor : string := "macvz/pods".
Definition ipForwardingSysctl : string := "net.inet.ip.forwarding".
Definition pfAlreadyEnabled : string := "pf already enabled".
Definition errRouteMissing : string := "not in table".
Definition errRouteNotFound : string := "not found".
Definition errRouteBadInterface : string := "bad address".
Definition errRouteBadIfName : string := "bad interface name".

Record Endpoint := mkEp { PodKey : string; PodIP : string; VMIP : string; Interface : string }.

Record ServiceRule := mkRule {
  ServiceKey : string; ClusterIP : string; Protocol : string;
  Port : Z; TargetPort : Z; Backends : list string;
}.

Record RouterConfig := mkRouterConfig {
  cfg_Interface : string; cfg_MeshInterface : string; cfg_Anchor : string;
  cfg_EnableForwarding : bool;
}.

Record Router := mkRouter {
  cfg : RouterConfig;
  pfctl : string; sysctl : string; route : string;
  started : bool;
  endpoints : gmap string Endpoint;
  services : gmap string (list ServiceRule);
}.

#[export] Instance Endpoint_eq_dec : EqDecision Endpoint.
Proof. solve_decision. Defined.
#[export] Instance ServiceRule_eq_dec : EqDecision ServiceRule.
Proof. solve_decision. Defined.

Inductive NetError : Type :=
  | ENoPodKey
  | EBadPodIP (key ip : string)
  | EBadVMIP (key ip : string)
  | EBadInterface (key iface : string)
  | ENoServiceKey
  | EBadClusterIP (key ip : string)
  | EBadProtocol (key proto : string)
  | EBadPort (key : string) (port : Z)
  | EBadTargetPort (key : string) (port : Z)
  | EBadBackend (key ip : string)
  | EInterfaceRequired
  | EForwarding (ce : CommandError)
  | EEnablePf (ce : CommandError)
  | EDefaultRoute (iface : string) (ce : CommandError)
  | ELoadAnchor (anchor : string) (ce : CommandError)
  | EBeforeStart (key : string).

Definition is_ip (s : string) : bool :=
  match ParseIP s with Some _ => true | None => false end.

Definition Endpoint_validate (e : Endpoint) : result NetError unit :=
  guard (negb (String.eqb (PodKey e) "")) ENoPodKey ;--
  guard (is_ip (PodIP e)) (EBadPodIP (PodKey e) (PodIP e)) ;--
  guard (is_ip (VMIP e)) (EBadVMIP (PodKey e) (VMIP e)) ;--
  guard (String.eqb (Interface e) "" || String.eqb (TrimSpace (Interface e)) (Interface e))
    (EBadInterface (PodKey e) (Interface e)).

Definition ServiceRule_validate (r : ServiceRule) : result NetError unit :=
  guard (negb (String.eqb (ServiceKey r) "")) ENoServiceKey ;--
  guard (is_ip (ClusterIP r)) (EBadClusterIP (ServiceKey r) (ClusterIP r)) ;--
  guard (String.eqb (Protocol r) "tcp" || String.eqb (Protocol r) "udp")
    (EBadProtocol (ServiceKey r) (Protocol r)) ;--
  guard ((1 <=? Port r) && (Port r <=? 65535)) (EBadPort (ServiceKey r) (Port r)) ;--
  guard ((1 <=? TargetPort r) && (TargetPort r <=? 65535))
    (EBadTargetPort (ServiceKey r) (TargetPort r)) ;--
  for_each (λ b, guard (is_ip b) (EBadBackend (ServiceKey r) b)) (Backends r).

(** [New] with the default tools. *)
Definition New (c : RouterConfig) : Router :=
  let anchor := if String.eqb (cfg_Anchor c) "" then DefaultAnchor else cfg_Anchor c in
  mkRouter (mkRouterConfig (cfg_Interface c) (cfg_MeshInterface c) anchor (cfg_EnableForwarding c))
    "pfctl" "sysctl" "route" false ∅ ∅.

(** ** Rendering *)

Definition lines_text (l : list string) : string := Concat ((λ s, s +:+ nl) <$> l).

Definition endpointBinatInterfaces (defaultIface meshIface : string) (ep : Endpoint) : list string :=
  sorted_set (filter (λ s, s ≠ "")
    [ Interface ep; (if String.eqb (Interface ep) "" then defaultIface else ""); meshIface ]).

Definition binat_line (iface : string) (ep : Endpoint) : string :=
  "binat on " +:+ iface +:+ " from " +:+ VMIP ep +:+ " to any -> " +:+ PodIP ep.

Definition endpoint_lines (iface meshIface : string) (ep : Endpoint) : list string :=
  ("# " +:+ PodKey ep) ::
  ((λ i, binat_line i ep) <$> endpointBinatInterfaces iface meshIface ep).

Definition renderAnchor (iface meshIface : string) (eps : list Endpoint) : list string :=
  "# Managed by macvz (issue #22). Do not edit by hand." ::
  (eps ≫= endpoint_lines iface meshIface).

Definition rule_le (a b : ServiceRule) : bool :=
  if String.eqb (ClusterIP a) (ClusterIP b) then Port a <=? Port b
  else String.leb (ClusterIP a) (ClusterIP b).

Definition resolve_backend (vmipByPodIP : gmap string string) (podIP : string) : string :=
  match vmipByPodIP !! podIP with Some vmIP => vmIP | None => podIP end.

Definition rdr_line (iface : string) (r : ServiceRule) (targets : list string) : string :=
  match targets with
  | [t] =>
      "rdr on " +:+ iface +:+ " inet proto " +:+ Protocol r +:+ " from any to " +:+
      ClusterIP r +:+ " port " +:+ Itoa (Port r) +:+ " -> " +:+ t +:+ " port " +:+
      Itoa (TargetPort r)
  | _ =>
      "rdr on " +:+ iface +:+ " inet proto " +:+ Protocol r +:+ " from any to " +:+
      ClusterIP r +:+ " port " +:+ Itoa (Port r) +:+ " -> { " +:+ Join targets ", " +:+
      " } port " +:+ Itoa (TargetPort r) +:+ " round-robin"
  end.

Definition rule_lines (ifaces : list string) (vmip : gmap string string) (r : ServiceRule)
    : list string :=
  let targets := sort_strings (resolve_backend vmip <$> Backends r) in
  ("# " +:+ ServiceKey r +:+ " " +:+ ClusterIP r +:+ ":" +:+ Itoa (Port r) +:+ " -> :" +:+
   Itoa (TargetPort r)) ::
  ((λ i, rdr_line i r targets) <$> ifaces).

Section router.
Context `{MapRange}.

Definition renderServiceRules (ifaces : list string)
    (svcs : gmap string (list ServiceRule)) (vmip : gmap string string) : list string :=
  match ifaces with
  | [] => []
  | _ => sorted_map_keys svcs ≫= λ key,
           sort_by rule_le (default [] (svcs !! key)) ≫= rule_lines ifaces vmip
  end.

Definition endpointsSorted (rt : Router) : list Endpoint :=
  sort_by (le_key PodKey) (range (endpoints rt)).*2.

Definition vmnetInterfaces (rt : Router) : list string :=
  sorted_set (filter (λ s, s ≠ "")
    (cfg_Interface (cfg rt) :: (Interface <$> (range (endpoints rt)).*2))).

(** [m[ep.PodIP] = ep.VMIP] over the endpoints: the last write wins. *)
Definition vmipByPodIP (rt : Router) : gmap string string :=
  foldl (λ m ep, <[PodIP ep := VMIP ep]> m) ∅ (range (endpoints rt)).*2.

Definition ruleset_lines (rt : Router) : list string :=
  renderAnchor (cfg_Interface (cfg rt)) (cfg_MeshInterface (cfg rt)) (endpointsSorted rt) ++
  renderServiceRules (vmnetInterfaces rt) (services rt) (vmipByPodIP rt).

Definition ruleset (rt : Router) : string := lines_text (ruleset_lines rt).

Definition load_cmd (rt : Router) : Command :=
  mkCmd (pfctl rt) ["-a"; cfg_Anchor (cfg rt); "-f"; "-"] (ruleset rt).

(** ** Operations *)

Context {W : Type} (R : Runner W).

Definition loadAnchorLocked (rt : Router) (w : W) : W * result NetError unit :=
  let '(w, (_, err)) := run R (load_cmd rt) w in
  (w, match err with None => Ok tt | Some ce => Err (ELoadAnchor (cfg_Anchor (cfg rt)) ce) end).

Definition removeVMNetDefaultRouteOnInterface (rt : Router) (iface : string) (w : W)
    : W * result NetError unit :=
  let '(w, (_, err)) := runTolerating R
    (mkCmd (route rt) ["-q"; "-n"; "delete"; "-inet"; "default"; "-ifscope"; iface] "")
    [errRouteMissing; errRouteNotFound; errRouteBadInterface; errRouteBadIfName] w in
  (w, match err with None => Ok tt | Some ce => Err (EDefaultRoute iface ce) end).

Definition removeVMNetDefaultRoute (rt : Router) (w : W) : W * result NetError unit :=
  removeVMNetDefaultRouteOnInterface rt (cfg_Interface (cfg rt)) w.

(** First [interface:] line of the route output, [""] if none. *)
Fixpoint interface_line (l : list string) : string :=
  match l with
  | [] => ""
  | raw :: l' =>
      let line := TrimSpace raw in
      if HasPrefix line "interface:" then TrimSpace (TrimPrefix line "interface:")
      else interface_line l'
  end.

Definition resolveVMNetInterface (rt : Router) (vmIP : string) (w : W)
    : W * result CommandError string :=
  let '(w, (out, err)) := run R (mkCmd (route rt) ["-n"; "get"; vmIP] "") w in
  (w, match err with
      | Some ce => Err ce
      | None => Ok (interface_line (split_on newline out))
      end).

Definition set_started (rt : Router) (b : bool) : Router :=
  mkRouter (cfg rt) (pfctl rt) (sysctl rt) (route rt) b (endpoints rt) (services rt).
Definition set_endpoints (rt : Router) (m : gmap string Endpoint) : Router :=
  mkRouter (cfg rt) (pfctl rt) (sysctl rt) (route rt) (started rt) m (services rt).
Definition set_services (rt : Router) (m : gmap string (list ServiceRule)) : Router :=
  mkRouter (cfg rt) (pfctl rt) (sysctl rt) (route rt) (started rt) (endpoints rt) m.

Definition enableForwarding (rt : Router) (w : W) : W * result NetError unit :=
  if cfg_EnableForwarding (cfg rt) then
    let '(w, (_, err)) := run R (mkCmd (sysctl rt) ["-w"; ipForwardingSysctl +:+ "=1"] "") w in
    (w, match err with None => Ok tt | Some ce => Err (EForwarding ce) end)
  else (w, Ok tt).

Definition Start (rt : Router) (w : W) : Router * W * result NetError unit :=
  if String.eqb (cfg_Interface (cfg rt)) "" then (rt, w, Err EInterfaceRequired) else
  match enableForwarding rt w with
  | (w, Err e) => (rt, w, Err e)
  | (w, Ok _) =>
      match runTolerating R (mkCmd (pfctl rt) ["-e"] "") [pfAlreadyEnabled] w with
      | (w, (_, Some ce)) => (rt, w, Err (EEnablePf ce))
      | (w, (_, None)) =>
          match removeVMNetDefaultRoute rt w with
          | (w, Err e) => (rt, w, Err e)
          | (w, Ok _) =>
              let rt := set_started rt true in
              let '(w, r) := loadAnchorLocked rt w in (rt, w, r)
          end
      end
  end.

(** The interface an endpoint is attached on: its own, else the resolved
    one, else the configured one. *)
Definition attach_interface (rt : Router) (ep : Endpoint) (w : W) : W * string :=
  let '(w, iface) :=
    if String.eqb (Interface ep) "" then
      match resolveVMNetInterface rt (VMIP ep) w with
      | (w, Ok i) => (w, if String.eqb i "" then Interface ep else i)
      | (w, Err _) => (w, Interface ep)
      end
    else (w, Interface ep) in
  (w, if String.eqb iface "" then cfg_Interface (cfg rt) else iface).

Definition Attach (rt : Router) (ep : Endpoint) (w : W) : Router * W * result NetError unit :=
  match Endpoint_validate ep with
  | Err e => (rt, w, Err e)
  | Ok _ =>
      if negb (started rt) then (rt, w, Err (EBeforeStart (PodKey ep))) else
      match removeVMNetDefaultRoute rt w with
      | (w, Err e) => (rt, w, Err e)
      | (w, Ok _) =>
          let '(w, iface) := attach_interface rt ep w in
          let ep := mkEp (PodKey ep) (PodIP ep) (VMIP ep) iface in
          match removeVMNetDefaultRouteOnInterface rt iface w with
          | (w, Err e) => (rt, w, Err e)
          | (w, Ok _) =>
              let rt := set_endpoints rt (<[PodKey ep := ep]> (endpoints rt)) in
              let '(w, r) := loadAnchorLocked rt w in (rt, w, r)
          end
      end
  end.

Definition Detach (rt : Router) (podKey : string) (w : W) : Router * W * result NetError unit :=
  match endpoints rt !! podKey with
  | None => (rt, w, Ok tt)
  | Some _ =>
      let rt := set_endpoints rt (delete podKey (endpoints rt)) in
      if negb (started rt) then (rt, w, Ok tt)
      else let '(w, r) := loadAnchorLocked rt w in (rt, w, r)
  end.

(** A failed flush is logged; the router is stopped all the same. *)
Definition Stop (rt : Router) (w : W) : Router * W * result NetError unit :=
  let rt := set_services (set_endpoints rt ∅) ∅ in
  if negb (started rt) then (rt, w, Ok tt)
  else
    let '(w, _) := run R (mkCmd (pfctl rt) ["-a"; cfg_Anchor (cfg rt); "-F"; "all"] "") w in
    (set_started rt false, w, Ok tt).

Definition Endpoints (rt : Router) : list Endpoint := endpointsSorted rt.

Definition has_backends (r : ServiceRule) : bool :=
  match Backends r with [] => false | _ => true end.

Definition AttachService (rt : Router) (key : string) (rules : list ServiceRule) (w : W)
    : Router * W * result NetError unit :=
  if String.eqb key "" then (rt, w, Err ENoServiceKey) else
  match for_each ServiceRule_validate rules with
  | Err e => (rt, w, Err e)
  | Ok _ =>
      let kept := filter (λ r, has_backends r = true) rules in
      if negb (started rt) then (rt, w, Err (EBeforeStart key)) else
      let rt := set_services rt
        (match kept with [] => delete key (services rt) | _ => <[key := kept]> (services rt) end) in
      let '(w, r) := loadAnchorLocked rt w in (rt, w, r)
  end.

Definition DetachService (rt : Router) (key : string) (w : W)
    : Router * W * result NetError unit :=
  match services rt !! key with
  | None => (rt, w, Ok tt)
  | Some _ =>
      let rt := set_services rt (delete key (services rt)) in
      if negb (started rt) then (rt, w, Ok tt)
      else let '(w, r) := loadAnchorLocked rt w in (rt, w, r)
  end.

Definition Services (rt : Router) : list string := sorted_map_keys (services rt).

(** ** Histories of operations *)

Inductive op : Type :=
  | OpStart
  | OpAttach (ep : Endpoint)
  | OpDetach (podKey : string)
  | OpAttachService (key : string) (rules : list ServiceRule)
  | OpDetachService (key : string)
  | OpStop.

Definition exec_op (o : op) (rt : Router) (w : W) : Router * W * result NetError unit :=
  match o with
  | OpStart => Start rt w
  | OpAttach ep => Attach rt ep w
  | OpDetach k => Detach rt k w
  | OpAttachService k rules => AttachService rt k rules w
  | OpDetachService k => DetachService rt k w
  | OpStop => Stop rt w
  end.

Fixpoint run_ops (ops : list op) (rt : Router) (w : W)
    : Router * W * list (result NetError unit) :=
  match ops with
  | [] => (rt, w, [])
  | o :: ops' =>
      let '(rt, w, r) := exec_op o rt w in
      let '(rt, w, rs) := run_ops ops' rt w in (rt, w, r :: rs)
  end.

(** The one error after which the map and the anchor may differ. *)
Definition is_load_error (r : result NetError unit) : bool :=
  match r with Err (ELoadAnchor _ _) => true | _ => false end.
End router.

(** ** The router invariant *)

Definition trimmed (s : string) : Prop := TrimSpace s = s.

Record endpoint_ok (key : string) (ep : Endpoint) : Prop := {
  ep_key : PodKey ep = key;
  ep_key_ne : key ≠ "";
  ep_pod : is_ip (PodIP ep) = true;
  ep_vm : is_ip (VMIP ep) = true;
}.

Definition rule_ok (r : ServiceRule) : Prop :=
  ServiceRule_validate r = Ok tt ∧ Backends r ≠ [].

Record router_inv (rt : Router) : Prop := {
  inv_endpoints : map_Forall endpoint_ok (endpoints rt);
  inv_iface : started rt = true → cfg_Interface (cfg rt) ≠ "";
  inv_ep_iface : map_Forall (λ _ ep, Interface ep ≠ "") (endpoints rt);
  inv_services : map_Forall (λ key rules, key ≠ "" ∧ rules ≠ [] ∧ Forall rule_ok rules) (services rt);
}.


Section inv.
Context `{MapRange} {W : Type} (R : Runner W).
Implicit Types (rt : Router) (w : W).

Lemma router_inv_New c : router_inv (New c).
Proof. split; simpl; try apply map_Forall_empty. done. Qed.

Lemma Endpoint_validate_Ok ep :
  Endpoint_validate ep = Ok tt → PodKey ep ≠ "" ∧ is_ip (PodIP ep) = true ∧ is_ip (VMIP ep) = true.
Proof. unfold Endpoint_validate, guard. intros. chase; done. Qed.

Lemma attach_interface_ne rt ep w w' iface :
  cfg_Interface (cfg rt) ≠ "" → attach_interface R rt ep w = (w', iface) → iface ≠ "".
Proof.
  unfold attach_interface. intros Hc Ha. repeat case_match; simplify_eq; bools; done.
Qed.

Lemma inv_set_endpoints rt m :
  router_inv rt → map_Forall endpoint_ok m → map_Forall (λ _ ep, Interface ep ≠ "") m →
  router_inv (set_endpoints rt m).
Proof. intros [] ??. by split. Qed.

Lemma inv_set_services rt m :
  router_inv rt →
  map_Forall (λ key rules, key ≠ "" ∧ rules ≠ [] ∧ Forall rule_ok rules) m →
  router_inv (set_services rt m).
Proof. intros [] ?. by split. Qed.

Lemma Start_inv rt w rt' w' r : router_inv rt → Start R rt w = (rt', w', r) → router_inv rt'.
Proof.
  intros Hi. unfold Start. intros Hs. destruct (String.eqb _ _) eqn:E; simplify_eq; [done|].
  bools. repeat case_match; simplify_eq; try done; destruct Hi; by split.
Qed.

Lemma Attach_inv rt ep w rt' w' r :
  router_inv rt → Attach R rt ep w = (rt', w', r) → router_inv rt'.
Proof.
  intros Hi. unfold Attach. destruct (Endpoint_validate ep) as [[]|] eqn:Hv; [|by intros; simplify_eq].
  apply Endpoint_validate_Ok in Hv as (?&?&?).
  destruct (started rt) eqn:Hst; simpl; [|by intros; simplify_eq].
  destruct (removeVMNetDefaultRoute R rt w) as [w1 [u|e]]; [|by intros; simplify_eq].
  destruct (attach_interface R rt ep w1) as [w2 iface] eqn:Ha.
  destruct (removeVMNetDefaultRouteOnInterface R rt iface w2) as [w3 [u'|e]]; [|by intros; simplify_eq].
  destruct (loadAnchorLocked R _ w3). intros; simplify_eq.
  apply inv_set_endpoints; [done|apply map_Forall_insert_2..]; [done|apply Hi| |apply Hi].
  simpl. eapply attach_interface_ne; [|done]. by apply Hi.
Qed.

Lemma Detach_inv rt k w rt' w' r :
  router_inv rt → Detach R rt k w = (rt', w', r) → router_inv rt'.
Proof.
  intros Hi. unfold Detach. destruct (endpoints rt !! k); [|by intros; simplify_eq].
  intros Hd. assert (rt' = set_endpoints rt (delete k (endpoints rt))) as ->.
  { repeat case_match; by simplify_eq. }
  apply inv_set_endpoints; [done|apply map_Forall_delete, Hi..].
Qed.

Lemma kept_ok rules :
  for_each ServiceRule_validate rules = Ok tt →
  Forall rule_ok (filter (λ r, has_backends r = true) rules).
Proof.
  rewrite for_each_Ok, !Forall_forall. intros Hv r [Hb Hr]%list_elem_of_filter.
  split; [by apply Hv|]. unfold has_backends in Hb. by destruct (Backends r).
Qed.

Lemma AttachService_inv rt k rules w rt' w' r :
  router_inv rt → AttachService R rt k rules w = (rt', w', r) → router_inv rt'.
Proof.
  intros Hi. unfold AttachService. destruct (String.eqb k "") eqn:Ek; [by intros; simplify_eq|].
  destruct (for_each _ rules) as [[]|] eqn:Hv; [|by intros; simplify_eq].
  apply kept_ok in Hv. bools. destruct (started rt); simpl; [|by intros; simplify_eq].
  destruct (loadAnchorLocked _ _ _). intros; simplify_eq.
  apply inv_set_services; [done|]. destruct (filter _ rules) as [|r0 rs] eqn:Ef.
  - apply map_Forall_delete, Hi.
  - by apply map_Forall_insert_2; [|apply Hi].
Qed.

Lemma DetachService_inv rt k w rt' w' r :
  router_inv rt → DetachService R rt k w = (rt', w', r) → router_inv rt'.
Proof.
  intros Hi. unfold DetachService. destruct (services rt !! k); [|by intros; simplify_eq].
  intros Hd. assert (rt' = set_services rt (delete k (services rt))) as ->.
  { repeat case_match; by simplify_eq. }
  apply inv_set_services; [done|apply map_Forall_delete, Hi].
Qed.

Lemma Stop_inv rt w rt' w' r : router_inv rt → Stop R rt w = (rt', w', r) → router_inv rt'.
Proof.
  intros Hi. unfold Stop. simpl. destruct (started rt) eqn:E; simpl.
  - destruct (run R _ w). intros; simplify_eq. split; simpl; try apply map_Forall_empty; done.
  - intros; simplify_eq. split; simpl; try apply map_Forall_empty. congruence.
Qed.

Lemma exec_op_inv o rt w rt' w' r :
  router_inv rt → exec_op R o rt w = (rt', w', r) → router_inv rt'.
Proof.
  destruct o; simpl; eauto using Start_inv, Attach_inv, Detach_inv, AttachService_inv,
    DetachService_inv, Stop_inv.
Qed.

Lemma run_ops_inv ops rt w rt' w' rs :
  router_inv rt → run_ops R ops rt w = (rt', w', rs) → router_inv rt'.
Proof.
  revert rt w rs. induction ops as [|o ops IH]; simpl; intros rt w rs Hi Hr; [by simplify_eq|].
  destruct (exec_op R o rt w) as [[rt1 w1] r1] eqn:E1.
  destruct (run_ops R ops rt1 w1) as [[rt2 w2] rs2] eqn:E2. simplify_eq.
  eapply IH; [|done]. by eapply exec_op_inv.
Qed.
End inv.

(** ** The packet filter behind the runner

    What the router relies on of [pfctl(8)]: a load replaces the named anchor
    when it succeeds and leaves the filter untouched when it fails, and a
    command that is not [pfctl -a ...] touches no anchor. *)

Definition anchor_cmd (c : Command) : bool :=
  match c_args c with a :: _ => String.eqb a "-a" | [] => false end.

Class PfHost {W} (R : Runner W) := {
  anchors : W → gmap string string;
  load_ok : ∀ a text w w' out,
    run R (mkCmd "pfctl" ["-a"; a; "-f"; "-"] text) w = (w', (out, None)) →
    anchors w' = <[a := text]> (anchors w);
  load_failed : ∀ a text w w' out ce,
    run R (mkCmd "pfctl" ["-a"; a; "-f"; "-"] text) w = (w', (out, Some ce)) →
    anchors w' = anchors w;
  other_cmd : ∀ c w, anchor_cmd c = false → anchors (run R c w).1 = anchors w;
}.

(** A simulated host: the anchors and a script saying which commands fail. *)
Definition pf_sim : Runner (gmap string string * list (option CommandError)) :=
  mkRunner (λ c w,
    let '(m, script) := w in
    let '(fail, script') := match script with [] => (None, []) | f :: s => (f, s) end in
    match fail with
    | Some ce => ((m, script'), ("", Some ce))
    | None =>
        match c_args c with
        | ["-a"; a; "-f"; "-"] => ((<[a := c_stdin c]> m, script'), ("", None))
        | ["-a"; a; "-F"; "all"] => ((delete a m, script'), ("", None))
        | _ => ((m, script'), ("", None))
        end
    end).

#[export] Instance pf_sim_host : PfHost pf_sim.
Proof.
  refine {| anchors := fst |}.
  - intros a text [m [|[ce|] s]] w' out Hr; simpl in Hr; by simplify_eq.
  - intros a text [m [|[ce|] s]] w' out ce' Hr; simpl in Hr; by simplify_eq.
  - intros [n args i] [m s] Hc. unfold anchor_cmd in Hc. simpl in *.
    destruct args as [|a args]; simpl; [by destruct s as [|[]]|].
    destruct s as [|[] s]; simpl; [|done|];
      repeat case_match; simplify_eq; simpl; done.
Defined.

Section sync.
Context `{MapRange} {W : Type} (R : Runner W) `{!PfHost R}.
Implicit Types (rt : Router) (w : W).

Definition synced rt w : Prop := anchors w !! cfg_Anchor (cfg rt) = Some (ruleset rt).

Lemma other_run c w w' r : anchor_cmd c = false → run R c w = (w', r) → anchors w' = anchors w.
Proof. intros Hc Hr. apply (other_cmd c w) in Hc. by rewrite Hr in Hc. Qed.

Lemma other_tolerating c benign w w' r :
  anchor_cmd c = false → runTolerating R c benign w = (w', r) → anchors w' = anchors w.
Proof.
  intros Hc Hr. apply (other_cmd c w) in Hc.
  rewrite <- (runTolerating_world R c benign) in Hc. by rewrite Hr in Hc.
Qed.

Lemma remove_route_anchors rt i w w' r :
  removeVMNetDefaultRouteOnInterface R rt i w = (w', r) → anchors w' = anchors w.
Proof.
  unfold removeVMNetDefaultRouteOnInterface.
  destruct (runTolerating R _ _ w) as [w1 [o e]] eqn:E. apply other_tolerating in E; [|done].
  intros; by simplify_eq.
Qed.

Lemma attach_interface_anchors rt ep w w' i :
  attach_interface R rt ep w = (w', i) → anchors w' = anchors w.
Proof.
  unfold attach_interface, resolveVMNetInterface. intros Ha.
  destruct (String.eqb (Interface ep) ""); [|by simplify_eq].
  destruct (run R _ w) as [w1 [o e]] eqn:E. apply other_run in E; [|done].
  repeat case_match; by simplify_eq.
Qed.

Lemma enableForwarding_anchors rt w w' r :
  enableForwarding R rt w = (w', r) → anchors w' = anchors w.
Proof.
  unfold enableForwarding. destruct (cfg_EnableForwarding _); [|by intros; simplify_eq].
  destruct (run R _ w) as [w1 [o e]] eqn:E. apply other_run in E; [|done].
  intros; by simplify_eq.
Qed.

Lemma loadAnchor_sync rt w w' :
  pfctl rt = "pfctl" → loadAnchorLocked R rt w = (w', Ok tt) → synced rt w'.
Proof.
  intros Hp. unfold loadAnchorLocked, load_cmd, synced. rewrite Hp.
  destruct (run R _ w) as [w1 [o [ce|]]] eqn:E; intros; simplify_eq.
  apply load_ok in E as ->. by rewrite lookup_insert_eq.
Qed.

Lemma loadAnchor_error rt w w' e :
  pfctl rt = "pfctl" → loadAnchorLocked R rt w = (w', Err e) →
  anchors w' = anchors w ∧ is_load_error (Err e) = true.
Proof.
  intros Hp. unfold loadAnchorLocked, load_cmd. rewrite Hp.
  destruct (run R _ w) as [w1 [o [ce|]]] eqn:E; intros; simplify_eq.
  by apply load_failed in E.
Qed.

(** How an operation ends: at a successful load, at a failed one, or before
    it, with the router and the anchors as they were. *)
Inductive outcome rt w rt' w' (r : result NetError unit) : Prop :=
  | loaded : r = Ok tt → synced rt' w' → outcome rt w rt' w' r
  | load_refused : is_load_error r = true → anchors w' = anchors w → outcome rt w rt' w' r
  | untouched : rt' = rt → anchors w' = anchors w → is_load_error r = false → outcome rt w rt' w' r
  | idle : started rt' = false → is_load_error r = false → outcome rt w rt' w' r.

Lemma loadAnchor_outcome rt w w0 rt' w' r :
  pfctl rt' = "pfctl" → anchors w0 = anchors w → loadAnchorLocked R rt' w0 = (w', r) →
  outcome rt w rt' w' r.
Proof.
  intros Hp Hw Hl. destruct r as [[]|e].
  - apply loaded; [done|]. by eapply loadAnchor_sync.
  - apply loadAnchor_error in Hl as [Ha He]; [|done]. apply load_refused; [done|congruence].
Qed.

Lemma remove_route_spec rt i w w' r :
  removeVMNetDefaultRouteOnInterface R rt i w = (w', r) →
  anchors w' = anchors w ∧ is_load_error r = false.
Proof.
  intros Hr. split; [by eapply remove_route_anchors|].
  unfold removeVMNetDefaultRouteOnInterface in Hr. repeat case_match; by simplify_eq.
Qed.

Lemma enableForwarding_spec rt w w' r :
  enableForwarding R rt w = (w', r) → anchors w' = anchors w ∧ is_load_error r = false.
Proof.
  intros Hr. split; [by eapply enableForwarding_anchors|].
  unfold enableForwarding in Hr. repeat case_match; by simplify_eq.
Qed.

Ltac stop := intros; simplify_eq; apply untouched; [done|congruence|done].

Lemma Start_outcome rt w rt' w' r :
  pfctl rt = "pfctl" → Start R rt w = (rt', w', r) → outcome rt w rt' w' r.
Proof.
  intros Hp. unfold Start. destruct (String.eqb _ _); [stop|].
  destruct (enableForwarding R rt w) as [w1 r1] eqn:E1.
  apply enableForwarding_spec in E1 as [? He1]. destruct r1; [clear He1|stop].
  destruct (runTolerating R _ _ w1) as [w2 [o [ce|]]] eqn:E2; apply other_tolerating in E2; try done;
    [stop|].
  unfold removeVMNetDefaultRoute.
  destruct (removeVMNetDefaultRouteOnInterface R rt _ w2) as [w3 r3] eqn:E3.
  apply remove_route_spec in E3 as [? He3]. destruct r3; [clear He3|stop].
  destruct (loadAnchorLocked R _ w3) as [w4 r4] eqn:E4. intros; simplify_eq.
  eapply loadAnchor_outcome; [| |done]; [done|congruence].
Qed.

Lemma Endpoint_validate_error ep e :
  Endpoint_validate ep = Err e → is_load_error (Err e) = false.
Proof. unfold Endpoint_validate, guard. intros. repeat case_match; by simplify_eq. Qed.

Lemma for_each_error {A} (f : A → result NetError unit) l e :
  (∀ x e, f x = Err e → is_load_error (Err e) = false) →
  for_each f l = Err e → is_load_error (Err e) = false.
Proof.
  intros Hf. induction l as [|x l IH]; simpl; [done|].
  destruct (f x) eqn:E; [done|]. intros; simplify_eq. eauto.
Qed.

Lemma ServiceRule_validate_error s e :
  ServiceRule_validate s = Err e → is_load_error (Err e) = false.
Proof.
  unfold ServiceRule_validate. intros.
  repeat match goal with H : context [guard ?b _] |- _ => destruct b; cbn [guard] in H end;
    try (by simplify_eq).
  eapply for_each_error; [|done]. intros b e'. unfold guard. by destruct (is_ip b); intros; simplify_eq.
Qed.

Lemma Attach_outcome rt ep w rt' w' r :
  pfctl rt = "pfctl" → Attach R rt ep w = (rt', w', r) → outcome rt w rt' w' r.
Proof.
  intros Hp. unfold Attach. destruct (Endpoint_validate ep) eqn:Hv.
  2:{ apply Endpoint_validate_error in Hv. stop. }
  destruct (started rt) eqn:Hst; simpl; [|stop]. unfold removeVMNetDefaultRoute.
  destruct (removeVMNetDefaultRouteOnInterface R rt _ w) as [w1 r1] eqn:E1.
  apply remove_route_spec in E1 as [? He1]. destruct r1; [clear He1|stop].
  destruct (attach_interface R rt ep w1) as [w2 iface] eqn:E2.
  apply attach_interface_anchors in E2.
  destruct (removeVMNetDefaultRouteOnInterface R rt iface w2) as [w3 r3] eqn:E3.
  apply remove_route_spec in E3 as [? He3]. destruct r3; [clear He3|stop].
  destruct (loadAnchorLocked R _ w3) as [w4 r4] eqn:E4. intros; simplify_eq.
  eapply loadAnchor_outcome; [| |done]; [done|congruence].
Qed.

Lemma Detach_outcome rt k w rt' w' r :
  pfctl rt = "pfctl" → Detach R rt k w = (rt', w', r) → outcome rt w rt' w' r.
Proof.
  intros Hp. unfold Detach. destruct (endpoints rt !! k); [|stop]. simpl.
  destruct (started rt) eqn:Hst; simpl; [|intros; simplify_eq; by apply idle].
  destruct (loadAnchorLocked R _ w) as [w4 r4] eqn:E4. intros; simplify_eq.
  by eapply loadAnchor_outcome.
Qed.

Lemma AttachService_outcome rt k rules w rt' w' r :
  pfctl rt = "pfctl" → AttachService R rt k rules w = (rt', w', r) → outcome rt w rt' w' r.
Proof.
  intros Hp. unfold AttachService. destruct (String.eqb k ""); [stop|].
  destruct (for_each _ rules) eqn:Hv.
  2:{ apply for_each_error in Hv; [stop|apply ServiceRule_validate_error]. }
  destruct (started rt); simpl; [|stop].
  destruct (loadAnchorLocked R _ w) as [w4 r4] eqn:E4. intros; simplify_eq.
  by eapply loadAnchor_outcome.
Qed.

Lemma DetachService_outcome rt k w rt' w' r :
  pfctl rt = "pfctl" → DetachService R rt k w = (rt', w', r) → outcome rt w rt' w' r.
Proof.
  intros Hp. unfold DetachService. destruct (services rt !! k); [|stop]. simpl.
  destruct (started rt) eqn:Hst; simpl; [|intros; simplify_eq; by apply idle].
  destruct (loadAnchorLocked R _ w) as [w4 r4] eqn:E4. intros; simplify_eq.
  by eapply loadAnchor_outcome.
Qed.

Lemma Stop_outcome rt w rt' w' r : Stop R rt w = (rt', w', r) → outcome rt w rt' w' r.
Proof.
  unfold Stop. simpl. destruct (started rt) eqn:E; simpl; [destruct (run R _ w)|];
    intros; simplify_eq; by apply idle.
Qed.

Lemma exec_op_outcome o rt w rt' w' r :
  pfctl rt = "pfctl" → exec_op R o rt w = (rt', w', r) → outcome rt w rt' w' r.
Proof.
  destruct o; simpl; eauto using Start_outcome, Attach_outcome, Detach_outcome,
    AttachService_outcome, DetachService_outcome, Stop_outcome.
Qed.

Lemma exec_op_pfctl o rt w : pfctl (exec_op R o rt w).1.1 = pfctl rt.
Proof.
  destruct o; simpl; unfold Start, Attach, Detach, AttachService, DetachService, Stop;
    repeat case_match; simplify_eq; done.
Qed.

Lemma exec_op_synced o rt w rt' w' r :
  pfctl rt = "pfctl" → (started rt = true → synced rt w) →
  exec_op R o rt w = (rt', w', r) → is_load_error r = false →
  pfctl rt' = "pfctl" ∧ (started rt' = true → synced rt' w').
Proof.
  intros Hp Hs He Hl. split.
  - pose proof (exec_op_pfctl o rt w) as Hq. by rewrite He, Hp in Hq.
  - apply exec_op_outcome in He as [? Hsy | Herr ? | -> Ha ? | Hst ?]; [done|congruence| |congruence|done].
    unfold synced in *. by rewrite Ha.
Qed.

Lemma run_ops_synced ops rt w rt' w' rs :
  pfctl rt = "pfctl" → (started rt = true → synced rt w) →
  run_ops R ops rt w = (rt', w', rs) → Forall (λ r, is_load_error r = false) rs →
  started rt' = true → synced rt' w'.
Proof.
  revert rt w rs. induction ops as [|o ops IH]; simpl; intros rt w rs Hp Hs Hr Hf; [by simplify_eq|].
  destruct (exec_op R o rt w) as [[rt1 w1] r1] eqn:E1.
  destruct (run_ops R ops rt1 w1) as [[rt2 w2] rs2] eqn:E2. simplify_eq.
  apply Forall_cons in Hf as [Hf1 Hf2].
  destruct (exec_op_synced _ _ _ _ _ _ Hp Hs E1 Hf1) as [Hp1 Hs1]. by eapply IH.
Qed.
End sync.

(** ** The rendered ruleset *)

(** No two attached Pods share a Pod IP (what the IPAM provides). *)
Definition unique_podips (rt : Router) : Prop :=
  ∀ k1 k2 e1 e2, endpoints rt !! k1 = Some e1 → endpoints rt !! k2 = Some e2 →
    PodIP e1 = PodIP e2 → k1 = k2.

Definition podip_map (l : list Endpoint) : gmap string string :=
  foldl (λ m ep, <[PodIP ep := VMIP ep]> m) ∅ l.

Lemma podip_map_snoc l ep : podip_map (l ++ [ep]) = <[PodIP ep := VMIP ep]> (podip_map l).
Proof. unfold podip_map. by rewrite foldl_app. Qed.

Lemma podip_map_Some l ip vm :
  podip_map l !! ip = Some vm → ∃ ep, ep ∈ l ∧ PodIP ep = ip ∧ VMIP ep = vm.
Proof.
  induction l as [|ep l IH] using rev_ind; [done|].
  rewrite podip_map_snoc. setoid_rewrite elem_of_app. setoid_rewrite list_elem_of_singleton.
  destruct (decide (PodIP ep = ip)) as [<-|Hne].
  - rewrite lookup_insert_eq. intros; simplify_eq. exists ep. auto.
  - rewrite lookup_insert_ne by done. intros (x & ? & ? & ?)%IH. eauto 10.
Qed.

Lemma podip_map_elem l ep :
  (∀ e, e ∈ l → PodIP e = PodIP ep → VMIP e = VMIP ep) → ep ∈ l →
  podip_map l !! PodIP ep = Some (VMIP ep).
Proof.
  induction l as [|x l IH] using rev_ind; intros Hu Hep; [by apply not_elem_of_nil in Hep|].
  rewrite podip_map_snoc. setoid_rewrite elem_of_app in Hu. setoid_rewrite list_elem_of_singleton in Hu.
  destruct (decide (PodIP x = PodIP ep)) as [E|Hne].
  - rewrite E, lookup_insert_eq. f_equal. eauto.
  - rewrite lookup_insert_ne by done. apply IH; [eauto|].
    apply elem_of_app in Hep as [|Hx%list_elem_of_singleton]; [done|by subst].
Qed.

Lemma podip_map_dom l ep : ep ∈ l → is_Some (podip_map l !! PodIP ep).
Proof.
  induction l as [|x l IH] using rev_ind; [by intros ?%not_elem_of_nil|].
  rewrite podip_map_snoc, elem_of_app, list_elem_of_singleton, lookup_insert_is_Some.
  intros [Hx|<-]; [|by left]. destruct (decide (PodIP x = PodIP ep)); [by left|]. right. auto.
Qed.

Section render.
Context `{MapRange}.

Lemma elem_of_range_snd (m : gmap string Endpoint) ep :
  ep ∈ (range m).*2 ↔ ∃ k, m !! k = Some ep.
Proof.
  rewrite list_elem_of_fmap. split.
  - intros ([k x] & -> & Hin%elem_of_range). eauto.
  - intros [k Hk]. exists (k, ep). by rewrite elem_of_range.
Qed.

Lemma elem_of_endpointsSorted rt ep :
  ep ∈ endpointsSorted rt ↔ ∃ k, endpoints rt !! k = Some ep.
Proof. unfold endpointsSorted. by rewrite sort_by_perm, elem_of_range_snd. Qed.

Lemma elem_of_vmnetInterfaces rt i :
  i ∈ vmnetInterfaces rt ↔
  i ≠ "" ∧ (i = cfg_Interface (cfg rt) ∨ ∃ k ep, endpoints rt !! k = Some ep ∧ Interface ep = i).
Proof.
  unfold vmnetInterfaces. rewrite elem_of_sorted_set, list_elem_of_filter, elem_of_cons,
    list_elem_of_fmap. setoid_rewrite elem_of_range_snd. naive_solver.
Qed.

Lemma vmipByPodIP_lookup rt ip vm :
  router_inv rt → unique_podips rt →
  vmipByPodIP rt !! ip = Some vm ↔
  ∃ k ep, endpoints rt !! k = Some ep ∧ PodIP ep = ip ∧ VMIP ep = vm.
Proof.
  intros Hi Hu. change (vmipByPodIP rt) with (podip_map (range (endpoints rt)).*2). split.
  - intros (ep & [k Hk]%elem_of_range_snd & ? & ?)%podip_map_Some. eauto.
  - intros (k & ep & Hk & <- & <-). apply podip_map_elem; [|apply elem_of_range_snd; eauto].
    intros e [k' Hk']%elem_of_range_snd He.
    assert (k' = k) as -> by eauto. by simplify_eq.
Qed.

Lemma elem_of_binat_ifaces d m ep i :
  Interface ep ≠ "" →
  i ∈ endpointBinatInterfaces d m ep ↔ i = Interface ep ∨ (i = m ∧ m ≠ "").
Proof.
  intros Hne. unfold endpointBinatInterfaces. apply String.eqb_neq in Hne as Hne'. rewrite Hne'.
  rewrite elem_of_sorted_set, list_elem_of_filter, !elem_of_cons, elem_of_nil. naive_solver.
Qed.
End render.

Lemma router_key_unique rt k1 k2 e1 e2 :
  router_inv rt → endpoints rt !! k1 = Some e1 → endpoints rt !! k2 = Some e2 →
  PodKey e1 = PodKey e2 → e1 = e2.
Proof.
  intros Hi H1 H2 E. pose proof (ep_key _ _ (inv_endpoints _ Hi _ _ H1)).
  pose proof (ep_key _ _ (inv_endpoints _ Hi _ _ H2)). congruence.
Qed.

Lemma leb_antisym s t : String.leb s t = true → String.leb t s = true → s = t.
Proof.
  intros. apply (anti_symm String.le); unfold String.le; apply Is_true_eq_left; done.
Qed.

Lemma endpointsSorted_det (R1 R2 : MapRange) rt :
  router_inv rt → @endpointsSorted R1 rt = @endpointsSorted R2 rt.
Proof.
  intros Hi. unfold endpointsSorted. apply sort_by_canonical.
  - apply le_key_total.
  - apply le_key_trans.
  - intros x y [kx Hx]%elem_of_range_snd [ky Hy]%elem_of_range_snd Hxy Hyx.
    eapply router_key_unique; [done..|]. by apply leb_antisym.
  - by rewrite !range_perm.
Qed.

Lemma vmnetInterfaces_det (R1 R2 : MapRange) rt : @vmnetInterfaces R1 rt = @vmnetInterfaces R2 rt.
Proof.
  apply sorted_set_canonical. intros x.
  rewrite !list_elem_of_filter, !elem_of_cons, !list_elem_of_fmap.
  setoid_rewrite elem_of_range_snd. done.
Qed.

Lemma vmipByPodIP_det (R1 R2 : MapRange) rt :
  router_inv rt → unique_podips rt → @vmipByPodIP R1 rt = @vmipByPodIP R2 rt.
Proof.
  intros Hi Hu. apply map_eq. intros ip. apply option_eq. intros vm.
  by rewrite !vmipByPodIP_lookup.
Qed.

Lemma renderServiceRules_det (R1 R2 : MapRange) ifaces svcs vmip :
  @renderServiceRules R1 ifaces svcs vmip = @renderServiceRules R2 ifaces svcs vmip.
Proof. unfold renderServiceRules. by rewrite (sorted_map_keys_det R1 R2). Qed.

(** ** Properties *)

(** A table from the Pod IPs of the attached Pods to VM addresses of Pods that
    have them.  Only when two Pods share a Pod IP is there more than one. *)
Definition vm_table (rt : Router) (vm : gmap string string) : Prop :=
  (∀ ip v, vm !! ip = Some v → ∃ k ep, endpoints rt !! k = Some ep ∧ PodIP ep = ip ∧ VMIP ep = v) ∧
  (∀ k ep, endpoints rt !! k = Some ep → is_Some (vm !! PodIP ep)).

(** What the anchor must hold, read off the maps. *)
Inductive wanted (rt : Router) (vm : gmap string string) : string → Prop :=
  | want_header : wanted rt vm "# Managed by macvz (issue #22). Do not edit by hand."
  | want_comment k ep : endpoints rt !! k = Some ep → wanted rt vm ("# " +:+ k)
  | want_binat k ep : endpoints rt !! k = Some ep → wanted rt vm (binat_line (Interface ep) ep)
  | want_mesh k ep : endpoints rt !! k = Some ep → cfg_MeshInterface (cfg rt) ≠ "" →
      wanted rt vm (binat_line (cfg_MeshInterface (cfg rt)) ep)
  | want_svc_comment k rules r : services rt !! k = Some rules → r ∈ rules →
      wanted rt vm ("# " +:+ ServiceKey r +:+ " " +:+ ClusterIP r +:+ ":" +:+ Itoa (Port r) +:+
                    " -> :" +:+ Itoa (TargetPort r))
  | want_rdr k rules r i targets : services rt !! k = Some rules → r ∈ rules →
      i ≠ "" →
      (i = cfg_Interface (cfg rt) ∨ ∃ p ep, endpoints rt !! p = Some ep ∧ Interface ep = i) →
      StronglySorted String.le targets →
      targets ≡ₚ (λ b, default b (vm !! b)) <$> Backends r →
      wanted rt vm (rdr_line i r targets).

Lemma vm_table_unique rt vm1 vm2 : unique_podips rt → vm_table rt vm1 → vm_table rt vm2 → vm1 = vm2.
Proof.
  intros Hu [S1 C1] [S2 C2]. apply map_eq. intros ip. apply option_eq. intros v.
  split; intros Hv.
  - destruct (S1 _ _ Hv) as (k & ep & Hk & <- & <-). destruct (C2 _ _ Hk) as [v2 Hv2].
    destruct (S2 _ _ Hv2) as (k' & ep' & Hk' & Hip & <-). assert (k' = k) as -> by eauto. congruence.
  - destruct (S2 _ _ Hv) as (k & ep & Hk & <- & <-). destruct (C1 _ _ Hk) as [v2 Hv2].
    destruct (S1 _ _ Hv2) as (k' & ep' & Hk' & Hip & <-). assert (k' = k) as -> by eauto. congruence.
Qed.

Section spec.
Context `{MapRange} (rt : Router) (Hi : router_inv rt).

Lemma vmipByPodIP_table : vm_table rt (vmipByPodIP rt).
Proof.
  change (vmipByPodIP rt) with (podip_map (range (endpoints rt)).*2). split.
  - intros ip v (ep & [k Hk]%elem_of_range_snd & ? & ?)%podip_map_Some. eauto.
  - intros k ep Hk. apply podip_map_dom. apply elem_of_range_snd. eauto.
Qed.

Lemma elem_of_renderServiceRules l :
  cfg_Interface (cfg rt) ≠ "" →
  l ∈ renderServiceRules (vmnetInterfaces rt) (services rt) (vmipByPodIP rt) ↔
  ∃ k rules r, services rt !! k = Some rules ∧ r ∈ rules ∧
    l ∈ rule_lines (vmnetInterfaces rt) (vmipByPodIP rt) r.
Proof.
  intros Hc. unfold renderServiceRules. destruct (vmnetInterfaces rt) as [|i0 il] eqn:Ev.
  { assert (cfg_Interface (cfg rt) ∈ vmnetInterfaces rt) as Hin
      by (apply elem_of_vmnetInterfaces; auto).
    rewrite Ev in Hin. by apply not_elem_of_nil in Hin. }
  setoid_rewrite list_elem_of_bind. setoid_rewrite list_elem_of_bind.
  unfold sorted_map_keys. setoid_rewrite elem_of_sort_strings.
  setoid_rewrite range_keys_elem. setoid_rewrite sort_by_perm. split.
  - intros (k & (r & Hl & Hr) & [rules Hk]). exists k, rules, r. by rewrite Hk in Hr.
  - intros (k & rules & r & Hk & Hr & Hl). exists k. rewrite Hk. eauto.
Qed.

(** The rendered anchor holds exactly the wanted lines. *)
Lemma ruleset_lines_elem l : cfg_Interface (cfg rt) ≠ "" → l ∈ ruleset_lines rt ↔ wanted rt (vmipByPodIP rt) l.
Proof.
  intros Hc. unfold ruleset_lines, renderAnchor.
  rewrite elem_of_app, elem_of_cons, list_elem_of_bind, elem_of_renderServiceRules by done.
  setoid_rewrite elem_of_endpointsSorted. split.
  - intros [[->|(ep & Hl & [k Hk])]|(k & rules & r & Hk & Hr & Hl)]; [constructor| |].
    + pose proof (ep_key _ _ (inv_endpoints _ Hi _ _ Hk)) as Ek. unfold endpoint_lines in Hl.
      rewrite elem_of_cons, list_elem_of_fmap in Hl. destruct Hl as [->|(i & -> & Hin)].
      * rewrite Ek. by econstructor.
      * apply elem_of_binat_ifaces in Hin as [->|[-> ?]]; [..|by eapply inv_ep_iface];
          by econstructor.
    + unfold rule_lines in Hl. rewrite elem_of_cons, list_elem_of_fmap in Hl.
      destruct Hl as [->|(i & -> & Hin)]; [by econstructor|].
      apply elem_of_vmnetInterfaces in Hin as [??].
      econstructor; eauto using sort_strings_sorted. by rewrite sort_strings_perm.
  - destruct 1 as [|k ep Hk|k ep Hk|k ep Hk Hm|k rules r Hk Hr|k rules r i targets Hk Hr Hne Hin Hs Ht].
    + auto.
    + left; right. exists ep. split; [|eauto]. apply elem_of_cons. left.
      by rewrite (ep_key _ _ (inv_endpoints _ Hi _ _ Hk)).
    + left; right. exists ep. split; [|eauto]. apply elem_of_cons. right.
      apply list_elem_of_fmap. eexists. split; [done|]. apply elem_of_binat_ifaces; [|by left].
      by eapply inv_ep_iface.
    + left; right. exists ep. split; [|eauto]. apply elem_of_cons. right.
      apply list_elem_of_fmap. eexists. split; [done|]. apply elem_of_binat_ifaces; [|by right].
      by eapply inv_ep_iface.
    + right. exists k, rules, r. split_and!; [done..|]. by apply elem_of_cons; left.
    + right. exists k, rules, r. split_and!; [done..|]. apply elem_of_cons. right.
      apply list_elem_of_fmap. exists i. split; [|by apply elem_of_vmnetInterfaces]. f_equal.
      apply (StronglySorted_unique String.le); [done|apply sort_strings_sorted|].
      rewrite sort_strings_perm. exact Ht.
Qed.
End spec.

(** C3: On every host whose [pfctl] loads anchors atomically, after any
    sequence of [Start], [Attach], [Detach], [AttachService], [DetachService]
    and [Stop] on a new router in which no anchor load failed, a started
    router's anchor holds exactly the rendering of its endpoint and service
    maps, and the router invariant holds. *)
Theorem anchor_in_sync `{MapRange} {W} (R : Runner W) `{!PfHost R} c ops w rt w' rs :
  run_ops R ops (New c) w = (rt, w', rs) →
  Forall (λ r, is_load_error r = false) rs →
  started rt = true →
  anchors w' !! cfg_Anchor (cfg rt) = Some (ruleset rt) ∧ router_inv rt.
Proof.
  intros Hr Hf Hs. split.
  - eapply (run_ops_synced R); [..|exact Hr|done|done]; done.
  - eapply run_ops_inv; [apply router_inv_New|exact Hr].
Qed.

Definition demo_ops : list op :=
  [ OpStart;
    OpAttach (mkEp "default/web" "10.244.1.2" "192.168.64.7" "bridge100");
    OpAttachService "default/svc"
      [mkRule "default/svc" "10.96.0.10" "tcp" 80 8080 ["10.244.1.2"; "10.244.2.9"]];
    OpDetach "default/other" ].

Definition demo_cfg : RouterConfig := mkRouterConfig "bridge100" "utun7" "" true.

Definition demo_run :=
  @run_ops canonical_range _ pf_sim demo_ops (New demo_cfg) (∅, []).

Definition demo_text : string :=
  lines_text
  [ "# Managed by macvz (issue #22). Do not edit by hand.";
    "# default/web";
    "binat on bridge100 from 192.168.64.7 to any -> 10.244.1.2";
    "binat on utun7 from 192.168.64.7 to any -> 10.244.1.2";
    "# default/svc 10.96.0.10:80 -> :8080";
    "rdr on bridge100 inet proto tcp from any to 10.96.0.10 port 80 -> { 10.244.2.9, 192.168.64.7 } port 8080 round-robin" ].

Lemma anchor_in_sync_witness :
  (demo_run.1.2).1 !! "macvz/pods" = Some demo_text ∧
  (demo_run.1.2).1 !! cfg_Anchor (cfg demo_run.1.1) = Some (@ruleset canonical_range demo_run.1.1) ∧
  router_inv demo_run.1.1.
Proof.
  split; [by vm_compute|].
  apply (@anchor_in_sync canonical_range _ pf_sim pf_sim_host demo_cfg demo_ops (∅, [])
    demo_run.1.1 demo_run.1.2 demo_run.2).
  - unfold demo_run. by destruct (run_ops _ _ _ _) as [[??]?].
  - assert (forallb (λ r, negb (is_load_error r)) demo_run.2 = true) as Hb by (by vm_compute).
    rewrite Forall_forall. intros r Hr. rewrite forallb_forall in Hb.
    specialize (Hb r). rewrite negb_true_iff in Hb. apply Hb. by apply list_elem_of_In.
  - by vm_compute.
Defined.

(** Rendering does not depend on the iteration order of Go maps: for any
    two admissible orders a router that satisfies the invariant, and whose
    Pods have distinct Pod IPs, renders the same anchor text. *)
Theorem ruleset_deterministic (R1 R2 : MapRange) rt :
  router_inv rt → unique_podips rt → @ruleset R1 rt = @ruleset R2 rt.
Proof.
  intros Hi Hu. unfold ruleset, ruleset_lines.
  by rewrite (endpointsSorted_det R1 R2), (vmnetInterfaces_det R1 R2), (vmipByPodIP_det R1 R2),
    (renderServiceRules_det R1 R2).
Qed.

(** The reversed iteration order is admissible too. *)
Definition reversed_range : MapRange :=
  {| range := λ A m, reverse (map_to_list m); range_perm := λ A m, reverse_Permutation _ |}.

Definition two_pods : list op :=
  [ OpStart; OpAttach (mkEp "a/a" "10.244.1.2" "192.168.64.7" "bridge100");
    OpAttach (mkEp "b/b" "10.244.1.3" "192.168.64.8" "bridge101") ].

Definition two_pods_rt : Router :=
  (@run_ops canonical_range _ pf_sim two_pods (New demo_cfg) (∅, [])).1.1.

Lemma two_pods_eps : endpoints two_pods_rt =
  <["b/b" := mkEp "b/b" "10.244.1.3" "192.168.64.8" "bridge101"]>
    {["a/a" := mkEp "a/a" "10.244.1.2" "192.168.64.7" "bridge100"]}.
Proof. by vm_compute. Qed.

Lemma two_pods_inv : router_inv two_pods_rt ∧ unique_podips two_pods_rt.
Proof.
  split.
  - unfold two_pods_rt. destruct (run_ops _ _ _ _) as [[rt w] rs] eqn:E.
    eapply run_ops_inv; [apply router_inv_New|exact E].
  - intros k1 k2 e1 e2. rewrite two_pods_eps.
    rewrite !lookup_insert_Some, !lookup_singleton_Some. naive_solver.
Qed.

Lemma ruleset_deterministic_witness :
  @ruleset canonical_range two_pods_rt = @ruleset reversed_range two_pods_rt.
Proof. apply (ruleset_deterministic canonical_range reversed_range); apply two_pods_inv. Defined.

(** C29: The anchor a started router renders contains exactly the lines its
    maps call for: for each attached Pod a binat rule on its own bridge and,
    when configured, on the mesh interface; for each service rule an rdr on
    every vmnet interface in use, whose targets are the backends with each Pod
    IP of an attached Pod replaced by the address of a VM that has it, the same
    one in every rule, and every other backend kept; and nothing else. *)
Theorem ruleset_exact `{MapRange} rt :
  router_inv rt → started rt = true →
  ∃ vm, vm_table rt vm ∧ ∀ l, l ∈ ruleset_lines rt ↔ wanted rt vm l.
Proof.
  intros Hi Hs. exists (vmipByPodIP rt). split; [apply vmipByPodIP_table|].
  intros l. apply ruleset_lines_elem; [done|]. by apply inv_iface.
Qed.

Lemma ruleset_exact_witness :
  ∃ vm, vm_table two_pods_rt vm ∧
    wanted two_pods_rt vm "binat on utun7 from 192.168.64.8 to any -> 10.244.1.3".
Proof.
  destruct (@ruleset_exact canonical_range two_pods_rt) as (vm & Ht & Hl);
    [apply two_pods_inv|by vm_compute|].
  exists vm. split; [done|]. apply Hl. by apply (bool_decide_unpack _); vm_compute.
Defined.

(** A [Detach] (or a [DetachService]) whose anchor load fails has already
    forgotten its entry: the anchors are unchanged, so the stale rules stay in
    force, and every retry returns success without running a command. *)
Theorem failed_detach_not_retried `{MapRange} {W} (R : Runner W) `{!PfHost R} rt k w rt' w' e :
  pfctl rt = "pfctl" →
  Detach R rt k w = (rt', w', Err e) ∨ DetachService R rt k w = (rt', w', Err e) →
  anchors w' = anchors w ∧ is_load_error (Err e) = true ∧
  ((endpoints rt !! k ≠ None ∧ Detach R rt' k w' = (rt', w', Ok tt)) ∨
   (services rt !! k ≠ None ∧ DetachService R rt' k w' = (rt', w', Ok tt))).
Proof.
  intros Hp [Hd|Hd].
  - unfold Detach in Hd. destruct (endpoints rt !! k) eqn:Ek; [|done]. simpl in Hd.
    destruct (started rt); simpl in Hd; [|done].
    destruct (loadAnchorLocked R _ w) as [w1 r1] eqn:El. simplify_eq.
    apply (loadAnchor_error R) in El as [? ?]; [|done]. split_and!; [done..|left].
    split; [congruence|]. unfold Detach. simpl. by rewrite lookup_delete_eq.
  - unfold DetachService in Hd. destruct (services rt !! k) eqn:Ek; [|done]. simpl in Hd.
    destruct (started rt); simpl in Hd; [|done].
    destruct (loadAnchorLocked R _ w) as [w1 r1] eqn:El. simplify_eq.
    apply (loadAnchor_error R) in El as [? ?]; [|done]. split_and!; [done..|right].
    split; [congruence|]. unfold DetachService. simpl. by rewrite lookup_delete_eq.
Qed.

Definition refused : CommandError := mkCE 1 "pfctl: syntax error" "exit status 1".

Lemma failed_detach_not_retried_witness :
  let w := (∅, [Some refused]) in
  let s := @Detach canonical_range _ pf_sim two_pods_rt "a/a" w in
  is_ok s.2 = false ∧ anchors (s.1).2 = anchors w.
Proof.
  assert (exists e, (@Detach canonical_range _ pf_sim two_pods_rt "a/a" (∅, [Some refused])).2 = Err e)
    as [e He] by (eexists; by vm_compute).
  cbv zeta. split; [by rewrite He|].
  refine (proj1 (@failed_detach_not_retried canonical_range _ pf_sim pf_sim_host two_pods_rt "a/a"
    (∅, [Some refused])
    (@Detach canonical_range _ pf_sim two_pods_rt "a/a" (∅, [Some refused])).1.1 _ e _ (or_introl _)));
    [by vm_compute|].
  rewrite <- He. by destruct (Detach _ _ _ _) as [[??]?].
Defined.
