(* ===== verification/PrivPolicy.v ===== *)
(** * The privileged helper's request policy: [pkg/network/privhelper/policy.go]

    [Validate] is the gate in front of every command the root daemon runs.  The
    Go maps [map[string]bool] of the policy only ever hold [true], so they are
    sets here.  An error is one constructor of [PolicyError] per [fmt.Errorf]
    site; the texts themselves only reach the audit log. *)

From S2P Require Import Prelude GoStrings GoNet.

Open Scope Z_scope.

(** The command part of [Request] (protocol.go); the rest is in [PrivHelper]. *)
Record Request := mkReq { Name : string; Args : list string; Stdin : string }.

#[export] Instance Request_eq_dec : EqDecision Request.
Proof. solve_decision. Defined.

Record Policy := mkPolicy {
  MeshInterface : string;
  VMNetInterface : string;
  Anchor : string;
  MeshAddressIP : string;
  MTU : Z;
  RouteCIDRs : gset string;
  PodCIDRs : gset string;
  VMNetCIDRs : gset string;
  PeerPublicKeys : gset string;
}.

Definition zero_policy : Policy := mkPolicy "" "" "" "" 0 ∅ ∅ ∅ ∅.

Inductive PolicyError : Type :=
  | PENoGrammar (name : string)
  | PEStdin (name : string)
  | PEArgs (name : string) (args : list string)
  | PEForwardingRefused
  | PENoAnchor | PEForeignAnchor (anchor : string)
  | PENoVMNet | PENoMesh
  | PENotBinatRdr (line : string)
  | PEBinatShape | PERdrShape
  | PERule (line : string) (cause : PolicyError)
  | PEIface (iface : string) (cause : PolicyError)
  | PEOutside (ip desc : string)
  | PEClusterIP (ip : string) | PEServicePort (p : string)
  | PENoTargetPort | PETargetPort (p : string) | PETrailing (l : list string)
  | PENoTarget | PETargetTokens (l : list string) | PETarget (t : string) | PEPool (l : list string)
  | PETargetOutside (t : string)
  | PERouteOp (op : string) | PERouteFamily (fam : string) | PERouteScope (scope : string)
  | PENotCIDR (cidr : string) | PECIDRNotConfigured (cidr : string)
  | PENoIfconfigIface | PEMeshAddress (a b : string)
  | PEMtu (s : string) | PEMtuValue (n : Z)
  | PEWgLine (line : string) | PEWgPeer (key : string)
  | PEPkill (pattern : string)
  | PENotMesh (iface : string) | PENotVMNet (iface : string) | PENotPodNAT (iface : string).

(** ** Helpers *)

Definition argsEqual (args want : list string) : bool := bool_decide (args = want).

Definition ipEqual (a b : string) : bool :=
  if String.eqb a "" || String.eqb b "" then false else
  match ParseIP a, ParseIP b with
  | Some ia, Some ib => IP_Equal ia ib
  | _, _ => false
  end.

Definition normalizeCIDR (cidr : string) : option string :=
  match ParseCIDR cidr with Some (_, ipnet) => Some (Net_String ipnet) | None => None end.

Definition NormalizeCIDRSet (cidrs : list string) : gset string :=
  foldl (λ out c, match normalizeCIDR c with Some norm => {[norm]} ∪ out | None => out end) ∅ cidrs.

Definition decimal_char (a : ascii) : bool := (48 <=? c2n a)%N && (c2n a <=? 57)%N.

Definition isBridgeInterface (iface : string) : bool :=
  HasPrefix iface "bridge" && negb (Nat.eqb (String.length iface) 6) &&
  s_forall decimal_char (drop 6 iface).

Definition in_cidr (ip : IP) (cidr : string) : bool :=
  match ParseCIDR cidr with Some (_, ipnet) => Net_Contains ipnet ip | None => false end.

Definition ipInSet (raw : string) (cidrs : gset string) : bool :=
  match ParseIP raw with
  | None => false
  | Some ip => existsb (in_cidr ip) (elements cidrs)
  end.

Definition checkIPInSet (ip : string) (cidrs : gset string) (desc : string)
    : result PolicyError unit := guard (ipInSet ip cidrs) (PEOutside ip desc).

Definition fld (fields : list string) (i : nat) : string := nth i fields "".

Section policy.
Context (p : Policy).

Definition checkAnchor (anchor : string) : result PolicyError unit :=
  guard (negb (String.eqb (Anchor p) "")) PENoAnchor ;--
  guard (String.eqb anchor (Anchor p)) (PEForeignAnchor anchor).

Definition checkMeshInterface (iface : string) : result PolicyError unit :=
  guard (negb (String.eqb (MeshInterface p) "")) PENoMesh ;--
  guard (String.eqb iface (MeshInterface p)) (PENotMesh iface).

Definition checkVMNetInterface (iface : string) : result PolicyError unit :=
  guard (negb (String.eqb (VMNetInterface p) "")) PENoVMNet ;--
  guard (String.eqb iface (VMNetInterface p) || isBridgeInterface iface) (PENotVMNet iface).

Definition checkPodNATInterface (iface : string) : result PolicyError unit :=
  if is_ok (checkVMNetInterface iface) then Ok tt
  else guard (negb (String.eqb (MeshInterface p) "") && String.eqb iface (MeshInterface p))
         (PENotPodNAT iface).

(** ** The pf ruleset lint *)

Definition lintBinatRule (fields : list string) : result PolicyError unit :=
  let i := if (3 <? length fields)%nat && String.eqb (fld fields 3) "inet" then 4%nat else 3%nat in
  guard (Nat.eqb (length fields) (i + 6) && String.eqb (fld fields i) "from" &&
         String.eqb (fld fields (i + 2)) "to" && String.eqb (fld fields (i + 3)) "any" &&
         String.eqb (fld fields (i + 4)) "->") PEBinatShape ;--
  checkIPInSet (fld fields (i + 1)) (VMNetCIDRs p) "vmnet CIDR" ;--
  checkIPInSet (fld fields (i + 5)) (PodCIDRs p) "Pod CIDR".

(** Index of the first "port" token at or after [from], the rest in hand. *)
Fixpoint port_index (i : nat) (rest : list string) : option nat :=
  match rest with
  | [] => None
  | f :: rest' => if String.eqb f "port" then Some i else port_index (S i) rest'
  end.

Definition pool_target (f : string) : result PolicyError string :=
  let ip := TrimSuffix f "," in
  guard (negb (String.eqb ip "") && bool_decide (is_Some (ParseIP ip))) (PETarget f) ;-- Ok ip.

Definition parseRDRTargets (fields : list string) : result PolicyError (list string) :=
  match fields with
  | [] => Err PENoTarget
  | f0 :: rest =>
      if negb (String.eqb f0 "{") then
        guard (Nat.eqb (length fields) 1) (PETargetTokens fields) ;--
        guard (bool_decide (is_Some (ParseIP f0))) (PETarget f0) ;--
        Ok [f0]
      else
        guard ((3 <=? length fields)%nat && String.eqb (fld fields (length fields - 1)) "}")
          (PEPool fields) ;--
        map_result pool_target (list.take (length fields - 2) rest)
  end.

Definition lintRDRRule (fields : list string) : result PolicyError unit :=
  guard ((16 <=? length fields)%nat &&
         String.eqb (fld fields 3) "inet" && String.eqb (fld fields 4) "proto" &&
         (String.eqb (fld fields 5) "tcp" || String.eqb (fld fields 5) "udp") &&
         String.eqb (fld fields 6) "from" && String.eqb (fld fields 7) "any" &&
         String.eqb (fld fields 8) "to" && String.eqb (fld fields 10) "port" &&
         String.eqb (fld fields 12) "->") PERdrShape ;--
  guard (bool_decide (is_Some (ParseIP (fld fields 9)))) (PEClusterIP (fld fields 9)) ;--
  guard (bool_decide (is_Some (Atoi (fld fields 11)))) (PEServicePort (fld fields 11)) ;--
  match port_index 13 (list.drop 13 fields) with
  | None => Err PENoTargetPort
  | Some portIdx =>
      guard ((portIdx + 1 <? length fields)%nat) PENoTargetPort ;--
      guard (bool_decide (is_Some (Atoi (fld fields (portIdx + 1)))))
        (PETargetPort (fld fields (portIdx + 1))) ;--
      guard (Nat.eqb (length fields) (portIdx + 2) ||
             (Nat.eqb (length fields) (portIdx + 3) &&
              String.eqb (fld fields (portIdx + 2)) "round-robin"))
        (PETrailing (list.drop (portIdx + 2) fields)) ;--
      targets <-- parseRDRTargets (list.take (portIdx - 13) (list.drop 13 fields));
      for_each (λ t, guard (ipInSet t (PodCIDRs p) || ipInSet t (VMNetCIDRs p))
                       (PETargetOutside t)) targets
  end.

Definition wrap {A} (f : PolicyError → PolicyError) (r : result PolicyError A) : result PolicyError A :=
  match r with Ok a => Ok a | Err e => Err (f e) end.

Definition lint_anchor_line (raw : string) : result PolicyError unit :=
  let line := TrimSpace raw in
  if String.eqb line "" || HasPrefix line "#" then Ok tt else
  let fields := Fields line in
  guard ((3 <=? length fields)%nat && String.eqb (fld fields 1) "on") (PENotBinatRdr line) ;--
  if String.eqb (fld fields 0) "binat" then
    wrap (PEIface (fld fields 2)) (checkPodNATInterface (fld fields 2)) ;--
    wrap (PERule line) (lintBinatRule fields)
  else if String.eqb (fld fields 0) "rdr" then
    wrap (PEIface (fld fields 2)) (checkVMNetInterface (fld fields 2)) ;--
    wrap (PERule line) (lintRDRRule fields)
  else Err (PENotBinatRdr line).

Definition lintAnchorRuleset (ruleset : string) : result PolicyError unit :=
  guard (negb (String.eqb (VMNetInterface p) "")) PENoVMNet ;--
  for_each lint_anchor_line (split_on newline ruleset).

(** ** The WireGuard configuration lint *)

Definition checkRouteCIDR (target : string) : result PolicyError unit :=
  match normalizeCIDR target with
  | None => Err (PENotCIDR target)
  | Some norm => guard (bool_decide (norm ∈ RouteCIDRs p)) (PECIDRNotConfigured target)
  end.

Definition lint_wg_line (raw : string) : result PolicyError unit :=
  let line := TrimSpace raw in
  if String.eqb line "" || HasPrefix line "#" || HasPrefix line "[" then Ok tt else
  match cut_on (ch 61) line with
  | None => Err (PEWgLine line)
  | Some (key, val) =>
      let key := TrimSpace key in
      let val := TrimSpace val in
      if String.eqb key "PublicKey" then
        guard (bool_decide (val ∈ PeerPublicKeys p)) (PEWgPeer val)
      else if String.eqb key "AllowedIPs" then
        for_each (λ cidr, checkRouteCIDR (TrimSpace cidr)) (split_on (ch 44) val)
      else Ok tt
  end.

Definition lintWireGuardConfig (cfg : string) : result PolicyError unit :=
  for_each lint_wg_line (split_on newline cfg).

(** ** One validator per command *)

Definition no_stdin (req : Request) (name : string) : result PolicyError unit :=
  guard (String.eqb (Stdin req) "") (PEStdin name).

Definition validateSysctl (req : Request) : result PolicyError unit :=
  no_stdin req "sysctl" ;--
  if argsEqual (Args req) ["-n"; "kern.ostype"] then Ok tt
  else match Args req with
  | [a0; kv] =>
      if String.eqb a0 "-w" &&
         (String.eqb kv "net.inet.ip.forwarding=1" || String.eqb kv "net.inet.ip.forwarding=0")
      then guard (negb (String.eqb (VMNetInterface p) "")) PEForwardingRefused
      else Err (PEArgs "sysctl" (Args req))
  | _ => Err (PEArgs "sysctl" (Args req))
  end.

Definition validatePfctl (req : Request) : result PolicyError unit :=
  if argsEqual (Args req) ["-e"] then no_stdin req "pfctl"
  else match Args req with
  | [a0; a; a2; a3] =>
      if String.eqb a0 "-a" && String.eqb a2 "-F" && String.eqb a3 "all" then
        checkAnchor a ;-- no_stdin req "pfctl"
      else if String.eqb a0 "-a" && String.eqb a2 "-f" && String.eqb a3 "-" then
        checkAnchor a ;-- lintAnchorRuleset (Stdin req)
      else Err (PEArgs "pfctl" (Args req))
  | _ => Err (PEArgs "pfctl" (Args req))
  end.

Definition validateRoute (req : Request) : result PolicyError unit :=
  no_stdin req "route" ;--
  match Args req with
  | [a0; a1; ip] =>
      guard (String.eqb a0 "-n" && String.eqb a1 "get") (PEArgs "route" (Args req)) ;--
      checkIPInSet ip (VMNetCIDRs p) "vmnet CIDR"
  | [a0; a1; op; family; target; scope; iface] =>
      guard (String.eqb a0 "-q" && String.eqb a1 "-n") (PEArgs "route" (Args req)) ;--
      guard (String.eqb op "add" || String.eqb op "delete") (PERouteOp op) ;--
      guard (String.eqb family "-inet" || String.eqb family "-inet6") (PERouteFamily family) ;--
      if String.eqb op "delete" && String.eqb family "-inet" && String.eqb target "default" then
        guard (String.eqb scope "-ifscope") (PERouteScope scope) ;--
        checkVMNetInterface iface
      else
        guard (String.eqb scope "-interface") (PERouteScope scope) ;--
        checkMeshInterface iface ;--
        checkRouteCIDR target
  | _ => Err (PEArgs "route" (Args req))
  end.

Definition validateIfconfig (req : Request) : result PolicyError unit :=
  no_stdin req "ifconfig" ;--
  match Args req with
  | [] => Err PENoIfconfigIface
  | iface :: rest =>
      checkMeshInterface iface ;--
      match rest with
      | [a0; a; b; a3] =>
          guard (String.eqb a0 "inet" && String.eqb a3 "alias") (PEArgs "ifconfig" (Args req)) ;--
          guard (ipEqual a (MeshAddressIP p) && ipEqual b (MeshAddressIP p)) (PEMeshAddress a b)
      | [a0; m] =>
          guard (String.eqb a0 "mtu") (PEArgs "ifconfig" (Args req)) ;--
          match Atoi m with
          | None => Err (PEMtu m)
          | Some n =>
              guard (0 <? n) (PEMtu m) ;--
              guard (negb (0 <? MTU p) || (n =? MTU p)) (PEMtuValue n)
          end
      | [verb] =>
          guard (String.eqb verb "up" || String.eqb verb "down" || String.eqb verb "destroy")
            (PEArgs "ifconfig" (Args req))
      | _ => Err (PEArgs "ifconfig" (Args req))
      end
  end.

Definition validateWG (req : Request) : result PolicyError unit :=
  match Args req with
  | [op; iface; src] =>
      guard ((String.eqb op "setconf" || String.eqb op "syncconf") && String.eqb src "/dev/stdin") (PEArgs "wg" (Args req)) ;--
      checkMeshInterface iface ;--
      lintWireGuardConfig (Stdin req)
  | _ => Err (PEArgs "wg" (Args req))
  end.

Definition validateWireGuardGo (req : Request) : result PolicyError unit :=
  no_stdin req "wireguard-go" ;--
  match Args req with
  | [iface] => checkMeshInterface iface
  | _ => Err (PEArgs "wireguard-go" (Args req))
  end.

Definition validatePkill (req : Request) : result PolicyError unit :=
  no_stdin req "pkill" ;--
  match Args req with
  | [a0; pattern] =>
      guard (String.eqb a0 "-f") (PEArgs "pkill" (Args req)) ;--
      guard (String.eqb pattern ("wireguard-go " +:+ MeshInterface p)) (PEPkill pattern) ;--
      checkMeshInterface (TrimPrefix pattern "wireguard-go ")
  | _ => Err (PEArgs "pkill" (Args req))
  end.

Definition Validate (req : Request) : result PolicyError unit :=
  if String.eqb (Name req) "sysctl" then validateSysctl req
  else if String.eqb (Name req) "pfctl" then validatePfctl req
  else if String.eqb (Name req) "route" then validateRoute req
  else if String.eqb (Name req) "ifconfig" then validateIfconfig req
  else if String.eqb (Name req) "wg" then validateWG req
  else if String.eqb (Name req) "wireguard-go" then validateWireGuardGo req
  else if String.eqb (Name req) "pkill" then validatePkill req
  else Err (PENoGrammar (Name req)).
End policy.

Definition isReadOnlyProbe (req : Request) : bool :=
  String.eqb (Name req) "sysctl" && argsEqual (Args req) ["-n"; "kern.ostype"].

(** ** What the policy permits, declaratively *)

Definition vmnet_iface (p : Policy) (i : string) : Prop :=
  VMNetInterface p ≠ "" ∧ (i = VMNetInterface p ∨ isBridgeInterface i = true).

Definition mesh_iface (p : Policy) (i : string) : Prop := i = MeshInterface p ∧ i ≠ "".

Definition is_addr (s : string) : Prop := is_Some (ParseIP s).

(** The redirect target of an rdr rule, as tokens and as the addresses named. *)
Inductive target_tokens : list string → list string → Prop :=
  | one_target t : t ≠ "{" → is_addr t → target_tokens [t] [t]
  | target_pool pool : pool ≠ [] → Forall (λ f, is_addr (TrimSuffix f ",")) pool →
      target_tokens ("{" :: pool ++ ["}"]) ((λ f, TrimSuffix f ",") <$> pool).

Inductive pf_rule (p : Policy) : list string → Prop :=
  | rule_binat i inet vm pod :
      vmnet_iface p i ∨ mesh_iface p i →
      inet = [] ∨ inet = ["inet"] →
      ipInSet vm (VMNetCIDRs p) = true → ipInSet pod (PodCIDRs p) = true →
      pf_rule p (["binat"; "on"; i] ++ inet ++ ["from"; vm; "to"; "any"; "->"; pod])
  | rule_rdr i proto cip port tokens targets tport rr :
      vmnet_iface p i →
      proto = "tcp" ∨ proto = "udp" →
      is_addr cip → is_Some (Atoi port) → is_Some (Atoi tport) →
      target_tokens tokens targets →
      Forall (λ t, ipInSet t (PodCIDRs p) = true ∨ ipInSet t (VMNetCIDRs p) = true) targets →
      rr = [] ∨ rr = ["round-robin"] →
      pf_rule p (["rdr"; "on"; i; "inet"; "proto"; proto; "from"; "any"; "to"; cip; "port"; port;
                  "->"] ++ tokens ++ ["port"; tport] ++ rr).

Definition pf_line (p : Policy) (raw : string) : Prop :=
  TrimSpace raw = "" ∨ HasPrefix (TrimSpace raw) "#" = true ∨ pf_rule p (Fields (TrimSpace raw)).

Lemma guard_Ok {E} b (e : E) : guard b e = Ok tt ↔ b = true.
Proof. by destruct b. Qed.

Lemma seq_Ok {E} (m k : result E unit) : (m ;-- k) = Ok tt ↔ m = Ok tt ∧ k = Ok tt.
Proof. destruct m as [[]|]; naive_solver. Qed.

Lemma wrap_Ok f (r : result PolicyError unit) : wrap f r = Ok tt ↔ r = Ok tt.
Proof. by destruct r. Qed.

Lemma is_ok_Ok {E} (r : result E unit) : is_ok r = true ↔ r = Ok tt.
Proof. by destruct r as [[]|]. Qed.

Create Rewrite HintDb lint.
#[export] Hint Rewrite @guard_Ok @seq_Ok @wrap_Ok @for_each_Ok @is_ok_Ok : lint.
Create Rewrite HintDb gobool.
#[export] Hint Rewrite andb_true_iff orb_true_iff negb_true_iff String.eqb_eq String.eqb_neq
  Nat.eqb_eq Nat.leb_le Nat.ltb_lt bool_decide_eq_true Z.leb_le Z.ltb_lt Z.eqb_eq : gobool.

Ltac lint := autorewrite with lint gobool.
Tactic Notation "lint" "in" hyp(H) := autorewrite with lint gobool in H.

Lemma checkVMNetInterface_Ok p i : checkVMNetInterface p i = Ok tt ↔ vmnet_iface p i.
Proof. unfold checkVMNetInterface, vmnet_iface. by lint. Qed.

Lemma checkMeshInterface_Ok p i : checkMeshInterface p i = Ok tt ↔ mesh_iface p i.
Proof. unfold checkMeshInterface, mesh_iface. lint. split; intros [? ?]; subst; done. Qed.

Lemma checkPodNATInterface_Ok p i :
  checkPodNATInterface p i = Ok tt ↔ vmnet_iface p i ∨ mesh_iface p i.
Proof.
  unfold checkPodNATInterface. rewrite <- checkVMNetInterface_Ok.
  destruct (checkVMNetInterface p i) as [[]|e]; cbn [is_ok]; [by split; auto|].
  unfold mesh_iface. lint. split; [intros [? ->]; auto|intros [?|[-> ?]]; done].
Qed.

Lemma checkAnchor_Ok p a : checkAnchor p a = Ok tt ↔ a = Anchor p ∧ a ≠ "".
Proof. unfold checkAnchor. lint. split; intros [? ?]; subst; done. Qed.

Lemma checkIPInSet_Ok ip s d : checkIPInSet ip s d = Ok tt ↔ ipInSet ip s = true.
Proof. unfold checkIPInSet. by lint. Qed.

#[export] Hint Rewrite checkVMNetInterface_Ok checkMeshInterface_Ok checkPodNATInterface_Ok
  checkAnchor_Ok checkIPInSet_Ok : lint.

Lemma port_index_Some i rest j :
  port_index i rest = Some j ↔
  ∃ pre post, rest = pre ++ "port" :: post ∧ j = (i + length pre)%nat ∧ "port" ∉ pre.
Proof.
  revert i. induction rest as [|f rest IH]; intros i; cbn [port_index].
  { split; [done|]. intros (pre & post & E & _). by destruct pre. }
  destruct (String.eqb f "port") eqn:E; bools.
  - subst. split.
    + intros; simplify_eq. exists [], rest. split_and!; [done|simpl; lia|apply not_elem_of_nil].
    + intros (pre & post & Er & -> & Hn). destruct pre as [|x pre]; simplify_eq/=; [f_equal; lia|].
      by destruct Hn; left.
  - rewrite IH. split; intros (pre & post & Er & -> & Hn).
    + exists (f :: pre), post. subst. split_and!; [done|simpl; lia|]. by rewrite not_elem_of_cons.
    + destruct pre as [|x pre]; simplify_eq/=. rewrite not_elem_of_cons in Hn. destruct Hn.
      exists pre, post. split_and!; [done|lia|done].
Qed.

Lemma pool_target_Ok f ip : pool_target f = Ok ip ↔ ip = TrimSuffix f "," ∧ is_addr ip.
Proof.
  unfold pool_target, is_addr, guard.
  destruct (negb _ && _) eqn:E; bools.
  - split; [intros; by simplify_eq|]. by intros [-> _].
  - split; [done|]. intros [-> Ha]. apply andb_false_iff in E as [E|E]; bools; [|done].
    rewrite E in Ha. by destruct Ha.
Qed.

Lemma pool_targets_Ok pool targets :
  map_result pool_target pool = Ok targets ↔
  Forall (λ f, is_addr (TrimSuffix f ",")) pool ∧ targets = (λ f, TrimSuffix f ",") <$> pool.
Proof.
  rewrite map_result_Ok. revert targets. induction pool as [|f pool IH]; intros targets; simpl.
  - split; [inversion 1; done|]. intros [_ ->]. constructor.
  - rewrite Forall_cons. split.
    + intros (y & l & [-> Ha]%pool_target_Ok & [Hf ->]%IH & ->)%Forall2_cons_inv_l. done.
    + intros [[Ha Hf] ->]. constructor; [by apply pool_target_Ok|]. by apply IH.
Qed.

Lemma parseRDRTargets_Ok fields targets :
  parseRDRTargets fields = Ok targets ↔ target_tokens fields targets.
Proof.
  unfold parseRDRTargets. destruct fields as [|f0 rest]; [split; [done|inversion 1]|].
  destruct (String.eqb f0 "{") eqn:E; bools; cbn [negb].
  - subst f0. unfold guard at 1.
    destruct ((3 <=? length ("{" :: rest))%nat && _) eqn:Eg; lint in Eg.
    + destruct Eg as [Hlen Hlast]. destruct rest as [|x rest _] using rev_ind; [simpl in Hlen; lia|].
      assert (x = "}") as ->.
      { rewrite <- Hlast. cbn [length]. rewrite length_app. unfold fld. cbn [length].
        replace (S (length rest + 1) - 1)%nat with (S (length rest)) by lia. cbn [nth].
        by rewrite app_nth2, Nat.sub_diag by lia. }
      cbn [length]. rewrite length_app. cbn [length].
      replace (S (length rest + 1) - 2)%nat with (length rest) by lia.
      rewrite take_app_length, pool_targets_Ok. split.
      * intros [Hf ->]. constructor; [|done]. intros ->. simpl in Hlen. lia.
      * inversion 1 as [|pool Hne Hf Hp Ht]; [done|]. by apply app_inj_tail in Hp as [-> _].
    + split; [done|]. inversion 1 as [|pool Hne Hf Hp Ht]; [done|]. subst.
      apply andb_false_iff in Eg as [Eg|Eg].
      * apply Nat.leb_gt in Eg. destruct pool; [done|]. cbn [length] in Eg. rewrite length_app in Eg.
        simpl in Eg. lia.
      * bools. destruct Eg. unfold fld. cbn [length]. rewrite length_app. cbn [length].
        replace (S (length pool + 1) - 1)%nat with (S (length pool)) by lia. cbn [nth].
        by rewrite app_nth2, Nat.sub_diag by lia.
  - split.
    + intros Ht. destruct rest; cbn [length guard Nat.eqb] in Ht; [|done].
      unfold guard in Ht. case_bool_decide; simplify_eq. by constructor.
    + inversion 1; simplify_eq. cbn [length guard Nat.eqb]. rewrite bool_decide_true by done. done.
Qed.

Lemma is_addr_not_port : ~ is_addr "port".
Proof. intros [ip Hp]. by vm_compute in Hp. Qed.

Lemma target_tokens_no_port tokens targets : target_tokens tokens targets → "port" ∉ tokens.
Proof.
  destruct 1 as [t Hne Ha|pool Hne Hf].
  - rewrite list_elem_of_singleton. intros <-. by apply is_addr_not_port.
  - rewrite elem_of_cons, elem_of_app, list_elem_of_singleton. intros [|[Hp|]]; [done| |done].
    rewrite Forall_forall in Hf. apply is_addr_not_port. by apply (Hf "port").
Qed.

Lemma target_tokens_length tokens targets : target_tokens tokens targets → (1 ≤ length tokens)%nat.
Proof. destruct 1; simpl; lia. Qed.

Lemma lintBinatRule_Ok p i rest :
  lintBinatRule p ("binat" :: "on" :: i :: rest) = Ok tt ↔
  ∃ inet vm pod, rest = inet ++ ["from"; vm; "to"; "any"; "->"; pod] ∧ (inet = [] ∨ inet = ["inet"]) ∧
    ipInSet vm (VMNetCIDRs p) = true ∧ ipInSet pod (PodCIDRs p) = true.
Proof.
  unfold lintBinatRule. cbn [length fld nth]. split.
  - intros Hl. destruct rest as [|f rest]; [done|].
    cbn [length Nat.ltb Nat.leb andb nth] in Hl.
    destruct (String.eqb f "inet") eqn:E; cbn [Nat.add] in Hl; lint in Hl;
      destruct Hl as [[[[[Hlen H1] H2] H3] H4] [Hv Hp]].
    + bools. subst f. do 6 (destruct rest as [|? rest]; [simpl in Hlen; lia|]).
      destruct rest; [|simpl in Hlen; lia]. cbn in H1, H2, H3, H4, Hv, Hp. subst.
      eexists ["inet"], _, _. by split_and!; [|right|..].
    + do 5 (destruct rest as [|? rest]; [simpl in Hlen; lia|]).
      destruct rest; [|simpl in Hlen; lia]. cbn in H1, H2, H3, H4, Hv, Hp. subst.
      eexists [], _, _. by split_and!; [|left|..].
  - intros (inet & vm & pod & -> & [->| ->] & Hv & Hp); cbn; unfold checkIPInSet; by rewrite Hv, Hp.
Qed.

Lemma fld_app_length l r k : fld (l ++ r) (length l + k) = fld r k.
Proof. unfold fld. rewrite app_nth2 by lia. f_equal. lia. Qed.

(** The part of the rdr check after the thirteen fixed tokens. *)
Lemma rdr_tail_Ok p hd rest : length hd = 13%nat →
  (16 <= length (hd ++ rest))%nat →
  match port_index 13 (list.drop 13 (hd ++ rest)) with
  | None => Err PENoTargetPort
  | Some portIdx =>
      guard ((portIdx + 1 <? length (hd ++ rest))%nat) PENoTargetPort ;--
      guard (bool_decide (is_Some (Atoi (fld (hd ++ rest) (portIdx + 1)))))
        (PETargetPort (fld (hd ++ rest) (portIdx + 1))) ;--
      guard (Nat.eqb (length (hd ++ rest)) (portIdx + 2) ||
             (Nat.eqb (length (hd ++ rest)) (portIdx + 3) &&
              String.eqb (fld (hd ++ rest) (portIdx + 2)) "round-robin"))
        (PETrailing (list.drop (portIdx + 2) (hd ++ rest))) ;--
      targets <-- parseRDRTargets (list.take (portIdx - 13) (list.drop 13 (hd ++ rest)));
      for_each (λ t, guard (ipInSet t (PodCIDRs p) || ipInSet t (VMNetCIDRs p))
                       (PETargetOutside t)) targets
  end = Ok tt ↔
  ∃ tokens targets tport rr, rest = tokens ++ ["port"; tport] ++ rr ∧ is_Some (Atoi tport) ∧
    target_tokens tokens targets ∧
    Forall (λ t, ipInSet t (PodCIDRs p) = true ∨ ipInSet t (VMNetCIDRs p) = true) targets ∧
    (rr = [] ∨ rr = ["round-robin"]).
Proof.
  intros Hhd Hlen. rewrite <- Hhd, drop_app_length. rewrite length_app in *.
  split.
  - destruct (port_index _ rest) as [j|] eqn:E; [|done].
    apply port_index_Some in E as (pre & post & -> & -> & Hn).
    rewrite length_app in *. cbn [length] in *.
    rewrite <- !Nat.add_assoc, !fld_app_length.
    replace (length hd + length pre - length hd)%nat with (length pre) by lia.
    rewrite take_app_length. cbn [fld nth].
    destruct (parseRDRTargets pre) as [targets|] eqn:Et; lint; [|naive_solver].
    intros (Hp & Ha & Hr & Hf). apply parseRDRTargets_Ok in Et.
    destruct post as [|tport post]; [cbn [length] in Hp; lia|]. cbn [nth length] in *.
    exists pre, targets, tport, post. split_and!; try done.
    + eapply Forall_impl; [exact Hf|]. intros t. by lint.
    + destruct Hr as [Hr|[Hr Hrr]].
      * destruct post; [by left|simpl in Hr; lia].
      * destruct post as [|x [|]]; simpl in Hr; [lia| |lia]. simpl in Hrr. subst. by right.
  - intros (tokens & targets & tport & rr & -> & Ha & Ht & Hf & Hr).
    assert (port_index (length hd) (tokens ++ ["port"; tport] ++ rr) = Some (length hd + length tokens)%nat) as ->.
    { apply port_index_Some. exists tokens, (tport :: rr). by eauto using target_tokens_no_port. }
    replace (length hd + length tokens - length hd)%nat with (length tokens) by lia.
    rewrite take_app_length, <- !Nat.add_assoc, !fld_app_length. cbn [fld nth app].
    apply parseRDRTargets_Ok in Ht as ->. rewrite length_app. cbn [length]. lint.
    split_and!; [lia|done| |].
    + destruct Hr as [->| ->]; cbn [length nth]; [left; lia|right; split; [lia|done]].
    + eapply Forall_impl; [exact Hf|]. intros t. by lint.
Qed.

Lemma lintRDRRule_Ok p i rest :
  lintRDRRule p ("rdr" :: "on" :: i :: rest) = Ok tt ↔
  ∃ proto cip port tokens targets tport rr,
    rest = ["inet"; "proto"; proto; "from"; "any"; "to"; cip; "port"; port; "->"] ++ tokens ++
           ["port"; tport] ++ rr ∧
    (proto = "tcp" ∨ proto = "udp") ∧ is_addr cip ∧ is_Some (Atoi port) ∧ is_Some (Atoi tport) ∧
    target_tokens tokens targets ∧
    Forall (λ t, ipInSet t (PodCIDRs p) = true ∨ ipInSet t (VMNetCIDRs p) = true) targets ∧
    (rr = [] ∨ rr = ["round-robin"]).
Proof.
  unfold lintRDRRule. rewrite !seq_Ok, !guard_Ok, !andb_true_iff. split.
  - intros (Hs & Hc & Hp & Ht). destruct Hs as [[[[[[[[H0 H1] H2] H3] H4] H5] H6] H7] H8].
    lint in H0. do 10 (destruct rest as [|? rest]; [simpl in H0; lia|]).
    cbn [fld nth] in *. lint in H1. lint in H2. lint in H3. lint in H4. lint in H5.
    lint in H6. lint in H7. lint in H8. lint in Hc. lint in Hp. subst.
    match type of Ht with context [list.drop 13 (?a :: ?b :: ?c :: ?d :: ?e :: ?f :: ?g :: ?h :: ?i :: ?j :: ?k :: ?l :: ?m :: rest)] =>
      change (a :: b :: c :: d :: e :: f :: g :: h :: i :: j :: k :: l :: m :: rest)
        with ([a; b; c; d; e; f; g; h; i; j; k; l; m] ++ rest) in Ht, H0 end.
    apply rdr_tail_Ok in Ht as (tokens & targets & tport & rr & -> & ? & ? & ? & ?); [|done..].
    by eexists _, _, _, tokens, targets, tport, rr.
  - intros (proto & cip & port & tokens & targets & tport & rr & -> & Hpr & Hc & Hp & Htp & Ht & Hf & Hr).
    pose proof (target_tokens_length _ _ Ht) as Hl.
    assert (16 ≤ length ("rdr" :: "on" :: i :: ["inet"; "proto"; proto; "from"; "any"; "to"; cip; "port"; port; "->"] ++ tokens ++ ["port"; tport] ++ rr))%nat as H16.
    { cbn [length app]. rewrite length_app. cbn [length]. lia. }
    split_and!; try (by apply Nat.leb_le); try done.
    + cbn. destruct Hpr as [->| ->]; done.
    + cbn. by apply bool_decide_true.
    + cbn. by apply bool_decide_true.
    + apply (rdr_tail_Ok p ["rdr"; "on"; i; "inet"; "proto"; proto; "from"; "any"; "to"; cip; "port"; port; "->"]
        (tokens ++ ["port"; tport] ++ rr)); [done|done|]. by exists tokens, targets, tport, rr.
Qed.

Lemma lint_anchor_line_Ok p raw : lint_anchor_line p raw = Ok tt ↔ pf_line p raw.
Proof.
  unfold lint_anchor_line, pf_line. generalize (TrimSpace raw) as line. intros line.
  destruct (String.eqb line "") eqn:E1; bools; [cbn [orb]; naive_solver|].
  destruct (HasPrefix line "#") eqn:E2; cbn [orb]; [naive_solver|].
  transitivity (pf_rule p (Fields line)); [|naive_solver].
  generalize (Fields line) as f. intros f. split.
  - rewrite seq_Ok. lint. intros [[Hlen Hon] Hk].
    destruct f as [|f0 [|f1 [|i rest]]]; try (simpl in Hlen; lia). cbn [fld nth] in *. subst f1.
    destruct (String.eqb f0 "binat") eqn:Eb; bools; [subst f0|].
    + lint in Hk. destruct Hk as [Hi Hl].
      apply lintBinatRule_Ok in Hl as (inet & vm & pod & -> & ? & ? & ?). by constructor.
    + destruct (String.eqb f0 "rdr") eqn:Er; bools; [subst f0|done].
      lint in Hk. destruct Hk as [Hi Hl].
      apply lintRDRRule_Ok in Hl as (proto & cip & port & tokens & targets & tport & rr & -> & ?).
      destruct_and!. by econstructor.
  - destruct 1 as [i inet vm pod Hi Hin Hv Hp|i proto cip port tokens targets tport rr Hi].
    + destruct Hin as [->| ->]; cbn -[checkPodNATInterface lintBinatRule]; lint; (split; [done|]);
        apply lintBinatRule_Ok; [eexists [], vm, pod|eexists ["inet"], vm, pod]; naive_solver.
    + cbn -[checkVMNetInterface lintRDRRule]. lint. split; [done|]. apply lintRDRRule_Ok.
      by exists proto, cip, port, tokens, targets, tport, rr.
Qed.

Lemma lintAnchorRuleset_Ok p s :
  lintAnchorRuleset p s = Ok tt ↔
  VMNetInterface p ≠ "" ∧ Forall (pf_line p) (split_on newline s).
Proof.
  unfold lintAnchorRuleset. lint. by setoid_rewrite lint_anchor_line_Ok.
Qed.

Definition route_cidr (p : Policy) (target : string) : Prop :=
  ∃ norm, normalizeCIDR target = Some norm ∧ norm ∈ RouteCIDRs p.

Lemma checkRouteCIDR_Ok p t : checkRouteCIDR p t = Ok tt ↔ route_cidr p t.
Proof.
  unfold checkRouteCIDR, route_cidr. destruct (normalizeCIDR t); lint; naive_solver.
Qed.
#[export] Hint Rewrite checkRouteCIDR_Ok : lint.

Definition wg_line (p : Policy) (raw : string) : Prop :=
  let line := TrimSpace raw in
  line = "" ∨ HasPrefix line "#" = true ∨ HasPrefix line "[" = true ∨
  ∃ key val, cut_on (ch 61) line = Some (key, val) ∧
    (TrimSpace key = "PublicKey" → TrimSpace val ∈ PeerPublicKeys p) ∧
    (TrimSpace key = "AllowedIPs" →
       Forall (λ cidr, route_cidr p (TrimSpace cidr)) (split_on (ch 44) (TrimSpace val))).

Lemma lint_wg_line_Ok p raw : lint_wg_line p raw = Ok tt ↔ wg_line p raw.
Proof.
  unfold lint_wg_line, wg_line. generalize (TrimSpace raw) as line. intros line. cbv zeta.
  destruct (String.eqb line "") eqn:E1; bools; cbn [orb]; [naive_solver|].
  destruct (HasPrefix line "#") eqn:E2; cbn [orb]; [naive_solver|].
  destruct (HasPrefix line "[") eqn:E3; [naive_solver|].
  destruct (cut_on (ch 61) line) as [[key val]|] eqn:E4; [|naive_solver].
  destruct (String.eqb (TrimSpace key) "PublicKey") eqn:E5; bools.
  { lint. split.
    - intros Hin. do 3 right. exists key, val. split_and!; [done..|congruence].
    - intros [?|[?|[?|(k & v & [= <- <-] & Hp & _)]]]; [done..|auto]. }
  destruct (String.eqb (TrimSpace key) "AllowedIPs") eqn:E6; bools.
  - lint. setoid_rewrite checkRouteCIDR_Ok. split.
    + intros Hin. do 3 right. exists key, val. split_and!; [done|congruence|done].
    + intros [?|[?|[?|(k & v & [= <- <-] & _ & Ha)]]]; [done..|auto].
  - split; [|done]. intros _. do 3 right. by exists key, val.
Qed.

Lemma lintWireGuardConfig_Ok p s :
  lintWireGuardConfig p s = Ok tt ↔ Forall (wg_line p) (split_on newline s).
Proof. unfold lintWireGuardConfig. lint. by setoid_rewrite lint_wg_line_Ok. Qed.

Inductive permits (p : Policy) : Request → Prop :=
  | perm_probe : permits p (mkReq "sysctl" ["-n"; "kern.ostype"] "")
  | perm_forward kv :
      kv = "net.inet.ip.forwarding=1" ∨ kv = "net.inet.ip.forwarding=0" →
      VMNetInterface p ≠ "" → permits p (mkReq "sysctl" ["-w"; kv] "")
  | perm_pf_enable : permits p (mkReq "pfctl" ["-e"] "")
  | perm_flush : Anchor p ≠ "" → permits p (mkReq "pfctl" ["-a"; Anchor p; "-F"; "all"] "")
  | perm_load rules :
      Anchor p ≠ "" → VMNetInterface p ≠ "" → Forall (pf_line p) (split_on newline rules) →
      permits p (mkReq "pfctl" ["-a"; Anchor p; "-f"; "-"] rules)
  | perm_route_get ip :
      ipInSet ip (VMNetCIDRs p) = true → permits p (mkReq "route" ["-n"; "get"; ip] "")
  | perm_delete_default i :
      vmnet_iface p i →
      permits p (mkReq "route" ["-q"; "-n"; "delete"; "-inet"; "default"; "-ifscope"; i] "")
  | perm_route op family target i :
      op = "add" ∨ op = "delete" → family = "-inet" ∨ family = "-inet6" →
      mesh_iface p i → route_cidr p target →
      permits p (mkReq "route" ["-q"; "-n"; op; family; target; "-interface"; i] "")
  | perm_address i a b :
      mesh_iface p i → ipEqual a (MeshAddressIP p) = true → ipEqual b (MeshAddressIP p) = true →
      permits p (mkReq "ifconfig" [i; "inet"; a; b; "alias"] "")
  | perm_mtu i m n :
      mesh_iface p i → Atoi m = Some n → 0 < n → (0 < MTU p → n = MTU p) →
      permits p (mkReq "ifconfig" [i; "mtu"; m] "")
  | perm_verb i verb :
      mesh_iface p i → verb = "up" ∨ verb = "down" ∨ verb = "destroy" →
      permits p (mkReq "ifconfig" [i; verb] "")
  | perm_wg op i cfg :
      op = "setconf" ∨ op = "syncconf" → mesh_iface p i →
      Forall (wg_line p) (split_on newline cfg) →
      permits p (mkReq "wg" [op; i; "/dev/stdin"] cfg)
  | perm_wireguard_go i : mesh_iface p i → permits p (mkReq "wireguard-go" [i] "")
  | perm_pkill : MeshInterface p ≠ "" →
      permits p (mkReq "pkill" ["-f"; "wireguard-go " +:+ MeshInterface p] "").

Lemma no_stdin_Ok req name : no_stdin req name = Ok tt ↔ Stdin req = "".
Proof. unfold no_stdin. by lint. Qed.
#[export] Hint Rewrite no_stdin_Ok : lint.

Lemma argsEqual_Ok a b : argsEqual a b = true ↔ a = b.
Proof. unfold argsEqual. by rewrite bool_decide_eq_true. Qed.

Lemma validateSysctl_permits p args stdin :
  validateSysctl p (mkReq "sysctl" args stdin) = Ok tt → permits p (mkReq "sysctl" args stdin).
Proof.
  unfold validateSysctl, no_stdin. cbn [Stdin Args]. rewrite seq_Ok, guard_Ok, String.eqb_eq.
  intros [-> Hv]. destruct (argsEqual args _) eqn:E; [apply argsEqual_Ok in E as ->; constructor|].
  destruct args as [|a0 [|kv []]]; try done.
  destruct (String.eqb a0 "-w" && _) eqn:E2; [|done]. lint in E2. lint in Hv.
  destruct E2 as [-> ?]. by constructor.
Qed.

Lemma validatePfctl_permits p args stdin :
  validatePfctl p (mkReq "pfctl" args stdin) = Ok tt → permits p (mkReq "pfctl" args stdin).
Proof.
  unfold validatePfctl, no_stdin. cbn [Stdin Args]. destruct (argsEqual args _) eqn:E.
  { apply argsEqual_Ok in E as ->. lint. intros ->. constructor. }
  destruct args as [|a0 [|a [|a2 [|a3 []]]]]; try done.
  destruct (String.eqb a0 "-a" && String.eqb a2 "-F" && _) eqn:E2.
  { lint in E2. lint. intros [[-> ?] ->]. destruct E2 as [[-> ->] ->]. by constructor. }
  destruct (String.eqb a0 "-a" && String.eqb a2 "-f" && _) eqn:E3; [|done].
  lint in E3. rewrite seq_Ok, checkAnchor_Ok, lintAnchorRuleset_Ok. intros [[-> ?] [??]].
  destruct E3 as [[-> ->] ->]. by constructor.
Qed.

Lemma validateRoute_permits p args stdin :
  validateRoute p (mkReq "route" args stdin) = Ok tt → permits p (mkReq "route" args stdin).
Proof.
  unfold validateRoute, no_stdin. cbn [Stdin Args]. rewrite seq_Ok, guard_Ok, String.eqb_eq.
  intros [-> Hv].
  destruct args as [|a0 [|a1 [|op [|family [|target [|scope [|i []]]]]]]]; try done.
  { lint in Hv. destruct Hv as [[-> ->] ?]. by constructor. }
  rewrite !seq_Ok in Hv. lint in Hv. destruct Hv as ([-> ->] & Hop & Hfam & Hv).
  destruct (String.eqb op "delete" && _ && _) eqn:E; lint in Hv.
  - lint in E. destruct E as [[-> ->] ->]. destruct Hv as [-> ?]. by constructor.
  - destruct Hv as (-> & ? & ?). by constructor.
Qed.

Lemma validateIfconfig_permits p args stdin :
  validateIfconfig p (mkReq "ifconfig" args stdin) = Ok tt → permits p (mkReq "ifconfig" args stdin).
Proof.
  unfold validateIfconfig, no_stdin. cbn [Stdin Args]. rewrite seq_Ok, guard_Ok, String.eqb_eq.
  intros [-> Hv]. destruct args as [|i rest]; [done|].
  rewrite seq_Ok, checkMeshInterface_Ok in Hv. destruct Hv as [Hi Hv].
  destruct rest as [|a0 [|m [|b [|a3 []]]]]; try done.
  - lint in Hv. constructor; [done|]. destruct Hv as [[?|?]|?]; auto.
  - rewrite seq_Ok in Hv. lint in Hv. destruct Hv as [-> Hv].
    destruct (Atoi m) as [n|] eqn:En; [|done]. lint in Hv. destruct Hv as [? Hm].
    econstructor; eauto. intros. destruct Hm as [Hm|?]; [|done]. bools. lia.
  - lint in Hv. destruct Hv as [[-> ->] [? ?]]. by constructor.
Qed.

Lemma Validate_permits p req : Validate p req = Ok tt → permits p req.
Proof.
  destruct req as [name args stdin]. unfold Validate. cbn [Name].
  destruct (String.eqb name "sysctl") eqn:E; bools; subst; [apply validateSysctl_permits|].
  destruct (String.eqb name "pfctl") eqn:E0; bools; subst; [apply validatePfctl_permits|].
  destruct (String.eqb name "route") eqn:E1; bools; subst; [apply validateRoute_permits|].
  destruct (String.eqb name "ifconfig") eqn:E2; bools; subst; [apply validateIfconfig_permits|].
  destruct (String.eqb name "wg") eqn:E3; bools; subst.
  { unfold validateWG. cbn [Args Stdin]. destruct args as [|op [|i [|src []]]]; try done.
    rewrite !seq_Ok, lintWireGuardConfig_Ok. lint. intros ([? ->] & ? & ?). by constructor. }
  destruct (String.eqb name "wireguard-go") eqn:E4; bools; subst.
  { unfold validateWireGuardGo, no_stdin. cbn [Args Stdin]. rewrite seq_Ok. lint. intros [-> Hv].
    destruct args as [|i []]; try done. lint in Hv. by constructor. }
  destruct (String.eqb name "pkill") eqn:E5; bools; subst; [|done].
  unfold validatePkill, no_stdin. cbn [Args Stdin]. rewrite seq_Ok. lint. intros [-> Hv].
  destruct args as [|a0 [|pat []]]; try done. rewrite !seq_Ok in Hv. lint in Hv.
  destruct Hv as (-> & -> & Hi). rewrite TrimPrefix_app in Hi. destruct Hi. by constructor.
Qed.

Lemma permits_Validate p req : permits p req → Validate p req = Ok tt.
Proof.
  destruct 1 as [|kv [->| ->] Hv| |Ha|rules Ha Hv Hr|ip Hip|i Hi|op fam t i Hop Hf Hi Ht
    |i a b Hi Ha Hb|i m n Hi Hm Hn Hmtu|i verb Hi Hverb|op i c Hop Hi Hc|i Hi|Hm];
    unfold Validate; cbn [Name String.eqb Ascii.eqb Bool.eqb andb].
  - done.
  - unfold validateSysctl. lint. split; [done|]. by destruct (argsEqual _ _); cbn -[guard]; lint.
  - unfold validateSysctl. lint. split; [done|]. by destruct (argsEqual _ _); cbn -[guard]; lint.
  - done.
  - unfold validatePfctl. destruct (argsEqual _ _); cbn -[checkAnchor no_stdin]; by lint.
  - unfold validatePfctl. destruct (argsEqual _ _) eqn:E; [by apply argsEqual_Ok in E|].
    cbn -[checkAnchor lintAnchorRuleset]. by rewrite seq_Ok, checkAnchor_Ok, lintAnchorRuleset_Ok.
  - unfold validateRoute. cbn [Args]. by lint.
  - unfold validateRoute. cbn -[checkVMNetInterface no_stdin]. by lint.
  - unfold validateRoute. cbn [Args]. rewrite !seq_Ok. lint. split_and!; [done..|].
    destruct (String.eqb op "delete" && _ && _) eqn:E; [|by lint].
    lint in E. destruct E as [_ ->]. destruct Ht as (norm & Hn & _). by vm_compute in Hn.
  - unfold validateIfconfig. cbn [Args]. by lint.
  - unfold validateIfconfig. cbn [Args]. rewrite !seq_Ok. lint.
    split_and!; [done..|]. rewrite Hm. lint. split; [done|].
    destruct (0 <? MTU p) eqn:E; bools; [right; by apply Hmtu|by left].
  - unfold validateIfconfig. cbn [Args]. lint. naive_solver.
  - unfold validateWG. cbn [Args Stdin]. rewrite !seq_Ok, lintWireGuardConfig_Ok. by lint.
  - unfold validateWireGuardGo. cbn [Args]. by lint.
  - unfold validatePkill. cbn [Args]. rewrite !seq_Ok. lint.
    rewrite TrimPrefix_app. by split_and!.
Qed.

(** ** Properties *)


(** With no policy configured (the zero [Policy]) the helper still runs two
    requests: the read-only probe and [pfctl -e], which turns the host's packet
    filter on. *)
Theorem zero_policy_permits req :
  Validate zero_policy req = Ok tt ↔
  req = mkReq "sysctl" ["-n"; "kern.ostype"] "" ∨ req = mkReq "pfctl" ["-e"] "".
Proof.
  split.
  - intros Hv. apply Validate_permits in Hv.
    destruct Hv as [| | | | |ip Hip|i [Hi _]|? ? ? ? ? ? [-> Hi]|? ? ? [-> Hi]|? ? ? [-> Hi]
      |? ? [-> Hi]|? ? ? ? [-> Hi]|? [-> Hi]|]; auto; try done.
    exfalso. revert Hip. unfold ipInSet. by destruct (ParseIP ip).
  - by intros [->| ->].
Qed.

Definition evil_conf : string :=
  "[Peer]" +:+ nl +:+
  "publickey = xTIBA5rboUvnH4htodjb6e697QjLERt1NAB4mZqp8Dg=" +:+ nl +:+
  "allowedips = 0.0.0.0/0" +:+ nl.

(** The WireGuard lint recognises the keys [PublicKey] and [AllowedIPs]
    only in that spelling: under every policy that manages a mesh interface, a
    configuration with the lower-case spellings (which wg reads the same way)
    is accepted whatever peer and ranges it names. *)
Theorem wg_lint_case_sensitive p :
  MeshInterface p ≠ "" →
  Validate p (mkReq "wg" ["setconf"; MeshInterface p; "/dev/stdin"] evil_conf) = Ok tt.
Proof.
  intros Hm. apply permits_Validate. constructor; [by left|done|].
  apply lintWireGuardConfig_Ok. by vm_compute.
Qed.

Definition demo_policy : Policy :=
  mkPolicy "utun7" "bridge100" "macvz/pods" "10.99.0.1" 1420
    {["10.244.2.0/24"]} {["10.244.1.0/24"; "10.244.2.0/24"]} {["192.168.64.0/24"]} {["peerkey"]}.

Lemma wg_lint_case_sensitive_witness :
  Validate demo_policy (mkReq "wg" ["setconf"; "utun7"; "/dev/stdin"] evil_conf) = Ok tt.
Proof. by apply (wg_lint_case_sensitive demo_policy). Defined.

(** The same configuration with the canonical spelling is refused. *)
Example evil_refused :
  lint_wg_line demo_policy "PublicKey = xTIBA5rboUvnH4htodjb6e697QjLERt1NAB4mZqp8Dg=" =
  Err (PEWgPeer "xTIBA5rboUvnH4htodjb6e697QjLERt1NAB4mZqp8Dg=").
Proof. by vm_compute. Qed.
