(* ===== verification/PrivHelper.v ===== *)
(** * The privileged helper: [pkg/network/privhelper/{protocol,server,client}.go]
      and the [helperRunner]s of podnet and wireguard

    The daemon serves one request per connection: decode, protocol check, then
    status, policy reload or execution.  [W] is the state of the host, which
    the executor changes; the executor and the policy loader are parameters, as
    in the source.  Every refusal carries one of the structured codes.

    Requests and replies travel as JSON: bytes that are not UTF-8 are replaced, and
    the server reads at most a megabyte of a request.  What the connection does to
    one exchange, deadlines included, is the parameter [Link]. *)

From S2P Require Import Prelude GoStrings GoJson GoMarshal Host PrivPolicy.

Open Scope Z_scope.

Definition Protocol : Z := 1.
Definition OpExec : string := "".
Definition OpStatus : string := "status".
Definition OpReloadPolicy : string := "reloadPolicy".

Inductive Code : Type :=
  | CodeUnsupportedProtocol | CodeMalformed | CodeNotAllowed | CodeNotPermitted
  | CodeExecError | CodeUnknownOp | CodePolicyReloadFailed.

#[export] Instance Code_eq_dec : EqDecision Code.
Proof. solve_decision. Defined.

Definition Code_text (c : Code) : string :=
  match c with
  | CodeUnsupportedProtocol => "unsupported_protocol" | CodeMalformed => "malformed" | CodeNotAllowed => "not_allowed"
  | CodeNotPermitted => "not_permitted" | CodeExecError => "exec_error" | CodeUnknownOp => "unknown_op"
  | CodePolicyReloadFailed => "policy_reload_failed"
  end.

Record WireRequest := mkWire { w_protocol : Z; w_op : string; w_cmd : Request }.

Record HelperStatus := mkStatus {
  st_protocol : Z; st_version : string; st_allowed : list string;
  st_enforced : bool; st_reloadable : bool; st_pid : Z; st_started : Z;
}.

(** [Err]/[ErrorCode] of the source are set together: one option here. *)
Record Response := mkResp {
  r_protocol : Z; r_stdout : string; r_stderr : string; r_exit : Z;
  r_err : option (Code * string); r_status : option HelperStatus;
}.

Definition allowedCommands : gset string :=
  {["pfctl"; "sysctl"; "route"; "ifconfig"; "wg"; "wireguard-go"; "pkill"]}.

Definition IsAllowed (name : string) : bool := bool_decide (name ∈ allowedCommands).
Definition AllowedCommands : list string := sort_strings (elements allowedCommands).

(** ** What travels *)

Definition maxRequestBytes : Z := 2 ^ 20.

(** The request as [json.Encoder] writes it. *)
Definition request_text (r : WireRequest) : string :=
  json_object
    ((if w_protocol r =? 0 then [] else [json_member "protocol" (Itoa (w_protocol r))]) ++
     (if String.eqb (w_op r) "" then [] else [json_member "op" (json_string (w_op r))]) ++
     [json_member "name" (json_string (Name (w_cmd r))); json_member "args" (json_array (json_string <$> Args (w_cmd r)))] ++
     (if String.eqb (Stdin (w_cmd r)) "" then [] else [json_member "stdin" (json_string (Stdin (w_cmd r)))])).

(** What the server decodes of it: nothing when it is cut off at the limit. *)
Definition decoded (r : WireRequest) : option WireRequest :=
  if maxRequestBytes <? Z.of_nat (String.length (request_text r)) then None
  else Some (mkWire (w_protocol r) (to_valid (w_op r))
               (mkReq (to_valid (Name (w_cmd r))) (to_valid <$> Args (w_cmd r)) (to_valid (Stdin (w_cmd r))))).

(** What the client decodes of a reply. *)
Definition received (resp : Response) : Response :=
  mkResp (r_protocol resp) (to_valid (r_stdout resp)) (to_valid (r_stderr resp)) (r_exit resp)
    ((λ cm, (cm.1, to_valid cm.2)) <$> r_err resp)
    ((λ st, mkStatus (st_protocol st) (to_valid (st_version st)) (to_valid <$> st_allowed st) (st_enforced st) (st_reloadable st)
              (st_pid st) (st_started st)) <$> r_status resp).

(** One exchange over the socket: it goes through; the request does not get to the
    server; or the server handles it and the reply is lost, for instance because it
    comes after the client's deadline. *)
Inductive Delivery : Type := Delivered | Undelivered (msg : string) | ReplyLost (msg : string).

Class Link (W : Type) : Type := delivery : WireRequest → W → Delivery.

(** A connection on which every exchange goes through. *)
Definition reliable {W} : Link W := λ _ _, Delivered.

Section server.
Context {W : Type}.

(** Stdout, stderr, exit code and spawn error. *)
Definition ExecFunc : Type := Request → W → W * (string * string * Z * option string).

Record Server := mkServer {
  s_exec : ExecFunc;
  s_policy : option Policy;
  s_loader : option (W → result string Policy);
  s_version : string;
  s_pid : Z; s_startedAt : Z;
}.

Definition NewServer (exec : ExecFunc) : Server := mkServer exec None None "" 0 0.
Definition NewServerWithPolicy (exec : ExecFunc) (p : Policy) : Server :=
  mkServer exec (Some p) None "" 0 0.
Definition NewServerWithPolicyLoader (exec : ExecFunc) (loader : W → result string Policy) (w : W)
    : result string Server :=
  p <-- loader w; Ok (mkServer exec (Some p) (Some loader) "" 0 0).

Definition set_policy (s : Server) (p : Policy) : Server :=
  mkServer (s_exec s) (Some p) (s_loader s) (s_version s) (s_pid s) (s_startedAt s).

Definition writeError (code : Code) (msg : string) : Response :=
  mkResp Protocol "" "" (-1) (Some (code, msg)) None.

Definition status (s : Server) : HelperStatus :=
  mkStatus Protocol (if String.eqb (s_version s) "" then "dev" else s_version s) AllowedCommands
    (bool_decide (is_Some (s_policy s))) (bool_decide (is_Some (s_loader s))) (s_pid s) (s_startedAt s).

Definition reloadPolicy (s : Server) (w : W) : Server * result string unit :=
  match s_loader s with
  | None => (s, Ok tt)
  | Some loader =>
      match loader w with
      | Err e => (s, Err e)
      | Ok p => (set_policy s p, Ok tt)
      end
  end.

Definition handleExec (s : Server) (req : Request) (w : W) : W * Response :=
  if negb (IsAllowed (Name req)) then
    (w, writeError CodeNotAllowed ("command not allowed: " +:+ Name req)) else
  match (match s_policy s with Some p => Validate p req | None => Ok tt end) with
  | Err _ => (w, writeError CodeNotPermitted "request not permitted")
  | Ok _ =>
      let '(w, (out, errout, code, err)) := s_exec s req w in
      (w, mkResp Protocol out errout code
            (match err with Some e => Some (CodeExecError, e) | None => None end) None)
  end.

(** [None] is a request that does not decode (or exceeds the size limit). *)
Definition handle (s : Server) (r : option WireRequest) (w : W) : Server * W * Response :=
  match r with
  | None => (s, w, writeError CodeMalformed "decode request")
  | Some r =>
      if negb (w_protocol r =? 0) && negb (w_protocol r =? Protocol) then
        (s, w, writeError CodeUnsupportedProtocol
                 ("unsupported protocol " +:+ Itoa (w_protocol r) +:+ " (helper speaks " +:+ Itoa Protocol +:+ ")"))
      else if String.eqb (w_op r) OpStatus then
        (s, w, mkResp Protocol "" "" 0 None (Some (status s)))
      else if String.eqb (w_op r) OpReloadPolicy then
        match reloadPolicy s w with
        | (s, Err e) => (s, w, writeError CodePolicyReloadFailed ("reload policy: " +:+ e))
        | (s, Ok _) => (s, w, mkResp Protocol "" "" 0 None None)
        end
      else if String.eqb (w_op r) OpExec then
        let '(w, resp) := handleExec s (w_cmd r) w in (s, w, resp)
      else (s, w, writeError CodeUnknownOp ("unknown operation: " +:+ w_op r))
  end.

Fixpoint serve (s : Server) (rs : list (option WireRequest)) (w : W) : Server * W * list Response :=
  match rs with
  | [] => (s, w, [])
  | r :: rs' =>
      let '(s, w, resp) := handle s r w in
      let '(s, w, resps) := serve s rs' w in (s, w, resp :: resps)
  end.

(** ** The client *)

(** The outcome of [Client.Run]: what the command printed, its exit code and
    the API error, or a failure of the connection itself. *)
Inductive ClientError : Type :=
  | EDial (msg : string)
  | EAPI (code : option Code) (msg : string).

Context `{!Link W}.

(** [None]: the helper cannot be reached. *)
Definition roundTrip (s : option Server) (r : WireRequest) (w : W)
    : option Server * W * result ClientError Response :=
  match s with
  | None => (None, w, Err (EDial "privhelper dial"))
  | Some s =>
      match delivery r w with
      | Undelivered msg => (Some s, w, Err (EDial msg))
      | Delivered => let '(s, w, resp) := handle s (decoded r) w in (Some s, w, Ok (received resp))
      | ReplyLost msg => let '(s, w, _) := handle s (decoded r) w in (Some s, w, Err (EDial msg))
      end
  end.

Definition client_run (s : option Server) (req : Request) (w : W)
    : option Server * W * (string * string * Z * option ClientError) :=
  match roundTrip s (mkWire Protocol OpExec req) w with
  | (s, w, Err e) => (s, w, ("", "", -1, Some e))
  | (s, w, Ok resp) =>
      (s, w, (r_stdout resp, r_stderr resp, r_exit resp,
              match r_err resp with Some (c, m) => Some (EAPI (Some c) m) | None => None end))
  end.

Definition Ping (s : option Server) (w : W) : option Server * W * option ClientError :=
  let '(s, w, (_, _, code, err)) := client_run s (mkReq "sysctl" ["-n"; "kern.ostype"] "") w in
  (s, w, match err with
         | Some e => Some e
         | None => if code =? 0 then None
                   else Some (EAPI None ("privhelper ping returned exit " +:+ Itoa code))
         end).

Definition client_status (s : option Server) (w : W)
    : option Server * W * result ClientError HelperStatus :=
  match roundTrip s (mkWire Protocol OpStatus (mkReq "" [] "")) w with
  | (s, w, Err e) => (s, w, Err e)
  | (s, w, Ok resp) =>
      (s, w, match r_err resp, r_status resp with
             | Some (c, m), _ => Err (EAPI (Some c) m)
             | None, None => Err (EAPI None "helper returned no status")
             | None, Some st => Ok st
             end)
  end.

Definition client_reload (s : option Server) (w : W)
    : option Server * W * result ClientError unit :=
  match roundTrip s (mkWire Protocol OpReloadPolicy (mkReq "" [] "")) w with
  | (s, w, Err e) => (s, w, Err e)
  | (s, w, Ok resp) =>
      (s, w, match r_err resp with Some (c, m) => Err (EAPI (Some c) m) | None => Ok tt end)
  end.

(** [APIError.Error], and the text of a failed connection. *)
Definition client_error_text (e : ClientError) : string :=
  match e with
  | EDial m => m
  | EAPI None m => "privhelper: " +:+ m
  | EAPI (Some c) m => "privhelper: " +:+ m +:+ " (" +:+ Code_text c +:+ ")"
  end.

(** [helperRunner.run]: the runner podnet and wireguard use. *)
Definition helperRunner : Runner (option Server * W) :=
  mkRunner (λ c sw,
    let '(s, w) := sw in
    let '(s, w, (out, errout, code, err)) :=
      client_run s (mkReq (c_name c) (c_args c) (c_stdin c)) w in
    ((s, w), (out, match err with
                   | Some e => Some (mkCE code errout (client_error_text e))
                   | None => if code =? 0 then None else Some (mkCE code errout "")
                   end))).
End server.
Arguments Server : clear implicits.
Arguments ExecFunc : clear implicits.

(** ** Socket ownership *)

Definition ResolveOwner (uid gid : string) : Z * Z :=
  match Atoi uid, Atoi gid with Some ui, Some gi => (ui, gi) | _, _ => (-1, -1) end.

Inductive OwnerError : Type := EOwnerShape (spec : string) | EOwnerUid (u : string) | EOwnerGid (g : string).

Definition ResolveOwnerSpec (spec : string) : result OwnerError (Z * Z) :=
  if String.eqb spec "" then Ok (-1, -1) else
  match cut_on (ch 58) spec with
  | None => Err (EOwnerShape spec)
  | Some (uid, gid) =>
      match Atoi uid with
      | None => Err (EOwnerUid uid)
      | Some ui =>
          match Atoi gid with
          | None => Err (EOwnerGid gid)
          | Some gi => Ok (ui, gi)
          end
      end
  end.

(** ** What the daemon runs *)

Section confinement.
Context {W : Type}.

(** An executor that also records what it runs, oldest first. *)
Definition logged (exec : ExecFunc W) : ExecFunc (list Request * W) :=
  λ req lw, let '(log, w) := lw in
    let '(w, r) := exec req w in ((log ++ [req], w), r).

(** A policy the operator configured: the one the server started with, or one
    the loader read from the trusted configuration. *)
Definition trusted (s : Server W) (p : Policy) : Prop :=
  s_policy s = Some p ∨ ∃ loader w, s_loader s = Some loader ∧ loader w = Ok p.

Lemma reloadPolicy_spec (s s' : Server W) w r :
  reloadPolicy s w = (s', r) →
  s_exec s' = s_exec s ∧ s_loader s' = s_loader s ∧
  (s' = s ∨ ∃ p, s' = set_policy s p ∧ trusted s p).
Proof.
  unfold reloadPolicy, trusted. intros Hr.
  destruct (s_loader s) as [loader|] eqn:El; [|simplify_eq; by auto].
  destruct (loader w) as [p|e] eqn:Ep; simplify_eq; [|by auto].
  split_and!; [done..|]. right. exists p. split; [done|]. right. by exists loader, w.
Qed.

(** What one connection can do to the daemon and the host. *)
Inductive effect (s : Server W) (w : W) : Server W → W → Prop :=
  | eff_none : effect s w s w
  | eff_policy p : trusted s p → effect s w (set_policy s p) w
  | eff_exec req w' r :
      IsAllowed (Name req) = true →
      (∀ p, s_policy s = Some p → permits p req) →
      s_exec s req w = (w', r) → effect s w s w'.

Lemma handleExec_effect s req w w' resp : handleExec s req w = (w', resp) → effect s w s w'.
Proof.
  unfold handleExec. destruct (IsAllowed (Name req)) eqn:Ha; cbn [negb].
  2:{ intros; simplify_eq. constructor. }
  destruct (s_policy s) as [p|] eqn:Ep.
  - destruct (Validate p req) as [[]|e] eqn:Ev; [|intros; simplify_eq; constructor].
    destruct (s_exec s req w) as [w1 [[[o eo] c] er]] eqn:Ee. intros; simplify_eq.
    eapply eff_exec; [done| |exact Ee]. intros q Hq. simplify_eq. by apply Validate_permits.
  - destruct (s_exec s req w) as [w1 [[[o eo] c] er]] eqn:Ee. intros; simplify_eq.
    eapply eff_exec; [done| |exact Ee]. intros q Hq. congruence.
Qed.

Lemma handle_effect s r w s' w' resp : handle s r w = (s', w', resp) → effect s w s' w'.
Proof.
  unfold handle. intros Hh. destruct r as [r|]; [|simplify_eq; constructor].
  destruct (negb _ && _); [simplify_eq; constructor|].
  destruct (String.eqb _ OpStatus); [simplify_eq; constructor|].
  destruct (String.eqb _ OpReloadPolicy).
  { destruct (reloadPolicy s w) as [s1 r1] eqn:E.
    apply reloadPolicy_spec in E as (_ & _ & [->|(p & -> & Ht)]);
      destruct r1; simplify_eq; by constructor. }
  destruct (String.eqb _ OpExec); [|simplify_eq; constructor].
  destruct (handleExec s _ w) as [w1 resp1] eqn:E. simplify_eq. by eapply handleExec_effect.
Qed.
End confinement.

Lemma serve_log {W} (exec : ExecFunc W) (T : Policy → Prop) rs s log w s' log' w' resps :
  s_exec s = logged exec → is_Some (s_policy s) → (∀ p, trusted s p → T p) →
  serve s rs (log, w) = (s', (log', w'), resps) →
  ∃ ran, log' = log ++ ran ∧
    Forall (λ req, IsAllowed (Name req) = true ∧ ∃ p, T p ∧ permits p req) ran.
Proof.
  revert s log w resps. induction rs as [|r rs IH]; cbn [serve]; intros s log w resps He Hp HT Hs.
  { simplify_eq. exists []. by rewrite app_nil_r. }
  destruct (handle s r (log, w)) as [[s1 [log1 w1]] resp1] eqn:Eh.
  destruct (serve s1 rs (log1, w1)) as [[s2 lw2] resps2] eqn:Er. simplify_eq.
  apply handle_effect in Eh. inversion Eh as [|p Ht|req w1' r1 Ha Hperm Hex]; subst.
  - by eapply IH.
  - eapply IH; [..|exact Er]; [done|by eexists|]. intros q [Hq|Hq]; [|by apply HT; right].
    simplify_eq/=. auto.
  - rewrite He in Hex. cbn in Hex. destruct (exec req w) as [w2 r2]. simplify_eq.
    eapply IH in Er as (ran & -> & Hran); [|done..]. destruct Hp as [p Hp].
    exists (req :: ran). rewrite <- app_assoc. split; [done|]. constructor; [|done].
    split; [done|]. exists p. split; [apply HT; by left|auto].
Qed.

(** C2: Whatever sequence of requests reaches a daemon started with a policy,
    reloads and malformed requests included, every command it executes is on
    the allowlist and is permitted by a policy the operator configured. *)
Theorem helper_confined {W} (exec : ExecFunc W) s rs w s' log w' resps :
  s_exec s = logged exec → is_Some (s_policy s) →
  serve s rs ([], w) = (s', (log, w'), resps) →
  Forall (λ req, Name req ∈ allowedCommands ∧ ∃ p, trusted s p ∧ permits p req) log.
Proof.
  intros He Hp Hs. eapply (serve_log exec (trusted s)) in Hs as (ran & -> & Hr); [|done..].
  eapply Forall_impl; [exact Hr|]. cbn. intros req [Ha Hx]. split; [|done].
  unfold IsAllowed in Ha. by bools.
Qed.

Definition null_exec : ExecFunc unit := λ _ w, (w, ("", "", 0, None)).

Definition demo_server : Server (list Request * unit) :=
  NewServerWithPolicy (logged null_exec) demo_policy.

Definition demo_requests : list (option WireRequest) :=
  [ Some (mkWire 1 "" (mkReq "pfctl" ["-e"] ""));
    Some (mkWire 1 "" (mkReq "rm" ["-rf"; "/"] ""));
    Some (mkWire 1 "" (mkReq "pfctl" ["-a"; "com.apple"; "-F"; "all"] ""));
    None;
    Some (mkWire 0 "" (mkReq "route" ["-q"; "-n"; "add"; "-inet"; "10.244.2.0/24"; "-interface"; "utun7"] "")) ].

Definition demo_served := serve demo_server demo_requests ([], tt).

Lemma helper_confined_witness :
  (demo_served.1.2).1 =
    [ mkReq "pfctl" ["-e"] "";
      mkReq "route" ["-q"; "-n"; "add"; "-inet"; "10.244.2.0/24"; "-interface"; "utun7"] "" ] ∧
  Forall (λ req, Name req ∈ allowedCommands ∧ ∃ p, trusted demo_server p ∧ permits p req)
    (demo_served.1.2).1.
Proof.
  split; [by vm_compute|].
  apply (helper_confined null_exec demo_server demo_requests tt (demo_served.1.1)
    _ (demo_served.1.2).2 demo_served.2); [done|by eexists|].
  unfold demo_served. by destruct (serve _ _ _) as [[? []] ?].
Defined.

(** A refused request has no effect: when the reply carries any code but
    [CodeExecError], no command ran and the policy in force is unchanged. *)
Theorem refusal_has_no_effect {W} (s : Server W) r w s' w' resp code msg :
  handle s r w = (s', w', resp) → r_err resp = Some (code, msg) → code ≠ CodeExecError →
  s' = s ∧ w' = w ∧ r_exit resp = -1.
Proof.
  unfold handle, handleExec. intros Hh He Hc.
  destruct r as [r|]; [|by simplify_eq/=].
  destruct (negb _ && _); [by simplify_eq|].
  destruct (String.eqb _ OpStatus); [by simplify_eq|].
  destruct (String.eqb _ OpReloadPolicy).
  { unfold reloadPolicy in Hh. repeat case_match; by simplify_eq/=. }
  destruct (String.eqb _ OpExec); [|by simplify_eq/=].
  destruct (negb _); [by simplify_eq|].
  destruct (match s_policy s with Some _ => _ | None => _ end); [|by simplify_eq/=].
  destruct (s_exec s _ w) as [w1 [[[o eo] c] [e|]]]; by simplify_eq/=.
Qed.

Lemma refusal_has_no_effect_witness :
  (handle demo_server (Some (mkWire 2 "" (mkReq "pfctl" ["-e"] ""))) ([], tt)).1.2 = ([], tt).
Proof.
  refine (proj1 (proj2 (refusal_has_no_effect demo_server
    (Some (mkWire 2 "" (mkReq "pfctl" ["-e"] ""))) ([], tt) demo_server _ _
    CodeUnsupportedProtocol "unsupported protocol 2 (helper speaks 1)" _ _ _))); done.
Defined.

(** The uid:gid pair written into the launchd job is read back unchanged,
    for every pair of machine integers. *)
Theorem owner_spec_roundtrip u g :
  in_int64 u = true → in_int64 g = true →
  ResolveOwnerSpec (Itoa u +:+ ":" +:+ Itoa g) = Ok (u, g).
Proof.
  intros Hu Hg. unfold ResolveOwnerSpec.
  destruct (String.eqb _ "") eqn:E; bools; [by apply sapp_eq_nil in E as [_ E]|].
  change (":" +:+ Itoa g) with (String (ch 58) (Itoa g)).
  rewrite cut_on_app by (by apply Itoa_no_char). by rewrite !Atoi_Itoa.
Qed.

Lemma owner_spec_roundtrip_witness : ResolveOwnerSpec (Itoa 501 +:+ ":" +:+ Itoa 20) = Ok (501, 20).
Proof. by apply owner_spec_roundtrip. Defined.
