(* ===== verification/PodNetPolicy.v ===== *)
(** * The Pod network path through the privileged helper

    The router of [PodNet] issues its commands through the [helperRunner] of
    [PrivHelper], whose daemon checks them against a [PrivPolicy.Policy].  This
    file shows that the two fit: the daemon is a packet-filter host as the
    router requires one, and every command a router within its node's
    configuration issues is accepted. *)

From S2P Require Import Prelude GoStrings GoJson GoMarshal GoNet Host PodNet PrivPolicy PrivHelper.

Open Scope Z_scope.

(** ** Rendered text as lines and words *)

Lemma no_newline_lines l :
  Forall (λ s, no_char newline s = true) l → split_on newline (lines_text l) = l ++ [""].
Proof.
  induction l as [|s l IH]; [done|]. intros [Hs Hl]%Forall_cons.
  change (lines_text (s :: l)) with ((s +:+ nl) +:+ lines_text l). rewrite sapp_assoc.
  change (nl +:+ lines_text l) with (String newline (lines_text l)).
  by rewrite split_on_app, IH.
Qed.

Lemma trim_right_head a s : graph_char a = true → HasPrefix (trim_right (String a s)) (String a "") = true.
Proof.
  intros Ha. cbn [trim_right]. rewrite drop_spaces_graph by done. cbn [String.eqb].
  apply HasPrefix_spec. by eexists.
Qed.

Lemma comment_line t : HasPrefix (TrimSpace ("#" +:+ t)) "#" = true.
Proof.
  unfold TrimSpace. change ("#" +:+ t) with (String "#" t).
  rewrite drop_spaces_graph by done. by apply trim_right_head.
Qed.

Lemma Join_cons t u l : Join (t :: u :: l) " " = t +:+ String " " (Join (u :: l) " ").
Proof. done. Qed.

Lemma words_snoc l w :
  Forall (λ t, is_word t = true) (l ++ [w]) → ∃ r, Join (l ++ [w]) " " = r +:+ w.
Proof.
  induction l as [|t l IH]; [by exists ""|]. intros [Ht Hl]%Forall_cons.
  destruct (IH Hl) as [r Hr]. exists (t +:+ String " " r).
  destruct l as [|u l]; cbn [app] in *; rewrite Join_cons, Hr, sapp_assoc; done.
Qed.

(** A line that is a list of words joined by single spaces is read back as
    that list. *)
Lemma words_line l : l ≠ [] → Forall (λ t, is_word t = true) l →
  TrimSpace (Join l " ") = Join l " " ∧ Fields (TrimSpace (Join l " ")) = l.
Proof.
  intros Hne Hl. assert (TrimSpace (Join l " ") = Join l " ") as Ht; [|by rewrite Ht, Fields_Join].
  apply TrimSpace_edged. destruct l as [|t l]; [done|].
  apply Forall_cons in Hl as Hl'. destruct Hl' as [[Hg Hn]%is_word_spec _].
  destruct t as [|a t]; [done|]. rewrite graphic_cons in Hg. apply andb_true_iff in Hg as [Ha Hg].
  destruct l as [|w l _] using rev_ind.
  - cbn [Join]. destruct (decide (t = "")) as [->|Hne'].
    + exists a, a, "". auto.
    + rewrite <- (sapp_nil_l t). by apply edged_words.
  - destruct (words_snoc (String a t :: l) w Hl) as [r Hr]. cbn [app] in Hr. rewrite Hr.
    apply Forall_cons in Hl as [_ Hlw].
    assert (graphic w = true ∧ w ≠ "") as [Hw Hwn].
    { apply Forall_app in Hlw as [_ [Hw _]%Forall_cons]. by apply is_word_spec. }
    destruct r as [|b r].
    + exfalso. rewrite sapp_nil_l in Hr. apply (f_equal String.length) in Hr.
      destruct (l ++ [w]) as [|u l'] eqn:E; [by destruct l|].
      destruct (words_snoc l w) as [r' Hr'].
      { by rewrite E. }
      rewrite E in Hr'. rewrite Join_cons, Hr' in Hr. rewrite !slength_app in Hr. simpl in Hr.
      rewrite slength_app in Hr. lia.
    + assert (b = a) as ->.
      { destruct (l ++ [w]) as [|u l'] eqn:E; [by destruct l|].
        rewrite Join_cons, !sapp_cons in Hr. by injection Hr. }
      rewrite sapp_cons. by apply edged_words.
Qed.

Lemma words_no_newline l : Forall (λ t, is_word t = true) l → no_char newline (Join l " ") = true.
Proof.
  induction l as [|t l IH]; [done|]. intros [[Ht _]%is_word_spec Hl]%Forall_cons.
  destruct l as [|u l]; [by apply graphic_no_char|].
  rewrite Join_cons, no_char_app, no_char_cons, IH by done.
  by rewrite graphic_no_char.
Qed.

Lemma Join_app l k : l ≠ [] → k ≠ [] → Join (l ++ k) " " = Join l " " +:+ String " " (Join k " ").
Proof.
  intros Hl Hk. induction l as [|t l IH]; [done|]. destruct l as [|u l].
  - destruct k; done.
  - cbn [app] in *. by rewrite !Join_cons, IH, sapp_assoc by done.
Qed.

(** The words of a redirect pool [{ a, b, c }]. *)
Fixpoint pool_words (l : list string) : list string :=
  match l with
  | [] => []
  | [t] => [t]
  | t :: l' => (t +:+ ",") :: pool_words l'
  end.

Lemma pool_words_ne l : l ≠ [] → pool_words l ≠ [].
Proof. by destruct l as [|t []]. Qed.

Lemma pool_words_Join l : Join (pool_words l) " " = Join l ", ".
Proof.
  induction l as [|t l IH]; [done|]. destruct l as [|u l]; [done|].
  change (Join (t :: u :: l) ", ") with (t +:+ ", " +:+ Join (u :: l) ", ").
  change (pool_words (t :: u :: l)) with ((t +:+ ",") :: pool_words (u :: l)).
  rewrite <- IH.
  destruct (pool_words (u :: l)) as [|w ws] eqn:E; [by apply pool_words_ne in E|].
  rewrite Join_cons, sapp_assoc. done.
Qed.

Lemma HasSuffix_no_char c s : no_char c s = true → HasSuffix s (String c "") = false.
Proof.
  intros Hs. destruct (HasSuffix s (String c "")) eqn:E; [|done]. unfold HasSuffix in E.
  apply andb_true_iff in E as [_ E]. apply String.eqb_eq in E. exfalso. revert E.
  generalize (String.length s - String.length (String c ""))%nat as n. induction s as [|a s IH].
  - intros n. by destruct n.
  - rewrite no_char_cons in Hs. apply andb_true_iff in Hs as [Ha%negb_true_iff Hs].
    intros [|n]; cbn [drop]; [|by apply IH]. intros [= -> _]. by rewrite Ascii.eqb_refl in Ha.
Qed.

Lemma addr_comma t : is_addr t → TrimSuffix t "," = t ∧ TrimSuffix (t +:+ ",") "," = t.
Proof.
  intros [ip Hip]. split; [|apply TrimSuffix_app]. unfold TrimSuffix.
  rewrite HasSuffix_no_char; [done|]. by eapply ParseIP_no_char.
Qed.

Lemma pool_words_targets l :
  Forall is_addr l →
  Forall (λ f, is_addr (TrimSuffix f ",")) (pool_words l) ∧
  (λ f, TrimSuffix f ",") <$> pool_words l = l.
Proof.
  induction l as [|t l IH]; [by split|]. intros [Ht Hl]%Forall_cons.
  destruct (addr_comma t Ht) as [H1 H2]. destruct (IH Hl) as [IH1 IH2].
  destruct l as [|u l].
  - cbn. rewrite H1. by split; [apply Forall_singleton; rewrite H1|].
  - change (pool_words (t :: u :: l)) with ((t +:+ ",") :: pool_words (u :: l)).
    rewrite Forall_cons, fmap_cons, H2, IH2. done.
Qed.

Lemma is_word_app s t : is_word s = true → graphic t = true → is_word (s +:+ t) = true.
Proof.
  rewrite !is_word_spec. intros [Hs Hn] Ht. rewrite graphic_app, Hs, Ht. split; [done|].
  intros [? ?]%sapp_eq_nil. done.
Qed.

Lemma is_addr_word t : is_addr t → is_word t = true.
Proof. intros [ip Hip]. by eapply ParseIP_word. Qed.

Lemma pool_words_word l : Forall is_addr l → Forall (λ t, is_word t = true) (pool_words l).
Proof.
  induction l as [|t l IH]; [done|]. intros [Ht%is_addr_word Hl]%Forall_cons.
  destruct l as [|u l]; [by apply Forall_singleton|].
  change (pool_words (t :: u :: l)) with ((t +:+ ",") :: pool_words (u :: l)).
  constructor; [by apply is_word_app|auto].
Qed.

Lemma isBridge_word i : isBridgeInterface i = true → is_word i = true.
Proof.
  unfold isBridgeInterface. rewrite !andb_true_iff. intros [[Hp _] Hd].
  apply HasPrefix_spec in Hp as [t ->]. change 6%nat with (String.length "bridge") in Hd.
  rewrite drop_app in Hd. apply is_word_app; [done|]. revert Hd. apply s_forall_impl.
  intros a. unfold decimal_char, graph_char. rewrite !andb_true_iff, !N.leb_le. lia.
Qed.

Lemma ipInSet_addr ip s : ipInSet ip s = true → is_addr ip.
Proof. unfold ipInSet, is_addr. destruct (ParseIP ip); [by eexists|done]. Qed.

(** ** The router stays within the policy *)

(** A router configured for the node the policy was derived from, with its
    Pods and Services inside the node's ranges. *)
Record in_scope (p : Policy) (rt : Router) : Prop := {
  sc_anchor : cfg_Anchor (cfg rt) = Anchor p;
  sc_anchor_ne : Anchor p ≠ "";
  sc_vmnet : cfg_Interface (cfg rt) = VMNetInterface p;
  sc_vmnet_word : is_word (VMNetInterface p) = true;
  sc_mesh : cfg_MeshInterface (cfg rt) = "" ∨
    (cfg_MeshInterface (cfg rt) = MeshInterface p ∧ is_word (MeshInterface p) = true);
  sc_endpoints : map_Forall (λ k ep, no_char newline k = true ∧
    ipInSet (VMIP ep) (VMNetCIDRs p) = true ∧ ipInSet (PodIP ep) (PodCIDRs p) = true ∧
    (Interface ep = VMNetInterface p ∨ isBridgeInterface (Interface ep) = true)) (endpoints rt);
  sc_services : map_Forall (λ _, Forall (λ r, no_char newline (ServiceKey r) = true ∧
    Forall (λ b, ipInSet b (PodCIDRs p) = true ∨ ipInSet b (VMNetCIDRs p) = true) (Backends r)))
    (services rt);
}.

Definition good_line (p : Policy) (l : string) : Prop :=
  no_char newline l = true ∧ pf_line p l.

Lemma good_comment p t : no_char newline t = true → good_line p ("# " +:+ t).
Proof.
  intros Ht. split; [by rewrite no_char_app, Ht|]. right; left. apply (comment_line (" " +:+ t)).
Qed.

Lemma good_rule p l : l ≠ [] → Forall (λ t, is_word t = true) l → pf_rule p l → good_line p (Join l " ").
Proof.
  intros Hne Hl Hr. split; [by apply words_no_newline|]. right; right.
  by destruct (words_line l Hne Hl) as [_ ->].
Qed.

Lemma good_binat p i ep :
  vmnet_iface p i ∨ mesh_iface p i → is_word i = true →
  ipInSet (VMIP ep) (VMNetCIDRs p) = true → ipInSet (PodIP ep) (PodCIDRs p) = true →
  good_line p (binat_line i ep).
Proof.
  intros Hi Hw Hv Hp.
  apply (good_rule p (["binat"; "on"; i] ++ [] ++ ["from"; VMIP ep; "to"; "any"; "->"; PodIP ep])).
  - done.
  - repeat (apply Forall_cons; split); try done; by eapply is_addr_word, ipInSet_addr.
  - constructor; auto.
Qed.

Lemma rdr_head i proto cip port k : k ≠ [] →
  Join (["rdr"; "on"; i; "inet"; "proto"; proto; "from"; "any"; "to"; cip; "port"; port; "->"] ++ k) " " =
  "rdr on " +:+ i +:+ " inet proto " +:+ proto +:+ " from any to " +:+ cip +:+ " port " +:+ port +:+
  " -> " +:+ Join k " ".
Proof. by destruct k. Qed.

Lemma good_rdr p i r targets :
  vmnet_iface p i → is_word i = true → ServiceRule_validate r = Ok tt → targets ≠ [] →
  Forall (λ t, ipInSet t (PodCIDRs p) = true ∨ ipInSet t (VMNetCIDRs p) = true) targets →
  good_line p (rdr_line i r targets).
Proof.
  intros Hi Hw Hv Hne Ht. unfold ServiceRule_validate in Hv. rewrite !seq_Ok in Hv. lint in Hv.
  destruct Hv as (_ & Hc & Hproto & Hport & Htport & _).
  assert (is_addr (ClusterIP r)) as Hcip.
  { unfold is_ip in Hc. unfold is_addr. destruct (ParseIP (ClusterIP r)); [by eexists|done]. }
  assert (∀ n, 1 ≤ n ≤ 65535 → is_Some (Atoi (Itoa n))) as Ha.
  { intros n Hn. rewrite Atoi_Itoa; [by eexists|]. unfold in_int64.
    apply andb_true_iff. rewrite Z.leb_le, Z.ltb_lt. lia. }
  assert (Forall is_addr targets) as Hta.
  { eapply Forall_impl; [exact Ht|]. intros t [?|?]; by eapply ipInSet_addr. }
  assert (is_word (PodNet.Protocol r) = true) as Hpw by (by destruct Hproto as [->| ->]).
  pose proof (is_addr_word _ Hcip) as Hcw.
  assert (∀ tokens rr, target_tokens tokens targets → Forall (λ t, is_word t = true) tokens →
    rr = [] ∨ rr = ["round-robin"] →
    good_line p (Join (["rdr"; "on"; i; "inet"; "proto"; PodNet.Protocol r; "from"; "any"; "to";
      ClusterIP r; "port"; Itoa (Port r); "->"] ++ tokens ++ ["port"; Itoa (TargetPort r)] ++ rr) " "))
    as Hgood.
  { intros tokens rr Htok Hwords Hrr. apply good_rule; [done| |by econstructor; eauto].
    repeat (apply Forall_cons; split); try done; try apply is_word_Itoa.
    apply Forall_app. split; [done|].
    repeat (apply Forall_cons; split); try done; try apply is_word_Itoa.
    destruct Hrr as [->| ->]; [done|by apply Forall_singleton]. }
  destruct targets as [|t [|u l]]; [done| |].
  - apply Forall_cons in Hta as [Hta _].
    apply (Hgood [t] []); [|by constructor; [apply is_addr_word|]|auto].
    constructor; [|done]. intros ->. destruct Hta as [ip Hip].
    by vm_compute in Hip.
  - set (ts := t :: u :: l) in *.
    assert (rdr_line i r ts = Join (["rdr"; "on"; i; "inet"; "proto"; PodNet.Protocol r; "from"; "any"; "to";
      ClusterIP r; "port"; Itoa (Port r); "->"] ++ ("{" :: pool_words ts ++ ["}"]) ++
      ["port"; Itoa (TargetPort r)] ++ ["round-robin"]) " ") as ->.
    + assert (∀ k, k ≠ [] → Join (("{" :: pool_words ts ++ ["}"]) ++ k) " " =
        "{ " +:+ Join ts ", " +:+ " } " +:+ Join k " ") as Hpool.
      { intros k Hk. rewrite Join_app by done.
        change ("{" :: pool_words ts ++ ["}"]) with (["{"] ++ (pool_words ts ++ ["}"])).
        rewrite Join_app by (by destruct (pool_words ts)).
        rewrite Join_app by (by try apply pool_words_ne).
        rewrite pool_words_Join. cbn [Join]. repeat rewrite ?sapp_assoc, ?sapp_cons, ?sapp_nil_l. done. }
      rewrite rdr_head, Hpool by done. done.
    + destruct (pool_words_targets ts Hta) as [H1 H2]. apply Hgood.
      * rewrite <- H2 at 2. by constructor.
      * constructor; [done|]. apply Forall_app. split; [by apply pool_words_word|by apply Forall_singleton].
      * by right.
Qed.

Section scope.
Context `{MapRange} (p : Policy) (rt : Router).
Context (Hi : router_inv rt) (Hs : in_scope p rt).

Lemma scope_vmnet_ne : VMNetInterface p ≠ "".
Proof. by apply is_word_spec, (sc_vmnet_word _ _ Hs). Qed.

Lemma scope_iface i :
  i = VMNetInterface p ∨ isBridgeInterface i = true → vmnet_iface p i ∧ is_word i = true.
Proof.
  intros Hx. split; [split; [apply scope_vmnet_ne|done]|].
  destruct Hx as [->|Hb]; [apply (sc_vmnet_word _ _ Hs)|by apply isBridge_word].
Qed.

Lemma scope_endpoint_lines k ep :
  endpoints rt !! k = Some ep →
  Forall (good_line p) (endpoint_lines (cfg_Interface (cfg rt)) (cfg_MeshInterface (cfg rt)) ep).
Proof.
  intros Hk. destruct (sc_endpoints _ _ Hs _ _ Hk) as (Hn & Hv & Hp & Hif).
  pose proof (ep_key _ _ (inv_endpoints _ Hi _ _ Hk)) as Ek.
  constructor; [apply good_comment; by rewrite Ek|]. apply Forall_fmap, Forall_forall.
  intros i Hin. apply elem_of_binat_ifaces in Hin; [|by eapply inv_ep_iface].
  destruct (scope_iface _ Hif) as [Hvm Hw].
  destruct Hin as [->|[-> Hne]]; [by apply good_binat; auto|].
  destruct (sc_mesh _ _ Hs) as [?|[Em Hm]]; [done|]. rewrite Em in *.
  apply good_binat; [by right|done..].
Qed.

Lemma scope_targets r :
  Forall (λ b, ipInSet b (PodCIDRs p) = true ∨ ipInSet b (VMNetCIDRs p) = true) (Backends r) →
  Forall (λ t, ipInSet t (PodCIDRs p) = true ∨ ipInSet t (VMNetCIDRs p) = true)
    (sort_strings (resolve_backend (vmipByPodIP rt) <$> Backends r)).
Proof.
  intros Hb. apply Forall_sort_strings, Forall_fmap. eapply Forall_impl; [exact Hb|].
  intros b Hin. cbn. unfold resolve_backend.
  destruct (vmipByPodIP rt !! b) as [v|] eqn:E; [|done].
  apply podip_map_Some in E as (ep & [k Hk]%elem_of_range_snd & _ & <-).
  right. by destruct (sc_endpoints _ _ Hs _ _ Hk) as (_ & ? & _).
Qed.

Lemma scope_rule_lines k rules r :
  services rt !! k = Some rules → r ∈ rules →
  Forall (good_line p) (rule_lines (vmnetInterfaces rt) (vmipByPodIP rt) r).
Proof.
  intros Hk Hr. destruct (inv_services _ Hi _ _ Hk) as (_ & _ & Hok).
  pose proof (sc_services _ _ Hs _ _ Hk) as Hsc. rewrite Forall_forall in Hok, Hsc.
  destruct (Hok _ Hr) as [Hv Hne]. destruct (Hsc _ Hr) as [Hn Hb].
  unfold rule_lines. constructor.
  - apply good_comment. rewrite !no_char_app, Hn, !Itoa_no_char by done.
    unfold ServiceRule_validate in Hv. rewrite !seq_Ok in Hv. lint in Hv. destruct Hv as (_ & Hc & _).
    unfold is_ip in Hc. destruct (ParseIP (ClusterIP r)) eqn:E; [|done].
    by rewrite (ParseIP_no_char newline _ _ E).
  - apply Forall_fmap, Forall_forall. intros i Hin. cbn.
    apply elem_of_vmnetInterfaces in Hin as [Hine Hin].
    assert (i = VMNetInterface p ∨ isBridgeInterface i = true) as Hif.
    { destruct Hin as [->|(q & ep & Hq & <-)]; [left; apply (sc_vmnet _ _ Hs)|].
      by destruct (sc_endpoints _ _ Hs _ _ Hq) as (_ & _ & _ & ?). }
    destruct (scope_iface _ Hif). apply good_rdr; try done; [|by apply scope_targets].
    intros Hnil. apply Hne. apply (f_equal length) in Hnil.
    rewrite sort_strings_perm, length_fmap in Hnil. by destruct (Backends r).
Qed.

Lemma scope_ruleset : Forall (good_line p) (ruleset_lines rt).
Proof.
  unfold ruleset_lines, renderAnchor. apply Forall_app. split; [constructor|].
  - by apply (good_comment p "Managed by macvz (issue #22). Do not edit by hand.").
  - apply Forall_bind, Forall_forall. intros ep [k Hk]%elem_of_endpointsSorted.
    by eapply scope_endpoint_lines.
  - apply Forall_forall. intros l Hl. apply elem_of_renderServiceRules in Hl.
    2:{ rewrite (sc_vmnet _ _ Hs). apply scope_vmnet_ne. }
    destruct Hl as (k & rules & r & Hk & Hr & Hl).
    pose proof (scope_rule_lines _ _ _ Hk Hr) as Hf. rewrite Forall_forall in Hf. auto.
Qed.

Lemma scope_load :
  permits p (mkReq "pfctl" ["-a"; cfg_Anchor (cfg rt); "-f"; "-"] (ruleset rt)).
Proof.
  rewrite (sc_anchor _ _ Hs). constructor; [apply (sc_anchor_ne _ _ Hs)|apply scope_vmnet_ne|].
  unfold ruleset. pose proof scope_ruleset as Hr. rewrite no_newline_lines.
  - apply Forall_app. split; [by eapply Forall_impl; [exact Hr|intros ? []]|].
    apply Forall_singleton. by left.
  - eapply Forall_impl; [exact Hr|]. by intros ? [].
Qed.
End scope.

(** Attaching an endpoint of the node's ranges keeps the router in scope. *)
Lemma in_scope_insert p rt ep :
  in_scope p rt → no_char newline (PodKey ep) = true →
  ipInSet (VMIP ep) (VMNetCIDRs p) = true → ipInSet (PodIP ep) (PodCIDRs p) = true →
  (Interface ep = VMNetInterface p ∨ isBridgeInterface (Interface ep) = true) →
  in_scope p (set_endpoints rt (<[PodKey ep := ep]> (endpoints rt))).
Proof. intros [] ????. split; try done. by apply map_Forall_insert_2. Qed.

Lemma in_scope_delete p rt k :
  in_scope p rt → in_scope p (set_endpoints rt (delete k (endpoints rt))).
Proof. intros []. split; try done. by apply map_Forall_delete. Qed.

(** ** The daemon as the router's host *)

(** What the daemon's executor must do for [pfctl]: the same two facts as
    [PfHost], stated of exit codes. *)
Class PfExec {W} (exec : ExecFunc W) := {
  pf_anchors : W → gmap string string;
  exec_load_ok : ∀ a text w w' out errout,
    exec (mkReq "pfctl" ["-a"; a; "-f"; "-"] text) w = (w', (out, errout, 0, None)) →
    pf_anchors w' = <[a := text]> (pf_anchors w);
  exec_load_failed : ∀ a text w w' out errout code err,
    exec (mkReq "pfctl" ["-a"; a; "-f"; "-"] text) w = (w', (out, errout, code, err)) →
    code ≠ 0 ∨ err ≠ None → pf_anchors w' = pf_anchors w;
  exec_other : ∀ req w,
    match Args req with a :: _ => a ≠ "-a" | [] => True end →
    pf_anchors (exec req w).1 = pf_anchors w;
}.

(** A command that reaches the daemon as it is: valid UTF-8 and within the limit. *)
Definition wire_of (c : Command) : WireRequest := mkWire Protocol OpExec (mkReq (c_name c) (c_args c) (c_stdin c)).
Definition carried (c : Command) : Prop := decoded (wire_of c) = Some (wire_of c).

Definition within_limit (c : Command) : bool := Z.of_nat (String.length (request_text (wire_of c))) <=? maxRequestBytes.

Lemma carried_spec c :
  carried c ↔ within_limit c = true ∧ to_valid (c_name c) = c_name c ∧ to_valid <$> c_args c = c_args c ∧ to_valid (c_stdin c) = c_stdin c.
Proof.
  unfold carried, decoded, within_limit. rewrite Z.leb_le. generalize (Z.of_nat (String.length (request_text (wire_of c)))). intros n.
  destruct (Z.ltb_spec maxRequestBytes n) as [Hl|Hl]; [split; [done|intros [? _]; lia]|]. destruct c as [nm a i]. unfold wire_of.
  cbn [w_protocol w_op w_cmd c_name c_args c_stdin Name Args Stdin]. split.
  - intros [= -> -> ->]. done.
  - intros (_ & -> & -> & ->). done.
Qed.

(** ASCII commands within the limit are. *)
Definition ascii_command (c : Command) : bool := ascii_text (c_name c) && forallb ascii_text (c_args c) && ascii_text (c_stdin c).

Lemma ascii_carried c : ascii_command c = true → within_limit c = true → carried c.
Proof.
  intros [[Hn Ha]%andb_true_iff Hi]%andb_true_iff Hl. apply carried_spec. split_and!; [done|by apply to_valid_id, ascii_valid| |by apply to_valid_id, ascii_valid].
  induction (c_args c) as [|a l IH]; [done|]. cbn in *. apply andb_true_iff in Ha as [Ha Hl']. rewrite IH by done. f_equal.
  by apply to_valid_id, ascii_valid.
Qed.

Lemma all_carried cs : forallb (λ c, ascii_command c && within_limit c) cs = true → Forall carried cs.
Proof.
  rewrite forallb_forall, Forall_forall. intros Hb c Hc%list_elem_of_In. specialize (Hb c Hc). apply andb_true_iff in Hb as [??].
  by apply ascii_carried.
Qed.

Section daemon.
Context {W : Type} `{!Link W}.

(** What the runner makes of a reply. *)
Definition answer (resp : Response) : string * option CommandError :=
  (r_stdout resp,
   match r_err resp with
   | Some (code, m) => Some (mkCE (r_exit resp) (r_stderr resp) (client_error_text (EAPI (Some code) m)))
   | None => if r_exit resp =? 0 then None else Some (mkCE (r_exit resp) (r_stderr resp) "")
   end).

Lemma helperRunner_run c (s : Server W) (w : W) :
  run helperRunner c (Some s, w) =
  let '(w', resp) := match decoded (wire_of c) with
                     | Some r => handleExec s (w_cmd r) w
                     | None => (w, writeError CodeMalformed "decode request")
                     end in
  match delivery (wire_of c) w with
  | Delivered => ((Some s, w'), answer (received resp))
  | Undelivered m => ((Some s, w), ("", Some (mkCE (-1) "" m)))
  | ReplyLost m => ((Some s, w'), ("", Some (mkCE (-1) "" m)))
  end.
Proof.
  cbn. unfold client_run, roundTrip. fold (wire_of c).
  assert (handle s (decoded (wire_of c)) w =
    let '(w', resp) := match decoded (wire_of c) with
                       | Some r => handleExec s (w_cmd r) w
                       | None => (w, writeError CodeMalformed "decode request")
                       end in (s, w', resp)) as ->.
  { unfold decoded. destruct (_ <? _); [done|]. unfold handle. cbn -[handleExec]. by destruct (handleExec _ _ _). }
  destruct (match decoded (wire_of c) with Some _ => _ | None => _ end) as [w' resp].
  destruct (delivery (wire_of c) w); cbn; [|done..]. unfold answer. cbn. by destruct (r_err resp) as [[]|].
Qed.

(** A command carried both ways. *)
Lemma helperRunner_carried c (s : Server W) (w : W) :
  delivery (wire_of c) w = Delivered → carried c →
  run helperRunner c (Some s, w) =
  let '(w', resp) := handleExec s (mkReq (c_name c) (c_args c) (c_stdin c)) w in ((Some s, w'), answer (received resp)).
Proof. intros Hd Hc. rewrite helperRunner_run, Hc, Hd. done. Qed.
End daemon.

(** The runner the kubelet uses: it talks to one daemon [s], fixed for the
    history (a reload only replaces the policy, see [PrivHelper]). *)
Definition via_daemon {W} `{!Link W} (s : Server W) : Runner W :=
  mkRunner (λ c w, let '(sw, r) := run helperRunner c (Some s, w) in (sw.2, r)).

(** Commands that are not for pf leave the filter alone, over any connection; one that
    loads an anchor and is carried does what [PfHost] asks for. *)
Section daemon_host.
Context {W : Type} `{!Link W} (s : Server W) `{!PfExec (s_exec s)}.

Lemma via_daemon_load_ok a text w w' out :
  carried (mkCmd "pfctl" ["-a"; a; "-f"; "-"] text) →
  run (via_daemon s) (mkCmd "pfctl" ["-a"; a; "-f"; "-"] text) w = (w', (out, None)) →
  pf_anchors w' = <[a := text]> (pf_anchors w).
Proof.
  intros Hc Hr. cbn [run via_daemon] in Hr. rewrite helperRunner_run, Hc in Hr. cbn [w_cmd wire_of c_name c_args c_stdin] in Hr. unfold handleExec in Hr.
  destruct (delivery _ w); [|repeat case_match; by simplify_eq/=..].
  destruct (negb _); [by simplify_eq/=|].
  destruct (match s_policy s with Some _ => _ | None => _ end); [|by simplify_eq/=].
  destruct (s_exec s _ w) as [w1 [[[o eo] c] [e|]]] eqn:Ex; [by simplify_eq/=|].
  unfold answer in Hr. cbn in Hr. destruct (c =? 0) eqn:Ec; simplify_eq/=. bools. subst c. by eapply exec_load_ok.
Qed.

Lemma via_daemon_load_failed a text w w' out ce :
  carried (mkCmd "pfctl" ["-a"; a; "-f"; "-"] text) → delivery (wire_of (mkCmd "pfctl" ["-a"; a; "-f"; "-"] text)) w = Delivered →
  run (via_daemon s) (mkCmd "pfctl" ["-a"; a; "-f"; "-"] text) w = (w', (out, Some ce)) →
  pf_anchors w' = pf_anchors w.
Proof.
  intros Hc Hd Hr. cbn [run via_daemon] in Hr. rewrite helperRunner_carried in Hr by done. unfold handleExec in Hr. cbn [c_name c_args c_stdin] in Hr.
  destruct (negb _); [by simplify_eq/=|].
  destruct (match s_policy s with Some _ => _ | None => _ end); [|by simplify_eq/=].
  destruct (s_exec s _ w) as [w1 [[[o eo] c] er]] eqn:Ex. unfold answer in Hr. cbn in Hr.
  assert (c ≠ 0 ∨ er ≠ None) as Hx.
  { destruct er; [by right|]. left. intros ->. by simplify_eq/=. }
  assert (w' = w1) as -> by (by destruct er; simplify_eq/=). by eapply exec_load_failed.
Qed.

Lemma via_daemon_other c w :
  anchor_cmd c = false → pf_anchors (run (via_daemon s) c w).1 = pf_anchors w.
Proof.
  intros Hc. cbn [run via_daemon]. rewrite helperRunner_run.
  assert (pf_anchors (match decoded (wire_of c) with
                     | Some r => handleExec s (w_cmd r) w
                     | None => (w, writeError CodeMalformed "decode request")
                     end).1 = pf_anchors w) as Hx.
  { unfold decoded. destruct (_ <? _); [done|]. cbn [w_cmd wire_of]. unfold handleExec.
    destruct (negb _); [done|]. destruct (match s_policy s with Some _ => _ | None => _ end); [|done].
    match goal with |- context [s_exec s ?r w] => pose proof (exec_other r w) as Ho; destruct (s_exec s r w) as [w1 [[[o eo] cd] er]] end.
    apply Ho. cbn. unfold anchor_cmd in Hc. destruct (c_args c) as [|x l]; [done|]. cbn. apply String.eqb_neq in Hc.
    intros E. apply Hc. rewrite <- E. symmetry. apply to_valid_ascii. by rewrite E. }
  destruct (match decoded (wire_of c) with Some _ => _ | None => _ end) as [w' resp]. destruct (delivery _ w); done.
Qed.
End daemon_host.

(** ** End to end *)

Section accepted.
Context `{MapRange} {W : Type} `{!Link W} (s : Server W) (p : Policy).
Context (Hp : s_policy s = Some p).
(** Every exchange goes through. *)
Context (Hd : ∀ r w, delivery r w = Delivered).
(** Every command that gets past the daemon's checks succeeds on the host. *)
Context (Hx : ∀ req w, ∃ w' out, s_exec s req w = (w', (out, "", 0, None))).

Lemma via_daemon_permitted name args stdin w :
  name ∈ allowedCommands → permits p (mkReq name args stdin) → carried (mkCmd name args stdin) →
  ∃ out, run (via_daemon s) (mkCmd name args stdin) w = ((s_exec s (mkReq name args stdin) w).1, (out, None)).
Proof.
  intros Ha Hperm Hc. destruct (Hx (mkReq name args stdin) w) as (w' & out & He). exists (to_valid out).
  cbn [run via_daemon]. rewrite helperRunner_carried by done. unfold handleExec, IsAllowed.
  cbn [c_name c_args c_stdin Name]. rewrite bool_decide_true by done. cbn [negb].
  rewrite Hp. apply permits_Validate in Hperm as ->. by rewrite He.
Qed.

Lemma tolerating_permitted name args stdin benign w :
  name ∈ allowedCommands → permits p (mkReq name args stdin) → carried (mkCmd name args stdin) →
  ∃ w' out, runTolerating (via_daemon s) (mkCmd name args stdin) benign w = (w', (out, None)).
Proof.
  intros Ha Hperm Hc. destruct (via_daemon_permitted name args stdin w Ha Hperm Hc) as (out & Hr).
  eexists _, out. unfold runTolerating. by rewrite Hr.
Qed.

Definition default_tools (rt : Router) : Prop :=
  pfctl rt = "pfctl" ∧ sysctl rt = "sysctl" ∧ route rt = "route".

Definition remove_cmd (rt : Router) (i : string) : Command :=
  mkCmd (route rt) ["-q"; "-n"; "delete"; "-inet"; "default"; "-ifscope"; i] "".

Lemma load_accepted rt w :
  default_tools rt → router_inv rt → in_scope p rt → carried (load_cmd rt) →
  ∃ w', loadAnchorLocked (via_daemon s) rt w = (w', Ok tt) ∧
    w' = (s_exec s (mkReq "pfctl" ["-a"; cfg_Anchor (cfg rt); "-f"; "-"] (ruleset rt)) w).1.
Proof.
  intros (Ht & _) Hi Hs Hc. unfold loadAnchorLocked, load_cmd in *. rewrite Ht in *.
  destruct (via_daemon_permitted "pfctl" ["-a"; cfg_Anchor (cfg rt); "-f"; "-"] (ruleset rt) w)
    as (out & ->); [set_solver|by apply scope_load|done|by eexists].
Qed.

Lemma remove_route_accepted rt i w :
  default_tools rt → vmnet_iface p i → carried (remove_cmd rt i) →
  ∃ w', removeVMNetDefaultRouteOnInterface (via_daemon s) rt i w = (w', Ok tt).
Proof.
  intros (_ & _ & Ht) Hi Hc. unfold removeVMNetDefaultRouteOnInterface, remove_cmd in *. rewrite Ht in *.
  edestruct tolerating_permitted as (w' & out & ->); [set_solver|by constructor|done|by exists w'].
Qed.

Lemma word_trimmed i : is_word i = true → TrimSpace i = i.
Proof. intros Hw. by apply (words_line [i]); [|apply Forall_singleton]. Qed.

Lemma start_accepted rt w :
  default_tools rt → router_inv rt → in_scope p rt →
  carried (remove_cmd rt (cfg_Interface (cfg rt))) → carried (load_cmd (set_started rt true)) →
  ∃ w', Start (via_daemon s) rt w = (set_started rt true, w', Ok tt).
Proof.
  intros Ht Hi Hs Hc1 Hc2. pose proof (scope_vmnet_ne p rt Hs) as Hne.
  unfold Start. rewrite (sc_vmnet _ _ Hs) in *.
  apply String.eqb_neq in Hne as Hne'. rewrite Hne'.
  assert (∃ w1, enableForwarding (via_daemon s) rt w = (w1, Ok tt)) as [w1 ->].
  { unfold enableForwarding. destruct (cfg_EnableForwarding _); [|by eexists].
    destruct Ht as (_ & -> & _).
    edestruct (via_daemon_permitted "sysctl") as (out & ->); [set_solver| |by vm_compute|by eexists].
    constructor; [by left|done]. }
  edestruct (tolerating_permitted "pfctl" ["-e"] "" [pfAlreadyEnabled] w1) as (w2 & out & Hr);
    [set_solver|constructor|by vm_compute|].
  rewrite (proj1 Ht), Hr. unfold removeVMNetDefaultRoute.
  rewrite (sc_vmnet _ _ Hs).
  destruct (remove_route_accepted rt (VMNetInterface p) w2) as [w3 ->]; [done|by split; auto|done|].
  destruct (load_accepted (set_started rt true) w3) as (w4 & -> & _); [done| |by destruct Hs|done|by exists w4].
  destruct Hi. split; try done. intros _. cbn. by rewrite (sc_vmnet _ _ Hs).
Qed.

Lemma attach_accepted rt ep w :
  default_tools rt → router_inv rt → in_scope p rt → started rt = true →
  PodKey ep ≠ "" → no_char newline (PodKey ep) = true →
  ipInSet (VMIP ep) (VMNetCIDRs p) = true → ipInSet (PodIP ep) (PodCIDRs p) = true →
  (Interface ep = VMNetInterface p ∨ isBridgeInterface (Interface ep) = true) →
  let rt' := set_endpoints rt (<[PodKey ep := ep]> (endpoints rt)) in
  carried (remove_cmd rt (cfg_Interface (cfg rt))) → carried (remove_cmd rt (Interface ep)) → carried (load_cmd rt') →
  ∃ w0 w', w' = (s_exec s (mkReq "pfctl" ["-a"; cfg_Anchor (cfg rt); "-f"; "-"] (ruleset rt')) w0).1 ∧
    Attach (via_daemon s) rt ep w = (rt', w', Ok tt).
Proof.
  intros Ht Hi Hs Hst Hk Hn Hv Hpd Hif rt' Hc1 Hc2 Hc3. subst rt'.
  destruct (scope_iface p rt Hs _ Hif) as [Hvi [Hw Hne]%andb_true_iff]. bools.
  assert (is_ip (PodIP ep) = true ∧ is_ip (VMIP ep) = true) as [H1 H2].
  { apply ipInSet_addr in Hpd as [? Hpd], Hv as [? Hv]. unfold is_ip. by rewrite Hpd, Hv. }
  assert (Endpoint_validate ep = Ok tt) as Hval.
  { unfold Endpoint_validate. rewrite !seq_Ok. lint. split_and!; [done..|right].
    apply word_trimmed, is_word_spec. done. }
  unfold Attach. rewrite Hval, Hst. cbn [negb]. unfold removeVMNetDefaultRoute.
  destruct (remove_route_accepted rt (cfg_Interface (cfg rt)) w) as [w1 ->];
    [done|rewrite (sc_vmnet _ _ Hs); by apply (scope_iface p rt Hs); left|done|].
  assert (attach_interface (via_daemon s) rt ep w1 = (w1, Interface ep)) as ->.
  { unfold attach_interface. apply String.eqb_neq in Hne as Hne'. by rewrite Hne', Hne'. }
  destruct (remove_route_accepted rt (Interface ep) w1) as [w2 ->]; [done..|].
  destruct ep as [key pip vip iface]. cbn [PodKey PodIP VMIP Interface] in *. cbv zeta.
  destruct (load_accepted (set_endpoints rt (<[key := mkEp key pip vip iface]> (endpoints rt))) w2)
    as (w3 & Hl & Hw3); [done| |by apply in_scope_insert|done|exists w2, w3; by rewrite Hl].
  apply inv_set_endpoints; [done|apply map_Forall_insert_2..]; [done|apply Hi|done|apply Hi].
Qed.
End accepted.

(** What starting the router and attaching one endpoint send that is not fixed text. *)
Definition attach_commands `{MapRange} (rt : Router) (ep : Endpoint) : list Command :=
  let rt1 := set_started rt true in
  [remove_cmd rt (cfg_Interface (cfg rt)); remove_cmd rt (Interface ep); load_cmd rt1;
   load_cmd (set_endpoints rt1 (<[PodKey ep := ep]> (endpoints rt1)))].

(** Through a daemon whose policy matches the router's configuration, over a
    connection that goes through, and on a host where accepted commands succeed,
    [Start] succeeds, and [Attach] of any Pod whose addresses lie in the node's Pod
    and vmnet ranges on a vmnet bridge succeeds, records the endpoint and leaves the
    anchor holding the rendering of the new state; provided the commands are UTF-8
    and within the daemon's limit. *)
Theorem attach_through_daemon `{MapRange} {W} `{!Link W} (s : Server W) `{!PfExec (s_exec s)} p rt ep w :
  s_policy s = Some p → (∀ r w, delivery r w = Delivered) → Forall carried (attach_commands rt ep) →
  (∀ req w, ∃ w' out, s_exec s req w = (w', (out, "", 0, None))) →
  default_tools rt → router_inv rt → in_scope p rt →
  PodKey ep ≠ "" → no_char newline (PodKey ep) = true →
  ipInSet (VMIP ep) (VMNetCIDRs p) = true → ipInSet (PodIP ep) (PodCIDRs p) = true →
  (Interface ep = VMNetInterface p ∨ isBridgeInterface (Interface ep) = true) →
  ∃ rt1 w1 rt2 w2,
    Start (via_daemon s) rt w = (rt1, w1, Ok tt) ∧
    Attach (via_daemon s) rt1 ep w1 = (rt2, w2, Ok tt) ∧
    endpoints rt2 !! PodKey ep = Some ep ∧
    pf_anchors w2 !! Anchor p = Some (ruleset rt2).
Proof.
  intros Hp Hd Hc Hx Ht Hi Hs Hk Hn Hv Hpd Hif.
  unfold attach_commands in Hc. rewrite !Forall_cons in Hc. destruct Hc as (Hc1 & Hc2 & Hc3 & Hc4 & _).
  destruct (start_accepted s p Hp Hd Hx rt w Ht Hi Hs Hc1 Hc3) as [w1 Hstart].
  set (rt1 := set_started rt true) in *.
  assert (router_inv rt1) as Hi1 by (by eapply Start_inv).
  assert (in_scope p rt1) as Hs1 by (by destruct Hs).
  destruct (attach_accepted s p Hp Hd Hx rt1 ep w1) as (w0 & w2 & -> & Hat); [done..|].
  eexists rt1, w1, _, _. split_and!; [done|exact Hat|by apply lookup_insert_eq|].
  match goal with |- context [s_exec s ?req w0] => destruct (Hx req w0) as (w' & out & Ex) end.
  rewrite Ex. apply exec_load_ok in Ex. cbn [fst]. rewrite Ex. cbn. rewrite (sc_anchor _ _ Hs). apply lookup_insert_eq.
Qed.

(** A host that accepts everything and keeps its anchors. *)
Definition pf_exec : ExecFunc (gmap string string) :=
  λ req m, (match Args req with
            | [a0; a; a2; a3] =>
                if String.eqb a0 "-a" && String.eqb a2 "-f" && String.eqb a3 "-"
                then <[a := Stdin req]> m else m
            | _ => m
            end, ("", "", 0, None)).

#[export] Instance pf_exec_ok : PfExec pf_exec.
Proof.
  refine {| pf_anchors := λ m, m |}.
  - intros a text w w' out errout He. unfold pf_exec in He. by simplify_eq/=.
  - intros a text w w' out errout code err He [Hc|Hc]; unfold pf_exec in He; by simplify_eq/=.
  - intros [n args i] w Ha. unfold pf_exec. cbn in *.
    destruct args as [|a0 [|a1 [|a2 [|a3 []]]]]; try done.
    apply String.eqb_neq in Ha. by rewrite Ha.
Defined.

Definition pf_daemon : Server (gmap string string) := NewServerWithPolicy pf_exec demo_policy.

Lemma attach_through_daemon_witness :
  ∃ rt1 w1 rt2 w2,
    @Start canonical_range _ (via_daemon (Link0 := reliable) pf_daemon) (New demo_cfg) ∅ = (rt1, w1, Ok tt) ∧
    @Attach canonical_range _ (via_daemon (Link0 := reliable) pf_daemon) rt1
      (mkEp "default/web" "10.244.1.2" "192.168.64.7" "bridge101") w1 = (rt2, w2, Ok tt) ∧
    endpoints rt2 !! "default/web" = Some (mkEp "default/web" "10.244.1.2" "192.168.64.7" "bridge101") ∧
    w2 !! "macvz/pods" = Some (@ruleset canonical_range rt2).
Proof.
  apply (@attach_through_daemon canonical_range _ reliable pf_daemon pf_exec_ok demo_policy (New demo_cfg)
    (mkEp "default/web" "10.244.1.2" "192.168.64.7" "bridge101") ∅).
  - done.
  - done.
  - apply all_carried. vm_compute. reflexivity.
  - intros req w. by eexists _, _.
  - done.
  - apply router_inv_New.
  - split; try done; [by right|apply map_Forall_empty..].
  - done.
  - done.
  - by vm_compute.
  - by vm_compute.
  - by right.
Defined.
