(* ===== verification/Exec.v ===== *)
(** * Commands run as processes: [cliRunner] of [pkg/network/podnet/runner.go] and
      [pkg/network/wireguard/runner.go], [realExec] of [pkg/network/privhelper/server.go]

    The two ends of running a host command: directly, by the packages' own runner, or
    by the root helper for them.  Starting the process is a parameter: it changes the
    host and yields what was printed and how it ended.  The theorem is that, as long as
    the connection carries what is sent, a client cannot tell one from the other by what
    happens or by whether, with which exit code and with which error output it fails. *)

From S2P Require Import Prelude GoStrings GoMarshal Ipam Host PodNet PrivPolicy PrivHelper PodNetPolicy.

Open Scope Z_scope.

(** How [cmd.Run] ends: no error, an [*exec.ExitError] (its code is -1 for a process
    ended by a signal), or a process that did not run. *)
Inductive Ended : Type := EndOk | EndExit (code : Z) (text : string) | EndSpawn (text : string).

(** A process: its name, arguments and input, [None] when no input is attached. *)
Definition Spawn (W : Type) : Type := string → list string → option string → W → W * (string * string * Ended).

Definition stdin_of (s : string) : option string := if String.eqb s "" then None else Some s.

Section exec.
Context {W : Type} (spawn : Spawn W).

Definition cliRunner : Runner W :=
  mkRunner (λ c w,
    let '(w, (out, errout, e)) := spawn (c_name c) (c_args c) (stdin_of (c_stdin c)) w in
    (w, (out, match e with
              | EndOk => None
              | EndExit code text => Some (mkCE code errout text)
              | EndSpawn text => Some (mkCE (-1) errout text)
              end))).

Definition realExec : ExecFunc W := λ req w,
  let '(w, (out, errout, e)) := spawn (Name req) (Args req) (stdin_of (Stdin req)) w in
  (w, match e with
      | EndOk => (out, errout, 0, None)
      | EndExit code _ => (out, errout, code, None)
      | EndSpawn text => (out, errout, -1, Some text)
      end).
End exec.

(** ** What a failed command is called *)

Definition command_String (c : Command) : string := TrimSpace (c_name c +:+ " " +:+ Join (c_args c) " ").

Definition CommandError_Error (c : Command) (e : CommandError) : string :=
  let msg := TrimSpace (ce_stderr e) in
  let msg := if String.eqb msg "" then ce_err e else msg in
  let msg := if String.eqb msg "" then "command failed" else msg in
  command_String c +:+ ": " +:+ msg.

(** ** Clients of a runner *)

(** What a client acts on: whether a command failed, its exit code and error output. *)
Definition failure (e : option CommandError) : option (Z * string) := (λ ce, (ce_exit ce, ce_stderr ce)) <$> e.

(** A client: it returns, or issues a command and goes on with the answer. *)
Inductive Client (A : Type) : Type :=
  | Done (a : A)
  | Issue (c : Command) (k : string → option (Z * string) → Client A).
Arguments Done {A} _. Arguments Issue {A} _ _.

Fixpoint drive {W A} (R : Runner W) (p : Client A) (w : W) : W * A :=
  match p with
  | Done a => (w, a)
  | Issue c k => let '(w, (out, e)) := run R c w in drive R (k out (failure e)) w
  end.

(** [runTolerating] is such a client. *)
Definition tolerating (c : Command) (benign : list string) : Client (string * option (Z * string)) :=
  Issue c (λ out f, Done (out, match f with
    | Some (_, errout) => if existsb (λ b, negb (String.eqb b "") && Contains (ToLower errout) b) benign then None else f
    | None => None
    end)).

Lemma drive_tolerating {W} (R : Runner W) c benign w :
  drive R (tolerating c benign) w = let '(w, (out, e)) := runTolerating R c benign w in (w, (out, failure e)).
Proof. unfold runTolerating. cbn. destruct (run R c w) as [w' [out [ce|]]]; cbn; [|done]. unfold is_benign. by case_match. Qed.

Section transparent.
Context {W : Type} `{!Link W} (spawn : Spawn W) (s : Server W).

Definition request_of (c : Command) : Request := mkReq (c_name c) (c_args c) (c_stdin c).

(** What the helper agrees to run. *)
Definition permitted (c : Command) : bool :=
  IsAllowed (c_name c) && match s_policy s with Some p => (match Validate p (request_of c) with Ok _ => true | Err _ => false end) | None => true end.

(** Every command the client issues, run directly, is one that reaches the helper as it
    is and that the helper agrees to. *)
Fixpoint stays_permitted {A} (p : Client A) (w : W) : Prop :=
  match p with
  | Done _ => True
  | Issue c k =>
      carried c ∧ permitted c = true ∧
      let '(w, (out, e)) := run (cliRunner spawn) c w in stays_permitted (k out (failure e)) w
  end.

Hypothesis s_real : s_exec s = realExec spawn.
(** [os/exec]: an [ExitError] is never of a process that succeeded. *)
Hypothesis exit_nonzero : ∀ n a i w w' out errout code text, spawn n a i w = (w', (out, errout, EndExit code text)) → code ≠ 0.

(** Permitted commands get to the executor. *)
Lemma handle_permitted c w :
  permitted c = true →
  handleExec s (request_of c) w =
    let '(w', (out, errout, code, err)) := realExec spawn (request_of c) w in
    (w', mkResp Protocol out errout code (match err with Some e => Some (CodeExecError, e) | None => None end) None).
Proof.
  intros [Ha Hv]%andb_true_iff. unfold handleExec. cbn [Name request_of]. rewrite Ha. cbn [negb].
  replace (match s_policy s with Some p => Validate p (request_of c) | None => Ok tt end) with (@Ok PolicyError unit tt)
    by (destruct (s_policy s); [destruct (Validate _ _) as [[]|]|]; done).
  by rewrite s_real.
Qed.

Lemma handle_refused c w : permitted c = false → ∃ code m, handleExec s (request_of c) w = (w, writeError code m).
Proof.
  unfold permitted, handleExec. cbn [Name request_of]. destruct (IsAllowed (c_name c)); cbn [negb andb]; [|intros _; by eexists _, _].
  destruct (s_policy s) as [p|]; [|done]. fold (request_of c). destruct (Validate p (request_of c)); [done|]. intros _. by eexists _, _.
Qed.

Lemma helper_runs c w :
  delivery (wire_of c) w = Delivered → carried c → permitted c = true →
  (∀ n a i w w' out errout e, spawn n a i w = (w', (out, errout, e)) → to_valid out = out ∧ to_valid errout = errout) →
  ∃ w' out e e', run (cliRunner spawn) c w = (w', (out, e)) ∧ run helperRunner c (Some s, w) = ((Some s, w'), (out, e')) ∧ failure e' = failure e.
Proof.
  intros Hd Hc Hp Ht. rewrite helperRunner_carried by done. fold (request_of c). rewrite handle_permitted by done.
  unfold realExec, cliRunner. cbn [run Name Args Stdin request_of].
  destruct (spawn (c_name c) (c_args c) (stdin_of (c_stdin c)) w) as [w' [[out errout] e]] eqn:Es. destruct (Ht _ _ _ _ _ _ _ _ Es) as [Ho He].
  unfold answer, received. destruct e; cbn; rewrite Ho, ?He.
  - eexists _, _, _, _. split; [done|]. by split.
  - rewrite (proj2 (Z.eqb_neq code 0)) by by eapply exit_nonzero. eexists _, _, _, _. split; [done|]. by split.
  - eexists _, _, _, _. split; [done|]. by split.
Qed.

(** What the helper refuses does not run, over any connection; nor does what exceeds
    its limit. *)
Lemma helper_refuses c w :
  carried c ∧ permitted c = false ∨ within_limit c = false →
  ∃ e, run helperRunner c (Some s, w) = ((Some s, w), ("", Some e)) ∧ ce_exit e = -1 ∧ ce_stderr e = "".
Proof.
  rewrite helperRunner_run. intros [[-> Hp]|Hl].
  - cbn [w_cmd wire_of]. fold (request_of c). destruct (handle_refused c w Hp) as (code & m & ->). destruct (delivery _ w); by eexists.
  - assert (decoded (wire_of c) = None) as ->.
    { unfold within_limit in Hl. apply Z.leb_gt in Hl. unfold decoded. by rewrite (proj2 (Z.ltb_lt _ _)) by lia. }
    destruct (delivery _ w); by eexists.
Qed.

(** Over any connection a permitted command runs as it would directly, or not at all. *)
Lemma helper_all_or_nothing c w :
  carried c → permitted c = true →
  let w' := (run helperRunner c (Some s, w)).1 in w' = (Some s, w) ∨ w' = (Some s, (run (cliRunner spawn) c w).1).
Proof.
  intros Hc Hp. rewrite helperRunner_run, Hc. cbn [w_cmd wire_of]. fold (request_of c). rewrite handle_permitted by done.
  unfold realExec, cliRunner. cbn [run Name Args Stdin request_of].
  destruct (spawn (c_name c) (c_args c) (stdin_of (c_stdin c)) w) as [w' [[out errout] e]].
  destruct e, (delivery (wire_of c) w); cbn; auto.
Qed.
End transparent.

(** C28: the helper is transparent.  Over a connection that carries every exchange, with
    commands and output in valid UTF-8 and requests within the helper's megabyte, a
    client of a runner, whatever it does with the output, exit code and error output of
    each command, that only issues commands the policy permits leaves the host as it
    would by running them itself, and comes to the same result.  Over any connection,
    lost replies included, a permitted command runs as it would directly or not at all;
    one the policy refuses, or whose request exceeds the limit, does not run, and fails. *)
Theorem helper_transparent {W A} `{!Link W} (spawn : Spawn W) (s : Server W) (p : Client A) w :
  s_exec s = realExec spawn →
  (∀ n a i w w' out errout code text, spawn n a i w = (w', (out, errout, EndExit code text)) → code ≠ 0) →
  ((∀ r w, delivery r w = Delivered) →
   (∀ n a i w w' out errout e, spawn n a i w = (w', (out, errout, e)) → to_valid out = out ∧ to_valid errout = errout) →
   stays_permitted spawn s p w →
   drive helperRunner p (Some s, w) = let '(w', a) := drive (cliRunner spawn) p w in ((Some s, w'), a)) ∧
  (∀ c w, carried c → permitted s c = true →
     let w' := (run helperRunner c (Some s, w)).1 in w' = (Some s, w) ∨ w' = (Some s, (run (cliRunner spawn) c w).1)) ∧
  (∀ c w, carried c ∧ permitted s c = false ∨ within_limit c = false →
     ∃ e, run helperRunner c (Some s, w) = ((Some s, w), ("", Some e)) ∧ ce_exit e = -1 ∧ ce_stderr e = "").
Proof.
  intros Hs Hx. split; [|split; [intros c w0; by apply helper_all_or_nothing|intros c w0; by apply helper_refuses]]. intros Hd Ht. revert w.
  induction p as [a|c k IH]; intros w; [done|].
  cbn [stays_permitted drive]. intros (Hc & Hp & Hk). destruct (helper_runs spawn s Hs Hx c w (Hd _ _) Hc Hp Ht) as (w' & out & e & e' & Ec & Eh & Ef).
  rewrite Ec in Hk. rewrite Ec, Eh, Ef. by apply IH.
Qed.

(** A reply that is lost: the command took effect and the client is told it failed. *)
Theorem lost_reply_acts {W} (spawn : Spawn W) (s : Server W) c w m w' out errout :
  s_exec s = realExec spawn → carried c → permitted s c = true → spawn (c_name c) (c_args c) (stdin_of (c_stdin c)) w = (w', (out, errout, EndOk)) →
  run (helperRunner (Link0 := λ _ _, ReplyLost m)) c (Some s, w) = ((Some s, w'), ("", Some (mkCE (-1) "" m))) ∧
  run (cliRunner spawn) c w = (w', (out, None)).
Proof.
  intros Hs Hc Hp Hx. split; [|cbn; by rewrite Hx]. rewrite helperRunner_run, Hc. cbn [w_cmd wire_of]. fold (request_of c).
  rewrite (handle_permitted spawn s Hs) by done. unfold realExec. cbn [Name Args Stdin request_of]. by rewrite Hx.
Qed.

(** Without error output, the helper's failure names no exit status where the direct
    one does. *)
Theorem silent_failure_text c code text :
  text ≠ "" → CommandError_Error c (mkCE code "" text) = command_String c +:+ ": " +:+ text ∧
  CommandError_Error c (mkCE code "" "") = command_String c +:+ ": command failed".
Proof. intros Ht. unfold CommandError_Error. cbn. apply String.eqb_neq in Ht. by rewrite Ht. Qed.

(** A host on which pf is enabled already, and every other command succeeds. *)
Definition pf_on : Spawn (list string) := λ n a i w,
  (w ++ [n +:+ " " +:+ Join a " "],
   if bool_decide (n = "pfctl" ∧ a = ["-e"]) then ("", "pfctl: pf already enabled", EndExit 1 "exit status 1") else ("Darwin", "", EndOk)).

Lemma helper_transparent_witness :
  let s := NewServerWithPolicy (realExec pf_on) demo_policy in
  drive (helperRunner (Link0 := reliable)) (tolerating (mkCmd "pfctl" ["-e"] "") ["already enabled"]) (Some s, []) =
    ((Some s, ["pfctl -e"]), ("", None)).
Proof.
  cbn zeta. set (s := NewServerWithPolicy (realExec pf_on) demo_policy).
  refine (eq_trans (proj1 (helper_transparent (Link0 := reliable) pf_on s (tolerating (mkCmd "pfctl" ["-e"] "") ["already enabled"]) [] eq_refl _) _ _ _) _).
  - intros n a i w w' out errout code text. unfold pf_on. case_bool_decide; [|done]. by intros [= _ _ _ <- _].
  - done.
  - intros n a i w w' out errout e. unfold pf_on. case_bool_decide; intros [= _ <- <- _]; split; vm_compute; reflexivity.
  - split; [vm_compute; reflexivity|]. split; [vm_compute; reflexivity|exact I].
  - vm_compute. reflexivity.
Defined.
