(* ===== verification/WireGuard.v ===== *)
(** * The WireGuard mesh: [pkg/network/wireguard/{key,config,mesh}.go]

    [Mesh] owns one utun interface and the host routes through it.  Keys are 32
    bytes; deriving a public key is Curve25519 and outside the model.  Every
    operation takes the mesh and the host state and returns both with its
    error; the mutex makes an operation one atomic step. *)

From S2P Require Import Prelude GoStrings GoNet Host.

Open Scope Z_scope.

(** ** Keys: [key.go] *)

Definition KeyLen : nat := 32.
Abbreviation Key := (list Z).

Definition key_wf (k : Key) : Prop := length k = KeyLen ∧ Forall (λ b, 0 ≤ b < 256) k.

Definition zero_key : Key := replicate KeyLen 0.
Definition IsZero (k : Key) : bool := bool_decide (k = zero_key).

(** The Curve25519 clamping of a private key. *)
Definition clamp (k : Key) : Key :=
  let b31 := Z.lor (Z.land (nth 31 k 0) 127) 64 in
  <[31%nat := b31]> (<[0%nat := Z.land (nth 0 k 0) 248]> k).

(** [base64.StdEncoding] *)

Definition b64_char (n : Z) : ascii :=
  ch (Z.to_N (if n <? 26 then n + 65 else if n <? 52 then n + 71 else if n <? 62 then n - 4
              else if n =? 62 then 43 else 47)).

Definition b64_val (a : ascii) : option Z :=
  let n := Z.of_N (c2n a) in
  if (65 <=? n) && (n <=? 90) then Some (n - 65)
  else if (97 <=? n) && (n <=? 122) then Some (n - 71)
  else if (48 <=? n) && (n <=? 57) then Some (n + 4)
  else if n =? 43 then Some 62 else if n =? 47 then Some 63 else None.

Definition pad : ascii := ch 61.

Fixpoint EncodeToString (bs : list Z) : string :=
  match bs with
  | a :: b :: c :: bs' =>
      let n := (a * 256 + b) * 256 + c in
      String (b64_char (n / 2 ^ 18)) (String (b64_char (n / 2 ^ 12 mod 64))
        (String (b64_char (n / 2 ^ 6 mod 64)) (String (b64_char (n mod 64)) (EncodeToString bs'))))
  | [a; b] =>
      let n := (a * 256 + b) * 4 in
      String (b64_char (n / 2 ^ 12)) (String (b64_char (n / 2 ^ 6 mod 64))
        (String (b64_char (n mod 64)) (String pad "")))
  | [a] =>
      let n := a * 16 in
      String (b64_char (n / 2 ^ 6)) (String (b64_char (n mod 64)) (String pad (String pad "")))
  | [] => ""
  end.

(** Carriage returns and newlines are skipped wherever they stand. *)
Fixpoint strip_newlines (s : string) : string :=
  match s with
  | EmptyString => ""
  | String a r =>
      if Ascii.eqb a newline || Ascii.eqb a (ch 13) then strip_newlines r
      else String a (strip_newlines r)
  end.

(** Quanta of four characters; padding only in the last one.  The bits of a
    short quantum beyond its bytes are ignored, as without [Strict]. *)
Fixpoint decode_quanta (s : string) : option (list Z) :=
  match s with
  | EmptyString => Some []
  | String c0 (String c1 (String c2 (String c3 r))) =>
      match b64_val c0, b64_val c1, b64_val c2, b64_val c3 with
      | Some v0, Some v1, Some v2, Some v3 =>
          let n := ((v0 * 64 + v1) * 64 + v2) * 64 + v3 in
          match decode_quanta r with
          | Some bs => Some (n / 2 ^ 16 :: n / 2 ^ 8 mod 256 :: n mod 256 :: bs)
          | None => None
          end
      | Some v0, Some v1, Some v2, None =>
          if Ascii.eqb c3 pad && String.eqb r "" then
            let n := ((v0 * 64 + v1) * 64 + v2) / 4 in Some [n / 2 ^ 8; n mod 256]
          else None
      | Some v0, Some v1, None, None =>
          if Ascii.eqb c2 pad && Ascii.eqb c3 pad && String.eqb r "" then
            Some [(v0 * 64 + v1) / 16]
          else None
      | _, _, _, _ => None
      end
  | _ => None
  end.

Definition DecodeString (s : string) : option (list Z) := decode_quanta (strip_newlines s).

Definition Key_String (k : Key) : string := EncodeToString k.

Inductive KeyError : Type := EKeyDecode | EKeyLength (n : nat).

Definition ParseKey (s : string) : result KeyError Key :=
  match DecodeString (TrimSpace s) with
  | None => Err EKeyDecode
  | Some b => if Nat.eqb (length b) KeyLen then Ok b else Err (EKeyLength (length b))
  end.

(** [LoadOrCreateKey]: [file] is what reading the path yields ([Ok None]: it
    does not exist), [rand] the 32 random bytes; returns the key and the text
    to persist, if one must be written. *)
Inductive LoadError : Type := ELoadRead (msg : string) | ELoadParse (e : KeyError).

Definition LoadOrCreateKey (file : result string (option string)) (rand : Key)
    : result LoadError (Key * option string) :=
  match file with
  | Ok (Some data) =>
      match ParseKey data with Ok k => Ok (k, None) | Err e => Err (ELoadParse e) end
  | Err msg => Err (ELoadRead msg)
  | Ok None => let k := clamp rand in Ok (k, Some (Key_String k +:+ nl))
  end.

(** ** Configuration: [config.go] *)

Record Peer := mkPeer {
  p_Name : string; p_PublicKey : Key; p_Endpoint : string;
  p_AllowedIPs : list string; p_Keepalive : Z;
}.

Record InterfaceConfig := mkIface {
  i_Name : string; i_PrivateKey : Key; i_Address : string;
  i_ListenPort : Z; i_MTU : Z; i_Peers : list Peer;
}.

Inductive MeshError : Type :=
  | ENoName | ENoPrivateKey (name : string) | ENoAddress (name : string) | EBadAddress (addr : string)
  | EListenPort (port : Z) | EMtu (mtu : Z)
  | EPeerNoKey (peer : string) | EPeerNoAllowedIPs (peer : string)
  | EPeerAllowedIP (peer cidr : string) | EPeerEndpoint (peer ep : string)
  | EPeerKeepalive (peer : string) | EPeerDup (p1 p2 : string)
  | ECreate (ce : CommandError) | EApply (ce : CommandError) | EAssign (ce : CommandError)
  | ESetMtu (ce : CommandError) | EBringUp (ce : CommandError)
  | ESyncBeforeUp | ESyncApply (ce : CommandError)
  | EDeleteRoute (target : string) (ce : CommandError)
  | EAddRoute (target : string) (ce : CommandError).

Definition is_cidr (s : string) : bool := bool_decide (is_Some (ParseCIDR s)).

Definition Peer_validate (p : Peer) : result MeshError unit :=
  guard (negb (IsZero (p_PublicKey p))) (EPeerNoKey (p_Name p)) ;--
  guard (negb (bool_decide (p_AllowedIPs p = []))) (EPeerNoAllowedIPs (p_Name p)) ;--
  for_each (λ cidr, guard (is_cidr cidr) (EPeerAllowedIP (p_Name p) cidr)) (p_AllowedIPs p) ;--
  guard (String.eqb (p_Endpoint p) "" || bool_decide (is_Some (SplitHostPort (p_Endpoint p))))
    (EPeerEndpoint (p_Name p) (p_Endpoint p)) ;--
  guard (0 <=? p_Keepalive p) (EPeerKeepalive (p_Name p)).

(** The peer loop; [seen] maps a public key to the last peer that had it. *)
Fixpoint validate_peers (seen : gmap Key string) (ps : list Peer) : result MeshError unit :=
  match ps with
  | [] => Ok tt
  | p :: ps' =>
      Peer_validate p ;--
      match seen !! p_PublicKey p with
      | Some other => Err (EPeerDup other (p_Name p))
      | None => validate_peers (<[p_PublicKey p := p_Name p]> seen) ps'
      end
  end.

Definition Interface_Validate (c : InterfaceConfig) : result MeshError unit :=
  guard (negb (String.eqb (i_Name c) "")) ENoName ;--
  guard (negb (IsZero (i_PrivateKey c))) (ENoPrivateKey (i_Name c)) ;--
  guard (negb (String.eqb (i_Address c) "")) (ENoAddress (i_Name c)) ;--
  guard (is_cidr (i_Address c)) (EBadAddress (i_Address c)) ;--
  guard ((1 <=? i_ListenPort c) && (i_ListenPort c <=? 65535)) (EListenPort (i_ListenPort c)) ;--
  guard (0 <=? i_MTU c) (EMtu (i_MTU c)) ;--
  validate_peers ∅ (i_Peers c).

Definition text_of (l : list string) : string := Concat ((λ s, s +:+ nl) <$> l).

Definition ConfigBlock_lines (p : Peer) : list string :=
  ["[Peer]"] ++
  (if String.eqb (p_Name p) "" then [] else ["# " +:+ p_Name p]) ++
  ["PublicKey = " +:+ Key_String (p_PublicKey p)] ++
  (if String.eqb (p_Endpoint p) "" then [] else ["Endpoint = " +:+ p_Endpoint p]) ++
  ["AllowedIPs = " +:+ Join (p_AllowedIPs p) ", "] ++
  (if 0 <? p_Keepalive p then ["PersistentKeepalive = " +:+ Itoa (p_Keepalive p)] else []).

Definition ConfigBlock (p : Peer) : string := text_of (ConfigBlock_lines p).

Definition sortedPeers (ps : list Peer) : list Peer :=
  sort_by (le_key (λ p, Key_String (p_PublicKey p))) ps.

Definition render_lines (quick : bool) (c : InterfaceConfig) : list string :=
  ["[Interface]"; "PrivateKey = " +:+ Key_String (i_PrivateKey c)] ++
  (if quick then
     ["Address = " +:+ i_Address c] ++
     (if 0 <? i_MTU c then ["MTU = " +:+ Itoa (i_MTU c)] else [])
   else []) ++
  ["ListenPort = " +:+ Itoa (i_ListenPort c)] ++
  (sortedPeers (i_Peers c) ≫= λ p, "" :: ConfigBlock_lines p).

Definition render (quick : bool) (c : InterfaceConfig) : string := text_of (render_lines quick c).
Definition QuickConfig (c : InterfaceConfig) : string := render true c.
Definition SyncConfig (c : InterfaceConfig) : string := render false c.

Definition RouteTargets (c : InterfaceConfig) : list string :=
  sorted_set (i_Peers c ≫= p_AllowedIPs).

(** ** The mesh: [mesh.go] *)

Definition errInterfaceExists : string := "already exists".
Definition errInterfaceMissing : string := "does not exist".
Definition errDestroyInvalid : string := "invalid argument".
Definition errAddressExists : string := "already in list".
Definition errRouteExists : string := "file exists".
Definition errRouteMissing : string := "not in table".
Definition errNoMatchingProcess : string := "no matching processes".

Record Mesh := mkMesh { m_cfg : InterfaceConfig; m_routes : gmap string unit; m_up : bool }.

Definition Mesh_New (c : InterfaceConfig) : Mesh := mkMesh c ∅ false.
Definition InterfaceName (m : Mesh) : string := i_Name (m_cfg m).
Definition Mesh_Peers (m : Mesh) : list string := sort_strings (p_Name <$> i_Peers (m_cfg m)).

Definition routeFamily (target : string) : string :=
  match ParseCIDR target with
  | Some (ip, _) => match To4 ip with Some _ => "-inet" | None => "-inet6" end
  | None => "-inet"
  end.

Definition routeCmd (iface op target : string) : Command :=
  mkCmd "route" ["-q"; "-n"; op; routeFamily target; target; "-interface"; iface] "".

Definition killWireGuardGoCmd (iface : string) : Command :=
  mkCmd "pkill" ["-f"; "wireguard-go " +:+ iface] "".

Definition addressIP (cidr : string) : result MeshError string :=
  match ParseCIDR cidr with Some (ip, _) => Ok (IP_String ip) | None => Err (EBadAddress cidr) end.

Definition set_routes (m : Mesh) (r : gmap string unit) : Mesh := mkMesh (m_cfg m) r (m_up m).
Definition set_peers (c : InterfaceConfig) (ps : list Peer) : InterfaceConfig :=
  mkIface (i_Name c) (i_PrivateKey c) (i_Address c) (i_ListenPort c) (i_MTU c) ps.

Section mesh.
Context `{MapRange} {W : Type} (R : Runner W).

(** [for target := range m.routes { if want[target] { continue } ... }] *)
Fixpoint delete_stale (iface : string) (want : gset string) (ts : list string)
    (routes : gmap string unit) (w : W) : gmap string unit * W * result MeshError unit :=
  match ts with
  | [] => (routes, w, Ok tt)
  | t :: ts' =>
      if bool_decide (t ∈ want) then delete_stale iface want ts' routes w
      else match runTolerating R (routeCmd iface "delete" t) [errRouteMissing] w with
           | (w, (_, Some ce)) => (routes, w, Err (EDeleteRoute t ce))
           | (w, (_, None)) => delete_stale iface want ts' (delete t routes) w
           end
  end.

Fixpoint add_missing (iface : string) (ts : list string)
    (routes : gmap string unit) (w : W) : gmap string unit * W * result MeshError unit :=
  match ts with
  | [] => (routes, w, Ok tt)
  | t :: ts' =>
      match routes !! t with
      | Some _ => add_missing iface ts' routes w
      | None =>
          match runTolerating R (routeCmd iface "add" t) [errRouteExists] w with
          | (w, (_, Some ce)) => (routes, w, Err (EAddRoute t ce))
          | (w, (_, None)) => add_missing iface ts' (<[t := tt]> routes) w
          end
      end
  end.

Definition reconcileRoutes (iface : string) (routes : gmap string unit) (desired : list string)
    (w : W) : gmap string unit * W * result MeshError unit :=
  match delete_stale iface (list_to_set desired) (range routes).*1 routes w with
  | (routes, w, Err e) => (routes, w, Err e)
  | (routes, w, Ok _) => add_missing iface desired routes w
  end.

Definition reconcileRoutesLocked (m : Mesh) (desired : list string) (w : W)
    : Mesh * W * result MeshError unit :=
  let '(routes, w, r) := reconcileRoutes (i_Name (m_cfg m)) (m_routes m) desired w in
  (set_routes m routes, w, r).

(** The commands of [Up] before the routes, in order. *)
Definition up_link (c : InterfaceConfig) (ip : string) (w : W) : W * result MeshError unit :=
  match runTolerating R (mkCmd "wireguard-go" [i_Name c] "") [errInterfaceExists] w with
  | (w, (_, Some ce)) => (w, Err (ECreate ce))
  | (w, (_, None)) =>
  match run R (mkCmd "wg" ["setconf"; i_Name c; "/dev/stdin"] (SyncConfig c)) w with
  | (w, (_, Some ce)) => (w, Err (EApply ce))
  | (w, (_, None)) =>
  match runTolerating R (mkCmd "ifconfig" [i_Name c; "inet"; ip; ip; "alias"] "") [errAddressExists] w with
  | (w, (_, Some ce)) => (w, Err (EAssign ce))
  | (w, (_, None)) =>
  match (if 0 <? i_MTU c then run R (mkCmd "ifconfig" [i_Name c; "mtu"; Itoa (i_MTU c)] "") w
         else (w, ("", None))) with
  | (w, (_, Some ce)) => (w, Err (ESetMtu ce))
  | (w, (_, None)) =>
  match run R (mkCmd "ifconfig" [i_Name c; "up"] "") w with
  | (w, (_, Some ce)) => (w, Err (EBringUp ce))
  | (w, (_, None)) => (w, Ok tt)
  end end end end end.

Definition Up (m : Mesh) (w : W) : Mesh * W * result MeshError unit :=
  match Interface_Validate (m_cfg m) with
  | Err e => (m, w, Err e)
  | Ok _ =>
      match addressIP (i_Address (m_cfg m)) with
      | Err e => (m, w, Err e)
      | Ok ip =>
          match up_link (m_cfg m) ip w with
          | (w, Err e) => (m, w, Err e)
          | (w, Ok _) =>
              reconcileRoutesLocked (mkMesh (m_cfg m) (m_routes m) true)
                (RouteTargets (m_cfg m)) w
          end
      end
  end.

Definition Sync (m : Mesh) (peers : list Peer) (w : W) : Mesh * W * result MeshError unit :=
  let next := set_peers (m_cfg m) peers in
  match Interface_Validate next with
  | Err e => (m, w, Err e)
  | Ok _ =>
      if negb (m_up m) then (m, w, Err ESyncBeforeUp) else
      match run R (mkCmd "wg" ["syncconf"; i_Name (m_cfg m); "/dev/stdin"] (SyncConfig next)) w with
      | (w, (_, Some ce)) => (m, w, Err (ESyncApply ce))
      | (w, (_, None)) =>
          reconcileRoutesLocked (mkMesh next (m_routes m) (m_up m)) (RouteTargets next) w
      end
  end.

(** Best effort: every failure is logged and passed over. *)
Fixpoint delete_all (iface : string) (ts : list string) (w : W) : W :=
  match ts with
  | [] => w
  | t :: ts' =>
      delete_all iface ts' (runTolerating R (routeCmd iface "delete" t) [errRouteMissing] w).1
  end.

Definition teardownLocked (m : Mesh) (w : W) : Mesh * W :=
  let iface := i_Name (m_cfg m) in
  let w := delete_all iface (range (m_routes m)).*1 w in
  let w := (runTolerating R (mkCmd "ifconfig" [iface; "down"] "") [errInterfaceMissing] w).1 in
  let w := (runTolerating R (killWireGuardGoCmd iface) [errNoMatchingProcess] w).1 in
  let w := (runTolerating R (mkCmd "ifconfig" [iface; "destroy"] "")
              [errInterfaceMissing; errDestroyInvalid] w).1 in
  (mkMesh (m_cfg m) ∅ false, w).

Definition Down (m : Mesh) (w : W) : Mesh * W := teardownLocked m w.

Definition Remove (m : Mesh) (w : W) : Mesh * W :=
  teardownLocked
    (set_routes m (foldl (λ r t, <[t := tt]> r) (m_routes m) (RouteTargets (m_cfg m)))) w.

Definition InstalledRoutes (m : Mesh) : list string := sorted_map_keys (m_routes m).
End mesh.

(** ** Keys round trip *)

Definition b64_ok (n : Z) : bool :=
  bool_decide (b64_val (b64_char n) = Some n) && graph_char (b64_char n).

Lemma b64_char_ok n : 0 ≤ n < 64 →
  b64_val (b64_char n) = Some n ∧ graph_char (b64_char n) = true.
Proof.
  intros Hn. assert (b64_ok n = true) as Hb.
  { apply (forall_below b64_ok 64); [by vm_compute|done]. }
  unfold b64_ok in Hb. by bools.
Qed.

Lemma b64_val_char n : 0 ≤ n < 64 → b64_val (b64_char n) = Some n.
Proof. apply b64_char_ok. Qed.

Lemma b64_char_graph n : 0 ≤ n < 64 → graph_char (b64_char n) = true.
Proof. apply b64_char_ok. Qed.

Lemma Encode_graphic : ∀ bs, Forall (λ b, 0 ≤ b < 256) bs → graphic (EncodeToString bs) = true.
Proof.
  fix IH 1. intros [|a [|b [|c bs]]]; [done|..].
  - intros [Ha _]%Forall_cons. cbn [EncodeToString]. rewrite !graphic_cons, !b64_char_graph; [done|..];
      Z.div_mod_to_equations; lia.
  - intros [Ha [Hb _]%Forall_cons]%Forall_cons. cbn [EncodeToString].
    rewrite !graphic_cons, !b64_char_graph; [done|..]; Z.div_mod_to_equations; lia.
  - intros [Ha [Hb [Hc Hbs]%Forall_cons]%Forall_cons]%Forall_cons. cbn [EncodeToString].
    rewrite !graphic_cons, !b64_char_graph, (IH bs Hbs); [done|..];
      Z.div_mod_to_equations; lia.
Qed.

Lemma decode_Encode : ∀ bs, Forall (λ b, 0 ≤ b < 256) bs → decode_quanta (EncodeToString bs) = Some bs.
Proof.
  fix IH 1. intros [|a [|b [|c bs]]]; [done|..].
  - intros [Ha _]%Forall_cons. cbn [EncodeToString decode_quanta].
    rewrite !b64_val_char by (Z.div_mod_to_equations; lia).
    change (b64_val pad) with (@None Z). cbn.
    do 2 f_equal. Z.div_mod_to_equations; lia.
  - intros [Ha [Hb _]%Forall_cons]%Forall_cons. cbn [EncodeToString decode_quanta].
    rewrite !b64_val_char by (Z.div_mod_to_equations; lia).
    change (b64_val pad) with (@None Z). cbn.
    repeat f_equal; Z.div_mod_to_equations; lia.
  - intros [Ha [Hb [Hc Hbs]%Forall_cons]%Forall_cons]%Forall_cons. cbn [EncodeToString decode_quanta].
    rewrite !b64_val_char, (IH bs Hbs) by (Z.div_mod_to_equations; lia).
    repeat f_equal; Z.div_mod_to_equations; lia.
Qed.

Lemma strip_newlines_graphic s : graphic s = true → strip_newlines s = s.
Proof.
  induction s as [|a s IH]; [done|]. rewrite graphic_cons, andb_true_iff. intros [Ha Hs].
  cbn [strip_newlines]. destruct (Ascii.eqb a newline || Ascii.eqb a (ch 13)) eqn:E; [|by rewrite IH].
  apply orb_true_iff in E as [E|E]; apply Ascii.eqb_eq in E as ->; done.
Qed.

Lemma Encode_ne bs : bs ≠ [] → EncodeToString bs ≠ "".
Proof. by destruct bs as [|a [|b [|c bs]]]. Qed.

Lemma Key_String_word k : key_wf k → is_word (Key_String k) = true.
Proof.
  intros [Hl Hb]. apply is_word_spec. split; [by apply Encode_graphic|].
  apply Encode_ne. by intros ->.
Qed.

Lemma graphic_TrimSpace s : graphic s = true → TrimSpace s = s.
Proof.
  intros Hs. destruct (decide (s = "")) as [->|Hne]; [done|]. apply TrimSpace_edged.
  destruct s as [|a t]; [done|]. rewrite graphic_cons in Hs. apply andb_true_iff in Hs as [Ha Ht].
  destruct (decide (t = "")) as [->|Hne']; [by exists a, a, ""; auto|].
  rewrite <- (sapp_nil_l t). by apply edged_words.
Qed.

(** A printed key, with or without the trailing newline of the key file, is
    read back as the same key. *)
Lemma TrimSpace_newline s : graphic s = true → s ≠ "" → TrimSpace (s +:+ nl) = s.
Proof.
  intros Hs Hne. unfold TrimSpace. destruct s as [|a t]; [done|].
  pose proof Hs as Hs'. rewrite graphic_cons in Hs'. apply andb_true_iff in Hs' as [Ha _].
  rewrite sapp_cons, drop_spaces_graph by done. rewrite <- sapp_cons.
  clear Ha. revert Hs. generalize (String a t) as s. clear. induction s as [|a s IH]; [done|].
  rewrite graphic_cons, andb_true_iff, sapp_cons. intros [Ha Hs]. cbn [trim_right].
  rewrite drop_spaces_graph by done. cbn [String.eqb]. by rewrite IH.
Qed.

Lemma ParseKey_of s k : key_wf k → TrimSpace s = Key_String k → ParseKey s = Ok k.
Proof.
  intros [Hl Hb] Hs. unfold ParseKey, DecodeString. rewrite Hs. unfold Key_String.
  rewrite strip_newlines_graphic, decode_Encode by (done || by apply Encode_graphic).
  by rewrite Hl.
Qed.

Lemma ParseKey_String k : key_wf k → ParseKey (Key_String k) = Ok k.
Proof. intros Hk. apply ParseKey_of; [done|]. by apply graphic_TrimSpace, Encode_graphic, Hk. Qed.

Lemma Key_String_inj k1 k2 : key_wf k1 → key_wf k2 → Key_String k1 = Key_String k2 → k1 = k2.
Proof. intros H1%ParseKey_String H2%ParseKey_String E. rewrite E in H1. congruence. Qed.

(** What clamping does to one byte, checked on all 256. *)
Definition clamp_ok (b : Z) : bool :=
  (0 <=? Z.land b 248) && (Z.land b 248 <? 256) && (Z.land b 248 mod 8 =? 0) &&
  (64 <=? Z.lor (Z.land b 127) 64) && (Z.lor (Z.land b 127) 64 <? 128).

Lemma clamp_byte b : 0 ≤ b < 256 →
  0 ≤ Z.land b 248 < 256 ∧ Z.land b 248 mod 8 = 0 ∧ 64 ≤ Z.lor (Z.land b 127) 64 < 128.
Proof.
  intros Hb. assert (clamp_ok b = true) as Hc.
  { apply (forall_below clamp_ok 256); [by vm_compute|done]. }
  unfold clamp_ok in Hc. by bools.
Qed.

Lemma clamp_wf k : key_wf k → key_wf (clamp k).
Proof.
  intros [Hl Hb]. unfold clamp. split; [by rewrite !length_insert|].
  assert (∀ i, 0 ≤ nth i k 0 < 256) as Hn.
  { intros i. destruct (nth_in_or_default i k 0) as [Hin| ->]; [|lia].
    rewrite Forall_forall in Hb. apply Hb. by apply list_elem_of_In. }
  destruct (clamp_byte _ (Hn 0%nat)) as [? _]. destruct (clamp_byte _ (Hn 31%nat)) as (_ & _ & ?).
  apply Forall_insert; [by apply Forall_insert|]. lia.
Qed.

(** A node's WireGuard identity is stable: the key generated and written
    on the first start (32 random bytes, clamped) is the key every later start
    reads back from the file. *)
Theorem key_identity_stable rand rand' k text :
  key_wf rand → LoadOrCreateKey (Ok None) rand = Ok (k, Some text) →
  LoadOrCreateKey (Ok (Some text)) rand' = Ok (k, None) ∧ key_wf k.
Proof.
  intros Hr Hl. cbn in Hl. injection Hl as <- <-. pose proof (clamp_wf _ Hr) as Hk.
  split; [|done]. unfold LoadOrCreateKey. rewrite (ParseKey_of _ (clamp rand)); [done..|].
  apply TrimSpace_newline; apply is_word_spec; by apply Key_String_word.
Qed.

Lemma key_identity_stable_witness :
  LoadOrCreateKey (Ok (Some (Key_String (clamp (seqZ 200 32)) +:+ nl))) [] =
  Ok (clamp (seqZ 200 32), None).
Proof.
  refine (proj1 (key_identity_stable (seqZ 200 32) [] _ _ _ _)); [|done].
  split; [done|]. by apply (bool_decide_unpack _); vm_compute.
Defined.

(** ** Rendering *)

Lemma validate_peers_Ok seen ps :
  validate_peers seen ps = Ok tt →
  NoDup (p_PublicKey <$> ps) ∧ Forall (λ p, seen !! p_PublicKey p = None) ps ∧
  Forall (λ p, Peer_validate p = Ok tt) ps.
Proof.
  revert seen. induction ps as [|p ps IH]; intros seen; cbn [validate_peers]; [by repeat constructor|].
  destruct (Peer_validate p) as [[]|] eqn:Ep; [|done].
  destruct (seen !! p_PublicKey p) eqn:Es; [done|]. intros (Hn & Hs & Hv)%IH.
  rewrite fmap_cons, NoDup_cons, !Forall_cons. rewrite Forall_forall in Hs.
  split_and!; try done.
  - intros (q & Hq & Hin)%list_elem_of_fmap. specialize (Hs q Hin).
    rewrite Hq, lookup_insert_eq in Hs. done.
  - rewrite Forall_forall. intros q Hin. specialize (Hs q Hin).
    by apply lookup_insert_None in Hs as [? _].
Qed.

Lemma Interface_Validate_peers c :
  Interface_Validate c = Ok tt →
  i_Name c ≠ "" ∧ NoDup (p_PublicKey <$> i_Peers c) ∧ Forall (λ p, Peer_validate p = Ok tt) (i_Peers c).
Proof.
  unfold Interface_Validate. intros Hv.
  repeat match type of Hv with context [guard ?b _] => destruct b eqn:?; cbn [guard] in Hv; [|done] end.
  apply validate_peers_Ok in Hv as (? & _ & ?). bools. done.
Qed.

Lemma sortedPeers_perm ps ps' :
  NoDup (p_PublicKey <$> ps) → Forall (λ p, key_wf (p_PublicKey p)) ps → ps ≡ₚ ps' →
  sortedPeers ps = sortedPeers ps'.
Proof.
  intros Hn Hw Hp. apply sort_by_canonical; [apply le_key_total|apply le_key_trans| |done].
  intros p q Hpin Hqin Hpq Hqp. rewrite Forall_forall in Hw.
  assert (p_PublicKey p = p_PublicKey q) as E.
  { apply Key_String_inj; [auto..|]. apply (anti_symm String.le); by apply Is_true_eq_left. }
  apply list_elem_of_lookup in Hpin as [i Hi], Hqin as [j Hj].
  assert (i = j); [|congruence]. eapply NoDup_lookup; [exact Hn|..]; rewrite list_lookup_fmap.
  - by rewrite Hi.
  - by rewrite Hj, E.
Qed.

(** Rendering a validated configuration does not depend on the order in
    which its peers are listed, so re-rendering an unchanged mesh is
    byte-identical. *)
Theorem render_peer_order quick c ps' :
  Interface_Validate c = Ok tt → Forall (λ p, key_wf (p_PublicKey p)) (i_Peers c) →
  i_Peers c ≡ₚ ps' →
  render quick c = render quick (set_peers c ps').
Proof.
  intros (_ & Hn & _)%Interface_Validate_peers Hw Hp. unfold render, render_lines. cbn.
  by rewrite (sortedPeers_perm _ ps').
Qed.

Definition demo_key (n : Z) : Key := seqZ n 32.
Definition demo_peer (name : string) (n : Z) (cidr addr : string) : Peer :=
  mkPeer name (demo_key n) "mac.local:51820" [cidr; addr] 25.
Definition demo_iface (ps : list Peer) : InterfaceConfig :=
  mkIface "utun7" (demo_key 3) "10.99.0.1/32" 51820 1420 ps.
Definition peer2 := demo_peer "mac-2" 40 "10.244.2.0/24" "10.99.0.2/32".
Definition peer3 := demo_peer "mac-3" 90 "10.244.3.0/24" "10.99.0.3/32".

Lemma render_peer_order_witness :
  SyncConfig (demo_iface [peer2; peer3]) = SyncConfig (demo_iface [peer3; peer2]).
Proof.
  apply (render_peer_order false (demo_iface [peer2; peer3]) [peer3; peer2]).
  - by vm_compute.
  - by apply (bool_decide_unpack _); vm_compute.
  - apply Permutation_swap.
Defined.

(** ** Routes

    What the mesh relies on of [route(8)], as hypotheses on the host.  The table
    holds the networks routed by [route]; the interface's own address, which
    [ifconfig alias] makes reachable, is not counted.  Destinations are networks,
    so two spellings of one network are one entry.  A command that fails changes
    nothing, and where its standard error says that the entry exists, or that
    there is none, that is taken to be so, as the source takes it: it goes by
    the text of the error ([errRouteExists], [errRouteMissing]).  The commands
    that set an interface up leave the table alone. *)

Definition network (cidr : string) : option string :=
  match ParseCIDR cidr with Some (_, n) => Some (Net_String n) | None => None end.

Class RouteHost {W} (R : Runner W) := {
  table : W → gset string;
  add_ok : ∀ i t n w w' out, network t = Some n →
    run R (routeCmd i "add" t) w = (w', (out, None)) → table w' = {[n]} ∪ table w;
  add_failed : ∀ i t n w w' out ce, network t = Some n →
    run R (routeCmd i "add" t) w = (w', (out, Some ce)) →
    table w' = table w ∧ (is_benign ce [errRouteExists] = true → n ∈ table w);
  del_ok : ∀ i t n w w' out, network t = Some n →
    run R (routeCmd i "delete" t) w = (w', (out, None)) → table w' = table w ∖ {[n]};
  del_failed : ∀ i t n w w' out ce, network t = Some n →
    run R (routeCmd i "delete" t) w = (w', (out, Some ce)) →
    table w' = table w ∧ (is_benign ce [errRouteMissing] = true → n ∉ table w);
  not_route : ∀ c w, c_name c = "wg" ∨ c_name c = "wireguard-go" ∨
    (c_name c = "ifconfig" ∧ list.last (c_args c) ≠ Some "down" ∧ list.last (c_args c) ≠ Some "destroy") →
    table (run R c w).1 = table w;
}.

(** A set of route targets in which no network is spelled twice. *)
Definition distinct_nets (U : gset string) : Prop :=
  (∀ t, t ∈ U → is_Some (network t)) ∧
  (∀ t u, t ∈ U → u ∈ U → network t = network u → t = u).

Section routes.
Context `{MapRange} {W : Type} (R : Runner W) `{!RouteHost R}.
Context (U : gset string) (HU : distinct_nets U).

(** Every route the mesh believes installed is in the kernel's table. *)
Definition tracked (routes : gmap string unit) (w : W) : Prop :=
  ∀ t n, t ∈ dom routes → network t = Some n → n ∈ table w.

Definition within (routes : gmap string unit) : Prop := dom routes ⊆ U.

Lemma add_tolerated i t n w w' out r : network t = Some n →
  runTolerating R (routeCmd i "add" t) [errRouteExists] w = (w', (out, r)) →
  table w ⊆ table w' ∧ table w' ⊆ {[n]} ∪ table w ∧ (r = None → n ∈ table w').
Proof.
  intros Hn. unfold runTolerating. destruct (run R _ w) as [w1 [o [ce|]]] eqn:E.
  - apply (add_failed i t n) in E as [Et Hb]; [|done].
    destruct (is_benign ce _); intros; simplify_eq; rewrite Et; split_and!; try set_solver; auto.
  - apply (add_ok i t n) in E as Et; [|done]. intros; simplify_eq. rewrite Et. set_solver.
Qed.

Lemma del_tolerated i t n w w' out r : network t = Some n →
  runTolerating R (routeCmd i "delete" t) [errRouteMissing] w = (w', (out, r)) →
  table w' ⊆ table w ∧ table w ∖ {[n]} ⊆ table w' ∧ (r = None → n ∉ table w') ∧
  (r ≠ None → table w' = table w).
Proof.
  intros Hn. unfold runTolerating. destruct (run R _ w) as [w1 [o [ce|]]] eqn:E.
  - apply (del_failed i t n) in E as [Et Hb]; [|done].
    destruct (is_benign ce _); intros; simplify_eq; rewrite Et; split_and!; try set_solver; auto.
  - apply (del_ok i t n) in E as Et; [|done]. intros; simplify_eq. rewrite Et. set_solver.
Qed.

Lemma delete_stale_spec i want ts routes w routes' w' r :
  (∀ t, t ∈ ts → t ∈ U) → within routes → tracked routes w →
  delete_stale R i want ts routes w = (routes', w', r) →
  within routes' ∧ tracked routes' w' ∧ dom routes' ⊆ dom routes ∧ table w' ⊆ table w ∧
  (∀ t, t ∈ dom routes → t ∈ want → t ∈ dom routes') ∧
  (r = Ok tt → ∀ t, t ∈ ts → t ∉ want → (t ∉ dom routes') ∧ ∀ n, network t = Some n → n ∉ table w').
Proof.
  revert routes w. induction ts as [|t ts IH]; intros routes w Hts Hw Htr; cbn [delete_stale].
  { intros; simplify_eq. split_and!; [done..|]. intros _ t Ht. by apply not_elem_of_nil in Ht. }
  assert (t ∈ U) as HtU by (apply Hts; by left).
  assert (∀ u, u ∈ ts → u ∈ U) as Hts' by (intros; apply Hts; by right).
  case_bool_decide as Hin.
  - intros Hd. edestruct IH as (? & ? & ? & ? & ? & Hok); [exact Hts'|done|done|exact Hd|].
    split_and!; [done..|]. intros Hr u Hu Hnu. apply elem_of_cons in Hu as [->|Hu]; [done|by apply Hok].
  - destruct HU as [Hnet Hinj]. destruct (Hnet t HtU) as [n Hn].
    destruct (runTolerating R _ _ w) as [w1 [o [ce|]]] eqn:E;
      apply (del_tolerated i t n) in E as (Hsub & Hkeep & Hgone & Hsame); [|done| |done]; intros Hd.
    { simplify_eq. assert (table w' = table w) as Ew by auto.
      split_and!; try done. intros u m Hu Hm. rewrite Ew. eauto. }
    assert (tracked (delete t routes) w1) as Htr1.
    { intros u m Hu Hm. apply Hkeep, elem_of_difference. rewrite dom_delete in Hu.
      apply elem_of_difference in Hu as [Hu Hne]. split; [by eapply Htr|].
      rewrite elem_of_singleton. intros ->. apply Hne, elem_of_singleton, Hinj; [by apply Hw|done|congruence]. }
    edestruct IH as (? & ? & Hdom & Htab & Hwant & Hok);
      [exact Hts'| |exact Htr1|exact Hd|].
    { unfold within. rewrite dom_delete. by apply subseteq_difference_l. }
    assert (∀ u, u ∈ dom routes' → u ∈ dom routes ∧ u ≠ t) as Hd'.
    { intros u Hu%Hdom. rewrite dom_delete in Hu. apply elem_of_difference in Hu as [? Hne].
      split; [done|]. intros ->. by apply Hne, elem_of_singleton. }
    split_and!; [done|done|by intros u [? _]%Hd'|by etransitivity| |].
    + intros u Hu Huw. apply Hwant; [|done]. rewrite dom_delete.
      apply elem_of_difference. split; [done|]. rewrite elem_of_singleton. by intros ->.
    + intros Hr u Hu Hnu. apply elem_of_cons in Hu as [->|Hu]; [|by apply Hok].
      split; [by intros [_ ?]%Hd'|]. intros m Hm. simplify_eq. intros Hmem%Htab.
      by apply Hgone.
Qed.

Lemma add_missing_spec i ts routes w routes' w' r :
  (∀ t, t ∈ ts → t ∈ U) → within routes → tracked routes w →
  add_missing R i ts routes w = (routes', w', r) →
  within routes' ∧ tracked routes' w' ∧ dom routes ⊆ dom routes' ∧
  dom routes' ⊆ dom routes ∪ list_to_set ts ∧ table w ⊆ table w' ∧
  (∀ n, n ∈ table w' → n ∈ table w ∨ ∃ t, t ∈ ts ∧ network t = Some n) ∧
  (r = Ok tt → ∀ t, t ∈ ts → t ∈ dom routes').
Proof.
  revert routes w. induction ts as [|t ts IH]; intros routes w Hts Hw Htr; cbn [add_missing].
  { intros; simplify_eq. split_and!; [done..|set_solver|done|by left|].
    intros _ t Ht. by apply not_elem_of_nil in Ht. }
  assert (t ∈ U) as HtU by (apply Hts; by left).
  assert (∀ u, u ∈ ts → u ∈ U) as Hts' by (intros; apply Hts; by right).
  destruct (routes !! t) as [[]|] eqn:Et.
  - intros Hd. edestruct IH as (? & ? & Hs & H2 & ? & H4 & Hok); [exact Hts'|done|done|exact Hd|].
    split_and!; [done..| |done| |].
    + rewrite list_to_set_cons. clear -H2. set_solver.
    + intros n Hn%H4. destruct Hn as [|(u & ? & ?)]; [by left|]. right. exists u. split; [by right|done].
    + intros Hr u Hu. apply elem_of_cons in Hu as [->|Hu]; [|by apply Hok].
      apply Hs. by apply elem_of_dom_2 in Et.
  - destruct HU as [Hnet Hinj]. destruct (Hnet t HtU) as [n Hn].
    destruct (runTolerating R _ _ w) as [w1 [o [ce|]]] eqn:E;
      apply (add_tolerated i t n) in E as (Hsub & Hsup & Hin); [|done| |done]; intros Hd.
    { simplify_eq. split_and!; [done| |done|by apply union_subseteq_l|done| |done].
      - intros u m Hu Hm. apply Hsub. by eapply Htr.
      - intros m Hm%Hsup. apply elem_of_union in Hm as [->%elem_of_singleton|?]; [|by left].
        right. exists t. split; [by left|done]. }
    assert (tracked (<[t := tt]> routes) w1) as Htr1.
    { intros u m Hu Hm. rewrite dom_insert in Hu. apply elem_of_union in Hu as [->%elem_of_singleton|Hu].
      - simplify_eq. by apply Hin.
      - apply Hsub. by eapply Htr. }
    edestruct IH as (? & ? & Hdom & Hdom' & Htab & Hmem & Hok);
      [exact Hts'| |exact Htr1|exact Hd|].
    { unfold within. rewrite dom_insert. apply union_subseteq.
      split; [by apply singleton_subseteq_l|done]. }
    rewrite dom_insert in Hdom, Hdom'.
    split_and!; [done|done| | |by etransitivity| |].
    + clear -Hdom. set_solver.
    + rewrite list_to_set_cons. clear -Hdom'. set_solver.
    + intros m Hm%Hmem. destruct Hm as [Hm%Hsup|(u & ? & ?)]; [|right; exists u; split; [by right|done]].
      apply elem_of_union in Hm as [->%elem_of_singleton|?]; [|by left].
      right. exists t. split; [by left|done].
    + intros Hr u Hu. apply elem_of_cons in Hu as [->|Hu]; [|by apply Hok].
      apply Hdom, elem_of_union_l. by apply elem_of_singleton.
Qed.

(** The state after a reconciliation, finished or not. *)
Record reconciled (routes : gmap string unit) (desired : list string)
    (routes' : gmap string unit) (w' : W) (r : result MeshError unit) : Prop := {
  rec_within : within routes';
  rec_tracked : tracked routes' w';
  rec_done : r = Ok tt → dom routes' = list_to_set desired;
  rec_gone : r = Ok tt → ∀ t n, t ∈ dom routes → t ∉ desired → network t = Some n → n ∉ table w';
}.

Lemma reconcileRoutes_spec i routes desired w routes' w' r :
  (∀ t, t ∈ desired → t ∈ U) → within routes → tracked routes w →
  reconcileRoutes R i routes desired w = (routes', w', r) →
  reconciled routes desired routes' w' r.
Proof.
  intros Hd Hw Htr. unfold reconcileRoutes.
  destruct (delete_stale R i _ _ routes w) as [[r1 w1] e1] eqn:E1.
  eapply delete_stale_spec in E1 as (Hw1 & Htr1 & Hdom1 & Htab1 & Hwant1 & Hok1); [| |done|done].
  2:{ intros t [x Hx]%range_keys_elem. apply Hw. by apply elem_of_dom_2 in Hx. }
  destruct e1 as [[]|e1]; intros Ha; [|by simplify_eq; split].
  specialize (Hok1 eq_refl).
  eapply add_missing_spec in Ha as (Hw2 & Htr2 & Hs2 & Hsup2 & Htab2 & Hmem2 & Hok2); [|done..].
  assert (∀ t, t ∈ dom routes → t ∉ desired → t ∉ dom r1) as Hstale.
  { intros t Ht Hn. apply Hok1; [|by rewrite elem_of_list_to_set].
    apply range_keys_elem. by apply elem_of_dom in Ht. }
  split; [done..| |].
  - intros Hr. apply set_eq. intros t. rewrite elem_of_list_to_set. split.
    + intros Ht%Hsup2. apply elem_of_union in Ht as [Ht|?%elem_of_list_to_set]; [|done].
      destruct (decide (t ∈ desired)) as [|Hn]; [done|]. exfalso.
      by apply (Hstale t); [apply Hdom1| |].
    + intros Ht. by apply Hok2.
  - intros Hr t n Ht Hn Hnet Hin. apply Hmem2 in Hin as [Hin|(u & Hu & Hnu)].
    + destruct (Hok1 t) as [_ Hno]; [..|by eapply Hno].
      * apply range_keys_elem. by apply elem_of_dom in Ht.
      * by rewrite elem_of_list_to_set.
    + apply Hn. assert (t = u) as ->; [|done]. destruct HU as [_ Hinj].
      apply Hinj; [by apply Hw|by apply Hd|congruence].
Qed.

Lemma up_link_table c ip w w' r : up_link R c ip w = (w', r) → table w' = table w.
Proof.
  assert (∀ c b w w' o, c_name c = "wg" ∨ c_name c = "wireguard-go" ∨
    (c_name c = "ifconfig" ∧ list.last (c_args c) ≠ Some "down" ∧ list.last (c_args c) ≠ Some "destroy") →
    runTolerating R c b w = (w', o) → table w' = table w) as Ht.
  { intros c0 b w0 w1 o Hc Hr. pose proof (runTolerating_world R c0 b w0) as Hw.
    rewrite Hr in Hw. cbn in Hw. rewrite Hw. by apply not_route. }
  assert (∀ c w w' o, c_name c = "wg" ∨ c_name c = "wireguard-go" ∨
    (c_name c = "ifconfig" ∧ list.last (c_args c) ≠ Some "down" ∧ list.last (c_args c) ≠ Some "destroy") →
    run R c w = (w', o) → table w' = table w) as Hn.
  { intros c0 w0 w1 o Hc Hr. pose proof (not_route c0 w0 Hc) as Hw. by rewrite Hr in Hw. }
  unfold up_link.
  destruct (runTolerating R _ _ w) as [w1 [o1 [e1|]]] eqn:E1; apply Ht in E1; auto; [by intros; simplify_eq|].
  destruct (run R _ w1) as [w2 [o2 [e2|]]] eqn:E2; apply Hn in E2; auto; [intros; simplify_eq; congruence|].
  destruct (runTolerating R _ _ w2) as [w3 [o3 [e3|]]] eqn:E3; apply Ht in E3; auto 6;
    [intros; simplify_eq; congruence|].
  destruct (if 0 <? i_MTU c then _ else _) as [w4 [o4 e4]] eqn:E4.
  assert (table w4 = table w3) as Ew4.
  { destruct (0 <? i_MTU c); [|by simplify_eq]. apply Hn in E4; [done|]. do 2 right.
    split_and!; [done|..]; cbn; intros [=Hm]; pose proof (Itoa_no_char "o"%char (i_MTU c)) as Hd;
      rewrite Hm in Hd; by specialize (Hd eq_refl ltac:(done)). }
  destruct e4; [intros; simplify_eq; congruence|].
  destruct (run R _ w4) as [w5 [o5 [e5|]]] eqn:E5; apply Hn in E5; auto 6; intros; simplify_eq; congruence.
Qed.
End routes.

(** ** Histories *)

Inductive mesh_op : Type := MUp | MSync (peers : list Peer).

Definition exec_mesh `{MapRange} {W} (R : Runner W) (o : mesh_op) (m : Mesh) (w : W)
    : Mesh * W * result MeshError unit :=
  match o with MUp => Up R m w | MSync ps => Sync R m ps w end.

Fixpoint run_mesh `{MapRange} {W} (R : Runner W) (ops : list mesh_op) (m : Mesh) (w : W)
    : Mesh * W * list (result MeshError unit) :=
  match ops with
  | [] => (m, w, [])
  | o :: ops' =>
      let '(m, w, r) := exec_mesh R o m w in
      let '(m, w, rs) := run_mesh R ops' m w in (m, w, r :: rs)
  end.

Definition op_targets (o : mesh_op) : list string :=
  match o with MUp => [] | MSync ps => ps ≫= p_AllowedIPs end.

Section history.
Context `{MapRange} {W : Type} (R : Runner W) `{!RouteHost R}.
Context (U : gset string) (HU : distinct_nets U).

Record mesh_inv (m : Mesh) (w : W) : Prop := {
  mi_within : within U (m_routes m);
  mi_tracked : tracked R (m_routes m) w;
  mi_peers : ∀ t, t ∈ i_Peers (m_cfg m) ≫= p_AllowedIPs → t ∈ U;
}.

Lemma elem_of_RouteTargets c t : t ∈ RouteTargets c ↔ t ∈ i_Peers c ≫= p_AllowedIPs.
Proof. apply elem_of_sorted_set. Qed.

Lemma reconcileLocked_spec m w m' w' r :
  mesh_inv m w →
  reconcileRoutesLocked R m (RouteTargets (m_cfg m)) w = (m', w', r) →
  mesh_inv m' w' ∧ m_cfg m' = m_cfg m ∧ m_up m' = m_up m ∧
  reconciled R U (m_routes m) (RouteTargets (m_cfg m)) (m_routes m') w' r.
Proof.
  intros [Hw Ht Hp]. unfold reconcileRoutesLocked.
  destruct (reconcileRoutes R _ _ _ w) as [[routes1 w1] r1] eqn:E. intros; simplify_eq.
  eapply reconcileRoutes_spec in E; [|done| |done..].
  2:{ intros t Hin%elem_of_RouteTargets. by apply Hp. }
  split_and!; try done. by destruct E.
Qed.

Lemma exec_mesh_spec o m w m' w' r :
  mesh_inv m w → (∀ t, t ∈ op_targets o → t ∈ U) → exec_mesh R o m w = (m', w', r) →
  mesh_inv m' w' ∧
  (r = Ok tt → m_up m' = true ∧ dom (m_routes m') = list_to_set (RouteTargets (m_cfg m')) ∧
     ∀ t n, t ∈ dom (m_routes m) → t ∉ RouteTargets (m_cfg m') → network t = Some n → n ∉ table w').
Proof.
  intros Hi Ho. destruct o as [|ps]; cbn [exec_mesh].
  - unfold Up. destruct (Interface_Validate _) as [[]|]; [|by intros; simplify_eq].
    destruct (addressIP _) as [ip|]; [|by intros; simplify_eq].
    destruct (up_link R _ ip w) as [w1 r1] eqn:El. apply (up_link_table R) in El.
    assert (∀ b, mesh_inv (mkMesh (m_cfg m) (m_routes m) b) w1) as Hi1.
    { intros b. destruct Hi as [Hw Ht Hp]. split; try done. intros t n Hin Hn. rewrite El. by eapply Ht. }
    destruct r1 as [u|e]; intros Hr.
    + apply (reconcileLocked_spec (mkMesh (m_cfg m) (m_routes m) true))
        in Hr as (Hi' & Hc & Hup & Hrec); [|by apply Hi1].
      split; [done|]. intros ->. rewrite Hc. destruct Hrec as [_ _ Hd Hg].
    split_and!; [done|by apply Hd|by apply Hg].
    + injection Hr as <- <- <-. split; [|done]. specialize (Hi1 (m_up m)). by destruct m.
  - unfold Sync. destruct (Interface_Validate _) as [[]|]; [|by intros; simplify_eq].
    destruct (m_up m) eqn:Eup; cbn [negb]; [|by intros; simplify_eq].
    destruct (run R _ w) as [w1 [o1 e1]] eqn:E1.
    assert (table w1 = table w) as Et.
    { pose proof (not_route (mkCmd "wg" ["syncconf"; i_Name (m_cfg m); "/dev/stdin"]
        (SyncConfig (set_peers (m_cfg m) ps))) w) as Hn. rewrite E1 in Hn. apply Hn. by left. }
    assert (mesh_inv m w1) as Hi1.
    { destruct Hi as [Hw Ht Hp]. split; try done. intros t n Hin Hn. rewrite Et. by eapply Ht. }
    destruct e1; [by intros; simplify_eq|]. intros Hr.
    apply (reconcileLocked_spec (mkMesh (set_peers (m_cfg m) ps) (m_routes m) true))
      in Hr as (Hi' & Hc & Hup & Hrec).
    2:{ destruct Hi1 as [Hw Ht Hp]. by split. }
    split; [done|]. intros ->. rewrite Hc. destruct Hrec as [_ _ Hd Hg].
    split_and!; [done|by apply Hd|by apply Hg].
Qed.

Lemma run_mesh_inv ops m w m' w' rs :
  mesh_inv m w → Forall (λ o, ∀ t, t ∈ op_targets o → t ∈ U) ops →
  run_mesh R ops m w = (m', w', rs) → mesh_inv m' w'.
Proof.
  revert m w rs. induction ops as [|o ops IH]; cbn; intros m w rs Hi Ho Hr; [by simplify_eq|].
  apply Forall_cons in Ho as [Ho Hops].
  destruct (exec_mesh R o m w) as [[m1 w1] r1] eqn:E1.
  destruct (run_mesh R ops m1 w1) as [[m2 w2] rs2] eqn:E2. simplify_eq.
  eapply IH; [|done|exact E2]. by eapply exec_mesh_spec.
Qed.
End history.

(** ** Properties of the mesh *)

(** C27: After any history of [Up] and [Sync] calls, partial failures included,
    every route the mesh tracks is in the kernel's routing table; and when the
    last call succeeds the tracked routes are exactly the peers' AllowedIPs and
    no route of a departed peer is left, provided no network is spelled in two
    ways. *)
Theorem mesh_routes_consistent `{MapRange} {W} (R : Runner W) `{!RouteHost R} U c ops o w m w1 rs m' w' r :
  distinct_nets U → (∀ t, t ∈ i_Peers c ≫= p_AllowedIPs → t ∈ U) →
  Forall (λ o, ∀ t, t ∈ op_targets o → t ∈ U) (ops ++ [o]) →
  run_mesh R ops (Mesh_New c) w = (m, w1, rs) → exec_mesh R o m w1 = (m', w', r) →
  (∀ t n, t ∈ dom (m_routes m') → network t = Some n → n ∈ table w') ∧
  (r = Ok tt →
     dom (m_routes m') = list_to_set (RouteTargets (m_cfg m')) ∧
     ∀ t n, t ∈ dom (m_routes m) → t ∉ RouteTargets (m_cfg m') → network t = Some n → n ∉ table w').
Proof.
  intros HU Hc [Hops [Ho _]%Forall_cons]%Forall_app Hr He.
  assert (mesh_inv R U (Mesh_New c) w) as H0.
  { split; [|by intros t n Ht|done]. unfold within. cbn. by rewrite dom_empty_L. }
  pose proof (run_mesh_inv R U HU _ _ _ _ _ _ H0 Hops Hr) as Hi.
  destruct (exec_mesh_spec R U HU _ _ _ _ _ _ Hi Ho He) as [[_ Ht _] Hok].
  split; [exact Ht|]. intros Er. by destruct (Hok Er) as (_ & ? & ?).
Qed.

(** A routing table that behaves as the class asks. *)
Definition rt_sim : Runner (gset string) :=
  mkRunner (λ c tbl,
    match c_args c with
    | [_; _; op; _; t; _; _] =>
        if String.eqb (c_name c) "route" then
          match network t with
          | None => (tbl, ("", Some (mkCE 1 "bad address" "exit status 1")))
          | Some n =>
              if String.eqb op "add" then
                if bool_decide (n ∈ tbl)
                then (tbl, ("", Some (mkCE 1 "route: writing to routing socket: File exists" "exit status 1")))
                else ({[n]} ∪ tbl, ("", None))
              else
                if bool_decide (n ∈ tbl) then (tbl ∖ {[n]}, ("", None))
                else (tbl, ("", Some (mkCE 1 "route: writing to routing socket: not in table" "exit status 1")))
          end
        else (tbl, ("", None))
    | _ => (tbl, ("", None))
    end).

#[export] Instance rt_sim_host : RouteHost rt_sim.
Proof.
  refine {| table := λ t, t |}.
  - intros i t n w w' out Hn Hr. cbn in Hr. rewrite Hn in Hr. case_bool_decide; by simplify_eq.
  - intros i t n w w' out ce Hn Hr. cbn in Hr. rewrite Hn in Hr. case_bool_decide; by simplify_eq.
  - intros i t n w w' out Hn Hr. cbn in Hr. rewrite Hn in Hr. case_bool_decide; by simplify_eq.
  - intros i t n w w' out ce Hn Hr. cbn in Hr. rewrite Hn in Hr. case_bool_decide; by simplify_eq.
  - intros c w Hc. assert (String.eqb (c_name c) "route" = false) as Hne.
    { destruct Hc as [->|[->|[-> _]]]; done. }
    cbn. rewrite Hne. by repeat case_match.
Defined.

Definition demo_mesh_ops : list mesh_op := [MUp].

Definition demo_mesh :=
  @run_mesh canonical_range _ rt_sim demo_mesh_ops (Mesh_New (demo_iface [peer2; peer3])) ∅.
Definition demo_sync :=
  @exec_mesh canonical_range _ rt_sim (MSync [peer3]) demo_mesh.1.1 demo_mesh.1.2.

Definition demo_targets : gset string :=
  {["10.244.2.0/24"; "10.99.0.2/32"; "10.244.3.0/24"; "10.99.0.3/32"]}.

Definition distinct_netsb (l : list string) : bool :=
  forallb (λ t, bool_decide (is_Some (network t))) l && bool_decide (NoDup (network <$> l)).

Lemma distinct_netsb_ok l : distinct_netsb l = true → distinct_nets (list_to_set l).
Proof.
  unfold distinct_netsb. rewrite andb_true_iff, forallb_forall, bool_decide_eq_true.
  intros [Hs Hn]. split.
  - intros t Ht%elem_of_list_to_set%list_elem_of_In%Hs. by bools.
  - intros t u Ht%elem_of_list_to_set Hu%elem_of_list_to_set E.
    apply list_elem_of_lookup in Ht as [i Hi], Hu as [j Hj].
    assert (i = j); [|congruence]. eapply NoDup_lookup; [exact Hn|..]; rewrite list_lookup_fmap.
    + by rewrite Hi.
    + by rewrite Hj, E.
Qed.

Lemma mesh_routes_consistent_witness :
  demo_sync.1.2 = {["10.244.3.0/24"; "10.99.0.3/32"]} ∧
  dom (m_routes demo_sync.1.1) = list_to_set (RouteTargets (m_cfg demo_sync.1.1)).
Proof.
  split; [by apply (bool_decide_unpack _); vm_compute|].
  refine (proj1 (proj2 (@mesh_routes_consistent canonical_range _ rt_sim rt_sim_host
    (list_to_set (elements demo_targets))
    (demo_iface [peer2; peer3]) demo_mesh_ops (MSync [peer3]) ∅ demo_mesh.1.1 demo_mesh.1.2 demo_mesh.2
    demo_sync.1.1 demo_sync.1.2 demo_sync.2 _ _ _ _ _) _)).
  - apply distinct_netsb_ok. by vm_compute.
  - intros t Ht. rewrite elem_of_list_to_set, elem_of_elements. unfold demo_targets. cbn in Ht. set_solver.
  - apply Forall_app. split; [apply Forall_singleton|apply Forall_singleton].
    + intros t Ht. by apply not_elem_of_nil in Ht.
    + intros t Ht. rewrite elem_of_list_to_set, elem_of_elements. unfold demo_targets. cbn in Ht. set_solver.
  - unfold demo_mesh. by destruct (run_mesh _ _ _ _) as [[??]?].
  - unfold demo_sync. by destruct (exec_mesh _ _ _ _) as [[??]?].
  - by vm_compute.
Defined.

Definition aliasA := demo_peer "mac-2" 40 "10.244.2.0/24" "10.99.0.2/24".
Definition aliasB := demo_peer "mac-3" 90 "10.244.3.0/24" "10.99.0.3/24".

Definition alias_final :=
  @run_mesh canonical_range _ rt_sim [MUp; MSync [aliasA]] (Mesh_New (demo_iface [aliasA; aliasB])) ∅.

(** Route targets are compared as text: two peers whose mesh addresses are
    written with host bits of one network share a kernel route but are tracked
    apart, so when one leaves, [Sync] deletes the shared route, reports
    success, and keeps the other peer's route in [InstalledRoutes]. *)
Theorem aliased_route_lost :
  forallb is_ok alias_final.2 = true ∧
  @InstalledRoutes canonical_range alias_final.1.1 = ["10.244.2.0/24"; "10.99.0.2/24"] ∧
  network "10.99.0.2/24" = Some "10.99.0.0/24" ∧
  alias_final.1.2 = {["10.244.2.0/24"]}.
Proof. by apply (bool_decide_unpack _); vm_compute. Qed.

Section teardown.
Context `{MapRange} {W : Type} (R : Runner W).

Lemma delete_all_trace i ts tr w :
  (delete_all (traced R) i ts (tr, w)).1 = tr ++ (routeCmd i "delete" <$> ts).
Proof.
  revert tr w. induction ts as [|t ts IH]; intros tr w; cbn [delete_all].
  { cbn. by rewrite app_nil_r. }
  pose proof (runTolerating_trace R (routeCmd i "delete" t) [errRouteMissing] tr w) as Ht.
  destruct (runTolerating (traced R) _ _ (tr, w)) as [[tr1 w1] o]. cbn in Ht |- *. subst tr1.
  rewrite IH, <- app_assoc. done.
Qed.

Lemma step_trace c b tw : (runTolerating (traced R) c b tw).1.1 = tw.1 ++ [c].
Proof. destruct tw. apply runTolerating_trace. Qed.

Lemma teardown_trace m tr w :
  (teardownLocked (traced R) m (tr, w)).2.1 =
  tr ++ (routeCmd (i_Name (m_cfg m)) "delete" <$> (range (m_routes m)).*1) ++
  [mkCmd "ifconfig" [i_Name (m_cfg m); "down"] ""; killWireGuardGoCmd (i_Name (m_cfg m));
   mkCmd "ifconfig" [i_Name (m_cfg m); "destroy"] ""].
Proof.
  unfold teardownLocked. cbn [snd]. rewrite !step_trace, delete_all_trace.
  by rewrite <- !app_assoc.
Qed.
End teardown.

Lemma seeded_routes c (r : gmap string unit) t :
  t ∈ dom (foldl (λ r t, <[t := tt]> r) r c) ↔ t ∈ c ∨ t ∈ dom r.
Proof.
  revert r. induction c as [|x c IH]; intros r; cbn [foldl].
  - rewrite elem_of_nil. naive_solver.
  - rewrite IH, dom_insert, elem_of_union, elem_of_singleton, elem_of_cons. naive_solver.
Qed.

(** Node removal needs no in-memory state: [Remove] issues one route
    deletion for every target of the configuration and every tracked route, and
    for nothing else, then takes the link down, stops its process and destroys
    it, in that order and whatever fails; it leaves the mesh down with no
    tracked route. *)
Theorem remove_cleans_config `{MapRange} {W} (R : Runner W) m tr w :
  ∃ ts, (Remove (traced R) m (tr, w)).2.1 =
      tr ++ (routeCmd (i_Name (m_cfg m)) "delete" <$> ts) ++
      [mkCmd "ifconfig" [i_Name (m_cfg m); "down"] ""; killWireGuardGoCmd (i_Name (m_cfg m));
       mkCmd "ifconfig" [i_Name (m_cfg m); "destroy"] ""] ∧
    NoDup ts ∧ (∀ t, t ∈ ts ↔ t ∈ RouteTargets (m_cfg m) ∨ t ∈ dom (m_routes m)) ∧
    (Remove (traced R) m (tr, w)).1 = mkMesh (m_cfg m) ∅ false.
Proof.
  eexists. split; [unfold Remove; rewrite teardown_trace; reflexivity|].
  split_and!; [apply range_keys_NoDup| |done].
  intros t. cbn [set_routes m_routes]. rewrite range_keys_elem, <- elem_of_dom. apply seeded_routes.
Qed.
