(* ===== verification/NetConfig.v ===== *)
(** * Network configuration: [pkg/config/{mesh,podnetwork,policy}.go]

    How one YAML file becomes the mesh's interface configuration, the router's
    configuration, the ranges Services may be redirected to and the policy of
    the privileged helper.  The theorems show that what the first three ask of
    the host is what the fourth permits. *)

From S2P Require Import Prelude GoStrings GoJson GoMarshal GoNet Host PodNet PrivPolicy PrivHelper PodNetPolicy WireGuard.

Open Scope Z_scope.

Record MeshPeerConfig := mkPeerCfg {
  mp_Name : string; mp_PublicKey : string; mp_Endpoint : string; mp_PodCIDR : string;
  mp_Address : string; mp_Keepalive : Z;
}.

Record MeshConfig := mkMeshCfg {
  mc_Enabled : bool; mc_Interface : string; mc_PrivateKeyFile : string; mc_Address : string;
  mc_ListenPort : Z; mc_MTU : Z; mc_Peers : list MeshPeerConfig;
}.

Record PodNetworkConfig := mkPodNet {
  pn_Enabled : bool; pn_Interface : string; pn_Anchor : string;
  pn_EnableForwarding : option bool; pn_VMNetCIDRs : list string;
}.

(** The stanzas of [Config] the network setup reads. *)
Record NetConfig := mkNetConfig {
  node_PodCIDR : string; c_Mesh : MeshConfig; c_PodNetwork : PodNetworkConfig;
}.

Definition DefaultMeshListenPort : Z := 51820.
Definition DefaultVMNetCIDR : string := "192.168.64.0/22".

Inductive ConfigError : Type :=
  | CMeshInterface | CMeshKeyFile | CMeshAddress (a : string) | CMeshPort (p : Z)
  | CPeerKey (i : nat) (e : KeyError) | CPeerPodCIDR (i : nat) (s : string)
  | CPeerAddress (i : nat) (s : string) | CPeerEndpoint (i : nat) (s : string)
  | CPeerResolve (name : string) (e : KeyError) | CKeyFile (e : LoadError)
  | CPodNetInterface | CVMNetCIDR (s : string) | CMeshDisabled.

(** ** [mesh.go] *)

Definition validate_mesh_peer (i : nat) (p : MeshPeerConfig) : result ConfigError unit :=
  match ParseKey (mp_PublicKey p) with
  | Err e => Err (CPeerKey i e)
  | Ok _ =>
      guard (is_cidr (mp_PodCIDR p)) (CPeerPodCIDR i (mp_PodCIDR p)) ;--
      guard (String.eqb (mp_Address p) "" || is_cidr (mp_Address p)) (CPeerAddress i (mp_Address p)) ;--
      guard (String.eqb (mp_Endpoint p) "" || bool_decide (is_Some (SplitHostPort (mp_Endpoint p))))
        (CPeerEndpoint i (mp_Endpoint p))
  end.

Fixpoint validate_mesh_peers (i : nat) (ps : list MeshPeerConfig) : result ConfigError unit :=
  match ps with
  | [] => Ok tt
  | p :: ps' => validate_mesh_peer i p ;-- validate_mesh_peers (S i) ps'
  end.

Definition validateMesh (c : NetConfig) : result ConfigError unit :=
  let m := c_Mesh c in
  if negb (mc_Enabled m) then Ok tt else
  guard (negb (String.eqb (mc_Interface m) "")) CMeshInterface ;--
  guard (negb (String.eqb (mc_PrivateKeyFile m) "")) CMeshKeyFile ;--
  guard (is_cidr (mc_Address m)) (CMeshAddress (mc_Address m)) ;--
  guard ((0 <=? mc_ListenPort m) && (mc_ListenPort m <=? 65535)) (CMeshPort (mc_ListenPort m)) ;--
  validate_mesh_peers 0 (mc_Peers m).

Definition resolve_peer (p : MeshPeerConfig) : result ConfigError Peer :=
  match ParseKey (mp_PublicKey p) with
  | Err e => Err (CPeerResolve (mp_Name p) e)
  | Ok pub =>
      Ok (mkPeer (mp_Name p) pub (mp_Endpoint p)
            (mp_PodCIDR p :: (if String.eqb (mp_Address p) "" then [] else [mp_Address p]))
            (mp_Keepalive p))
  end.

Definition resolvePeers (m : MeshConfig) : result ConfigError (list Peer) :=
  map_result resolve_peer (mc_Peers m).

Definition MeshPeers (c : NetConfig) : result ConfigError (list Peer) := resolvePeers (c_Mesh c).

(** [file] and [rand] are what [LoadOrCreateKey] reads. *)
Definition MeshInterfaceConfig (c : NetConfig) (file : result string (option string)) (rand : Key)
    : result ConfigError InterfaceConfig :=
  let m := c_Mesh c in
  match LoadOrCreateKey file rand with
  | Err e => Err (CKeyFile e)
  | Ok (priv, _) =>
      let port := if mc_ListenPort m =? 0 then DefaultMeshListenPort else mc_ListenPort m in
      peers <-- resolvePeers m;
      Ok (mkIface (mc_Interface m) priv (mc_Address m) port (mc_MTU m) peers)
  end.

(** ** [podnetwork.go] *)

Definition validatePodNetwork (c : NetConfig) : result ConfigError unit :=
  let pn := c_PodNetwork c in
  if negb (pn_Enabled pn) then Ok tt else
  guard (negb (String.eqb (pn_Interface pn) "")) CPodNetInterface ;--
  for_each (λ cidr, guard (is_cidr cidr) (CVMNetCIDR cidr)) (pn_VMNetCIDRs pn).

Definition PodNetworkRouterConfig (c : NetConfig) : RouterConfig :=
  let pn := c_PodNetwork c in
  mkRouterConfig (pn_Interface pn) (mc_Interface (c_Mesh c)) (pn_Anchor pn)
    (default true (pn_EnableForwarding pn)).

Definition RoutableServiceCIDRs (c : NetConfig) : list string :=
  let pn := c_PodNetwork c in
  (if String.eqb (node_PodCIDR c) "" then [] else [node_PodCIDR c]) ++
  (if pn_Enabled pn && bool_decide (pn_VMNetCIDRs pn = []) then [DefaultVMNetCIDR]
   else pn_VMNetCIDRs pn) ++
  (if mc_Enabled (c_Mesh c) then
     filter (λ s, s ≠ "") (mp_PodCIDR <$> mc_Peers (c_Mesh c))
   else []).

(** ** [policy.go] *)

Definition PrivilegedHelperPolicy (c : NetConfig) (file : result string (option string)) (rand : Key)
    : result ConfigError Policy :=
  let pn := c_PodNetwork c in
  let anchor := if String.eqb (pn_Anchor pn) "" then DefaultAnchor else pn_Anchor pn in
  let podcidrs := if String.eqb (node_PodCIDR c) "" then ∅ else NormalizeCIDRSet [node_PodCIDR c] in
  let vmnet :=
    if pn_Enabled pn then
      NormalizeCIDRSet (if bool_decide (pn_VMNetCIDRs pn = []) then [DefaultVMNetCIDR] else pn_VMNetCIDRs pn)
    else ∅ in
  if negb (mc_Enabled (c_Mesh c)) then
    Ok (mkPolicy "" (pn_Interface pn) anchor "" 0 ∅ podcidrs vmnet ∅)
  else
    ifc <-- MeshInterfaceConfig c file rand;
    Ok (mkPolicy (i_Name ifc) (pn_Interface pn) anchor
          (match ParseCIDR (i_Address ifc) with Some (ip, _) => IP_String ip | None => "" end)
          (i_MTU ifc)
          (NormalizeCIDRSet (RouteTargets ifc))
          (foldl (λ s p, if String.eqb (mp_PodCIDR p) "" then s
                         else NormalizeCIDRSet [mp_PodCIDR p] ∪ s) podcidrs (mc_Peers (c_Mesh c)))
          vmnet
          (list_to_set ((λ p, Key_String (p_PublicKey p)) <$> i_Peers ifc))).

(** ** Normalised sets *)

Lemma normalizeCIDR_network s : normalizeCIDR s = network s.
Proof. done. Qed.

Lemma elem_of_NormalizeCIDRSet l n :
  n ∈ NormalizeCIDRSet l ↔ ∃ c, c ∈ l ∧ normalizeCIDR c = Some n.
Proof.
  unfold NormalizeCIDRSet.
  assert (∀ s : gset string, n ∈ foldl (λ out c, match normalizeCIDR c with Some norm => {[norm]} ∪ out | None => out end) s l ↔
    n ∈ s ∨ ∃ c, c ∈ l ∧ normalizeCIDR c = Some n) as Hg.
  { induction l as [|c l IH]; intros s; cbn [foldl].
    - split; [by left|]. intros [|(c & Hc & _)]; [done|by apply not_elem_of_nil in Hc].
    - rewrite IH. setoid_rewrite elem_of_cons. destruct (normalizeCIDR c) as [m|] eqn:E.
      + rewrite elem_of_union, elem_of_singleton. split.
        * intros [[->|?]|(d & ? & ?)]; [right; exists c; auto|by left|right; exists d; auto].
        * intros [?|(d & [->|?] & Hd)]; [auto|left; left; congruence|right; exists d; auto].
      + split.
        * intros [?|(d & ? & ?)]; [by left|right; exists d; auto].
        * intros [?|(d & [->|?] & Hd)]; [auto|congruence|right; exists d; auto]. }
  rewrite Hg, elem_of_empty. naive_solver.
Qed.

(** An address of an IPv4 range is in every normalised set built from it. *)
Lemma ipInSet_normalized b ip cidr ip' n s :
  ParseIP b = Some ip → ParseCIDR cidr = Some (ip', n) → net_mw n = W4 → Net_Contains n ip = true →
  Net_String n ∈ s → ipInSet b s = true.
Proof.
  intros Hb Hc Hm Hin Hs. unfold ipInSet. rewrite Hb. apply existsb_exists.
  exists (Net_String n). split; [by apply list_elem_of_In, elem_of_elements|].
  unfold in_cidr. by destruct (ParseCIDR_Net_String _ _ _ Hc Hm) as [? ->].
Qed.

(** ** WireGuard configuration lines *)

Lemma TrimSpace_space v : edged v → TrimSpace (String " " v) = v.
Proof.
  intros Hv. pose proof (TrimSpace_edged v Hv) as Ht. unfold TrimSpace in *.
  change (drop_spaces 0 (String " " v)) with (drop_spaces 0 v). done.
Qed.

Lemma trim_right_edged v : edged v → trim_right (String " " v) = String " " v.
Proof.
  intros (a & b & r & Ha & Hb & [->| ->]).
  - by apply (trim_right_graph " " a "").
  - change (String " " (String a (r +:+ String b ""))) with ((String " " (String a r)) +:+ String b "").
    by rewrite (trim_right_graph _ b "").
Qed.

Lemma word_edged v : is_word v = true → edged v.
Proof.
  intros [Hg Hne]%is_word_spec. destruct v as [|a t]; [done|].
  rewrite graphic_cons in Hg. apply andb_true_iff in Hg as [Ha Ht].
  destruct (decide (t = "")) as [->|Hne']; [by exists a, a, ""; auto|].
  rewrite <- (sapp_nil_l t). by apply edged_words.
Qed.

Lemma word_space k : is_word k = true → TrimSpace (k +:+ " ") = k.
Proof.
  intros Hk. apply word_edged in Hk as (a & b & r & Ha & Hb & [->| ->]); unfold TrimSpace.
  - change (String a "" +:+ " ") with (String a " "). rewrite drop_spaces_graph by done.
    by apply (trim_right_graph "" a " ").
  - rewrite sapp_cons, drop_spaces_graph by done.
    rewrite sapp_assoc, <- sapp_cons. by rewrite (trim_right_graph _ b " ").
Qed.

(** [Key = value], as the lint reads it. *)
Lemma kv_line k v : is_word k = true → no_char (ch 61) k = true →
  ∃ line, TrimSpace (k +:+ " = " +:+ v) = line ∧
    cut_on (ch 61) line = Some (k +:+ " ", trim_right (String " " v)).
Proof.
  intros Hk Hn. eexists. split; [done|].
  pose proof (proj1 (is_word_spec k) Hk) as [Hg Hne]. destruct k as [|a k]; [done|].
  rewrite graphic_cons in Hg. apply andb_true_iff in Hg as [Ha Hg].
  assert (String a k +:+ " = " +:+ v = String a ((k +:+ " ") +:+ String (ch 61) (String " " v))) as ->.
  { rewrite sapp_cons, sapp_assoc. done. }
  rewrite TrimSpace_keeps by done. rewrite <- sapp_cons, cut_on_app; [done|].
  rewrite <- sapp_cons, no_char_app, Hn. done.
Qed.

Lemma kv_good p k v : is_word k = true → no_char (ch 61) k = true →
  (k = "PublicKey" → is_word v = true ∧ v ∈ PeerPublicKeys p) →
  (k = "AllowedIPs" → edged v ∧ Forall (λ c, route_cidr p (TrimSpace c)) (split_on (ch 44) v)) →
  wg_line p (k +:+ " = " +:+ v).
Proof.
  intros Hk Hn Hpub Hips. destruct (kv_line k v Hk Hn) as (line & Hl & Hc).
  unfold wg_line. rewrite Hl. do 3 right. exists (k +:+ " "), (trim_right (String " " v)).
  rewrite word_space by done. split_and!; [done|..]; intros Ek.
  - destruct (Hpub Ek) as [Hw Hin]. rewrite trim_right_edged, TrimSpace_space by by apply word_edged. done.
  - destruct (Hips Ek) as [He Hf]. by rewrite trim_right_edged, TrimSpace_space.
Qed.

Lemma Join_comma_edged l :
  l ≠ [] → Forall (λ s, is_word s = true) l → edged (Join l ", ").
Proof.
  intros Hne Hl. destruct l as [|t l]; [done|].
  apply Forall_cons in Hl as [Ht Hl]. apply word_edged in Ht as Hte.
  destruct l as [|x l _] using rev_ind; [done|].
  assert (∀ t, ∃ r, Join (t :: l ++ [x]) ", " = t +:+ r +:+ x) as Hj.
  { clear. induction l as [|y l IH]; intros t; [by exists ", "|].
    destruct (IH y) as [r Hr]. exists (", " +:+ y +:+ r).
    change (Join (t :: (y :: l) ++ [x]) ", ") with (t +:+ ", " +:+ Join (y :: l ++ [x]) ", ").
    rewrite Hr. rewrite !sapp_assoc. done. }
  destruct (Hj t) as [r ->]. apply Forall_app in Hl as [_ [[Hg Hn]%is_word_spec _]%Forall_cons].
  destruct Hte as (a & b & q & Ha & _ & [->| ->]).
  - change (String a "" +:+ r +:+ x) with (String a (r +:+ x)). by apply edged_words.
  - rewrite sapp_cons, sapp_assoc, <- (sapp_assoc _ r x), <- (sapp_assoc q). by apply edged_words.
Qed.

Lemma split_Join (P : string → Prop) l : l ≠ [] →
  Forall (λ s, is_word s = true ∧ no_char (ch 44) s = true ∧ P s) l →
  Forall (λ x, P (TrimSpace x)) (split_on (ch 44) (Join l ", ")) ∧
  Forall (λ x, P (TrimSpace x)) (split_on (ch 44) (String " " (Join l ", "))).
Proof.
  intros Hne Hl. induction l as [|t l IH]; [done|].
  apply Forall_cons in Hl as [(Hw & Hc & HP) Hl]. pose proof (word_edged t Hw) as He.
  assert (no_char (ch 44) (String " " t) = true) as Hc' by (by rewrite no_char_cons, Hc).
  destruct l as [|u l].
  - cbn [Join]. rewrite !split_on_none by done. rewrite !Forall_singleton.
    by rewrite TrimSpace_edged, TrimSpace_space.
  - destruct (IH ltac:(done) Hl) as [_ IH2].
    change (Join (t :: u :: l) ", ") with (t +:+ String (ch 44) (String " " (Join (u :: l) ", "))).
    rewrite <- sapp_cons, !split_on_app, !Forall_cons by done.
    by rewrite TrimSpace_edged, TrimSpace_space.
Qed.

(** A configuration whose peers and ranges the policy lists. *)
Record wg_scope (p : Policy) (c : InterfaceConfig) : Prop := {
  ws_private : key_wf (i_PrivateKey c);
  ws_peers : Forall (λ q, key_wf (p_PublicKey q) ∧ Key_String (p_PublicKey q) ∈ PeerPublicKeys p ∧
    no_char newline (p_Name q) = true ∧ no_char newline (p_Endpoint q) = true ∧
    p_AllowedIPs q ≠ [] ∧ Forall (route_cidr p) (p_AllowedIPs q)) (i_Peers c);
}.

Definition good_wg (p : Policy) (l : string) : Prop := no_char newline l = true ∧ wg_line p l.

Lemma good_kv p k v : is_word k = true → no_char (ch 61) k = true → no_char newline v = true →
  k ≠ "PublicKey" → k ≠ "AllowedIPs" → good_wg p (k +:+ " = " +:+ v).
Proof.
  intros Hk Hn Hv H1 H2. split; [|by apply kv_good].
  rewrite !no_char_app, Hv. apply is_word_spec in Hk as [Hk _]. by rewrite (graphic_no_char newline k).
Qed.

Lemma good_section p l : HasPrefix l "[" = true → graphic l = true → good_wg p l.
Proof.
  intros Hp Hg. split; [by apply graphic_no_char|]. right; right; left.
  by rewrite graphic_TrimSpace.
Qed.

Lemma good_Itoa p k n : is_word k = true → no_char (ch 61) k = true →
  k ≠ "PublicKey" → k ≠ "AllowedIPs" → good_wg p (k +:+ " = " +:+ Itoa n).
Proof. intros. apply good_kv; try done. by apply Itoa_no_char. Qed.

Lemma route_cidr_word p s : route_cidr p s → is_word s = true ∧ no_char (ch 44) s = true.
Proof.
  unfold route_cidr, normalizeCIDR. intros (n & Hn & _).
  destruct (ParseCIDR s) as [r|] eqn:E; [|done].
  split; [by eapply ParseCIDR_word|]. by eapply ParseCIDR_no_char.
Qed.

Lemma good_allowed p l : l ≠ [] → Forall (route_cidr p) l →
  good_wg p ("AllowedIPs" +:+ " = " +:+ Join l ", ").
Proof.
  intros Hne Hl.
  assert (Forall (λ s, is_word s = true ∧ no_char (ch 44) s = true ∧ route_cidr p s) l) as Hw.
  { eapply Forall_impl; [exact Hl|]. intros s Hs. by destruct (route_cidr_word _ _ Hs). }
  split.
  - rewrite !no_char_app. rewrite <- pool_words_Join. rewrite words_no_newline; [done|].
    clear Hne Hl. induction l as [|t l IH]; [done|]. apply Forall_cons in Hw as [(Ht & _) Hw].
    destruct l as [|u l]; [by apply Forall_cons|].
    change (pool_words (t :: u :: l)) with ((t +:+ ",") :: pool_words (u :: l)).
    apply Forall_cons. split; [by apply is_word_app|auto].
  - apply kv_good; [done..|]. intros _. split.
    + apply Join_comma_edged; [done|]. eapply Forall_impl; [exact Hw|]. by intros ? (? & _).
    + by apply (split_Join (route_cidr p) l).
Qed.

Lemma block_good p q :
  key_wf (p_PublicKey q) → Key_String (p_PublicKey q) ∈ PeerPublicKeys p →
  no_char newline (p_Name q) = true → no_char newline (p_Endpoint q) = true →
  p_AllowedIPs q ≠ [] → Forall (route_cidr p) (p_AllowedIPs q) →
  Forall (good_wg p) (ConfigBlock_lines q).
Proof.
  intros Hk Hin Hn He Hne Hr. unfold ConfigBlock_lines. rewrite !Forall_app. split_and!.
  - by apply Forall_cons; split; [apply good_section|].
  - destruct (String.eqb _ _); [done|]. apply Forall_cons. split; [|done]. split.
    + by rewrite no_char_app, Hn.
    + right; left. apply (comment_line (" " +:+ p_Name q)).
  - apply Forall_cons. split; [|done]. pose proof (Key_String_word _ Hk) as Hw. split.
    + rewrite no_char_app. apply is_word_spec in Hw as [Hw _]. by rewrite (graphic_no_char newline _ eq_refl Hw).
    + by apply (kv_good p "PublicKey").
  - destruct (String.eqb _ _); [done|]. apply Forall_cons. split; [|done].
    by apply (good_kv p "Endpoint").
  - apply Forall_cons. split; [|done]. by apply good_allowed.
  - destruct (_ <? _); [|done]. apply Forall_cons. split; [|done].
    by apply (good_Itoa p "PersistentKeepalive").
Qed.

Lemma sync_good p c : wg_scope p c → Forall (good_wg p) (render_lines false c).
Proof.
  intros [Hk Hp]. unfold render_lines. rewrite !Forall_app. split_and!; [|done| |].
  - repeat (apply Forall_cons; split); [by apply good_section| |done].
    apply (good_kv p "PrivateKey"); try done.
    pose proof (Key_String_word _ Hk) as [Hw _]%is_word_spec. by apply graphic_no_char.
  - apply Forall_cons. split; [|done]. by apply (good_Itoa p "ListenPort").
  - apply Forall_bind. unfold sortedPeers. rewrite sort_by_perm.
    eapply Forall_impl; [exact Hp|]. intros q (? & ? & ? & ? & ? & ?).
    apply Forall_cons. split; [by split; [|left]|by apply block_good].
Qed.

Lemma wg_scope_accepted p c : wg_scope p c → Forall (wg_line p) (split_on newline (SyncConfig c)).
Proof.
  intros Hs%sync_good. unfold SyncConfig, render.
  change (text_of (render_lines false c)) with (lines_text (render_lines false c)).
  rewrite no_newline_lines; [|by eapply Forall_impl; [exact Hs|intros ? []]].
  apply Forall_app. split; [by eapply Forall_impl; [exact Hs|intros ? []]|].
  apply Forall_cons. by split; [left|].
Qed.

(** ** The mesh through the daemon *)

(** The same executor without the daemon's checks in front. *)
Definition direct {W} (exec : ExecFunc W) : Runner W :=
  mkRunner (λ c w,
    let '(w', (out, errout, code, err)) := exec (mkReq (c_name c) (c_args c) (c_stdin c)) w in
    (w', (out, match err with
               | Some e => Some (mkCE code errout (client_error_text (EAPI (Some CodeExecError) e)))
               | None => if code =? 0 then None else Some (mkCE code errout "")
               end))).

(** An executor whose output is valid UTF-8. *)
Definition plain_output {W} (exec : ExecFunc W) : Prop := ∀ req w w' out errout code err,
  exec req w = (w', (out, errout, code, err)) → to_valid out = out ∧ to_valid errout = errout ∧ ∀ e, err = Some e → to_valid e = e.

Section through_daemon.
Context `{MapRange} {W : Type} `{!Link W} (s : Server W) (p : Policy) (Hp : s_policy s = Some p).

(** What the daemon answers when the policy refuses, or when the exchange fails. *)
Lemma via_daemon_refused c w :
  carried c → ~ permits p (mkReq (c_name c) (c_args c) (c_stdin c)) →
  ∃ ce, run (via_daemon s) c w = (w, ("", Some ce)) ∧ ce_stderr ce = "".
Proof.
  intros Hc Hn. cbn [run via_daemon]. rewrite helperRunner_run, Hc. cbn [w_cmd wire_of].
  assert (∃ m code, handleExec s (mkReq (c_name c) (c_args c) (c_stdin c)) w = (w, writeError code m)) as (m & code & ->).
  { unfold handleExec. destruct (negb _); [by eexists _, _|]. rewrite Hp.
    destruct (Validate p _) as [[]|] eqn:E; [by apply Validate_permits in E|by eexists _, _]. }
  destruct (delivery _ w); by eexists.
Qed.

Lemma tolerating_refused c b w :
  carried c → ~ permits p (mkReq (c_name c) (c_args c) (c_stdin c)) →
  ∃ ce, runTolerating (via_daemon s) c b w = (w, ("", Some ce)).
Proof.
  intros Hc Hn. destruct (via_daemon_refused c w Hc Hn) as (ce & Hr & Hs). exists ce.
  unfold runTolerating. rewrite Hr. assert (is_benign ce b = false) as ->; [|done].
  unfold is_benign. rewrite Hs. change (ToLower "") with "".
  induction b as [|x b IH]; [done|]. cbn [existsb]. by destruct x.
Qed.

Section direct.
Context (Hd : ∀ r w, delivery r w = Delivered) (Hout : plain_output (s_exec s)).

Lemma via_daemon_direct c w :
  c_name c ∈ allowedCommands → permits p (mkReq (c_name c) (c_args c) (c_stdin c)) → carried c →
  run (via_daemon s) c w = run (direct (s_exec s)) c w.
Proof.
  intros Ha Hperm Hc. cbn [run via_daemon direct]. rewrite helperRunner_carried by done.
  unfold handleExec, IsAllowed. cbn [Name]. rewrite bool_decide_true by done. cbn [negb].
  rewrite Hp. apply permits_Validate in Hperm as ->.
  destruct (s_exec s _ w) as [w' [[[out eo] code] er]] eqn:E. destruct (Hout _ _ _ _ _ _ _ E) as (H1 & H2 & H3).
  unfold answer, received. cbn. rewrite H1, H2. destruct er as [e|]; cbn; [by rewrite (H3 e)|done].
Qed.

Lemma tolerating_direct c b w :
  c_name c ∈ allowedCommands → permits p (mkReq (c_name c) (c_args c) (c_stdin c)) → carried c →
  runTolerating (via_daemon s) c b w = runTolerating (direct (s_exec s)) c b w.
Proof. intros. unfold runTolerating. by rewrite via_daemon_direct. Qed.

Lemma add_missing_direct i ts routes w :
  mesh_iface p i → Forall (route_cidr p) ts → Forall (λ t, carried (routeCmd i "add" t)) ts →
  add_missing (via_daemon s) i ts routes w = add_missing (direct (s_exec s)) i ts routes w.
Proof.
  intros Hi. revert routes w. induction ts as [|t ts IH]; intros routes w Hts Hcs; [done|].
  apply Forall_cons in Hts as [Ht Hts]. apply Forall_cons in Hcs as [Hct Hcs]. cbn [add_missing].
  destruct (routes !! t); [auto|]. rewrite tolerating_direct.
  - destruct (runTolerating _ _ _ w) as [w' [o [ce|]]]; auto.
  - set_solver.
  - constructor; auto. unfold routeFamily. destruct (ParseCIDR t) as [[ip n]|]; auto.
    destruct (To4 ip); auto.
  - done.
Qed.
End direct.

Lemma delete_stale_none {W'} (R : Runner W') i want ts routes w' :
  (∀ t, t ∈ ts → t ∈ want) → delete_stale R i want ts routes w' = (routes, w', Ok tt).
Proof.
  intros Ht. induction ts as [|t ts IH]; [done|]. cbn [delete_stale].
  rewrite bool_decide_true by (apply Ht; by left). apply IH. intros u Hu. apply Ht. by right.
Qed.

Lemma route_permitted_iff i t op :
  permits p (mkReq "route" ["-q"; "-n"; op; routeFamily t; t; "-interface"; i] "") → route_cidr p t.
Proof. intros Hperm. by inversion Hperm. Qed.

(** A stale route outside the policy cannot be deleted: the loop stops and
    the route stays tracked. *)
Lemma delete_stale_refused i want ts routes w t :
  t ∈ ts → t ∉ want → ~ route_cidr p t → carried (routeCmd i "delete" t) → t ∈ dom routes →
  ∃ routes' w' e, delete_stale (via_daemon s) i want ts routes w = (routes', w', Err e) ∧
    t ∈ dom routes'.
Proof.
  intros Hin Hw Hr Hc. revert routes w. induction ts as [|u ts IH]; intros routes w Ht.
  { by apply not_elem_of_nil in Hin. }
  cbn [delete_stale]. case_bool_decide as Hu.
  - apply elem_of_cons in Hin as [->|Hin]; [done|]. by apply IH.
  - destruct (decide (u = t)) as [->|Hne].
    + destruct (tolerating_refused (routeCmd i "delete" t) [errRouteMissing] w Hc) as [ce ->].
      { intros Hperm. by apply route_permitted_iff in Hperm. }
      by eexists _, _, _.
    + destruct (runTolerating _ _ _ w) as [w' [o [ce|]]]; [by eexists _, _, _|].
      apply elem_of_cons in Hin as [->|Hin]; [done|]. apply IH; [done|].
      rewrite dom_delete. apply elem_of_difference. split; [done|]. by rewrite elem_of_singleton.
Qed.
End through_daemon.

(** ** Keys that reach the configuration are well formed *)

Lemma b64_val_bounds a v : b64_val a = Some v → 0 ≤ v < 64.
Proof. unfold b64_val. intros Hv. repeat (case_match; bools); simplify_eq; lia. Qed.

Lemma decode_bounds : ∀ t bs, decode_quanta t = Some bs → Forall (λ b, 0 ≤ b < 256) bs.
Proof.
  fix IH 1. intros [|c0 [|c1 [|c2 [|c3 r]]]] bs; cbn [decode_quanta]; try done.
  { intros [= <-]. constructor. }
  destruct (b64_val c0) as [v0|] eqn:E0; [|done]. destruct (b64_val c1) as [v1|] eqn:E1; [|done].
  apply b64_val_bounds in E0, E1.
  destruct (b64_val c2) as [v2|] eqn:E2; destruct (b64_val c3) as [v3|] eqn:E3;
    repeat match goal with H : b64_val _ = Some _ |- _ => apply b64_val_bounds in H end.
  - destruct (decode_quanta r) as [bs'|] eqn:Er; [|done]. intros [= <-]. apply IH in Er.
    repeat (apply Forall_cons; split); try done; Z.div_mod_to_equations; lia.
  - destruct (_ && _); [|done]. intros [= <-].
    repeat (apply Forall_cons; split); try done; Z.div_mod_to_equations; lia.
  - done.
  - destruct (_ && _); [|done]. intros [= <-].
    repeat (apply Forall_cons; split); try done; Z.div_mod_to_equations; lia.
Qed.

Lemma ParseKey_wf t k : ParseKey t = Ok k → key_wf k.
Proof.
  unfold ParseKey, DecodeString. destruct (decode_quanta _) as [b|] eqn:E; [|done].
  destruct (Nat.eqb (length b) KeyLen) eqn:El; [|done]. intros [= <-].
  apply Nat.eqb_eq in El. split; [done|]. by eapply decode_bounds.
Qed.

Lemma LoadOrCreateKey_wf file rand k t :
  key_wf rand → LoadOrCreateKey file rand = Ok (k, t) → key_wf k.
Proof.
  intros Hr. unfold LoadOrCreateKey. destruct file as [[data|]|e]; [| |done].
  - destruct (ParseKey data) eqn:E; [|done]. intros [= <- _]. by eapply ParseKey_wf.
  - intros [= <- _]. by apply clamp_wf.
Qed.

Lemma resolvePeers_spec m peers :
  resolvePeers m = Ok peers →
  Forall2 (λ q pr, resolve_peer q = Ok pr) (mc_Peers m) peers ∧
  Forall (λ pr, key_wf (p_PublicKey pr)) peers.
Proof.
  unfold resolvePeers. rewrite map_result_Ok. intros Hf. split; [done|].
  induction Hf as [|q pr qs prs Hq _ IH]; constructor; [|done].
  unfold resolve_peer in Hq. destruct (ParseKey _) eqn:E; [|done]. simplify_eq. by eapply ParseKey_wf.
Qed.

(** One YAML file: the policy and the mesh configuration it yields. *)
Lemma policy_of_mesh c file rand p :
  mc_Enabled (c_Mesh c) = true → PrivilegedHelperPolicy c file rand = Ok p →
  ∃ ifc, MeshInterfaceConfig c file rand = Ok ifc ∧
    MeshInterface p = i_Name ifc ∧ MTU p = i_MTU ifc ∧
    MeshAddressIP p = match ParseCIDR (i_Address ifc) with Some (ip, _) => IP_String ip | None => "" end ∧
    RouteCIDRs p = NormalizeCIDRSet (RouteTargets ifc) ∧
    PeerPublicKeys p = list_to_set ((λ q, Key_String (p_PublicKey q)) <$> i_Peers ifc).
Proof.
  intros He. unfold PrivilegedHelperPolicy. rewrite He. cbn [negb].
  destruct (MeshInterfaceConfig c file rand) as [ifc|]; [|done]. intros [= <-]. by exists ifc.
Qed.

Lemma MeshInterfaceConfig_wf c file rand ifc :
  key_wf rand → MeshInterfaceConfig c file rand = Ok ifc →
  key_wf (i_PrivateKey ifc) ∧ Forall (λ q, key_wf (p_PublicKey q)) (i_Peers ifc).
Proof.
  intros Hr. unfold MeshInterfaceConfig.
  destruct (LoadOrCreateKey file rand) as [[k t]|] eqn:Ek; [|done].
  destruct (resolvePeers _) as [peers|] eqn:Ep; [|done]. intros [= <-].
  split; [by eapply LoadOrCreateKey_wf|by eapply resolvePeers_spec].
Qed.

Lemma Peer_validate_spec q : Peer_validate q = Ok tt →
  p_AllowedIPs q ≠ [] ∧ Forall (λ c, is_cidr c = true) (p_AllowedIPs q).
Proof.
  unfold Peer_validate. rewrite !seq_Ok. lint. intros (_ & Hne & Hf & _). split.
  - by bools.
  - eapply Forall_impl; [exact Hf|]. intros c. by lint.
Qed.

Lemma target_permitted p ifc t :
  RouteCIDRs p = NormalizeCIDRSet (RouteTargets ifc) → t ∈ RouteTargets ifc → is_cidr t = true →
  route_cidr p t.
Proof.
  intros Hr Hin Hc. unfold is_cidr in Hc. bools. destruct Hc as [[ip n] Hc].
  exists (Net_String n). unfold normalizeCIDR. rewrite Hc. split; [done|].
  rewrite Hr. apply elem_of_NormalizeCIDRSet. exists t. unfold normalizeCIDR. by rewrite Hc.
Qed.

(** ** Properties *)

(** Text fields that a line-based configuration can carry. *)
Definition one_line_peers (ifc : InterfaceConfig) : Prop :=
  Forall (λ q, no_char newline (p_Name q) = true ∧ no_char newline (p_Endpoint q) = true) (i_Peers ifc).

Lemma targets_permitted p ifc :
  RouteCIDRs p = NormalizeCIDRSet (RouteTargets ifc) → Interface_Validate ifc = Ok tt →
  (∀ t, t ∈ RouteTargets ifc → route_cidr p t) ∧
  Forall (λ q, p_AllowedIPs q ≠ [] ∧ Forall (route_cidr p) (p_AllowedIPs q)) (i_Peers ifc).
Proof.
  intros Hr (_ & _ & Hv)%Interface_Validate_peers. rewrite Forall_forall in Hv.
  assert (∀ q t, q ∈ i_Peers ifc → t ∈ p_AllowedIPs q → route_cidr p t) as Hq.
  { intros q t Hin Ht. apply (target_permitted p ifc); [done| |].
    - apply elem_of_RouteTargets, list_elem_of_bind. eauto.
    - destruct (Peer_validate_spec q (Hv q Hin)) as [_ Hf]. rewrite Forall_forall in Hf. auto. }
  split.
  - intros t Ht%elem_of_RouteTargets%list_elem_of_bind. destruct Ht as (q & Ht & Hin). eauto.
  - apply Forall_forall. intros q Hin. destruct (Peer_validate_spec q (Hv q Hin)) as [? _].
    split; [done|]. apply Forall_forall. eauto.
Qed.

Lemma ipEqual_address ip :
  (∃ x, To4 ip = Some x ∧ 0 ≤ ip_v x < 2 ^ 32 ∧ ip_w x = W4) → ipEqual (IP_String ip) (IP_String ip) = true.
Proof.
  intros (x & Hx & Hb & _). unfold IP_String. rewrite Hx. unfold ipEqual.
  rewrite ParseIP_string4 by done.
  destruct (String.eqb (string4 (ip_v x)) "") eqn:E.
  { bools. pose proof (ParseIP_string4 _ Hb) as Hp. rewrite E in Hp. discriminate Hp. }
  cbn. unfold IP_Equal. by rewrite bool_decide_true.
Qed.

Lemma To4_bounds ip x : ip_wf ip → To4 ip = Some x → 0 ≤ ip_v x < 2 ^ 32 ∧ ip_w x = W4.
Proof.
  unfold To4, ip_wf. destruct ip as [[] v]; cbn; [by intros ? [= <-]|].
  destruct (v4mapped v); [|done]. intros Hv [= <-]. cbn. split; [|done].
  apply Z.mod_pos_bound. lia.
Qed.

Section mesh_scope.
Context (c : NetConfig) (file : result string (option string)) (rand : Key).
Context (p : Policy) (ifc : InterfaceConfig).
Context (Hrand : key_wf rand) (He : mc_Enabled (c_Mesh c) = true).
Context (Hpol : PrivilegedHelperPolicy c file rand = Ok p).
Context (Hifc : MeshInterfaceConfig c file rand = Ok ifc).
Context (Hval : Interface_Validate ifc = Ok tt) (Hlines : one_line_peers ifc).

Lemma scope_iface_ok : mesh_iface p (i_Name ifc).
Proof.
  destruct (policy_of_mesh _ _ _ _ He Hpol) as (i & Hi & Hm & _). assert (i = ifc) as -> by congruence.
  split; [congruence|]. by destruct (Interface_Validate_peers _ Hval) as [? _].
Qed.

Lemma scope_routes :
  (∀ t, t ∈ RouteTargets ifc → route_cidr p t) ∧
  Forall (λ q, p_AllowedIPs q ≠ [] ∧ Forall (route_cidr p) (p_AllowedIPs q)) (i_Peers ifc).
Proof.
  destruct (policy_of_mesh _ _ _ _ He Hpol) as (i & Hi & _ & _ & _ & Hr & _). assert (i = ifc) as -> by congruence.
  by apply targets_permitted.
Qed.

Lemma scope_config : wg_scope p ifc.
Proof.
  destruct (policy_of_mesh _ _ _ _ He Hpol) as (i & Hi & _ & _ & _ & _ & Hk). assert (i = ifc) as -> by congruence.
  destruct (MeshInterfaceConfig_wf _ _ _ _ Hrand Hifc) as [Hpriv Hpub]. split; [done|].
  destruct scope_routes as [_ Hips]. unfold one_line_peers in Hlines.
  rewrite Forall_forall in Hpub, Hips, Hlines |- *. intros q Hin.
  destruct (Hips q Hin), (Hlines q Hin). split_and!; auto.
  rewrite Hk. apply elem_of_list_to_set, list_elem_of_fmap. eauto.
Qed.
End mesh_scope.

(** What bringing the mesh up sends. *)
Definition up_commands (c : InterfaceConfig) : list Command :=
  let ip := match addressIP (i_Address c) with Ok ip => ip | Err _ => "" end in
  [mkCmd "wireguard-go" [i_Name c] ""; mkCmd "wg" ["setconf"; i_Name c; "/dev/stdin"] (SyncConfig c);
   mkCmd "ifconfig" [i_Name c; "inet"; ip; ip; "alias"] ""; mkCmd "ifconfig" [i_Name c; "mtu"; Itoa (i_MTU c)] "";
   mkCmd "ifconfig" [i_Name c; "up"] ""] ++ (routeCmd (i_Name c) "add" <$> RouteTargets c).

(** C32: the policy derived from a node's configuration never stands in the way of the
    mesh that configuration describes.  With an IPv4 mesh address, and peers whose names
    and endpoints are single lines, bringing the mesh up through the daemon behaves
    exactly as handing the same commands to the daemon's executor without its checks, on
    every host and from every tracked subset of the configured routes; provided the
    connection carries each exchange, and the commands and their output are valid UTF-8
    and each request is within the daemon's megabyte. *)
Theorem mesh_up_unhindered `{MapRange} {W} `{!Link W} (s : Server W) c file rand p ifc m w :
  key_wf rand → mc_Enabled (c_Mesh c) = true →
  PrivilegedHelperPolicy c file rand = Ok p → MeshInterfaceConfig c file rand = Ok ifc →
  one_line_peers ifc → in_int64 (i_MTU ifc) = true →
  (∀ ip n, ParseCIDR (i_Address ifc) = Some (ip, n) → is_Some (To4 ip)) →
  s_policy s = Some p → m_cfg m = ifc → (∀ t, t ∈ dom (m_routes m) → t ∈ RouteTargets ifc) →
  (∀ r w, delivery r w = Delivered) → plain_output (s_exec s) → Forall carried (up_commands ifc) →
  Up (via_daemon s) m w = Up (direct (s_exec s)) m w.
Proof.
  intros Hrand He Hpol Hifc Hlines Hmtu Hv4 Hs <- Hsub Hd Hout Hcar.
  unfold Up. destruct (Interface_Validate (m_cfg m)) as [[]|] eqn:Hval; [|done].
  unfold up_commands, addressIP in *. destruct (ParseCIDR (i_Address (m_cfg m))) as [[ip n]|] eqn:Ea; [|done].
  apply Forall_app in Hcar as [Hcar Hroutes]. rewrite !Forall_cons in Hcar. destruct Hcar as (C1 & C2 & C3 & C4 & C5 & _).
  rewrite Forall_fmap in Hroutes.
  pose proof (scope_iface_ok _ _ _ _ _ He Hpol Hifc Hval) as Hi.
  destruct (scope_routes _ _ _ _ _ He Hpol Hifc Hval) as [Ht _].
  pose proof (scope_config _ _ _ _ _ Hrand He Hpol Hifc Hval Hlines) as Hc.
  assert (ipEqual (IP_String ip) (MeshAddressIP p) = true) as Haddr.
  { destruct (policy_of_mesh _ _ _ _ He Hpol) as (i & Hi' & _ & _ & Hip & _).
    assert (i = m_cfg m) as -> by congruence.
    rewrite Hip, Ea. apply ipEqual_address. destruct (Hv4 _ _ eq_refl) as [x Hx].
    exists x. split; [done|]. apply (To4_bounds ip); [|done].
    apply ParseCIDR_inv in Ea as (wd & v & Hv & _ & _ & -> & _). unfold ip_wf. destruct wd; cbn in *; lia. }
  assert (up_link (via_daemon s) (m_cfg m) (IP_String ip) w =
          up_link (direct (s_exec s)) (m_cfg m) (IP_String ip) w) as ->.
  { unfold up_link. rewrite (tolerating_direct s p Hs Hd Hout); [|set_solver|by constructor|done].
    destruct (runTolerating _ _ _ w) as [w1 [o1 [e1|]]]; [done|].
    rewrite (via_daemon_direct s p Hs Hd Hout); [|set_solver|by constructor; [left|..]; [|done|apply wg_scope_accepted]|done].
    destruct (run _ _ w1) as [w2 [o2 [e2|]]]; [done|].
    rewrite (tolerating_direct s p Hs Hd Hout); [|set_solver|by constructor|done].
    destruct (runTolerating _ _ _ w2) as [w3 [o3 [e3|]]]; [done|].
    assert ((if 0 <? i_MTU (m_cfg m) then
              run (via_daemon s) (mkCmd "ifconfig" [i_Name (m_cfg m); "mtu"; Itoa (i_MTU (m_cfg m))] "") w3
             else (w3, ("", None))) =
            (if 0 <? i_MTU (m_cfg m) then
              run (direct (s_exec s)) (mkCmd "ifconfig" [i_Name (m_cfg m); "mtu"; Itoa (i_MTU (m_cfg m))] "") w3
             else (w3, ("", None)))) as ->.
    { destruct (0 <? i_MTU (m_cfg m)) eqn:Em; [|done]. bools.
      apply (via_daemon_direct s p Hs Hd Hout); [set_solver| |done]. econstructor; [done|by apply Atoi_Itoa|done|].
      destruct (policy_of_mesh _ _ _ _ He Hpol) as (i & Hi' & _ & Hm & _).
      assert (i = m_cfg m) as -> by congruence. by rewrite Hm. }
    destruct (if 0 <? _ then _ else _) as [w4 [o4 [e4|]]]; [done|].
    rewrite (via_daemon_direct s p Hs Hd Hout); [done|set_solver| |done]. constructor; auto. }
  destruct (up_link _ _ _ w) as [w1 [u|e]]; [|done].
  unfold reconcileRoutesLocked, reconcileRoutes. cbn [m_cfg m_routes].
  assert (∀ t, t ∈ (range (m_routes m)).*1 →
    t ∈ (list_to_set (RouteTargets (m_cfg m)) : gset string)) as Hstale.
  { intros t Hin%range_keys_elem. apply elem_of_list_to_set, Hsub. by apply elem_of_dom. }
  rewrite !delete_stale_none by done. rewrite (add_missing_direct s p Hs Hd Hout); [done|done|by apply Forall_forall|exact Hroutes].
Qed.

Definition demo_peer_cfg (name : string) (n : Z) (cidr addr : string) : MeshPeerConfig :=
  mkPeerCfg name (Key_String (demo_key n)) "mac.local:51820" cidr addr 25.

Definition demo_net (mesh : bool) (peers : list MeshPeerConfig) : NetConfig :=
  mkNetConfig "10.244.1.0/24"
    (mkMeshCfg mesh "utun7" "/etc/macvz/wg.key" "10.99.0.1/32" 0 1420 peers)
    (mkPodNet true "bridge100" "" None []).

Definition demo_peers : list MeshPeerConfig :=
  [ demo_peer_cfg "mac-2" 40 "10.244.2.0/24" "10.99.0.2/32";
    demo_peer_cfg "mac-3" 90 "10.244.3.0/24" "10.99.0.3/32" ].

Definition demo_rand : Key := seqZ 100 32.

Definition or_else {E A} (d : A) (r : result E A) : A := match r with Ok a => a | Err _ => d end.

Definition net_policy (c : NetConfig) : Policy := or_else zero_policy (PrivilegedHelperPolicy c (Ok None) demo_rand).
Definition net_iface (c : NetConfig) : InterfaceConfig :=
  or_else (demo_iface []) (MeshInterfaceConfig c (Ok None) demo_rand).

Lemma demo_rand_wf : key_wf demo_rand.
Proof. by apply (bool_decide_unpack _); vm_compute. Qed.

Lemma mesh_up_unhindered_witness :
  let d := NewServerWithPolicy (logged null_exec) (net_policy (demo_net true demo_peers)) in
  let m := Mesh_New (net_iface (demo_net true demo_peers)) in
  is_ok (@Up canonical_range _ (via_daemon (Link0 := reliable) d) m ([], tt)).2 = true ∧
  @Up canonical_range _ (via_daemon (Link0 := reliable) d) m ([], tt) = @Up canonical_range _ (direct (s_exec d)) m ([], tt).
Proof.
  split; [by vm_compute|].
  apply (mesh_up_unhindered (Link0 := reliable) _ (demo_net true demo_peers) (Ok None) demo_rand
    (net_policy (demo_net true demo_peers)) (net_iface (demo_net true demo_peers))).
  - apply demo_rand_wf.
  - reflexivity.
  - vm_compute. reflexivity.
  - vm_compute. reflexivity.
  - by apply (bool_decide_unpack _); vm_compute.
  - vm_compute. reflexivity.
  - intros ip n Hp.
    assert (match ParseCIDR (i_Address (net_iface (demo_net true demo_peers))) with
            | Some (ip, _) => bool_decide (is_Some (To4 ip)) | None => true end = true) as Hb
      by (by vm_compute).
    rewrite Hp in Hb. by apply bool_decide_eq_true in Hb.
  - reflexivity.
  - reflexivity.
  - intros t Ht. exfalso. revert Ht. change (m_routes (Mesh_New (net_iface (demo_net true demo_peers)))) with (∅ : gmap string unit). rewrite dom_empty_L. apply not_elem_of_empty.
  - reflexivity.
  - intros req lw w' out errout code err He. cbn in He. destruct lw as [log u]. cbn in He. injection He as _ <- <- _ <-. done.
  - apply all_carried. vm_compute. reflexivity.
Defined.

(** [loadMeshPeers] of [cmd/macvz-kubelet/mesh_reconcile.go], on the loaded
    configuration. *)
Definition loadMeshPeers (c : NetConfig) : result ConfigError (list Peer) :=
  validateMesh c ;--
  validatePodNetwork c ;--
  guard (mc_Enabled (c_Mesh c)) CMeshDisabled ;--
  MeshPeers c.

Inductive SighupError : Type :=
  | SReload (msg : string) | SLoad (e : ConfigError) | SSync (e : MeshError).

(** [watchMeshReload] on SIGHUP with a helper: the helper reloads its policy
    first, then [reconcileMeshPeers] syncs the mesh through it. *)
Definition sighup `{MapRange} {W} `{!Link W} (s : Server W) (c : NetConfig) (m : Mesh) (w : W)
    : Server W * Mesh * W * result SighupError unit :=
  match reloadPolicy s w with
  | (s, Err e) => (s, m, w, Err (SReload e))
  | (s, Ok _) =>
      match loadMeshPeers c with
      | Err e => (s, m, w, Err (SLoad e))
      | Ok peers =>
          let '(m, w, r) := Sync (via_daemon s) m peers w in
          (s, m, w, match r with Ok _ => Ok tt | Err e => Err (SSync e) end)
      end
  end.

(** Removing a node by editing the configuration and sending SIGHUP cannot
    work through the daemon: once the policy is reloaded from the same file,
    deleting the departed peer's route is outside it, so the reconciliation
    fails and the route stays tracked, on every host and at every retry. *)
Theorem peer_removal_blocked `{MapRange} {W} `{!Link W} (s : Server W) loader c file rand p m w t :
  s_loader s = Some loader → loader w = Ok p → PrivilegedHelperPolicy c file rand = Ok p →
  t ∈ dom (m_routes m) → network t ≠ None → carried (routeCmd (i_Name (m_cfg m)) "delete" t) →
  (∀ peers u, MeshPeers c = Ok peers → u ∈ peers ≫= p_AllowedIPs → network u ≠ network t) →
  ∃ s' m' w' e, sighup s c m w = (s', m', w', Err e) ∧ t ∈ dom (m_routes m').
Proof.
  intros Hl Hlw Hp Ht Hnet Hcar Hgone. unfold sighup, reloadPolicy. rewrite Hl, Hlw.
  unfold loadMeshPeers. destruct (validateMesh c); [|by eexists _, _, _, _].
  destruct (validatePodNetwork c); [|by eexists _, _, _, _].
  destruct (mc_Enabled (c_Mesh c)) eqn:He; [|by eexists _, _, _, _]. cbn [guard].
  destruct (MeshPeers c) as [peers|] eqn:Hpeers; [|by eexists _, _, _, _].
  specialize (Hgone peers). unfold Sync.
  destruct (Interface_Validate _) as [[]|]; [|by eexists _, _, _, _].
  destruct (m_up m); cbn [negb]; [|by eexists _, _, _, _].
  destruct (run _ _ w) as [w1 [o1 [e1|]]]; [by eexists _, _, _, _|].
  assert (~ route_cidr p t) as Hr.
  { destruct (policy_of_mesh _ _ _ _ He Hp) as (ifc & Hi & _ & _ & _ & Hcid & _).
    assert (i_Peers ifc = peers) as Hip.
    { unfold MeshInterfaceConfig in Hi. unfold MeshPeers in Hpeers. rewrite Hpeers in Hi.
      destruct (LoadOrCreateKey file rand) as [[k x]|]; [|done]. by simplify_eq. }
    intros (n & Hn & Hin). rewrite Hcid in Hin. apply elem_of_NormalizeCIDRSet in Hin as (u & Hu & Hnu).
    apply elem_of_RouteTargets in Hu. rewrite Hip in Hu. apply (Hgone u eq_refl Hu).
    change (normalizeCIDR u = normalizeCIDR t). congruence. }
  unfold reconcileRoutesLocked, reconcileRoutes. cbn [m_cfg m_routes].
  change (i_Name (set_peers (m_cfg m) peers)) with (i_Name (m_cfg m)).
  destruct (delete_stale_refused (set_policy s p) p eq_refl (i_Name (m_cfg m))
    (list_to_set (RouteTargets (set_peers (m_cfg m) peers))) (range (m_routes m)).*1 (m_routes m) w1 t)
    as (r' & w' & e & Hd & Hin); [|..|exact Hr|done|done|].
  - apply range_keys_elem. by apply elem_of_dom.
  - rewrite elem_of_list_to_set, elem_of_RouteTargets. intros Hin. by apply (Hgone t eq_refl).
  - rewrite Hd. by eexists _, _, _, _.
Qed.

(** A mesh with two peers is up; the operator deletes mac-3 and sends SIGHUP. *)
Definition removal_config : NetConfig := demo_net true (list.take 1 demo_peers).
Definition removal_daemon : Server (list Request * unit) :=
  mkServer (logged null_exec) (Some (net_policy (demo_net true demo_peers)))
    (Some (λ _, Ok (net_policy removal_config))) "" 0 0.
Definition removal_up : Mesh * (list Request * unit) * result MeshError unit :=
  @Up canonical_range _ (via_daemon (Link0 := reliable) removal_daemon) (Mesh_New (net_iface (demo_net true demo_peers))) ([], tt).

Lemma peer_removal_blocked_witness :
  is_ok removal_up.2 = true ∧
  ∃ s' m' w' e, @sighup canonical_range _ reliable removal_daemon removal_config removal_up.1.1 removal_up.1.2 =
    (s', m', w', Err e) ∧ "10.244.3.0/24" ∈ dom (m_routes m').
Proof.
  split; [by vm_compute|].
  apply (@peer_removal_blocked canonical_range _ reliable removal_daemon (λ _, Ok (net_policy removal_config))
    removal_config (Ok None) demo_rand (net_policy removal_config)).
  - reflexivity.
  - reflexivity.
  - vm_compute. reflexivity.
  - by apply (bool_decide_unpack _); vm_compute.
  - by vm_compute.
  - apply ascii_carried; vm_compute; reflexivity.
  - intros peers u Hp Hu.
    assert (match MeshPeers removal_config with
            | Ok ps => forallb (λ u, bool_decide (network u ≠ network "10.244.3.0/24")) (ps ≫= p_AllowedIPs)
            | Err _ => true end = true) as Hb by (by vm_compute).
    rewrite Hp, forallb_forall in Hb. specialize (Hb u). rewrite bool_decide_eq_true in Hb.
    by apply Hb, list_elem_of_In.
Defined.

(** ** The router's configuration *)

Lemma policy_base c file rand p :
  PrivilegedHelperPolicy c file rand = Ok p →
  VMNetInterface p = pn_Interface (c_PodNetwork c) ∧
  Anchor p = (if String.eqb (pn_Anchor (c_PodNetwork c)) "" then DefaultAnchor else pn_Anchor (c_PodNetwork c)) ∧
  MeshInterface p = (if mc_Enabled (c_Mesh c) then mc_Interface (c_Mesh c) else "").
Proof.
  unfold PrivilegedHelperPolicy. destruct (mc_Enabled (c_Mesh c)); cbn [negb]; [|by intros [= <-]].
  destruct (MeshInterfaceConfig c file rand) as [ifc|] eqn:Ei; [|done]. intros [= <-].
  split_and!; [done..|]. unfold MeshInterfaceConfig in Ei. cbn.
  destruct (LoadOrCreateKey file rand) as [[]|]; [|done]. destruct (resolvePeers _); [|done].
  by simplify_eq.
Qed.

(** A new router and the helper's policy read from one configuration agree:
    with the mesh enabled, or no mesh interface named, the router starts within
    the policy's anchor, interfaces and (empty) endpoint set. *)
Theorem router_config_in_scope c file rand p :
  PrivilegedHelperPolicy c file rand = Ok p →
  is_word (pn_Interface (c_PodNetwork c)) = true →
  mc_Interface (c_Mesh c) = "" ∨
    (mc_Enabled (c_Mesh c) = true ∧ is_word (mc_Interface (c_Mesh c)) = true) →
  in_scope p (New (PodNetworkRouterConfig c)).
Proof.
  intros (Hv & Ha & Hm)%policy_base Hw Hmesh. split; cbn.
  - by rewrite Ha.
  - rewrite Ha. destruct (String.eqb _ "") eqn:E; bools; done.
  - done.
  - by rewrite Hv.
  - destruct Hmesh as [->|[He Hmw]]; [by left|right]. rewrite Hm, He. done.
  - apply map_Forall_empty.
  - apply map_Forall_empty.
Qed.

Lemma router_config_in_scope_witness :
  in_scope (net_policy (demo_net true demo_peers)) (New (PodNetworkRouterConfig (demo_net true demo_peers))).
Proof.
  apply (router_config_in_scope _ (Ok None) demo_rand).
  - vm_compute. reflexivity.
  - reflexivity.
  - right. split; reflexivity.
Defined.

Lemma split_on_sep c s t : split_on c (s +:+ String c t) = split_on c s ++ split_on c t.
Proof.
  induction s as [|a s IH].
  - rewrite sapp_nil_l. cbn [split_on]. by rewrite Ascii.eqb_refl.
  - rewrite sapp_cons. cbn [split_on]. destruct (Ascii.eqb a c); [by rewrite IH|].
    rewrite IH. by destruct (split_on c s) as [|x xs] eqn:E; [destruct s; cbn in E; repeat case_match|].
Qed.

Lemma line_of_text l ls :
  l ∈ ls → no_char newline l = true → l ∈ split_on newline (lines_text ls).
Proof.
  intros Hin Hn. induction ls as [|x ls IH]; [by apply not_elem_of_nil in Hin|].
  change (lines_text (x :: ls)) with ((x +:+ nl) +:+ lines_text ls). rewrite sapp_assoc.
  change (nl +:+ lines_text ls) with (String newline (lines_text ls)).
  rewrite split_on_sep, elem_of_app. apply elem_of_cons in Hin as [<-|Hin]; [left|right; auto].
  rewrite split_on_none by done. by left.
Qed.

Lemma binat_needs_iface p i ep :
  is_word i = true → is_addr (VMIP ep) → is_addr (PodIP ep) → pf_line p (binat_line i ep) →
  vmnet_iface p i ∨ mesh_iface p i.
Proof.
  intros Hw Hv Hp Hl.
  set (ws := ["binat"; "on"; i; "from"; VMIP ep; "to"; "any"; "->"; PodIP ep]).
  assert (Forall (λ t, is_word t = true) ws) as Hws.
  { repeat (apply Forall_cons; split); try done; by apply is_addr_word. }
  change (binat_line i ep) with (Join ws " ") in Hl.
  destruct (words_line ws ltac:(done) Hws) as [Ht Hf]. unfold pf_line in Hl. rewrite Hf, Ht in Hl.
  destruct Hl as [Hl|[Hl|Hl]]; [done..|]. by inversion Hl.
Qed.

(** With the mesh disabled but its interface named (as in the shipped
    example configuration), the router still writes binat rules for the mesh
    interface and the policy refuses it: every anchor load of a router with a
    Pod attached is rejected. *)
Theorem disabled_mesh_blocks_pods `{MapRange} c file rand p rt k ep :
  PrivilegedHelperPolicy c file rand = Ok p → mc_Enabled (c_Mesh c) = false →
  is_word (mc_Interface (c_Mesh c)) = true →
  mc_Interface (c_Mesh c) ≠ pn_Interface (c_PodNetwork c) →
  isBridgeInterface (mc_Interface (c_Mesh c)) = false →
  router_inv rt → cfg rt = cfg (New (PodNetworkRouterConfig c)) → endpoints rt !! k = Some ep →
  ∃ e, Validate p (mkReq "pfctl" ["-a"; cfg_Anchor (cfg rt); "-f"; "-"] (ruleset rt)) = Err e.
Proof.
  intros (Hv & _ & Hm)%policy_base He Hw Hne Hb Hi Hcfg Hk. rewrite He in Hm.
  destruct (Validate p _) as [[]|e] eqn:E; [|by eexists]. exfalso.
  apply Validate_permits in E. inversion E as [| | | |rules _ _ Hlines| | | | | | | | |]; subst.
  set (i := mc_Interface (c_Mesh c)) in *.
  assert (cfg_MeshInterface (cfg rt) = i) as Hi' by (by rewrite Hcfg).
  assert (is_addr (PodIP ep) ∧ is_addr (VMIP ep)) as [Hpa Hva].
  { destruct (inv_endpoints _ Hi _ _ Hk) as [_ _ Hp Hvm]. unfold is_ip, is_addr in *.
    by destruct (ParseIP (PodIP ep)), (ParseIP (VMIP ep)). }
  assert (binat_line i ep ∈ ruleset_lines rt) as Hin.
  { unfold ruleset_lines, renderAnchor. apply elem_of_app. left. apply elem_of_cons. right.
    apply list_elem_of_bind. exists ep. rewrite elem_of_endpointsSorted. split; [|by eexists].
    apply elem_of_cons. right. apply list_elem_of_fmap. exists i. split; [done|].
    apply elem_of_binat_ifaces; [by eapply inv_ep_iface|]. right. split; [done|].
    rewrite Hi'. by apply is_word_spec in Hw as [_ ?]. }
  apply line_of_text in Hin.
  2:{ apply (words_no_newline ["binat"; "on"; i; "from"; VMIP ep; "to"; "any"; "->"; PodIP ep]).
      repeat (apply Forall_cons; split); try done; by apply is_addr_word. }
  rewrite Forall_forall in Hlines. apply Hlines, binat_needs_iface in Hin; [|done..].
  destruct Hin as [[_ [Hx|Hx]]|[Hx Hx']]; congruence.
Qed.

Definition podonly_rt : Router :=
  (@run_ops canonical_range _ pf_sim
     [OpStart; OpAttach (mkEp "default/web" "10.244.1.2" "192.168.64.7" "bridge100")]
     (New (PodNetworkRouterConfig (demo_net false []))) (∅, [])).1.1.

Lemma disabled_mesh_blocks_pods_witness :
  ∃ e, Validate (net_policy (demo_net false []))
    (mkReq "pfctl" ["-a"; cfg_Anchor (cfg podonly_rt); "-f"; "-"] (@ruleset canonical_range podonly_rt)) = Err e.
Proof.
  apply (@disabled_mesh_blocks_pods canonical_range (demo_net false []) (Ok None) demo_rand
    (net_policy (demo_net false [])) podonly_rt "default/web"
    (mkEp "default/web" "10.244.1.2" "192.168.64.7" "bridge100")).
  - vm_compute. reflexivity.
  - reflexivity.
  - reflexivity.
  - done.
  - reflexivity.
  - unfold podonly_rt. destruct (run_ops _ _ _ _) as [[rt w] rs] eqn:E.
    eapply run_ops_inv; [apply router_inv_New|exact E].
  - vm_compute. reflexivity.
  - vm_compute. reflexivity.
Defined.
