(* ===== verification/SvcRoute.v ===== *)
(** * ClusterIP Service routing: [pkg/network/svcroute]

    The controller turns a Service and its EndpointSlices into rdr rules and
    pushes them to the router, driven by a work queue of Service keys.  The
    Kubernetes objects carry the fields the controller reads; the informer
    caches are maps and listing one yields its entries in an unspecified
    order. *)

From S2P Require Import Prelude GoStrings GoNet Host PodNet PrivPolicy PodNetPolicy WireGuard NetConfig.

Open Scope Z_scope.

Record ServicePort := mkSvcPort { sp_Name : string; sp_Protocol : string; sp_Port : Z }.

Record Service := mkService {
  svc_Namespace : string; svc_Name : string; svc_ExternalName : bool; svc_ClusterIP : string;
  svc_Ports : list ServicePort;
}.

Record SliceEndpoint := mkSliceEp {
  se_Addresses : list string; se_Ready : option bool; se_Terminating : option bool;
}.

Record EndpointSlice := mkSlice {
  sl_Namespace : string; sl_ServiceName : string; sl_IPv4 : bool;
  sl_Endpoints : list SliceEndpoint; sl_Ports : list (option string * option Z);
}.

Definition ClusterIPNone : string := "None".

Definition serviceKey (ns name : string) : string := ns +:+ "/" +:+ name.

Definition splitKey (key : string) : string * string :=
  match cut_on (ch 47) key with Some (ns, name) => (ns, name) | None => ("", key) end.

(** A nil Ready means ready; a terminating endpoint is never a target. *)
Definition endpoint_ready (ep : SliceEndpoint) : bool :=
  default true (se_Ready ep) && negb (default false (se_Terminating ep)).

Definition slice_ready_ips (sl : EndpointSlice) : list string :=
  if sl_IPv4 sl then filter (λ ep, endpoint_ready ep = true) (sl_Endpoints sl) ≫= se_Addresses else [].

Definition readyEndpointIPs (slices : list EndpointSlice) : list string :=
  sorted_set (slices ≫= slice_ready_ips).

(** First write wins, over the slices in list order. *)
Definition targetByName (slices : list EndpointSlice) : gmap string Z :=
  foldl (λ m p, match p with
                | (_, None) => m
                | (name, Some port) =>
                    let name := default "" name in
                    match m !! name with Some _ => m | None => <[name := port]> m end
                end) ∅ (slices ≫= sl_Ports).

Definition port_rule (svc : Service) (targets : gmap string Z) (ips : list string) (sp : ServicePort)
    : list ServiceRule :=
  let proto := ToLower (sp_Protocol sp) in
  if negb (String.eqb proto "tcp") && negb (String.eqb proto "udp") then [] else
  match targets !! sp_Name sp with
  | None => []
  | Some target =>
      [mkRule (serviceKey (svc_Namespace svc) (svc_Name svc)) (svc_ClusterIP svc) proto
         (sp_Port sp) target ips]
  end.

(** An empty list is the source's nil: remove this Service's rules. *)
Definition BuildServiceRules (svc : Service) (slices : list EndpointSlice) : list ServiceRule :=
  if svc_ExternalName svc then []
  else if String.eqb (svc_ClusterIP svc) "" || String.eqb (svc_ClusterIP svc) ClusterIPNone then []
  else
    match readyEndpointIPs slices with
    | [] => []
    | ips => svc_Ports svc ≫= port_rule svc (targetByName slices) ips
    end.

(** ** The routable filter *)

Definition routable_nets (cidrs : list string) : list IPNet :=
  omap (λ c, if String.eqb c "" then None
             else match ParseCIDR c with Some (_, n) => Some n | None => None end) cidrs.

Definition in_nets (nets : list IPNet) (ip : string) : bool :=
  match ParseIP ip with
  | None => false
  | Some parsed => existsb (λ n, Net_Contains n parsed) nets
  end.

(** [None]: no filter is installed. *)
Definition WithRoutableCIDRs (cidrs : list string) : option (string → bool) :=
  match routable_nets cidrs with [] => None | nets => Some (in_nets nets) end.

Definition keep_routable (routable : string → bool) (r : ServiceRule) : list ServiceRule :=
  match filter (λ ip, routable ip = true) (Backends r) with
  | [] => []
  | kept => [mkRule (ServiceKey r) (ClusterIP r) (PodNet.Protocol r) (Port r) (TargetPort r) kept]
  end.

Definition filterRoutable (routable : option (string → bool)) (rules : list ServiceRule)
    : list ServiceRule :=
  match routable with None => rules | Some f => rules ≫= keep_routable f end.

(** ** The controller *)

(** The informer caches: Services by key, EndpointSlices by their own key. *)
Record Caches := mkCaches { ca_services : gmap string Service; ca_slices : gmap string EndpointSlice }.

(** The namespace and the service-name label select a Service's slices. *)
Definition owned_by (ns name : string) (sl : EndpointSlice) : Prop :=
  sl_Namespace sl = ns ∧ sl_ServiceName sl = name.

#[export] Instance owned_by_dec ns name sl : Decision (owned_by ns name sl).
Proof. unfold owned_by. apply _. Defined.

Section controller.
Context `{MapRange} {W : Type} (R : Runner W) (routable : option (string → bool)).

Definition get (ca : Caches) (key : string) : option Service :=
  let '(ns, name) := splitKey key in ca_services ca !! serviceKey ns name.

Definition listForService (ca : Caches) (ns name : string) : list EndpointSlice :=
  (filter (λ kv, owned_by ns name kv.2) (range (ca_slices ca))).*2.

Definition reconcile (ca : Caches) (key : string) (rt : Router) (w : W)
    : Router * W * result NetError unit :=
  match get ca key with
  | None => DetachService R rt key w
  | Some svc =>
      let '(ns, name) := splitKey key in
      match filterRoutable routable (BuildServiceRules svc (listForService ca ns name)) with
      | [] => DetachService R rt key w
      | rules => AttachService R rt key rules w
      end
  end.

Record Controller := mkCtl { ct_caches : Caches; ct_queue : gset string; ct_router : Router; ct_world : W }.

(** Informer events: the cache changes, then the handler enqueues a key.
    [None] deletes the object. *)
Inductive event : Type :=
  | EvService (key : string) (svc : option Service)
  | EvSlice (key : string) (sl : option EndpointSlice).

Definition enqueueService (key : string) (q : gset string) : gset string := {[key]} ∪ q.

Definition enqueueSlice (sl : EndpointSlice) (q : gset string) : gset string :=
  if String.eqb (sl_ServiceName sl) "" then q
  else {[serviceKey (sl_Namespace sl) (sl_ServiceName sl)]} ∪ q.

(** The handlers see the new object, and the old one only on deletion. *)
Definition on_event (c : Controller) (e : event) : Controller :=
  match e with
  | EvService key svc =>
      mkCtl (mkCaches (partial_alter (λ _, svc) key (ca_services (ct_caches c))) (ca_slices (ct_caches c)))
        (enqueueService key (ct_queue c)) (ct_router c) (ct_world c)
  | EvSlice key sl =>
      let q := match sl, ca_slices (ct_caches c) !! key with
               | Some sl, _ => enqueueSlice sl (ct_queue c)
               | None, Some old => enqueueSlice old (ct_queue c)
               | None, None => ct_queue c
               end in
      mkCtl (mkCaches (ca_services (ct_caches c)) (partial_alter (λ _, sl) key (ca_slices (ct_caches c))))
        q (ct_router c) (ct_world c)
  end.

(** One item of the queue: on failure the key is queued again. *)
Definition processNext (c : Controller) (key : string) : Controller :=
  let '(rt, w, r) := reconcile (ct_caches c) key (ct_router c) (ct_world c) in
  mkCtl (ct_caches c)
    (match r with Ok _ => ct_queue c ∖ {[key]} | Err _ => ct_queue c end) rt w.

(** The Service that stops being named by the slice an event updates. *)
Definition moved_from (ca : Caches) (e : event) : gset string :=
  match e with
  | EvSlice key (Some sl) =>
      match ca_slices ca !! key with
      | Some old =>
          if bool_decide (sl_Namespace sl = sl_Namespace old ∧ sl_ServiceName sl = sl_ServiceName old)
          then ∅ else {[serviceKey (sl_Namespace old) (sl_ServiceName old)]}
      | None => ∅
      end
  | _ => ∅
  end.

(** A Service object is stored under its own key. *)
Definition keyed (e : event) : Prop :=
  match e with
  | EvService key (Some s) =>
      key = serviceKey (svc_Namespace s) (svc_Name s) ∧ no_char (ch 47) (svc_Namespace s) = true
  | _ => True
  end.

(** The interleavings of informer events and queue processing.  [lost]
    remembers the Services that a slice was moved away from while their key was
    not queued, until an event queues it: the handler does not, see
    [relabelled_slice_stale]. *)
Inductive ctl_history (init : Controller) : gset string → Controller → Prop :=
  | history_start : ctl_history init ∅ init
  | history_event lost c e :
      ctl_history init lost c → keyed e →
      ctl_history init ((lost ∪ moved_from (ct_caches c) e) ∖ ct_queue (on_event c e)) (on_event c e)
  | history_process lost c key :
      ctl_history init lost c → key ∈ ct_queue c → ctl_history init lost (processNext c key).
End controller.
Arguments Controller : clear implicits.

(** ** Keys *)

Lemma splitKey_serviceKey ns name :
  no_char (ch 47) ns = true → splitKey (serviceKey ns name) = (ns, name).
Proof.
  intros Hn. unfold splitKey, serviceKey. change ("/" +:+ name) with (String (ch 47) name).
  by rewrite cut_on_app.
Qed.

Lemma serviceKey_inj ns1 name1 ns2 name2 :
  no_char (ch 47) ns1 = true → no_char (ch 47) ns2 = true →
  serviceKey ns1 name1 = serviceKey ns2 name2 → ns1 = ns2 ∧ name1 = name2.
Proof.
  intros H1 H2 E. pose proof (splitKey_serviceKey ns1 name1 H1) as E1.
  rewrite E, splitKey_serviceKey in E1 by done. by simplify_eq.
Qed.

(** ** The rules built for one Service *)

Lemma elem_of_readyEndpointIPs slices ip :
  ip ∈ readyEndpointIPs slices ↔
  ∃ sl ep, sl ∈ slices ∧ ep ∈ sl_Endpoints sl ∧ ip ∈ se_Addresses ep ∧ sl_IPv4 sl = true ∧
    se_Ready ep ≠ Some false ∧ se_Terminating ep ≠ Some true.
Proof.
  unfold readyEndpointIPs. rewrite elem_of_sorted_set, list_elem_of_bind.
  unfold slice_ready_ips, endpoint_ready. split.
  - intros (sl & Hin & Hsl). destruct (sl_IPv4 sl) eqn:E4; [|by apply not_elem_of_nil in Hin].
    apply list_elem_of_bind in Hin as (ep & Hip & [Hr Hep]%list_elem_of_filter).
    exists sl, ep. split_and!; try done; intros E; rewrite E in Hr; by bools.
  - intros (sl & ep & Hsl & Hep & Hip & E4 & Hr & Ht). exists sl. split; [|done]. rewrite E4.
    apply list_elem_of_bind. exists ep. split; [done|]. apply list_elem_of_filter. split; [|done].
    destruct (se_Ready ep) as [[]|], (se_Terminating ep) as [[]|]; done.
Qed.

Lemma targetByName_Some slices name port :
  targetByName slices !! name = Some port →
  ∃ sl n, sl ∈ slices ∧ (n, Some port) ∈ sl_Ports sl.
Proof.
  unfold targetByName. intros Hl.
  assert (∀ l (m : gmap string Z), foldl (λ m p, match p with
                | (_, None) => m
                | (name, Some port) =>
                    let name := default "" name in
                    match m !! name with Some _ => m | None => <[name := port]> m end
                end) m l !! name = Some port →
    m !! name = Some port ∨ ∃ n, (n, Some port) ∈ l) as Hg.
  { induction l as [|[n [p|]] l IH]; intros m; cbn [foldl]; [by left|..].
    - cbv zeta. intros [Hm|(n' & Hn')]%IH; [|right; exists n'; by right].
      destruct (m !! default "" n) eqn:E; [by left|].
      destruct (decide (default "" n = name)) as [Ed|Hne].
      + rewrite Ed, lookup_insert_eq in Hm. simplify_eq. right. exists n. by left.
      + rewrite lookup_insert_ne in Hm by done. by left.
    - intros [Hm|(n' & Hn')]%IH; [by left|right; exists n'; by right]. }
  apply Hg in Hl as [Hl|(n & Hn)]; [by rewrite lookup_empty in Hl|].
  apply list_elem_of_bind in Hn as (sl & Hn & Hsl). eauto.
Qed.

Lemma BuildServiceRules_elem svc slices r :
  r ∈ BuildServiceRules svc slices →
  ∃ sp, sp ∈ svc_Ports svc ∧
    ServiceKey r = serviceKey (svc_Namespace svc) (svc_Name svc) ∧
    ClusterIP r = svc_ClusterIP svc ∧ Port r = sp_Port sp ∧
    (PodNet.Protocol r = "tcp" ∨ PodNet.Protocol r = "udp") ∧
    PodNet.Protocol r = ToLower (sp_Protocol sp) ∧
    targetByName slices !! sp_Name sp = Some (TargetPort r) ∧
    Backends r = readyEndpointIPs slices ∧ Backends r ≠ [].
Proof.
  unfold BuildServiceRules. intros Hr.
  destruct (svc_ExternalName svc); [by apply not_elem_of_nil in Hr|].
  destruct (_ || _); [by apply not_elem_of_nil in Hr|].
  destruct (readyEndpointIPs slices) as [|ip ips] eqn:Ei; [by apply not_elem_of_nil in Hr|].
  apply list_elem_of_bind in Hr as (sp & Hr & Hsp). exists sp. unfold port_rule in Hr.
  destruct (negb _ && negb _) eqn:Ep; [by apply not_elem_of_nil in Hr|].
  destruct (targetByName slices !! sp_Name sp) eqn:Et; [|by apply not_elem_of_nil in Hr].
  apply list_elem_of_singleton in Hr as ->. cbn. split_and!; try done.
  apply andb_false_iff in Ep as [Ep|Ep]; bools; auto.
Qed.

Lemma filterRoutable_elem f rules r :
  r ∈ filterRoutable f rules → Forall (λ r, Backends r ≠ []) rules →
  ∃ r0, r0 ∈ rules ∧ ServiceKey r = ServiceKey r0 ∧ ClusterIP r = ClusterIP r0 ∧
    PodNet.Protocol r = PodNet.Protocol r0 ∧ Port r = Port r0 ∧ TargetPort r = TargetPort r0 ∧
    Backends r ≠ [] ∧
    (∀ b, b ∈ Backends r ↔ b ∈ Backends r0 ∧ ∀ g, f = Some g → g b = true).
Proof.
  intros Hr Hne. rewrite Forall_forall in Hne. destruct f as [g|]; cbn in Hr.
  - apply list_elem_of_bind in Hr as (r0 & Hr & Hr0). exists r0. unfold keep_routable in Hr.
    destruct (filter _ (Backends r0)) as [|b bs] eqn:E; [by apply not_elem_of_nil in Hr|].
    apply list_elem_of_singleton in Hr as ->. cbn. split_and!; try done. intros x.
    rewrite <- E, list_elem_of_filter. naive_solver.
  - exists r. split_and!; try done; [by apply Hne|]. naive_solver.
Qed.

Lemma filtered_ne f rules : Forall (λ r, Backends r ≠ []) rules →
  filter (λ r, has_backends r = true) (filterRoutable f rules) = filterRoutable f rules.
Proof.
  intros Hne.
  assert (Forall (λ r, has_backends r = true) (filterRoutable f rules)) as Hf.
  { apply Forall_forall. intros r Hr. destruct (filterRoutable_elem _ _ _ Hr Hne) as (r0 & _ & _ & _ & _ & _ & _ & Hb & _).
    unfold has_backends. by destruct (Backends r). }
  clear Hne. induction Hf as [|r l Hr _ IH]; [done|]. by rewrite filter_cons_True, IH.
Qed.

Lemma Build_backends svc slices : Forall (λ r, Backends r ≠ []) (BuildServiceRules svc slices).
Proof.
  apply Forall_forall. intros r (sp & _ & _ & _ & _ & _ & _ & _ & _ & ?)%BuildServiceRules_elem. done.
Qed.

(** ** Convergence *)

Section converge.
Context `{MapRange} {W : Type} (R : Runner W) (routable : option (string → bool)).

(** A Service's slices, without an order. *)
Definition slices_of (ca : Caches) (ns name : string) : list EndpointSlice :=
  (map_to_list (filter (λ kv, owned_by ns name kv.2) (ca_slices ca))).*2.

Lemma listForService_perm ca ns name : listForService ca ns name ≡ₚ slices_of ca ns name.
Proof.
  unfold listForService, slices_of. apply fmap_Permutation, NoDup_Permutation.
  - apply NoDup_filter. rewrite range_perm. apply NoDup_map_to_list.
  - apply NoDup_map_to_list.
  - intros [k sl]. rewrite list_elem_of_filter, elem_of_range, elem_of_map_to_list,
      map_lookup_filter_Some. naive_solver.
Qed.

(** What the caches call for at a key, for some order of the slices. *)
Definition called_for (ca : Caches) (ns name : string) (rules : list ServiceRule) : Prop :=
  match ca_services ca !! serviceKey ns name with
  | None => rules = []
  | Some svc => ∃ slices, slices ≡ₚ slices_of ca ns name ∧
                  rules = filterRoutable routable (BuildServiceRules svc slices)
  end.

Definition installed (rt : Router) (key : string) (rules : list ServiceRule) : Prop :=
  services rt !! key = match rules with [] => None | _ => Some rules end.

(** Every key that is not queued and lost no slice has the rules the caches
    call for. *)
Definition converged (lost : gset string) (c : Controller W) : Prop :=
  ∀ ns name, no_char (ch 47) ns = true → name ≠ "" →
    serviceKey ns name ∉ ct_queue c → serviceKey ns name ∉ lost →
    ∃ rules, called_for (ct_caches c) ns name rules ∧
             installed (ct_router c) (serviceKey ns name) rules.

Lemma DetachService_services rt key w rt' w' r :
  DetachService R rt key w = (rt', w', r) →
  services rt' !! key = None ∧ ∀ k, k ≠ key → services rt' !! k = services rt !! k.
Proof.
  unfold DetachService. destruct (services rt !! key) eqn:E; [|by intros; simplify_eq].
  intros Hd. assert (services rt' = delete key (services rt)) as ->.
  { repeat case_match; by simplify_eq. }
  split; [apply lookup_delete_eq|]. intros k Hk. by rewrite lookup_delete_ne.
Qed.

Lemma AttachService_services rt key rules w rt' w' r :
  AttachService R rt key rules w = (rt', w', r) →
  (∀ k, k ≠ key → services rt' !! k = services rt !! k) ∧
  (r = Ok tt → services rt' !! key =
     match filter (λ r, has_backends r = true) rules with [] => None | kept => Some kept end).
Proof.
  unfold AttachService. intros Ha. destruct (String.eqb key ""); [by simplify_eq|].
  destruct (for_each _ rules); [|by simplify_eq].
  destruct (negb (started rt)); [by simplify_eq|].
  destruct (loadAnchorLocked R _ w) as [w1 r1]. simplify_eq. cbn [services set_services].
  destruct (filter _ rules) as [|x xs]; split.
  - intros k Hk. by rewrite lookup_delete_ne.
  - intros _. apply lookup_delete_eq.
  - intros k Hk. by rewrite lookup_insert_ne.
  - intros _. apply lookup_insert_eq.
Qed.

Lemma reconcile_spec ca ns name rt w rt' w' r :
  no_char (ch 47) ns = true →
  reconcile R routable ca (serviceKey ns name) rt w = (rt', w', r) →
  r = Ok tt → ∃ rules, called_for ca ns name rules ∧ installed rt' (serviceKey ns name) rules.
Proof.
  intros Hn. unfold reconcile, get, called_for, installed. rewrite splitKey_serviceKey by done.
  destruct (ca_services ca !! serviceKey ns name) as [svc|].
  2:{ intros [H1 H2]%DetachService_services _. by exists []. }
  pose proof (listForService_perm ca ns name) as Hp.
  destruct (filterRoutable routable _) as [|x xs] eqn:Ef.
  { intros [H1 H2]%DetachService_services _. exists []. split; [|done].
    eexists. split; [exact Hp|done]. }
  intros [H1 H2]%AttachService_services Hr. exists (x :: xs). split.
  { eexists. split; [exact Hp|done]. }
  specialize (H2 Hr). rewrite <- Ef, filtered_ne in H2 by apply Build_backends.
  by rewrite Ef in H2.
Qed.

Lemma reconcile_frame ca key rt w rt' w' r k :
  reconcile R routable ca key rt w = (rt', w', r) → k ≠ key → services rt' !! k = services rt !! k.
Proof.
  unfold reconcile. intros Hr Hk. repeat case_match;
    first [by apply DetachService_services in Hr as [_ Hf]; apply Hf
          |by apply AttachService_services in Hr as [Hf _]; apply Hf].
Qed.

Lemma slices_of_partial_alter ca key sl ns name :
  (∀ old, ca_slices ca !! key = Some old → ~ owned_by ns name old) →
  (∀ new, sl = Some new → ~ owned_by ns name new) →
  slices_of (mkCaches (ca_services ca) (partial_alter (λ _, sl) key (ca_slices ca))) ns name =
  slices_of ca ns name.
Proof.
  intros Ho Hs. unfold slices_of. cbn. do 2 f_equal. apply map_eq. intros k.
  apply option_eq. intros x. rewrite !map_lookup_filter_Some.
  destruct (decide (k = key)) as [->|Hne].
  - rewrite lookup_partial_alter_eq. naive_solver.
  - by rewrite lookup_partial_alter_ne.
Qed.

Lemma queue_grows (c : Controller W) e k : k ∈ ct_queue c → k ∈ ct_queue (on_event c e).
Proof.
  destruct e as [key svc|key sl]; cbn; unfold enqueueService, enqueueSlice; [set_solver|].
  repeat case_match; set_solver.
Qed.

(** A slice event changes the slices of a Service only when it queues the
    Service or moves one of its slices away. *)
Lemma slice_event_slices (c : Controller W) key sl ns name :
  name ≠ "" → serviceKey ns name ∉ ct_queue (on_event c (EvSlice key sl)) →
  serviceKey ns name ∉ moved_from (ct_caches c) (EvSlice key sl) →
  slices_of (ct_caches (on_event c (EvSlice key sl))) ns name = slices_of (ct_caches c) ns name.
Proof.
  intros Hname Hq Hm.
  assert (∀ s, (sl = Some s ∨ (sl = None ∧ ca_slices (ct_caches c) !! key = Some s)) →
    ~ owned_by ns name s) as Hno.
  { intros s Hs [<- <-]. apply Hq. cbn. apply String.eqb_neq in Hname as Hne.
    destruct Hs as [->|[-> ->]]; unfold enqueueSlice; rewrite Hne; set_solver. }
  cbn. rewrite slices_of_partial_alter; [done| |by intros new Hnew; apply Hno; left].
  intros old Hold. destruct sl as [s|]; [|apply Hno; by right].
  intros [<- <-]. cbn in Hm. rewrite Hold in Hm. case_bool_decide as Hsame; [|set_solver].
  by apply (Hno s); [left|].
Qed.

(** Without a slice moved to another Service nothing is lost. *)
Lemma history_quiet init c e :
  ctl_history R routable init ∅ c → keyed e → moved_from (ct_caches c) e = ∅ →
  ctl_history R routable init ∅ (on_event c e).
Proof.
  intros Hh Hk Hm. assert (∅ = (∅ ∪ moved_from (ct_caches c) e) ∖ ct_queue (on_event c e)) as -> by set_solver.
  by apply history_event.
Qed.

Lemma event_converged lost c e :
  converged lost c → keyed e →
  converged ((lost ∪ moved_from (ct_caches c) e) ∖ ct_queue (on_event c e)) (on_event c e).
Proof.
  intros Hc Hk ns name Hn Hname Hnq Hnl.
  assert (serviceKey ns name ∉ ct_queue c) as Hnq' by (intros Hin; apply Hnq; by apply queue_grows).
  assert ((serviceKey ns name ∉ lost) ∧ (serviceKey ns name ∉ moved_from (ct_caches c) e)) as [Hl Hm].
  { split; intros ?; apply Hnl; set_solver. }
  destruct (Hc ns name Hn Hname Hnq' Hl) as (rules & Hw & Hi). exists rules.
  destruct e as [key svc|key sl].
  - cbn in Hnq. unfold enqueueService in Hnq.
    apply not_elem_of_union in Hnq as [Hne%not_elem_of_singleton _].
    split; [|done]. unfold called_for in *. cbn. by rewrite lookup_partial_alter_ne.
  - split; [|done]. unfold called_for in *. rewrite slice_event_slices by done. done.
Qed.

Lemma process_converged lost c key :
  converged lost c → key ∈ ct_queue c → converged lost (processNext R routable c key).
Proof.
  intros Hc Hq ns name Hn Hname Hnq Hnl. unfold processNext in *.
  destruct (reconcile R routable _ key _ _) as [[rt w] r] eqn:Er. cbn in *.
  destruct (decide (key = serviceKey ns name)) as [->|Hne].
  - destruct r as [[]|e]; [by eapply reconcile_spec|done].
  - assert (serviceKey ns name ∉ ct_queue c) as Hnq' by (destruct r; set_solver).
    destruct (Hc ns name Hn Hname Hnq' Hnl) as (rules & Hw & Hi). exists rules. split; [done|].
    unfold installed in *. by rewrite (reconcile_frame _ _ _ _ _ _ _ _ Er).
Qed.
End converge.

(** ** Properties *)

Definition ctl_init {W} (rt : Router) (w : W) : Controller W := mkCtl (mkCaches ∅ ∅) ∅ rt w.

(** C11: Whatever the interleaving of informer events, queue processing and
    failing host commands, every Service whose key is not waiting in the queue
    has exactly the rules its Service object and EndpointSlices call for
    installed in the router, and a Service that calls for none has none, unless
    it is one of [lost]: an update took one of its EndpointSlices over to
    another Service, and no event has queued it since. *)
Theorem services_converge `{MapRange} {W} (R : Runner W) routable rt w lost c :
  services rt = ∅ → ctl_history R routable (ctl_init rt w) lost c →
  ∀ ns name, no_char (ch 47) ns = true → name ≠ "" →
    serviceKey ns name ∉ ct_queue c → serviceKey ns name ∉ lost →
    ∃ rules, called_for routable (ct_caches c) ns name rules ∧
             installed (ct_router c) (serviceKey ns name) rules.
Proof.
  intros Hs Hr. change (converged routable lost c).
  induction Hr as [|lost c e _ IH Hk|lost c key _ IH Hq].
  - intros ns name _ _ _ _. exists []. split; [done|]. unfold installed. cbn. by rewrite Hs.
  - by apply event_converged.
  - by apply process_converged.
Qed.

Definition web_svc : Service :=
  mkService "default" "web" false "10.96.0.10" [mkSvcPort "http" "TCP" 80].
Definition web_slice (port : Z) (addr : string) (svc : string) : EndpointSlice :=
  mkSlice "default" svc true [mkSliceEp [addr] (Some true) None] [(Some "http", Some port)].

Definition svc_router : Router :=
  (@run_ops canonical_range _ pf_sim [OpStart] (New demo_cfg) (∅, [])).1.1.

Definition ctl_run (c : Controller (gmap string string * list (option CommandError)))
    (es : list event) (keys : list string) :=
  foldl (@processNext canonical_range _ pf_sim None) (foldl on_event c es) keys.

Definition web_ctl :=
  ctl_run (ctl_init svc_router (∅, []))
    [EvService "default/web" (Some web_svc); EvSlice "default/web-1" (Some (web_slice 8080 "10.244.1.2" "web"))]
    ["default/web"].

Lemma web_ctl_reachable :
  @ctl_history canonical_range _ pf_sim None (ctl_init svc_router (∅, [])) ∅ web_ctl.
Proof.
  refine (@history_process canonical_range _ pf_sim None _ ∅ (foldl on_event _ _) "default/web" _ _).
  - do 2 (apply history_quiet; [|done|done]). apply history_start.
  - by apply (bool_decide_unpack _); vm_compute.
Qed.

Lemma services_converge_witness :
  ct_queue web_ctl = ∅ ∧
  services (ct_router web_ctl) !! "default/web" =
    Some [mkRule "default/web" "10.96.0.10" "tcp" 80 8080 ["10.244.1.2"]] ∧
  ∃ rules, called_for None (ct_caches web_ctl) "default" "web" rules ∧
           installed (ct_router web_ctl) (serviceKey "default" "web") rules.
Proof.
  split; [by apply (bool_decide_unpack _); vm_compute|].
  split; [by vm_compute|].
  apply (@services_converge canonical_range _ pf_sim None svc_router (∅, []) ∅ web_ctl).
  - by vm_compute.
  - apply web_ctl_reachable.
  - done.
  - done.
  - by apply (bool_decide_unpack _); vm_compute.
  - done.
Defined.

(** The rules built for a Service pass the router's validation whenever the
    Service has an IP for its ClusterIP and ports in range: they cover exactly
    its TCP and UDP ports that some slice names, and their backends are exactly
    the addresses of ready, non-terminating IPv4 endpoints. *)
Theorem built_rules_valid svc slices r :
  is_ip (svc_ClusterIP svc) = true → svc_Namespace svc ≠ "" →
  (∀ sp, sp ∈ svc_Ports svc → 1 ≤ sp_Port sp ≤ 65535) →
  (∀ sl name port, sl ∈ slices → (name, Some port) ∈ sl_Ports sl → 1 ≤ port ≤ 65535) →
  (∀ sl ep ip, sl ∈ slices → ep ∈ sl_Endpoints sl → ip ∈ se_Addresses ep → is_ip ip = true) →
  r ∈ BuildServiceRules svc slices →
  ServiceRule_validate r = Ok tt ∧
  (∀ ip, ip ∈ Backends r ↔
     ∃ sl ep, sl ∈ slices ∧ ep ∈ sl_Endpoints sl ∧ ip ∈ se_Addresses ep ∧ sl_IPv4 sl = true ∧
       se_Ready ep ≠ Some false ∧ se_Terminating ep ≠ Some true).
Proof.
  intros Hc Hns Hsp Hsl Hip Hr.
  apply BuildServiceRules_elem in Hr as (sp & Hin & Hk & Hcl & Hport & Hpr & _ & Ht & Hb & Hne).
  split; [|intros ip; rewrite Hb; apply elem_of_readyEndpointIPs].
  apply targetByName_Some in Ht as (sl & name & Hslin & Hp).
  unfold ServiceRule_validate. rewrite !seq_Ok, Hk, Hcl, Hport. lint.
  split_and!; try done; try (by apply Hsp); try (by eapply Hsl).
  - unfold serviceKey. intros [E _]%sapp_eq_nil. done.
  - apply Forall_forall. intros b Hbin. lint. rewrite Hb in Hbin.
    apply elem_of_readyEndpointIPs in Hbin as (s' & ep & ? & ? & ? & _). by eapply Hip.
Qed.

Lemma built_rules_valid_witness :
  ServiceRule_validate (mkRule "default/web" "10.96.0.10" "tcp" 80 8080 ["10.244.1.2"]) = Ok tt.
Proof.
  refine (proj1 (built_rules_valid web_svc [web_slice 8080 "10.244.1.2" "web"] _ _ _ _ _ _ _)).
  - by vm_compute.
  - done.
  - intros sp ->%list_elem_of_singleton. cbn. lia.
  - intros sl name port ->%list_elem_of_singleton Hp. cbn in Hp.
    apply list_elem_of_singleton in Hp. simplify_eq. lia.
  - intros sl ep ip ->%list_elem_of_singleton Hep Hip. cbn in Hep.
    apply list_elem_of_singleton in Hep as ->. cbn in Hip. apply list_elem_of_singleton in Hip as ->.
    by vm_compute.
  - apply list_elem_of_singleton. by vm_compute.
Defined.

(** Slices of one Service need not agree on the number behind a port name
    (a named targetPort resolved in Pods of two revisions).  The first slice
    listed decides for all backends, so the ready backend of the other slice is
    redirected to a port it does not serve. *)
Theorem mixed_slice_ports p1 p2 ip1 ip2 :
  BuildServiceRules web_svc [web_slice p1 ip1 "web"; web_slice p2 ip2 "web"] =
    [mkRule "default/web" "10.96.0.10" "tcp" 80 p1 (sorted_set [ip1; ip2])] ∧
  BuildServiceRules web_svc [web_slice p2 ip2 "web"; web_slice p1 ip1 "web"] =
    [mkRule "default/web" "10.96.0.10" "tcp" 80 p2 (sorted_set [ip1; ip2])].
Proof.
  assert (∀ p1 p2 ip1 ip2,
    BuildServiceRules web_svc [web_slice p1 ip1 "web"; web_slice p2 ip2 "web"] =
    [mkRule "default/web" "10.96.0.10" "tcp" 80 p1 (sorted_set [ip1; ip2])]) as Hg.
  { intros q1 q2 jp1 jp2. unfold BuildServiceRules. cbn [svc_ExternalName web_svc].
    change (_ || _) with false. cbv iota.
    change (readyEndpointIPs [web_slice q1 jp1 "web"; web_slice q2 jp2 "web"]) with (sorted_set [jp1; jp2]).
    destruct (sorted_set [jp1; jp2]) as [|x xs] eqn:E.
    - exfalso. assert (jp1 ∈ sorted_set [jp1; jp2]) as Hin by (apply elem_of_sorted_set; by left).
      rewrite E in Hin. by apply not_elem_of_nil in Hin.
    - cbn [svc_Ports web_svc mbind list_bind app]. unfold port_rule. cbn [sp_Name sp_Protocol sp_Port].
      change (targetByName _) with (<["http" := q1]> ∅ : gmap string Z). done. }
  split; [apply Hg|]. rewrite Hg. do 2 f_equal. apply sorted_set_canonical. set_solver.
Qed.

Definition relabelled :=
  ctl_run web_ctl
    [EvSlice "default/web-1" (Some (web_slice 8080 "10.244.1.2" "api"))] ["default/api"].

(** An update that moves a slice to another Service enqueues only the new
    owner: the queue drains with the old owner still redirecting to a backend
    that no slice of it names. *)
Theorem relabelled_slice_stale :
  ct_queue relabelled = ∅ ∧
  @listForService canonical_range (ct_caches relabelled) "default" "web" = [] ∧
  services (ct_router relabelled) !! "default/web" =
    Some [mkRule "default/web" "10.96.0.10" "tcp" 80 8080 ["10.244.1.2"]].
Proof.
  split; [by apply (bool_decide_unpack _); vm_compute|]. by vm_compute.
Qed.

(** ** Services stay within the helper's policy *)

Definition v4_ranges (cidrs : list string) : Prop :=
  ∀ cidr ip n, cidr ∈ cidrs → ParseCIDR cidr = Some (ip, n) → net_mw n = W4.

Lemma in_nets_Some cidrs ip : in_nets (routable_nets cidrs) ip = true →
  ∃ parsed cidr ip' n, ParseIP ip = Some parsed ∧ cidr ∈ cidrs ∧ cidr ≠ "" ∧
    ParseCIDR cidr = Some (ip', n) ∧ Net_Contains n parsed = true.
Proof.
  unfold in_nets. destruct (ParseIP ip) as [parsed|]; [|done].
  rewrite existsb_exists. intros (n & Hn%list_elem_of_In & Hc).
  apply list_elem_of_omap in Hn as (cidr & Hin & Hn).
  destruct (String.eqb cidr "") eqn:E; [done|]. destruct (ParseCIDR cidr) as [[ip' n']|] eqn:Ep; [|done].
  simplify_eq. bools. by eexists parsed, cidr, ip', n.
Qed.

Lemma mesh_pod_cidrs (ps : list MeshPeerConfig) (s0 : gset string) x :
  x ∈ foldl (λ s p, if String.eqb (mp_PodCIDR p) "" then s
                    else NormalizeCIDRSet [mp_PodCIDR p] ∪ s) s0 ps ↔
  x ∈ s0 ∨ ∃ p, p ∈ ps ∧ mp_PodCIDR p ≠ "" ∧ normalizeCIDR (mp_PodCIDR p) = Some x.
Proof.
  revert s0. induction ps as [|p ps IH]; intros s0; cbn [foldl].
  - split; [by left|]. intros [?|(p & Hp & _)]; [done|by apply not_elem_of_nil in Hp].
  - rewrite IH. setoid_rewrite elem_of_cons. destruct (String.eqb (mp_PodCIDR p) "") eqn:E; bools.
    + naive_solver.
    + rewrite elem_of_union, elem_of_NormalizeCIDRSet. setoid_rewrite list_elem_of_singleton. naive_solver.
Qed.

(** Every range the controller routes to is in the policy's sets. *)
Lemma routable_in_policy c file rand p cidr ip n :
  PrivilegedHelperPolicy c file rand = Ok p → pn_Enabled (c_PodNetwork c) = true →
  cidr ∈ RoutableServiceCIDRs c → cidr ≠ "" → ParseCIDR cidr = Some (ip, n) →
  Net_String n ∈ PodCIDRs p ∨ Net_String n ∈ VMNetCIDRs p.
Proof.
  intros Hp Hen Hin Hne Hc. assert (normalizeCIDR cidr = Some (Net_String n)) as Hn.
  { unfold normalizeCIDR. by rewrite Hc. }
  unfold RoutableServiceCIDRs in Hin. rewrite Hen, !elem_of_app in Hin. cbn [andb] in Hin.
  unfold PrivilegedHelperPolicy in Hp. rewrite Hen in Hp.
  set (pod0 := if String.eqb (node_PodCIDR c) "" then ∅ else NormalizeCIDRSet [node_PodCIDR c]) in *.
  assert (cidr ∈ (if String.eqb (node_PodCIDR c) "" then [] else [node_PodCIDR c]) →
    Net_String n ∈ pod0) as Hpod.
  { subst pod0. destruct (String.eqb (node_PodCIDR c) ""); intros Hx; [by apply not_elem_of_nil in Hx|].
    apply elem_of_NormalizeCIDRSet. eauto. }
  destruct Hin as [Hin|[Hin|Hin]].
  - left. apply Hpod in Hin. destruct (mc_Enabled (c_Mesh c)); cbn [negb] in Hp; [|by simplify_eq].
    destruct (MeshInterfaceConfig c file rand); [|done]. simplify_eq. apply mesh_pod_cidrs. by left.
  - right. assert (Net_String n ∈ NormalizeCIDRSet (if bool_decide (pn_VMNetCIDRs (c_PodNetwork c) = [])
      then [DefaultVMNetCIDR] else pn_VMNetCIDRs (c_PodNetwork c))) as Hx
      by (apply elem_of_NormalizeCIDRSet; eauto).
    destruct (mc_Enabled (c_Mesh c)); cbn [negb] in Hp; [|by simplify_eq].
    destruct (MeshInterfaceConfig c file rand); [|done]. by simplify_eq.
  - left. destruct (mc_Enabled (c_Mesh c)); [|by apply not_elem_of_nil in Hin]. cbn [negb] in Hp.
    destruct (MeshInterfaceConfig c file rand); [|done]. simplify_eq. apply mesh_pod_cidrs. right.
    apply list_elem_of_filter in Hin as [_ (q & -> & Hq)%list_elem_of_fmap]. by exists q.
Qed.

Lemma routable_nets_ne c :
  pn_Enabled (c_PodNetwork c) = true → validatePodNetwork c = Ok tt →
  Forall (λ s, s ≠ "") (pn_VMNetCIDRs (c_PodNetwork c)) →
  routable_nets (RoutableServiceCIDRs c) ≠ [].
Proof.
  intros Hen Hv Hne Hnil. unfold validatePodNetwork in Hv. rewrite Hen in Hv. cbn [negb] in Hv.
  rewrite seq_Ok, for_each_Ok in Hv. destruct Hv as [_ Hv].
  assert (∃ cidr, cidr ∈ RoutableServiceCIDRs c ∧ cidr ≠ "" ∧ is_Some (ParseCIDR cidr)) as (cidr & Hin & Hc & [[ip n] Hp]).
  { unfold RoutableServiceCIDRs. rewrite Hen. cbn [andb].
    destruct (pn_VMNetCIDRs (c_PodNetwork c)) as [|x xs].
    - exists DefaultVMNetCIDR. rewrite bool_decide_true by done. split_and!; [|done|].
      + rewrite !elem_of_app. right; left. by left.
      + by apply (bool_decide_unpack _); vm_compute.
    - exists x. rewrite bool_decide_false by done. apply Forall_cons in Hv as [Hx _], Hne as [? _].
      split_and!; [|done|].
      + rewrite !elem_of_app. right; left. by left.
      + unfold is_cidr in Hx. rewrite guard_Ok in Hx. by bools. }
  assert (n ∈ routable_nets (RoutableServiceCIDRs c)) as Hx.
  { apply list_elem_of_omap. exists cidr. split; [done|]. apply String.eqb_neq in Hc as ->. by rewrite Hp. }
  rewrite Hnil in Hx. by apply not_elem_of_nil in Hx.
Qed.

Lemma in_scope_set_services p rt m :
  in_scope p rt →
  map_Forall (λ _, Forall (λ r, no_char newline (ServiceKey r) = true ∧
    Forall (λ b, ipInSet b (PodCIDRs p) = true ∨ ipInSet b (VMNetCIDRs p) = true) (Backends r))) m →
  in_scope p (set_services rt m).
Proof. intros [] Hm. by split. Qed.

(** C33: No Service can push the router out of the helper's policy: in a node
    whose Pod network is enabled with IPv4 ranges, reconciling any Service
    against any caches leaves an in-scope router in scope, so unroutable
    backends cannot make the anchor load that every Pod depends on fail. *)
Theorem services_stay_in_scope `{MapRange} {W} (R : Runner W) c file rand p ca key rt w rt' w' r :
  PrivilegedHelperPolicy c file rand = Ok p → pn_Enabled (c_PodNetwork c) = true →
  validatePodNetwork c = Ok tt → Forall (λ s, s ≠ "") (pn_VMNetCIDRs (c_PodNetwork c)) →
  v4_ranges (RoutableServiceCIDRs c) →
  (∀ k svc, ca_services ca !! k = Some svc →
     no_char newline (serviceKey (svc_Namespace svc) (svc_Name svc)) = true) →
  in_scope p rt →
  reconcile R (WithRoutableCIDRs (RoutableServiceCIDRs c)) ca key rt w = (rt', w', r) →
  in_scope p rt'.
Proof.
  intros Hp Hen Hval Hne Hv4 Hkeys Hs Hr.
  assert (∀ rt' w' r, DetachService R rt key w = (rt', w', r) → in_scope p rt') as Hdet.
  { unfold DetachService. intros rt1 w1 r1 Hd. destruct (services rt !! key); [|by simplify_eq].
    assert (rt1 = set_services rt (delete key (services rt))) as ->.
    { repeat case_match; by simplify_eq. }
    apply in_scope_set_services; [done|]. apply map_Forall_delete. apply Hs. }
  unfold reconcile, get in Hr. destruct (splitKey key) as [ns name].
  destruct (ca_services ca !! _) as [svc|] eqn:Esvc; [|by eapply Hdet].
  destruct (filterRoutable _ _) as [|x xs] eqn:Ef; [by eapply Hdet|].
  assert (Forall (λ r, no_char newline (ServiceKey r) = true ∧
    Forall (λ b, ipInSet b (PodCIDRs p) = true ∨ ipInSet b (VMNetCIDRs p) = true) (Backends r)) (x :: xs)) as Hx.
  { rewrite <- Ef. apply Forall_forall. intros q Hq.
    apply filterRoutable_elem in Hq as (r0 & Hr0 & Hk & _ & _ & _ & _ & _ & Hb); [|apply Build_backends].
    apply BuildServiceRules_elem in Hr0 as (sp & _ & Hk0 & _). split; [rewrite Hk, Hk0; by eapply Hkeys|].
    apply Forall_forall. intros b Hbin. apply Hb in Hbin as [_ Hg].
    unfold WithRoutableCIDRs in Hg.
    destruct (routable_nets (RoutableServiceCIDRs c)) as [|n0 ns0] eqn:En; [by apply routable_nets_ne in En|].
    rewrite <- En in Hg. specialize (Hg _ eq_refl).
    apply in_nets_Some in Hg as (parsed & cidr & ip' & n & Hpar & Hcin & Hcne & Hcp & Hcon).
    destruct (routable_in_policy c file rand p cidr ip' n) as [?|?]; [done..|left|right];
      eapply ipInSet_normalized; eauto. }
  unfold AttachService in Hr. destruct (String.eqb key ""); [by simplify_eq|].
  destruct (for_each _ _); [|by simplify_eq]. destruct (negb _); [by simplify_eq|].
  destruct (loadAnchorLocked R _ w) as [w1 r1]. simplify_eq.
  apply in_scope_set_services; [done|]. destruct (filter _ (x :: xs)) as [|y ys] eqn:Efl.
  - apply map_Forall_delete. apply Hs.
  - apply map_Forall_insert_2; [|apply Hs]. rewrite <- Efl.
    rewrite Forall_forall in Hx |- *. intros q [_ Hq]%list_elem_of_filter. by apply Hx.
Qed.

Definition scope_net : NetConfig := demo_net true demo_peers.

Definition apiserver_ca : Caches :=
  mkCaches {["default/kubernetes" := mkService "default" "kubernetes" false "10.96.0.1" [mkSvcPort "https" "TCP" 443]]}
    {["default/kubernetes" := mkSlice "default" "kubernetes" true
        [mkSliceEp ["172.18.0.2"; "10.244.2.9"] None None] [(Some "https", Some 6443)]]}.

Definition scope_rt : Router := set_started (New (PodNetworkRouterConfig scope_net)) true.

Definition scope_run :=
  @reconcile canonical_range _ pf_sim (WithRoutableCIDRs (RoutableServiceCIDRs scope_net))
    apiserver_ca "default/kubernetes" scope_rt (∅, []).

Lemma services_stay_in_scope_witness :
  services scope_run.1.1 !! "default/kubernetes" =
    Some [mkRule "default/kubernetes" "10.96.0.1" "tcp" 443 6443 ["10.244.2.9"]] ∧
  in_scope (net_policy scope_net) scope_run.1.1.
Proof.
  split; [by vm_compute|].
  apply (@services_stay_in_scope canonical_range _ pf_sim scope_net (Ok None) demo_rand (net_policy scope_net)
    apiserver_ca "default/kubernetes" scope_rt (∅, []) scope_run.1.1 scope_run.1.2 scope_run.2).
  - vm_compute. reflexivity.
  - reflexivity.
  - vm_compute. reflexivity.
  - constructor.
  - intros cidr ip n Hin Hc.
    assert (forallb (λ s, match ParseCIDR s with
                          | Some (_, n) => bool_decide (net_mw n = W4) | None => true end)
              (RoutableServiceCIDRs scope_net) = true) as Hb by (by vm_compute).
    rewrite forallb_forall in Hb. apply list_elem_of_In in Hin. specialize (Hb cidr Hin).
    rewrite Hc in Hb. by apply bool_decide_eq_true in Hb.
  - intros k svc Hk. cbn in Hk. apply lookup_singleton_Some in Hk as [_ <-]. by vm_compute.
  - assert (PrivilegedHelperPolicy scope_net (Ok None) demo_rand = Ok (net_policy scope_net)) as Hp
      by (vm_compute; reflexivity).
    apply policy_base in Hp as (Hv & Ha & Hm).
    split; rewrite ?Hv, ?Ha, ?Hm; [reflexivity|done|reflexivity|reflexivity| |apply map_Forall_empty..].
    right. split; reflexivity.
  - unfold scope_run. by destruct (reconcile _ _ _ _ _ _) as [[??]?].
Defined.
