(* ===== verification/SvcStop.v ===== *)
(** * Stopping the Service controller: [Controller.Run] and its workers
      ([pkg/network/svcroute/controller.go]), [startServiceController] and the
      teardown behind it ([cmd/macvz-kubelet/serve.go])

    [SvcRoute] processes the queue one item at a time; here are the goroutines
    around it: [Run] waits for the caches, starts its workers and returns when the
    context is cancelled, shutting the queue down; the function
    [startServiceController] returns cancels and waits for [Run]; then the router is
    stopped.  An event of the transition system is one atomic action of one of them.
    The queue is client-go's work queue as documented: an item added again waits, an
    item is not handed to two workers at once, and after ShutDown nothing is added,
    what is queued is still handed out, and then [Get] says so. *)

From S2P Require Import Prelude GoStrings Ipam Host PodNet SvcRoute.

Definition serviceControllerWorkers : nat := 2.

(** A worker in [processNext]: before [Get], with a key to reconcile, or ended. *)
Inductive Worker : Type := WIdle | WBusy (key : string) | WGone.

#[export] Instance Worker_eq_dec : EqDecision Worker.
Proof. solve_decision. Defined.

(** [Run] waiting for the caches, for the context, or returned. *)
Inductive RunPC : Type := RunSync | RunServing | RunReturned.

(** The kubelet before it stops the controller, waiting for [Run], about to stop the
    router, and after. *)
Inductive Closer : Type := CRunning | CWaiting | CClosed | CStopped.

Record Svc (W : Type) := mkSvc {
  sv_ctl : Controller W; sv_shut : bool; sv_cancelled : bool; sv_workers : list Worker; sv_run : RunPC; sv_close : Closer;
}.
Arguments mkSvc {W} _ _ _ _ _ _. Arguments sv_ctl {W} _. Arguments sv_shut {W} _. Arguments sv_cancelled {W} _.
Arguments sv_workers {W} _. Arguments sv_run {W} _. Arguments sv_close {W} _.

Inductive SvcEvent : Type :=
  | SInformer (e : event)            (** an informer's handler *)
  | SCancel                          (** the kubelet's context ends *)
  | SSynced (ok : bool)              (** [WaitForCacheSync] returns *)
  | SReturn                          (** [Run] sees the context *)
  | SWorker (k : nat) (key : string) (** worker [k] moves; [key] is what [Get] gives it *)
  | SStop                            (** [stopSvc]: cancel and begin to wait *)
  | SWaited                          (** [Run] has returned *)
  | SRouter.                         (** the router's Stop *)

Section svc.
Context `{MapRange} {W : Type} (R : Runner W) (routable : option (string → bool)).

Definition with_queue (c : Controller W) (q : gset string) : Controller W := mkCtl (ct_caches c) q (ct_router c) (ct_world c).

(** The keys the workers hold. *)
Definition held (ws : list Worker) : gset string := list_to_set (omap (λ v, match v with WBusy k => Some k | _ => None end) ws).

Definition set_worker (s : Svc W) (c : Controller W) (k : nat) (v : Worker) : Svc W :=
  mkSvc c (sv_shut s) (sv_cancelled s) (<[k := v]> (sv_workers s)) (sv_run s) (sv_close s).

(** What [Get] can hand out. *)
Definition ready_keys (s : Svc W) : gset string := ct_queue (sv_ctl s) ∖ held (sv_workers s).

Definition worker_step (s : Svc W) (k : nat) (v : Worker) (key : string) : option (Svc W) :=
  match v with
  | WIdle =>
      if bool_decide (key ∈ ready_keys s) then Some (set_worker s (with_queue (sv_ctl s) (ct_queue (sv_ctl s) ∖ {[key]})) k (WBusy key))
      else if bool_decide (ready_keys s = ∅) && sv_shut s then Some (set_worker s (sv_ctl s) k WGone)
      else None
  | WBusy key =>
      let c := sv_ctl s in
      let '(rt, w, r) := reconcile R routable (ct_caches c) key (ct_router c) (ct_world c) in
      let q := match r with Ok _ => ct_queue c | Err _ => if sv_shut s then ct_queue c else {[key]} ∪ ct_queue c end in
      Some (set_worker s (mkCtl (ct_caches c) q rt w) k WIdle)
  | WGone => None
  end.

Definition svc_step (s : Svc W) (ev : SvcEvent) : option (Svc W) :=
  match ev with
  | SInformer e =>
      let c := on_event (sv_ctl s) e in
      Some (mkSvc (if sv_shut s then with_queue c (ct_queue (sv_ctl s)) else c) (sv_shut s) (sv_cancelled s) (sv_workers s) (sv_run s) (sv_close s))
  | SCancel => Some (mkSvc (sv_ctl s) (sv_shut s) true (sv_workers s) (sv_run s) (sv_close s))
  | SSynced ok =>
      match sv_run s with
      | RunSync =>
          if ok then Some (mkSvc (sv_ctl s) (sv_shut s) (sv_cancelled s) (replicate serviceControllerWorkers WIdle) RunServing (sv_close s))
          else if sv_cancelled s then Some (mkSvc (sv_ctl s) true true (sv_workers s) RunReturned (sv_close s)) else None
      | _ => None
      end
  | SReturn =>
      match sv_run s with
      | RunServing => if sv_cancelled s then Some (mkSvc (sv_ctl s) true true (sv_workers s) RunReturned (sv_close s)) else None
      | _ => None
      end
  | SWorker k key => match sv_workers s !! k with Some v => worker_step s k v key | None => None end
  | SStop => match sv_close s with CRunning => Some (mkSvc (sv_ctl s) (sv_shut s) true (sv_workers s) (sv_run s) CWaiting) | _ => None end
  | SWaited =>
      match sv_close s, sv_run s with
      | CWaiting, RunReturned => Some (mkSvc (sv_ctl s) (sv_shut s) (sv_cancelled s) (sv_workers s) (sv_run s) CClosed)
      | _, _ => None
      end
  | SRouter =>
      match sv_close s with
      | CClosed =>
          let c := sv_ctl s in
          let '(rt, w, _) := Stop R (ct_router c) (ct_world c) in
          Some (mkSvc (mkCtl (ct_caches c) (ct_queue c) rt w) (sv_shut s) (sv_cancelled s) (sv_workers s) (sv_run s) CStopped)
      | _ => None
      end
  end.

Fixpoint svc_run (s : Svc W) (evs : list SvcEvent) : option (Svc W) :=
  match evs with
  | [] => Some s
  | ev :: evs' => match svc_step s ev with Some s' => svc_run s' evs' | None => None end
  end.

Definition svc_start (rt : Router) (w : W) : Svc W := mkSvc (ctl_init rt w) false false [] RunSync CRunning.
End svc.

(** ** After the router has stopped *)

Section proofs.
Context `{MapRange} {W : Type} (R : Runner W) (routable : option (string → bool)).
Implicit Types s : Svc W.

(** A router that is stopped and holds no Service's rules. *)
Definition off (rt : Router) : Prop := started rt = false ∧ services rt = ∅.

Lemma Stop_off rt w : off (Stop R rt w).1.1.
Proof. unfold Stop. cbn. destruct (started rt) eqn:E; cbn; [by destruct (run R _ w)|]. by split. Qed.

(** To such a router a reconcile does nothing, whatever the caches say. *)
Lemma reconcile_off ca key rt w : off rt → (reconcile R routable ca key rt w).1 = (rt, w).
Proof.
  intros [Hs Hm]. assert ((DetachService R rt key w).1 = (rt, w)) as Hd by (unfold DetachService; by rewrite Hm, lookup_empty).
  unfold reconcile. destruct (get ca key) as [svc|]; [|done]. destruct (splitKey key) as [ns name].
  destruct (filterRoutable _ _) as [|r rs]; [done|]. unfold AttachService. rewrite Hs. cbn [negb]. by repeat case_match.
Qed.

Record svc_inv s : Prop := {
  si_off : sv_close s = CStopped → off (ct_router (sv_ctl s));
  si_cancelled : sv_close s ≠ CRunning → sv_cancelled s = true;
  si_closed : sv_close s = CClosed ∨ sv_close s = CStopped → sv_run s = RunReturned;
  si_shut : sv_shut s = true ↔ sv_run s = RunReturned;
}.

Lemma on_event_keeps (c : Controller W) e : ct_router (on_event c e) = ct_router c ∧ ct_world (on_event c e) = ct_world c.
Proof. by destruct e. Qed.

(** One worker's step: the rest of the system stays, and a stopped router and the
    host behind it with it. *)
Lemma worker_step_keeps s k v key s' :
  worker_step R routable s k v key = Some s' →
  sv_shut s' = sv_shut s ∧ sv_cancelled s' = sv_cancelled s ∧ sv_run s' = sv_run s ∧ sv_close s' = sv_close s ∧
  (off (ct_router (sv_ctl s)) → ct_router (sv_ctl s') = ct_router (sv_ctl s) ∧ ct_world (sv_ctl s') = ct_world (sv_ctl s)).
Proof.
  destruct v as [|key'|]; cbn; [|intros Hs|done].
  - case_bool_decide; [by intros [= <-]|]. destruct (_ && _); [by intros [= <-]|done].
  - pose proof (reconcile_off (ct_caches (sv_ctl s)) key' (ct_router (sv_ctl s)) (ct_world (sv_ctl s))) as Hr.
    destruct (reconcile _ _ _ _ _ _) as [[rt w] r]. injection Hs as <-. cbn in *. split_and!; [done..|]. intros Ho.
    specialize (Hr Ho). by simplify_eq.
Qed.

Lemma svc_step_inv s ev s' : svc_inv s → svc_step R routable s ev = Some s' → svc_inv s'.
Proof.
  intros [H1 H2 H3 H4]. destruct ev as [e| |ok| |k key| | |]; cbn.
  - intros [= <-]. constructor; cbn; [|done..]. intros E. pose proof (on_event_keeps (sv_ctl s) e) as [Hr _].
    destruct (sv_shut s); cbn; rewrite Hr; by apply H1.
  - intros [= <-]. by constructor.
  - destruct (sv_run s) eqn:E; [|done..]. destruct ok.
    + intros [= <-]. constructor; cbn; [done..| |]; [intros Hc; by specialize (H3 Hc)|split; [intros Hc; by apply H4 in Hc|done]].
    + destruct (sv_cancelled s); [|done]. intros [= <-]. by constructor.
  - destruct (sv_run s) eqn:E; [done| |done]. destruct (sv_cancelled s); [|done]. intros [= <-]. by constructor.
  - destruct (sv_workers s !! k) as [v|]; [|done]. intros Hs. apply worker_step_keeps in Hs as (E1 & E2 & E3 & E4 & E5).
    constructor; rewrite ?E1, ?E2, ?E3, ?E4; [|done..]. intros Hc. destruct (E5 (H1 Hc)) as [-> _]. by apply H1.
  - destruct (sv_close s); [|done..]. intros [= <-]. by constructor; cbn; [|..|naive_solver|].
  - destruct (sv_close s); [done| |done..]. destruct (sv_run s) eqn:E; [done..|]. intros [= <-]. by constructor; cbn; [|auto|..].
  - destruct (sv_close s) eqn:Ec; [done..| |done]. pose proof (Stop_off (ct_router (sv_ctl s)) (ct_world (sv_ctl s))) as Ho.
    destruct (Stop _ _ _) as [[rt w] r]. intros [= <-]. by constructor; cbn; auto.
Qed.

Lemma svc_run_app s a b : svc_run R routable s (a ++ b) = svc_run R routable s a ≫= λ s', svc_run R routable s' b.
Proof. revert s. induction a as [|ev a IH]; intros s; [done|]. cbn. by destruct (svc_step R routable s ev). Qed.

Lemma svc_run_inv s evs s' : svc_inv s → svc_run R routable s evs = Some s' → svc_inv s'.
Proof.
  revert s. induction evs as [|ev evs IH]; intros s Hi; cbn; [by intros [= <-]|]. destruct (svc_step R routable s ev) eqn:E; [|done].
  apply IH. by eapply svc_step_inv.
Qed.

Lemma start_inv rt w : svc_inv (svc_start rt w).
Proof. constructor; cbn; [done..| |done]. by intros [?|?]. Qed.

(** Nothing happens to the host any more. *)
Lemma stopped_step s ev s' :
  svc_inv s → sv_close s = CStopped → svc_step R routable s ev = Some s' →
  sv_close s' = CStopped ∧ ct_world (sv_ctl s') = ct_world (sv_ctl s).
Proof.
  intros Hi Hc. pose proof (si_off _ Hi Hc) as Ho. destruct ev as [e| |ok| |k key| | |]; cbn; rewrite ?Hc; try done.
  - intros [= <-]. cbn. pose proof (on_event_keeps (sv_ctl s) e) as [_ Hr]. by destruct (sv_shut s).
  - by intros [= <-].
  - rewrite (si_closed _ Hi) by auto. done.
  - rewrite (si_closed _ Hi) by auto. done.
  - destruct (sv_workers s !! k) as [v|]; [|done]. intros Hs. apply worker_step_keeps in Hs as (_ & _ & _ & E4 & E5).
    split; [congruence|]. by apply E5.
Qed.

Lemma stopped_run s evs s' :
  svc_inv s → sv_close s = CStopped → svc_run R routable s evs = Some s' →
  sv_close s' = CStopped ∧ ct_world (sv_ctl s') = ct_world (sv_ctl s).
Proof.
  revert s. induction evs as [|ev evs IH]; intros s Hi Hc; cbn; [by intros [= <-]|]. destruct (svc_step R routable s ev) as [s1|] eqn:E; [|done].
  intros Hr. destruct (stopped_step _ _ _ Hi Hc E) as [Hc1 Hw]. rewrite <- Hw. by apply (IH s1); [eapply svc_step_inv| |].
Qed.

(** *** The queue runs dry *)

Definition worker_work (v : Worker) : nat := match v with WIdle => 1 | WBusy _ => 2 | WGone => 0 end.

(** What is left to do once the queue is shut down. *)
Definition drain_left s : nat := 3 * size (ct_queue (sv_ctl s)) + sum_list_with worker_work (sv_workers s).

Lemma work_insert (ws : list Worker) k v v' :
  ws !! k = Some v → (sum_list_with worker_work (<[k := v']> ws) + worker_work v = sum_list_with worker_work ws + worker_work v')%nat.
Proof.
  revert k. induction ws as [|x ws IH]; intros [|k] Hk; [done..| |].
  - injection Hk as ->. cbn. lia.
  - specialize (IH k Hk). change (<[S k:=v']> (x :: ws)) with (x :: <[k:=v']> ws). cbn [sum_list_with]. lia.
Qed.

Lemma drain_step s k key s' :
  sv_shut s = true → svc_step R routable s (SWorker k key) = Some s' → (drain_left s' < drain_left s)%nat.
Proof.
  intros Hsh. cbn. destruct (sv_workers s !! k) as [v|] eqn:Ek; [|done]. unfold drain_left. destruct v as [|key'|]; cbn; [| |done].
  - case_bool_decide as Hin.
    + intros [= <-]. cbn. pose proof (work_insert _ _ _ (WBusy key) Ek) as Hw. cbn in Hw. unfold ready_keys in Hin.
      assert ({[key]} ⊆ ct_queue (sv_ctl s)) as Hsub by set_solver. pose proof (size_difference _ _ Hsub) as Hd. rewrite size_singleton in Hd.
      pose proof (subseteq_size _ _ Hsub) as Hle. rewrite size_singleton in Hle. lia.
    + destruct (_ && _); [|done]. intros [= <-]. cbn. pose proof (work_insert _ _ _ WGone Ek) as Hw. cbn in Hw. lia.
  - destruct (reconcile _ _ _ _ _ _) as [[rt w] r]. intros [= <-]. cbn. rewrite Hsh. pose proof (work_insert _ _ _ WIdle Ek) as Hw. cbn in Hw.
    destruct r; lia.
Qed.

(** A worker that has not ended can move: it finishes, gets a key, or learns of the shutdown. *)
Lemma worker_moves s k v :
  sv_shut s = true → sv_workers s !! k = Some v → v ≠ WGone → ∃ key s', svc_step R routable s (SWorker k key) = Some s'.
Proof.
  intros Hsh Hk Hv. cbn. rewrite Hk. destruct v as [|key'|]; [| |done].
  - destruct (decide (ready_keys s = ∅)) as [He|Hne].
    + exists "". cbn. rewrite He, bool_decide_false by set_solver. rewrite bool_decide_true by done. rewrite Hsh. by eexists.
    + apply set_choose_L in Hne as [key Hin]. exists key. cbn. rewrite bool_decide_true by done. by eexists.
  - exists "". cbn. destruct (reconcile _ _ _ _ _ _) as [[rt w] r]. by eexists.
Qed.

Lemma drains s n :
  sv_shut s = true → (drain_left s ≤ n)%nat →
  ∃ evs s', svc_run R routable s evs = Some s' ∧ Forall (λ v, v = WGone) (sv_workers s').
Proof.
  revert s. induction n as [|n IH]; intros s Hsh Hn;
    (destruct (decide (Forall (λ v, v = WGone) (sv_workers s))) as [Hf|Hf]; [by exists [], s|]);
    apply not_Forall_Exists in Hf; [|apply _|..|apply _]; apply Exists_exists in Hf as (v & Hv & Hg);
    apply list_elem_of_lookup in Hv as [k Hk]; destruct (worker_moves _ _ _ Hsh Hk Hg) as (key & s1 & Es);
    pose proof (drain_step _ _ _ _ Hsh Es) as Hd; [lia|].
  assert (sv_shut s1 = true) as Hsh1 by (cbn in Es; rewrite Hk in Es; apply worker_step_keeps in Es as [-> _]; done).
  destruct (IH s1 Hsh1 ltac:(lia)) as (evs & s' & Hr & Ha). exists (SWorker k key :: evs), s'. split; [|done]. cbn [svc_run]. by rewrite Es.
Qed.

(** Whatever the state, the kubelet gets to stop the router. *)
Lemma reaches_stop s : svc_inv s → ∃ evs s', svc_run R routable s evs = Some s' ∧ sv_close s' = CStopped.
Proof.
  intros Hi. assert (∀ s0, svc_inv s0 → sv_close s0 = CClosed → ∃ evs s', svc_run R routable s0 evs = Some s' ∧ sv_close s' = CStopped) as Hcl.
  { intros s0 _ Hc. exists [SRouter]. cbn. rewrite Hc. destruct (Stop R _ _) as [[rt w] r]. by eexists. }
  assert (∀ s0, svc_inv s0 → sv_close s0 = CWaiting → ∃ evs s', svc_run R routable s0 evs = Some s' ∧ sv_close s' = CStopped) as Hwt.
  { intros s0 Hi0 Hc. assert (sv_cancelled s0 = true) as Hx by (apply (si_cancelled _ Hi0); congruence).
    destruct (sv_run s0) eqn:Er; [exists [SSynced false; SWaited; SRouter]|exists [SReturn; SWaited; SRouter]|exists [SWaited; SRouter]]; cbn;
      rewrite ?Er; cbn; rewrite ?Hx; cbn; rewrite ?Hc, ?Er; cbn; destruct (Stop R _ _) as [[rt w] r]; by eexists. }
  destruct (sv_close s) eqn:Ec; [|by apply Hwt|by apply Hcl|by exists [], s].
  destruct (svc_step R routable s SStop) as [s1|] eqn:Es; [|cbn in Es; by rewrite Ec in Es].
  pose proof (svc_step_inv _ _ _ Hi Es) as Hi1. destruct (Hwt s1 Hi1) as (evs & s' & Hr & Hs').
  { cbn in Es. rewrite Ec in Es. by injection Es as <-. }
  exists (SStop :: evs), s'. split; [|done]. cbn [svc_run]. by rewrite Es.
Qed.
End proofs.

(** C39: the Service controller goes quietly.  Whatever the workers, the informers and
    the kubelet have done, it can get to stop the router, and the workers can all end;
    and once it has, the router is off and holds no rules, and no informer event and
    no reconcile still under way or still queued does anything to the host. *)
Theorem service_teardown `{MapRange} {W} (R : Runner W) routable rt w evs s :
  svc_run R routable (svc_start rt w) evs = Some s →
  (∃ evs' s', svc_run R routable s evs' = Some s' ∧ sv_close s' = CStopped ∧ Forall (λ v, v = WGone) (sv_workers s')) ∧
  (sv_close s = CStopped → off (ct_router (sv_ctl s)) ∧
    ∀ evs' s', svc_run R routable s evs' = Some s' → ct_world (sv_ctl s') = ct_world (sv_ctl s)).
Proof.
  intros Hr. pose proof (svc_run_inv R routable _ _ _ (start_inv rt w) Hr) as Hi. split.
  - destruct (reaches_stop R routable s Hi) as (e1 & s1 & H1 & Hc1). pose proof (svc_run_inv R routable _ _ _ Hi H1) as Hi1.
    assert (sv_shut s1 = true) as Hsh by (apply (si_shut _ Hi1), (si_closed _ Hi1); by right).
    destruct (drains R routable s1 _ Hsh (le_n _)) as (e2 & s2 & H2 & Hg). exists (e1 ++ e2), s2. rewrite svc_run_app, H1.
    split; [exact H2|]. split; [|done]. by apply (stopped_run R routable _ _ _ Hi1 Hc1 H2).
  - intros Hc. split; [by apply (si_off _ Hi)|]. intros evs' s' Hr'. by apply (stopped_run R routable _ _ _ Hi Hc Hr').
Qed.

(** Waiting for [Run] is not waiting for its workers: for every Service there is a
    schedule in which the router has been stopped and a worker has yet to reconcile. *)
Theorem stop_does_not_drain `{MapRange} {W} (R : Runner W) routable rt w key :
  ∃ evs s, svc_run R routable (svc_start rt w) evs = Some s ∧ sv_close s = CStopped ∧ sv_workers s !! 0%nat = Some (WBusy key).
Proof.
  exists [SSynced true; SInformer (EvService key None); SWorker 0 key; SStop; SReturn; SWaited; SRouter].
  cbn [svc_run svc_step svc_start sv_run sv_workers sv_ctl sv_shut sv_close sv_cancelled].
  change (replicate serviceControllerWorkers WIdle !! 0%nat) with (Some WIdle). cbn [worker_step].
  rewrite bool_decide_true by (unfold ready_keys; rewrite elem_of_difference; split; [change (key ∈ ({[key]} ∪ ∅ : gset string)); set_solver|apply not_elem_of_empty]). cbn.
  destruct (Stop R rt w) as [[rt' w'] r]. eexists. split; [reflexivity|]. by split.
Qed.

(** A worker holds a Service with an endpoint when the router is stopped; it then finds
    the router not started, and the anchor stays flushed. *)
Definition late_reconcile : list SvcEvent :=
  [SSynced true; SInformer (EvSlice "default/web-1" (Some (web_slice 8080 "10.244.1.5" "web"))); SInformer (EvService "default/web" (Some web_svc));
   SWorker 0 "default/web"; SStop; SReturn; SWaited; SRouter].

Lemma service_teardown_witness :
  ∃ s s', svc_run (H := canonical_range) pf_sim None (svc_start svc_router ({[DefaultAnchor := "stale"]}, [])) late_reconcile = Some s ∧
    sv_workers s = [WBusy "default/web"; WIdle] ∧
    svc_run (H := canonical_range) pf_sim None s [SWorker 0 ""] = Some s' ∧ ct_world (sv_ctl s') = ct_world (sv_ctl s) ∧
    (ct_world (sv_ctl s)).1 = ∅.
Proof.
  set (w0 := ({[DefaultAnchor := "stale"]} : gmap string string, [] : list (option CommandError))).
  assert (((λ s : Svc _, (sv_workers s, sv_close s, bool_decide ((ct_world (sv_ctl s)).1 = ∅))) <$>
    svc_run (H := canonical_range) pf_sim None (svc_start svc_router w0) late_reconcile)
    = Some ([WBusy "default/web"; WIdle], CStopped, true)) as Hv by (vm_compute; reflexivity).
  destruct (svc_run (H := canonical_range) pf_sim None (svc_start svc_router w0) late_reconcile) as [s|] eqn:E; [|discriminate Hv].
  cbn [fmap option_fmap option_map] in Hv. injection Hv as Hw Hc Ha. apply bool_decide_eq_true_1 in Ha.
  assert (∃ s', svc_run (H := canonical_range) pf_sim None s [SWorker 0 ""] = Some s') as [s' Es'].
  { cbn [svc_run svc_step]. rewrite Hw. cbn [lookup list_lookup]. unfold worker_step. destruct (reconcile _ _ _ _ _ _) as [[rt w] r]. by eexists. }
  exists s, s'. split; [reflexivity|]. split; [exact Hw|]. split; [exact Es'|]. split; [|exact Ha].
  destruct (service_teardown (H := canonical_range) pf_sim None svc_router w0 late_reconcile s E) as [_ H2].
  destruct (H2 Hc) as [_ H3]. exact (H3 [SWorker 0 ""] s' Es').
Defined.
