(* ===== verification/Filepath.v ===== *)
(** * Slash-separated paths: [path/filepath] on a Unix host

    The lexical functions of [path/filepath] that the volume code calls.  A
    cleaned path is a rooted flag and a list of components; [Clean] is parsing
    followed by printing, which is what makes confinement a statement about
    component prefixes instead of byte strings. *)

From S2P Require Import Prelude GoStrings.

Definition sep : ascii := ch 47.
Definition Separator : string := String sep "".

Definition IsAbs (p : string) : bool := HasPrefix p Separator.

(** One component of the input against the components kept so far (innermost
    first): [""] and ["."] vanish, [".."] drops the last kept component, stays
    when there is none, and vanishes at the root. *)
Definition push (rooted : bool) (st : list string) (c : string) : list string :=
  if String.eqb c "" || String.eqb c "." then st
  else if String.eqb c ".." then
    match st with
    | [] => if rooted then [] else [".."]
    | x :: st' => if String.eqb x ".." then ".." :: st else st'
    end
  else c :: st.

Definition parse_path (p : string) : bool * list string :=
  let rooted := IsAbs p in (rooted, rev (foldl (push rooted) [] (split_on sep p))).

Definition show_path (rooted : bool) (cs : list string) : string :=
  if rooted then Separator +:+ Join cs Separator
  else match cs with [] => "." | _ => Join cs Separator end.

Definition Clean (p : string) : string :=
  let '(rooted, cs) := parse_path p in show_path rooted cs.

(** [filepath.Join]: leading empty elements are dropped, the rest joined and
    cleaned. *)
Fixpoint JoinPath (elems : list string) : string :=
  match elems with
  | [] => ""
  | e :: es => if String.eqb e "" then JoinPath es else Clean (Join elems Separator)
  end.

(** The components of [targ] and [base] after their longest common prefix. *)
Fixpoint strip_common (base targ : list string) : list string * list string :=
  match base, targ with
  | b :: base', t :: targ' =>
      if String.eqb b t then strip_common base' targ' else (base, targ)
  | _, _ => (base, targ)
  end.

(** [None]: "Rel: can't make targ relative to base". *)
Definition Rel (basepath targpath : string) : option string :=
  let '(br, bs) := parse_path basepath in
  let '(tr, ts) := parse_path targpath in
  if String.eqb (Clean basepath) (Clean targpath) then Some "."
  else if negb (Bool.eqb br tr) then None
  else
    match strip_common bs (if tr || negb (bool_decide (ts = [])) then ts else ["."]) with
    | ([], rest) => Some (Join rest Separator)
    | (b :: bs', rest) =>
        if String.eqb b ".." then None
        else Some (Join ((const ".." <$> (b :: bs')) ++ rest) Separator)
    end.

(** [filepath.Dir]: everything up to the last separator, cleaned. *)
Fixpoint dir_prefix (p : string) : string :=
  match p with
  | EmptyString => ""
  | String a r => if ContainsByte sep p then String a (dir_prefix r) else ""
  end.

Definition Dir (p : string) : string := Clean (dir_prefix p).

(** ** Components of rooted paths *)

(** A component that survives cleaning. *)
Definition comp (c : string) : Prop :=
  c ≠ "" ∧ c ≠ "." ∧ c ≠ ".." ∧ no_char sep c = true.

#[export] Instance comp_dec c : Decision (comp c).
Proof. unfold comp. apply _. Defined.

(** The components of an absolute path. *)
Definition comps (p : string) : list string := (parse_path p).2.

(** [below root p]: the path [p] names something strictly below [root]. *)
Definition below (root p : string) : Prop :=
  IsAbs p = true ∧ ∃ rest, rest ≠ [] ∧ Forall comp rest ∧ comps p = comps root ++ rest.

(** [at_or_below root p] also allows [root] itself. *)
Definition at_or_below (root p : string) : Prop :=
  IsAbs p = true ∧ ∃ rest, Forall comp rest ∧ comps p = comps root ++ rest.

Lemma split_on_sep_app s t :
  split_on sep (s +:+ Separator +:+ t) = split_on sep s ++ split_on sep t.
Proof.
  induction s as [|a s IH]; [done|]. rewrite sapp_cons. simpl.
  rewrite IH. destruct (Ascii.eqb a sep); [done|].
  by destruct (split_on sep s) eqn:E; [destruct s; simpl in E; repeat case_match|].
Qed.

Lemma split_on_clean s : Forall (λ c, no_char sep c = true) (split_on sep s).
Proof.
  induction s as [|a s IH]; simpl; [by repeat constructor|].
  destruct (Ascii.eqb a sep) eqn:E; [by constructor|].
  destruct (split_on sep s); inversion IH; subst; constructor; try done;
    by rewrite no_char_cons, E.
Qed.

Lemma split_on_Join cs :
  cs ≠ [] → Forall (λ c, no_char sep c = true) cs → split_on sep (Join cs Separator) = cs.
Proof.
  induction cs as [|c [|d cs] IH]; intros Hn Hc; [done| |].
  - apply Forall_cons in Hc as [Hc _]. by apply split_on_none.
  - apply Forall_cons in Hc as [Hc Hcs].
    change (Join (c :: d :: cs) Separator) with (c +:+ Separator +:+ Join (d :: cs) Separator).
    rewrite split_on_sep_app, IH, split_on_none by done. done.
Qed.

Lemma push_comp r st c : comp c → push r st c = c :: st.
Proof.
  intros (H1 & H2 & H3 & _). unfold push.
  by rewrite (proj2 (String.eqb_neq _ _) H1), (proj2 (String.eqb_neq _ _) H2),
    (proj2 (String.eqb_neq _ _) H3).
Qed.

Lemma push_rooted st c :
  Forall comp st → no_char sep c = true → Forall comp (push true st c).
Proof.
  intros Hst Hc. unfold push.
  destruct (String.eqb c "" || String.eqb c ".") eqn:E1; [done|].
  destruct (String.eqb c "..") eqn:E2.
  - destruct st as [|x st]; [done|]. apply Forall_cons in Hst as [Hx Hst].
    destruct (String.eqb x "..") eqn:E; [|done]. bools. subst.
    by destruct Hx as (_ & _ & [] & _).
  - bools. by constructor.
Qed.

Lemma foldl_push_rooted l st :
  Forall comp st → Forall (λ c, no_char sep c = true) l → Forall comp (foldl (push true) st l).
Proof.
  revert st. induction l as [|c l IH]; intros st Hst Hl; simpl; [done|].
  apply Forall_cons in Hl as [Hc Hl]. apply IH; [by apply push_rooted|done].
Qed.

Lemma foldl_push_comps r cs st : Forall comp cs → foldl (push r) st cs = rev cs ++ st.
Proof.
  revert st. induction cs as [|c cs IH]; intros st Hc; simpl; [done|].
  apply Forall_cons in Hc as [Hc Hcs].
  by rewrite push_comp, IH, <- app_assoc.
Qed.

Lemma comps_comp p : IsAbs p = true → Forall comp (comps p).
Proof.
  intros Hp. unfold comps, parse_path. simpl. rewrite Hp. apply Forall_rev.
  apply foldl_push_rooted; [done|apply split_on_clean].
Qed.

(** Parsing undoes printing on cleaned absolute paths. *)
Lemma parse_show cs : Forall comp cs → parse_path (show_path true cs) = (true, cs).
Proof.
  intros Hcs. unfold parse_path, show_path.
  assert (IsAbs (Separator +:+ Join cs Separator) = true) as -> by apply HasPrefix_app.
  f_equal. change (Separator +:+ Join cs Separator) with ("" +:+ Separator +:+ Join cs Separator).
  rewrite split_on_sep_app. destruct cs as [|c cs]; [done|].
  rewrite (split_on_Join (c :: cs)); [|done|eapply Forall_impl; [exact Hcs|unfold comp; tauto]].
  rewrite foldl_app, (foldl_push_comps true (c :: cs)) by done.
  by rewrite rev_app_distr, rev_involutive.
Qed.

Lemma Clean_abs p : IsAbs p = true → Clean p = show_path true (comps p).
Proof. intros Hp. unfold Clean, comps, parse_path. by rewrite Hp. Qed.

Lemma IsAbs_show cs : IsAbs (show_path true cs) = true.
Proof. apply HasPrefix_app. Qed.

Lemma comps_Clean p : IsAbs p = true → comps (Clean p) = comps p ∧ IsAbs (Clean p) = true.
Proof.
  intros Hp. rewrite Clean_abs by done. unfold comps at 1.
  rewrite parse_show by by apply comps_comp. split; [done|apply IsAbs_show].
Qed.


(** Appending elements to an absolute path pushes their components. *)
Lemma comps_app p t :
  IsAbs p = true →
  IsAbs (p +:+ Separator +:+ t) = true ∧
  comps (p +:+ Separator +:+ t) = rev (foldl (push true) (rev (comps p)) (split_on sep t)).
Proof.
  intros Hp. assert (IsAbs (p +:+ Separator +:+ t) = true) as Hpt.
  { apply HasPrefix_spec in Hp as [q ->]. rewrite sapp_assoc. apply HasPrefix_app. }
  split; [done|]. unfold comps, parse_path. cbn [snd]. rewrite Hp, Hpt.
  by rewrite split_on_sep_app, foldl_app, rev_involutive.
Qed.

Lemma strip_common_prefix bs ts rest : strip_common bs ts = ([], rest) → ts = bs ++ rest.
Proof.
  revert ts. induction bs as [|b bs IH]; intros [|t ts]; simpl; intros H; simplify_eq; try done.
  destruct (String.eqb b t) eqn:E; [|done]. bools. subst. f_equal. by apply IH.
Qed.

Lemma show_inj cs ds :
  Forall comp cs → Forall comp ds → show_path true cs = show_path true ds → cs = ds.
Proof. intros Hc Hd E. apply (f_equal parse_path) in E. rewrite !parse_show in E by done. by simplify_eq. Qed.

(** What [Rel] returns between absolute paths: ["."], a path that climbs, or
    exactly the components below the base. *)
Lemma Rel_abs base targ rel :
  IsAbs base = true → IsAbs targ = true → Rel base targ = Some rel →
  (rel = "." ∧ comps targ = comps base) ∨
  (rel = ".." ∨ HasPrefix rel (".." +:+ Separator) = true) ∨
  (∃ rest, rest ≠ [] ∧ Forall comp rest ∧ comps targ = comps base ++ rest ∧ rel = Join rest Separator).
Proof.
  intros Hb Ht. unfold Rel. pose proof (comps_comp _ Hb) as Cb. pose proof (comps_comp _ Ht) as Ct.
  rewrite !Clean_abs by done. unfold comps in *. unfold parse_path in *. cbn [snd] in *.
  rewrite Hb, Ht in *. 
  set (bs := rev (foldl _ _ (split_on sep base))) in *.
  set (ts := rev (foldl _ _ (split_on sep targ))) in *. cbn [Bool.eqb negb orb].
  destruct (String.eqb _ _) eqn:E; [intros; simplify_eq; left; split; [done|]|].
  { bools. symmetry. by apply show_inj. }
  destruct (strip_common bs ts) as [[|b bs'] rest] eqn:Es; intros; simplify_eq.
  - apply strip_common_prefix in Es. right; right. exists rest. split_and!; try done.
    + intros ->. rewrite app_nil_r in Es. bools. apply E. by rewrite Es.
    + rewrite Es in Ct. by apply Forall_app in Ct as [_ ?].
  - destruct (String.eqb b ".."); simplify_eq. right; left. cbn [fmap list_fmap app const].
    match goal with |- context [Join (".." :: ?l)] => destruct l as [|x l'] end; [by left|right].
    apply HasPrefix_spec. by exists (Join (x :: l') Separator).
Qed.

(** ** Cleaning keeps a relative path relative *)

Definition piece (c : string) : Prop := c ≠ "" ∧ no_char sep c = true.

Lemma push_piece st c :
  Forall piece st → no_char sep c = true → Forall piece (push false st c).
Proof.
  intros Hst Hc. unfold push. destruct (String.eqb c "" || String.eqb c ".") eqn:E1; [done|].
  bools. destruct (String.eqb c "..").
  - destruct st as [|x st]; [by repeat constructor|]. apply Forall_cons in Hst as [Hx Hst].
    destruct (String.eqb x ".."); [|done]. by repeat (constructor; try done).
  - by repeat (constructor; try done).
Qed.

Lemma foldl_push_piece l st :
  Forall piece st → Forall (λ c, no_char sep c = true) l → Forall piece (foldl (push false) st l).
Proof.
  revert st. induction l as [|c l IH]; intros st Hst Hl; simpl; [done|].
  apply Forall_cons in Hl as [Hc Hl]. apply IH; [by apply push_piece|done].
Qed.

Lemma IsAbs_piece c t : piece c → IsAbs (c +:+ t) = false.
Proof.
  intros [Hn Hc]. destruct c as [|a c]; [done|]. rewrite no_char_cons in Hc. bools.
  unfold IsAbs, Separator. rewrite sapp_cons. cbn [HasPrefix].
  rewrite Ascii.eqb_sym. by match goal with H : Ascii.eqb a sep = false |- _ => rewrite H end.
Qed.

Lemma IsAbs_Clean p : IsAbs (Clean p) = IsAbs p.
Proof.
  destruct (IsAbs p) eqn:Hp; [by apply comps_Clean|].
  unfold Clean, parse_path. rewrite Hp. unfold show_path.
  pose proof (foldl_push_piece (split_on sep p) [] (Forall_nil_2 _) (split_on_clean p)) as Hcs.
  apply Forall_rev in Hcs. destruct (rev _) as [|c [|d cs]]; [done| |]; apply Forall_cons in Hcs as [Hc _].
  - rewrite <- (sapp_nil_r c). by apply IsAbs_piece.
  - by apply (IsAbs_piece c (Separator +:+ Join (d :: cs) Separator)).
Qed.

Lemma Clean_idem p : IsAbs p = true → Clean (Clean p) = Clean p.
Proof.
  intros Hp. destruct (comps_Clean p Hp) as [Hc Ha]. rewrite (Clean_abs (Clean p)), Hc by done.
  by rewrite Clean_abs.
Qed.

(** ** Below *)

Lemma below_trans p q r : below p q → below q r → below p r.
Proof.
  intros (_ & l & Hl & Cl & El) (Hr & k & _ & Ck & Ek). split; [done|].
  exists (l ++ k). rewrite Ek, El, app_assoc. split_and!; [by destruct l|by apply Forall_app|done].
Qed.

Lemma below_at p q : below p q → at_or_below p q.
Proof. intros (Hq & l & _ & Cl & E). split; [done|]. by exists l. Qed.

(** The components of a cleaned absolute path, read off its text. *)
Lemma split_show cs : cs ≠ [] → Forall comp cs → split_on sep (show_path true cs) = "" :: cs.
Proof.
  intros Hn Hcs. unfold show_path.
  change (Separator +:+ Join cs Separator) with ("" +:+ Separator +:+ Join cs Separator).
  rewrite split_on_sep_app, (split_on_Join cs); [done|done|].
  eapply Forall_impl; [exact Hcs|unfold comp; tauto].
Qed.

Lemma show_path_cons c cs : show_path true (c :: cs) = Separator +:+ Join (c :: cs) Separator.
Proof. done. Qed.

(** A byte prefix that ends in a separator is a component prefix. *)
Lemma show_prefix ps cs t :
  ps ≠ [] → Forall comp ps → Forall comp cs →
  show_path true cs = show_path true ps +:+ Separator +:+ t → ∃ rest, cs = ps ++ rest.
Proof.
  intros Hn Hps Hcs E. apply (f_equal (split_on sep)) in E.
  rewrite split_on_sep_app, (split_show ps) in E by done.
  destruct cs as [|c cs].
  - destruct ps as [|p ps]; [done|]. apply Forall_cons in Hps as [[Hp _] _].
    change (split_on sep (show_path true [])) with [""; ""] in E.
    injection E as E1 _. by destruct Hp.
  - rewrite split_show in E by done. simplify_eq/=. by exists (split_on sep t).
Qed.

Lemma Join_app_sep ps r rest : ps ≠ [] →
  Join (ps ++ r :: rest) Separator = Join ps Separator +:+ Separator +:+ Join (r :: rest) Separator.
Proof.
  induction ps as [|p [|q ps] IH]; intros Hn; [done|done|].
  change (Join ((p :: q :: ps) ++ r :: rest) Separator)
    with (p +:+ Separator +:+ Join ((q :: ps) ++ r :: rest) Separator).
  change (Join (p :: q :: ps) Separator) with (p +:+ Separator +:+ Join (q :: ps) Separator).
  rewrite IH by done. by rewrite !sapp_assoc.
Qed.
