(* ===== verification/Launchd.v ===== *)
(** * Installing the helper: [pkg/network/privhelper/launchd.go], [newsyslog.go]

    The LaunchDaemon plist and the log-rotation drop-in as rendered text, and the
    installer over the files of the host and launchd. *)

From S2P Require Import Prelude GoFloat GoStrings GoNet GoJson GoTime GoFlag OsFs Filepath Host PrivPolicy PrivHelper WireGuard.

Open Scope Z_scope.

(** ** The configuration of the LaunchDaemon *)

Definition DefaultLabel : string := "com.github.chimerakang.macvz-netd".
Definition DefaultPlistDir : string := "/Library/LaunchDaemons".
Definition DefaultBinaryPath : string := "/usr/local/sbin/macvz-netd".
Definition DefaultStdoutPath : string := "/var/log/macvz-netd.log".
Definition DefaultStderrPath : string := "/var/log/macvz-netd.err.log".
Definition DefaultDaemonPath : string := "/opt/homebrew/bin:/usr/local/bin:/usr/bin:/bin:/usr/sbin:/sbin".
Definition DefaultNewsyslogPath : string := "/etc/newsyslog.d/macvz-netd.conf".
Definition defaultLogRotateCount : Z := 7.
Definition defaultLogRotateSizeKB : Z := 5000.

Record LaunchdConfig := mkLaunchd {
  ld_Label : string; ld_PlistDir : string; ld_BinaryPath : string; ld_SocketPath : string;
  ld_ConfigPath : string; ld_AllowUnsafeNoConfig : bool; ld_OwnerUID : Z; ld_OwnerGID : Z;
  ld_StdoutPath : string; ld_StderrPath : string; ld_NewsyslogPath : string;
  ld_LogRotateCount : Z; ld_LogRotateSizeKB : Z;
}.

Definition DefaultLaunchdConfig (socketPath : string) : LaunchdConfig :=
  mkLaunchd DefaultLabel DefaultPlistDir DefaultBinaryPath socketPath "" false (-1) (-1)
    DefaultStdoutPath DefaultStderrPath DefaultNewsyslogPath 0 0.

Definition PlistPath (c : LaunchdConfig) : string := JoinPath [ld_PlistDir c; ld_Label c +:+ ".plist"].
Definition ServiceTarget (c : LaunchdConfig) : string := "system/" +:+ ld_Label c.

Inductive LaunchdError : Type :=
  | LEmpty (name : string) | LLabel (label : string) | LNotAbs (name path : string)
  | LNoConfig | LOwnerPair.

(** [strings.ContainsAny(label, "/ \t")] *)
Definition label_ok (label : string) : bool :=
  no_char "/" label && no_char " " label && no_char (ch 9) label.

Definition launchd_paths (c : LaunchdConfig) : gmap string string :=
  list_to_map [("binaryPath", ld_BinaryPath c); ("socketPath", ld_SocketPath c);
               ("stdoutPath", ld_StdoutPath c); ("stderrPath", ld_StderrPath c)].

Definition launchd_required (c : LaunchdConfig) : gmap string string :=
  list_to_map [("label", ld_Label c); ("plistDir", ld_PlistDir c); ("binaryPath", ld_BinaryPath c);
               ("socketPath", ld_SocketPath c); ("stdoutPath", ld_StdoutPath c); ("stderrPath", ld_StderrPath c)].

Definition Launchd_Validate `{MapRange} (c : LaunchdConfig) : result LaunchdError unit :=
  for_each (λ kv, guard (negb (String.eqb (TrimSpace kv.2) "")) (LEmpty kv.1)) (range (launchd_required c)) ;--
  guard (label_ok (ld_Label c)) (LLabel (ld_Label c)) ;--
  for_each (λ kv, guard (IsAbs kv.2) (LNotAbs kv.1 kv.2)) (range (launchd_paths c)) ;--
  guard (String.eqb (ld_ConfigPath c) "" || IsAbs (ld_ConfigPath c)) (LNotAbs "configPath" (ld_ConfigPath c)) ;--
  guard (String.eqb (ld_NewsyslogPath c) "" || IsAbs (ld_NewsyslogPath c)) (LNotAbs "newsyslogPath" (ld_NewsyslogPath c)) ;--
  guard (negb (String.eqb (ld_ConfigPath c) "") || ld_AllowUnsafeNoConfig c) LNoConfig ;--
  guard (Bool.eqb (ld_OwnerUID c <? 0) (ld_OwnerGID c <? 0)) LOwnerPair.

Definition ownerSpec (c : LaunchdConfig) : string :=
  if (ld_OwnerUID c <? 0) || (ld_OwnerGID c <? 0) then ""
  else Itoa (ld_OwnerUID c) +:+ ":" +:+ Itoa (ld_OwnerGID c).

(** ** The plist *)

Definition tab : string := String (ch 9) "".

Definition key_line (indent k : string) : string := indent +:+ "<key>" +:+ k +:+ "</key>".
Definition string_line (indent v : string) : string := indent +:+ "<string>" +:+ v +:+ "</string>".

(** The program arguments the template spells out. *)
Definition program_args (c : LaunchdConfig) : list string :=
  [ld_BinaryPath c; "serve"; "--socket"; ld_SocketPath c] ++
  (if String.eqb (ld_ConfigPath c) "" then [] else ["--config"; ld_ConfigPath c]) ++
  (if ld_AllowUnsafeNoConfig c then ["--allow-unsafe-no-config"] else []) ++
  (if String.eqb (ownerSpec c) "" then [] else ["--owner"; ownerSpec c]).

Definition plist_head (c : LaunchdConfig) : list string :=
  ["<?xml version=" +:+ quoted "1.0" +:+ " encoding=" +:+ quoted "UTF-8" +:+ "?>";
   "<!DOCTYPE plist PUBLIC " +:+ quoted "-//Apple//DTD PLIST 1.0//EN" +:+ " " +:+
     quoted "http://www.apple.com/DTDs/PropertyList-1.0.dtd" +:+ ">";
   "<plist version=" +:+ quoted "1.0" +:+ ">";
   "<dict>";
   key_line tab "Label";
   string_line tab (ld_Label c);
   key_line tab "ProgramArguments";
   tab +:+ "<array>"].

Definition plist_tail (c : LaunchdConfig) : list string :=
  [tab +:+ "</array>";
   key_line tab "RunAtLoad"; tab +:+ "<true/>";
   key_line tab "KeepAlive"; tab +:+ "<true/>";
   key_line tab "ProcessType"; string_line tab "Interactive";
   key_line tab "EnvironmentVariables";
   tab +:+ "<dict>";
   key_line (tab +:+ tab) "PATH"; string_line (tab +:+ tab) DefaultDaemonPath;
   tab +:+ "</dict>";
   key_line tab "StandardOutPath"; string_line tab (ld_StdoutPath c);
   key_line tab "StandardErrorPath"; string_line tab (ld_StderrPath c);
   "</dict>"; "</plist>"].

Definition plist_text (c : LaunchdConfig) : string :=
  text_of (plist_head c ++ (string_line (tab +:+ tab) <$> program_args c) ++ plist_tail c).

Definition Launchd_Render `{MapRange} (c : LaunchdConfig) : result LaunchdError string :=
  Launchd_Validate c ;-- Ok (plist_text c).

(** ** Log rotation: [newsyslog.go] *)

Definition rotateCount (c : LaunchdConfig) : Z :=
  if 0 <? ld_LogRotateCount c then ld_LogRotateCount c else defaultLogRotateCount.
Definition rotateSizeKB (c : LaunchdConfig) : Z :=
  if 0 <? ld_LogRotateSizeKB c then ld_LogRotateSizeKB c else defaultLogRotateSizeKB.

Definition rotate_line (c : LaunchdConfig) (path : string) : string :=
  path +:+ " root:wheel 644 " +:+ Itoa (rotateCount c) +:+ " " +:+ Itoa (rotateSizeKB c) +:+ " * J".

Definition newsyslog_text (c : LaunchdConfig) : string :=
  text_of
    ["# Managed by macvz-netd (#69). Rotates the privileged network helper's logs so";
     "# a long-running node does not grow them without bound. Reinstall the helper to";
     "# regenerate; macvz-netd uninstall removes it.";
     "# logfilename                 owner:group  mode count size  when flags";
     rotate_line c (ld_StdoutPath c); rotate_line c (ld_StderrPath c)].

Definition RenderNewsyslog `{MapRange} (c : LaunchdConfig) : result LaunchdError string :=
  Launchd_Validate c ;-- Ok (newsyslog_text c).

Definition newsyslogDir (c : LaunchdConfig) : string := Dir (ld_NewsyslogPath c).

(** ** The installer *)

Inductive InstallError : Type :=
  | IConfig (e : LaunchdError) | IOwnerRequired
  | IResolve (msg : string) | IOpen (msg : string) | IBinDir (msg : string) | ITemp (msg : string)
  | ICopy (msg : string) | IChmod (msg : string) | IRename (msg : string)
  | IPlistDir (msg : string) | IWritePlist (msg : string) | ILogDir (path msg : string)
  | INewsyslogDir (msg : string) | IWriteNewsyslog (msg : string)
  | IBootstrap (msg : string) | IBootout (msg : string) | INoPlist (msg : string)
  | IUninstall (msgs : list string).

(** [filepath.Abs]; [cwd] is what [os.Getwd] yields. *)
Definition Abs (cwd : result string string) (p : string) : result string string :=
  if IsAbs p then Ok (Clean p) else d <-- cwd; Ok (JoinPath [d; p]).

Section installer.
Context `{MapRange} {W : Type} (O : Os W) (cwd : result string string).
(** [launchctl] with its arguments: its combined output and error. *)
Context (launchctl : list string → W → W * (string * option string)).

(** An operation that must succeed for the rest to run. *)
Definition step {E A} (r : W * option E) (err : E → InstallError) (k : W → W * result InstallError A)
    : W * result InstallError A :=
  let '(w, e) := r in match e with Some x => (w, Err (err x)) | None => k w end.

(** The temporary file is removed on every path out, whether or not the rename
    moved it away. *)
Definition copy_through (src dst tmp : string) (w : W) : W * result InstallError unit :=
  let '(w, r) :=
    step (os_CopyFile O src tmp w) ICopy (λ w,
    step (os_Chmod O tmp 493 w) IChmod (λ w,
    step (os_Rename O tmp dst w) IRename (λ w, (w, Ok tt)))) in
  ((os_Remove O tmp w).1, r).

Definition copyExecutable (src dst : string) (w : W) : W * result InstallError unit :=
  match Abs cwd src with
  | Err msg => (w, Err (IResolve msg))
  | Ok absSrc =>
      if String.eqb absSrc dst then (w, Ok tt)
      else match os_Open O absSrc w with
      | Some msg => (w, Err (IOpen msg))
      | None =>
          step (os_MkdirAll O (Dir dst) 493 w) IBinDir (λ w,
          let '(w, r) := os_CreateTemp O (Dir dst) ".macvz-netd-" w in
          match r with
          | Err msg => (w, Err (ITemp msg))
          | Ok tmp => copy_through absSrc dst tmp w
          end)
      end
  end.

Definition load (c : LaunchdConfig) (w : W) : W * result InstallError unit :=
  let '(w, (_, err)) := launchctl ["bootstrap"; "system"; PlistPath c] w in
  (w, match err with Some msg => Err (IBootstrap msg) | None => Ok tt end).

Definition unload (c : LaunchdConfig) (w : W) : W * result InstallError unit :=
  let '(w, (_, err)) := launchctl ["bootout"; ServiceTarget c] w in
  (w, match err with Some msg => Err (IBootout msg) | None => Ok tt end).

Fixpoint make_log_dirs (l : list string) (w : W) : W * result InstallError unit :=
  match l with
  | [] => (w, Ok tt)
  | p :: l' => step (os_MkdirAll O (Dir p) 493 w) (ILogDir p) (make_log_dirs l')
  end.

Definition install_rotation (c : LaunchdConfig) (w : W) : W * result InstallError unit :=
  if String.eqb (ld_NewsyslogPath c) "" then (w, Ok tt)
  else match RenderNewsyslog c with
  | Err e => (w, Err (IConfig e))
  | Ok rotate =>
      step (os_MkdirAll O (newsyslogDir c) 493 w) INewsyslogDir (λ w,
      step (os_WriteFile O (ld_NewsyslogPath c) rotate 420 w) IWriteNewsyslog (λ w, (w, Ok tt)))
  end.

(** [then_] runs the rest when the first part succeeded. *)
Definition then_ {A} (r : W * result InstallError unit) (k : W → W * result InstallError A) : W * result InstallError A :=
  let '(w, x) := r in match x with Err e => (w, Err e) | Ok _ => k w end.

(** What follows the copy: the plist, the log directories, the rotation drop-in
    and the reload of the job. *)
Definition install_rest (c : LaunchdConfig) (w : W) : W * result InstallError unit :=
  match Launchd_Render c with
  | Err e => (w, Err (IConfig e))
  | Ok plist =>
      step (os_MkdirAll O (ld_PlistDir c) 493 w) IPlistDir (λ w,
      step (os_WriteFile O (PlistPath c) plist 420 w) IWritePlist (λ w,
      then_ (make_log_dirs [ld_StdoutPath c; ld_StderrPath c] w) (λ w,
      then_ (install_rotation c w) (λ w,
      load c (unload c w).1))))
  end.

Definition Install (c : LaunchdConfig) (srcBinary : string) (w : W) : W * result InstallError unit :=
  match Launchd_Validate c with
  | Err e => (w, Err (IConfig e))
  | Ok _ =>
      if String.eqb (ownerSpec c) "" then (w, Err IOwnerRequired)
      else then_ (copyExecutable srcBinary (ld_BinaryPath c) w) (install_rest c)
  end.

Definition Load_ (c : LaunchdConfig) (w : W) : W * result InstallError unit :=
  match os_Stat O (PlistPath c) w with
  | Some msg => (w, Err (INoPlist msg))
  | None => load c w
  end.

Definition Unload (c : LaunchdConfig) (w : W) : W * result InstallError unit := unload c w.

(** [if err := os.Remove(p); err != nil && !os.IsNotExist(err) { errs = append(...) }] *)
Definition remove_path (what p : string) (w : W) : W * list string :=
  let '(w, e) := os_Remove O p w in
  (w, match e with Some (RmFailed msg) => ["remove " +:+ what +:+ ": " +:+ msg] | _ => [] end).

Fixpoint remove_paths (l : list (string * string)) (w : W) : W * list string :=
  match l with
  | [] => (w, [])
  | (what, p) :: l' =>
      let '(w, e1) := remove_path what p w in
      let '(w, e2) := remove_paths l' w in (w, e1 ++ e2)
  end.

Definition installed_paths (c : LaunchdConfig) : list (string * string) :=
  [("plist", PlistPath c); ("binary", ld_BinaryPath c); ("socket", ld_SocketPath c)] ++
  (if String.eqb (ld_NewsyslogPath c) "" then [] else [("newsyslog config", ld_NewsyslogPath c)]).

Definition Uninstall (c : LaunchdConfig) (w : W) : W * result InstallError unit :=
  let '(w, errs) := remove_paths (installed_paths c) (unload c w).1 in
  (w, match errs with [] => Ok tt | _ => Err (IUninstall errs) end).

Record InstallStatus := mkInstallStatus {
  is_PlistInstalled : bool; is_BinaryInstalled : bool; is_SocketPresent : bool; is_Loaded : bool; is_Detail : string;
}.

Definition present (p : string) (w : W) : bool := match os_Stat O p w with None => true | Some _ => false end.

Definition Installer_Status (c : LaunchdConfig) (w : W) : W * InstallStatus :=
  let '(w', (out, err)) := launchctl ["print"; ServiceTarget c] w in
  let detail := TrimSpace out in
  (w', mkInstallStatus (present (PlistPath c) w) (present (ld_BinaryPath c) w) (present (ld_SocketPath c) w)
         (match err with None => true | Some _ => false end)
         (match err with Some msg => if String.eqb detail "" then msg else detail | None => detail end)).
End installer.

(** ** What validation accepts

    Independently of the order in which Go visits its maps. *)

Definition set_text (s : string) : Prop := TrimSpace s ≠ "".

Record launchd_ok (c : LaunchdConfig) : Prop := {
  lo_label : set_text (ld_Label c) ∧ label_ok (ld_Label c) = true;
  lo_dir : set_text (ld_PlistDir c);
  lo_paths : Forall (λ p, set_text p ∧ IsAbs p = true)
               [ld_BinaryPath c; ld_SocketPath c; ld_StdoutPath c; ld_StderrPath c];
  lo_config : ld_ConfigPath c = "" ∨ IsAbs (ld_ConfigPath c) = true;
  lo_newsyslog : ld_NewsyslogPath c = "" ∨ IsAbs (ld_NewsyslogPath c) = true;
  lo_policy : ld_ConfigPath c ≠ "" ∨ ld_AllowUnsafeNoConfig c = true;
  lo_owner : ld_OwnerUID c < 0 ↔ ld_OwnerGID c < 0;
}.

Lemma guard_ok {E} b (e : E) : guard b e = Ok tt ↔ b = true.
Proof. by destruct b. Qed.

Lemma seq_ok {E} (a b : result E unit) : (a ;-- b) = Ok tt ↔ a = Ok tt ∧ b = Ok tt.
Proof. destruct a as [[]|e]; naive_solver. Qed.

(** A loop over a map literal succeeds when it does on every entry. *)
Lemma for_each_literal `{MapRange} {E A} (f : string * A → result E unit) (l : list (string * A)) :
  NoDup l.*1 → for_each f (range (list_to_map l)) = Ok tt ↔ Forall (λ kv, f kv = Ok tt) l.
Proof.
  intros Hl. rewrite for_each_Ok. by rewrite range_perm, map_to_list_to_map.
Qed.

Lemma set_textb s : negb (String.eqb (TrimSpace s) "") = true ↔ set_text s.
Proof. unfold set_text. rewrite negb_true_iff, String.eqb_neq. done. Qed.

Lemma unset_or_absb s : String.eqb s "" || IsAbs s = true ↔ s = "" ∨ IsAbs s = true.
Proof. by rewrite orb_true_iff, String.eqb_eq. Qed.

Lemma Launchd_Validate_exact `{MapRange} c : Launchd_Validate c = Ok tt ↔ launchd_ok c.
Proof.
  unfold Launchd_Validate, launchd_required, launchd_paths.
  rewrite !seq_ok, !guard_ok, !for_each_literal by (cbn; apply (bool_decide_unpack _); vm_compute; done).
  rewrite !Forall_cons, !Forall_nil, !guard_ok, !set_textb, !unset_or_absb. cbn [fst snd].
  rewrite orb_true_iff, negb_true_iff, String.eqb_neq, Bool.eqb_true_iff.
  split; [intros Hc|intros []]; destruct_and!.
  - split; rewrite ?Forall_cons, ?Forall_nil; try tauto.
    rewrite <- !Z.ltb_lt. destruct (_ <? _), (_ <? _); naive_solver.
  - rewrite !Forall_cons in lo_paths0. destruct_and!. split_and!; try done.
    apply eq_true_iff_eq. by rewrite !Z.ltb_lt.
Qed.

(** ** Installing and removing on a host *)

(** launchd as documented: a job is loaded from the plist that names it, booted
    out by its target, and reported by [print]; a job opens its log files and
    keeps its socket, and launchd touches no other file. *)
Class LaunchdHost {W} (O : Os W) `{!FileHost O} (launchctl : list string → W → W * (string * option string)) := {
  jobs : W → gset string;
  lh_logs : gset string;
  lh_files args w w' r : launchctl args w = (w', r) →
    ∀ p d m, p ∉ lh_logs → paths w' !! p = Some (File d m) ↔ paths w !! p = Some (File d m);
  lh_bootstrap c m w w' out : no_char "<" (ld_Label c) = true → no_char "&" (ld_Label c) = true →
    paths w !! PlistPath c = Some (File (plist_text c) m) →
    launchctl ["bootstrap"; "system"; PlistPath c] w = (w', (out, None)) → ServiceTarget c ∈ jobs w';
  lh_bootout t w w' out e : launchctl ["bootout"; t] w = (w', (out, e)) →
    jobs w' = (if e is None then jobs w ∖ {[t]} else jobs w);
  lh_print t w w' out e : launchctl ["print"; t] w = (w', (out, e)) → e = None ↔ t ∈ jobs w;
}.

Section host.
Context `{MapRange} {W : Type} (O : Os W) `{!FileHost O} (cwd : result string string).
Context (launchctl : list string → W → W * (string * option string)) `{!LaunchdHost O launchctl}.

Lemma mkdir_file p m w w' e : os_MkdirAll O p m w = (w', e) →
  ∀ q d k, paths w' !! q = Some (File d k) ↔ paths w !! q = Some (File d k).
Proof.
  intros Hm q d k. destruct (fh_mkdir _ _ _ _ _ Hm q) as [H1 H2]. split; [|apply H1].
  by intros [?|?]%H2.
Qed.

(** The program at [dst] is the one that was there, or a complete executable
    copy of the source. *)
Definition complete_copy (src dst : string) (w w' : W) : Prop :=
  ∀ d m, paths w' !! dst = Some (File d m) →
    paths w !! dst = Some (File d m) ∨ (m = 493 ∧ ∃ m', paths w !! src = Some (File d m')).

Definition temp_of (dst tmp : string) : Prop := ∃ s, tmp = Dir dst +:+ "/" +:+ ".macvz-netd-" +:+ s.

Lemma remove_same p w w' e : os_Remove O p w = (w', e) → same_but p (paths w) (paths w').
Proof.
  intros Hr%fh_remove q Hq. destruct e as [x|]; [by destruct Hr as [-> _]|]. by rewrite Hr, lookup_delete_ne.
Qed.

Lemma copy_through_spec src dst tmp w w' r :
  tmp ≠ dst → tmp ≠ src → copy_through O src dst tmp w = (w', r) →
  (∀ q, q ≠ tmp → q ≠ dst → paths w' !! q = paths w !! q) ∧
  (paths w' !! dst = paths w !! dst ∧ is_ok r = false ∨
   is_ok r = true ∧ ∃ d m, paths w !! src = Some (File d m) ∧ paths w' !! dst = Some (File d 493)).
Proof.
  intros Htd Hts. unfold copy_through, step.
  destruct (os_CopyFile O src tmp w) as [w1 e1] eqn:E1. apply fh_copy in E1 as [S1 K1].
  destruct e1 as [x1|].
  { destruct (os_Remove O tmp w1) as [w2 e2] eqn:E2. apply remove_same in E2. intros; simplify_eq/=.
    split; [intros q Hq _; by rewrite E2, S1|]. left. by rewrite E2, S1. }
  destruct K1 as (d & m & m' & Hs & Ht); [done|].
  destruct (os_Chmod O tmp 493 w1) as [w2 e2] eqn:E2. apply fh_chmod in E2 as (S2 & K2 & _).
  destruct e2 as [x2|].
  { destruct (os_Remove O tmp w2) as [w3 e3] eqn:E3. apply remove_same in E3. intros; simplify_eq/=.
    split; [intros q Hq _; by rewrite E3, S2, S1|]. left. by rewrite E3, S2, S1. }
  destruct K2 as (d2 & m2 & Ht2 & Ht3); [done|]. rewrite Ht in Ht2. simplify_eq.
  destruct (os_Rename O tmp dst w2) as [w3 e3] eqn:E3. apply fh_rename in E3.
  destruct e3 as [x3|].
  { destruct (os_Remove O tmp w3) as [w4 e4] eqn:E4. apply remove_same in E4. intros; simplify_eq/=. rewrite E3 in E4.
    split; [intros q Hq _; by rewrite E4, S2, S1|]. left. by rewrite E4, S2, S1. }
  destruct E3 as (x & Hx & E3). rewrite Ht3 in Hx. simplify_eq.
  destruct (os_Remove O tmp w3) as [w4 e4] eqn:E4. apply remove_same in E4. intros; simplify_eq/=. rewrite E3 in E4. split.
  - intros q Hq Hd. rewrite E4, lookup_insert_ne, lookup_delete_ne, S2, S1 by done. done.
  - right. split; [done|]. exists d2, m. split; [done|]. by rewrite E4, lookup_insert_eq.
Qed.

Lemma copyExecutable_spec src dst w w' r :
  (∀ tmp, temp_of dst tmp → tmp ≠ dst) →
  copyExecutable O cwd src dst w = (w', r) →
  match Abs cwd src with
  | Err _ => w' = w ∧ is_ok r = false
  | Ok a =>
      complete_copy a dst w w' ∧
      (∀ q d m, ¬ temp_of dst q → q ≠ dst → paths w' !! q = Some (File d m) ↔ paths w !! q = Some (File d m)) ∧
      (r = Ok tt → a = dst ∧ w' = w ∨
         ∃ d m, paths w !! a = Some (File d m) ∧ paths w' !! dst = Some (File d 493))
  end.
Proof.
  intros Htmp. unfold copyExecutable, complete_copy. destruct (Abs cwd src) as [a|e] eqn:Ea; [|by intros; simplify_eq].
  intros Hc. destruct (String.eqb_spec a dst) as [->|Hne].
  { simplify_eq. naive_solver. }
  destruct (os_Open O a w) eqn:Eo; [simplify_eq; naive_solver|]. unfold step in Hc.
  destruct (os_MkdirAll O (Dir dst) 493 w) as [w1 e1] eqn:E1. pose proof (mkdir_file _ _ _ _ _ E1) as M1.
  destruct e1; [simplify_eq; naive_solver|].
  destruct (os_CreateTemp O (Dir dst) ".macvz-netd-" w1) as [w2 [tmp|e2]] eqn:E2; apply fh_temp in E2.
  2:{ simplify_eq. rewrite E2. naive_solver. }
  destruct E2 as (Hs & Hf & m & E2). assert (tmp ≠ dst) as Hd by (apply Htmp; exact Hs).
  assert (tmp ≠ a) as Ha.
  { intros ->. apply fh_open in Eo as [x Hx]. apply (fh_mkdir _ _ _ _ _ E1) in Hx. by rewrite Hf in Hx. }
  apply copy_through_spec in Hc as [Hk Hr]; [|done..]. rewrite E2 in Hr.
  rewrite !lookup_insert_ne in Hr by done. split_and!.
  - intros d k Hdk. rewrite <- M1. destruct Hr as [[Hr _]|(_ & d' & m' & Hsrc & Hr)]; rewrite Hr in Hdk; [by left|].
    simplify_eq. right. split; [done|]. exists m'. by rewrite <- M1.
  - intros q d k Hq Hqd. rewrite <- M1, Hk, E2, lookup_insert_ne by (intros ->; done). done.
  - intros ->. destruct Hr as [[_ ?]|(_ & d' & m' & Hsrc & Hr)]; [done|]. right. exists d', m'.
    by rewrite <- M1.
Qed.

(** The paths of a configuration do not collide with each other, with the log
    files, or with the temporary copy of the program. *)
Record separate (c : LaunchdConfig) : Prop := {
  sp_plist : PlistPath c ≠ ld_BinaryPath c ∧ PlistPath c ∉ lh_logs;
  sp_binary : ld_BinaryPath c ∉ lh_logs;
  sp_rotate : ld_NewsyslogPath c ≠ ld_BinaryPath c ∧ ld_NewsyslogPath c ≠ PlistPath c ∧ ld_NewsyslogPath c ∉ lh_logs;
  sp_temp : ∀ tmp, temp_of (ld_BinaryPath c) tmp → tmp ≠ ld_BinaryPath c;
}.

(** What an installation amounts to: the plist, the drop-in and the job. *)
Record installed (c : LaunchdConfig) (w : W) : Prop := {
  in_plist : ∃ m, paths w !! PlistPath c = Some (File (plist_text c) m);
  in_rotate : ld_NewsyslogPath c = "" ∨ ∃ m, paths w !! ld_NewsyslogPath c = Some (File (newsyslog_text c) m);
}.

Lemma write_file p d m w w' e : os_WriteFile O p d m w = (w', e) →
  (∀ q, q ≠ p → paths w' !! q = paths w !! q) ∧ (e = None → ∃ k, paths w' !! p = Some (File d k)).
Proof.
  intros [Hs Hk]%fh_write. split; [done|]. intros He. destruct (Hk He) as (x & Hx & Hw).
  unfold written in Hw. rewrite Hx. destruct (paths w !! p) as [[]|]; naive_solver.
Qed.

Lemma log_dirs_file l w w' r : make_log_dirs O l w = (w', r) →
  ∀ q d k, paths w' !! q = Some (File d k) ↔ paths w !! q = Some (File d k).
Proof.
  revert w. induction l as [|p l IH]; intros w; cbn [make_log_dirs]; [by intros; simplify_eq|]. unfold step.
  destruct (os_MkdirAll O (Dir p) 493 w) as [w1 [e|]] eqn:E; intros Hl q d k; simplify_eq.
  - apply (mkdir_file _ _ _ _ _ E).
  - rewrite (IH _ Hl). apply (mkdir_file _ _ _ _ _ E).
Qed.

Lemma rotation_spec c w w' r : install_rotation O c w = (w', r) →
  (∀ q d k, q ≠ ld_NewsyslogPath c → paths w' !! q = Some (File d k) ↔ paths w !! q = Some (File d k)) ∧
  (r = Ok tt → ld_NewsyslogPath c = "" ∨ ∃ m, paths w' !! ld_NewsyslogPath c = Some (File (newsyslog_text c) m)).
Proof.
  unfold install_rotation, RenderNewsyslog. destruct (String.eqb_spec (ld_NewsyslogPath c) ""); [by intros; simplify_eq; auto|].
  destruct (Launchd_Validate c) as [u|e]; [|intros; simplify_eq; naive_solver]. unfold step.
  destruct (os_MkdirAll O (newsyslogDir c) 493 w) as [w1 [e1|]] eqn:E1; pose proof (mkdir_file _ _ _ _ _ E1) as M1.
  { intros; simplify_eq. naive_solver. }
  destruct (os_WriteFile O _ _ 420 w1) as [w2 e2] eqn:E2. apply write_file in E2 as [S2 K2].
  intros Hr. assert (w' = w2 ∧ (r = Ok tt → e2 = None)) as [-> He] by (destruct e2; simplify_eq; by split). split.
  - intros q d k Hq. by rewrite S2, M1.
  - intros Hok. right. apply K2. auto.
Qed.

Lemma unload_file c w q d k : q ∉ lh_logs →
  paths (unload launchctl c w).1 !! q = Some (File d k) ↔ paths w !! q = Some (File d k).
Proof.
  unfold unload. destruct (launchctl ["bootout"; ServiceTarget c] w) as [w1 [o e]] eqn:E. cbn.
  intros Hq. by rewrite (lh_files _ _ _ _ E).
Qed.

Lemma load_file c w w' r q d k : load launchctl c w = (w', r) → q ∉ lh_logs →
  paths w' !! q = Some (File d k) ↔ paths w !! q = Some (File d k).
Proof.
  unfold load. destruct (launchctl ["bootstrap"; "system"; PlistPath c] w) as [w1 [o e]] eqn:E. intros; simplify_eq.
  by rewrite (lh_files _ _ _ _ E).
Qed.

Lemma install_rest_spec c w w' r :
  separate c → install_rest O launchctl c w = (w', r) →
  (∀ d k, paths w' !! ld_BinaryPath c = Some (File d k) ↔ paths w !! ld_BinaryPath c = Some (File d k)) ∧
  (r = Ok tt → installed c w' ∧
     (no_char "<" (ld_Label c) = true → no_char "&" (ld_Label c) = true → ServiceTarget c ∈ jobs w')).
Proof.
  intros [[P1 P2] B [R1 [R2 R3]] _]. unfold install_rest, Launchd_Render.
  destruct (Launchd_Validate c) as [u|e]; [|intros; simplify_eq; naive_solver]. unfold step, then_.
  destruct (os_MkdirAll O (ld_PlistDir c) 493 w) as [w1 [e1|]] eqn:E1; pose proof (mkdir_file _ _ _ _ _ E1) as M1.
  { intros; simplify_eq. naive_solver. }
  destruct (os_WriteFile O _ _ 420 w1) as [w2 e2] eqn:E2. apply write_file in E2 as [S2 K2].
  assert (∀ d k, paths w2 !! ld_BinaryPath c = Some (File d k) ↔ paths w !! ld_BinaryPath c = Some (File d k)) as M2.
  { intros d k. by rewrite S2, M1. }
  destruct e2 as [e2|]; [intros; simplify_eq; naive_solver|]. destruct (K2 eq_refl) as [k2 F2].
  destruct (make_log_dirs O _ w2) as [w3 r3] eqn:E3. pose proof (log_dirs_file _ _ _ _ E3) as M3.
  destruct r3 as [u3|e3]; [|intros; simplify_eq; split; [|done]; intros; by rewrite M3].
  destruct (install_rotation O c w3) as [w4 r4] eqn:E4. apply rotation_spec in E4 as [M4 K4].
  destruct r4 as [[]|e4]; [|intros; simplify_eq; split; [|done]; intros; by rewrite M4, M3 by done].
  intros Hl. pose proof (λ q d k, load_file c _ _ _ q d k Hl) as M5. split.
  { intros d k. by rewrite M5, unload_file, M4, M3. }
  intros ->. assert (paths (unload launchctl c w4).1 !! PlistPath c = Some (File (plist_text c) k2)) as F5.
  { by rewrite unload_file, M4, M3. }
  split; [split|].
  - exists k2. by rewrite M5.
  - destruct (K4 eq_refl) as [?|[m Hm]]; [by left|]. right. exists m. by rewrite M5, unload_file.
  - intros L1 L2. unfold load in Hl.
    destruct (launchctl ["bootstrap"; "system"; PlistPath c] _) as [w5 [o [e|]]] eqn:E5; simplify_eq.
    by eapply lh_bootstrap.
Qed.

(** The program the job runs after an installation: the source itself when it is
    installed already, an executable copy of it otherwise. *)
Definition program_installed (a : string) (c : LaunchdConfig) (w w' : W) : Prop :=
  ∀ d m, paths w !! a = Some (File d m) →
    ∃ m', paths w' !! ld_BinaryPath c = Some (File d m') ∧ (a = ld_BinaryPath c ∧ m' = m ∨ m' = 493).

Lemma Install_spec c src a w w' r :
  separate c → Abs cwd src = Ok a → Install O cwd launchctl c src w = (w', r) →
  complete_copy a (ld_BinaryPath c) w w' ∧
  (r = Ok tt → installed c w' ∧ program_installed a c w w' ∧
     (no_char "<" (ld_Label c) = true → no_char "&" (ld_Label c) = true → ServiceTarget c ∈ jobs w')).
Proof.
  intros Hs Ha. unfold Install, then_. destruct (Launchd_Validate c) as [[]|e] eqn:Ev.
  2:{ intros; simplify_eq. split; [|done]. intros d m; by left. }
  destruct (String.eqb (ownerSpec c) "").
  { intros; simplify_eq. split; [|done]. intros d m; by left. }
  destruct (copyExecutable O cwd src (ld_BinaryPath c) w) as [w1 r1] eqn:E1.
  apply copyExecutable_spec in E1; [|apply Hs]. rewrite Ha in E1. destruct E1 as (Hc & _ & Hi).
  destruct r1 as [[]|e1]; [|by intros; simplify_eq]. intros [Hb Hr]%install_rest_spec; [|done]. split.
  - intros d m Hd%Hb. by apply Hc.
  - intros Hok. destruct (Hr Hok) as [H1 H2]. split_and!; [done| |done].
    intros d m Hd. destruct (Hi eq_refl) as [[-> ->]|(d' & m' & Hsrc & Hd')].
    + exists m. rewrite Hb. auto.
    + exists 493. rewrite Hb. rewrite Hd in Hsrc. simplify_eq. auto.
Qed.

(** Removal only takes paths away, and without an error takes all of them. *)
Lemma remove_paths_spec l w w' errs : remove_paths O l w = (w', errs) →
  (∀ q, paths w !! q = None → paths w' !! q = None) ∧
  (errs = [] → ∀ what p, (what, p) ∈ l → paths w' !! p = None).
Proof.
  revert w errs. induction l as [|[what p] l IH]; intros w errs; cbn [remove_paths].
  { intros; simplify_eq. split; [done|]. intros _ what p Hp. by apply not_elem_of_nil in Hp. }
  unfold remove_path. destruct (os_Remove O p w) as [w1 e1] eqn:E1. apply fh_remove in E1.
  destruct (remove_paths O l w1) as [w2 e2] eqn:E2. intros; simplify_eq. apply IH in E2 as [Hk Hd].
  assert (∀ q, paths w !! q = None → paths w1 !! q = None) as Hk1.
  { intros q Hq. destruct e1; [by destruct E1 as [-> _]|]. rewrite E1, lookup_delete_None. by right. }
  split; [by auto|]. intros Hn what' p' [Hp|Hp]%elem_of_cons.
  - simplify_eq. apply Hk. destruct e1 as [[|msg]|]; [by destruct E1 as [-> ?]; auto|done|].
    by rewrite E1, lookup_delete_eq.
  - eapply Hd; [|done]. by apply app_eq_nil in Hn as [_ ?].
Qed.

Lemma Uninstall_spec c w w' r : Uninstall O launchctl c w = (w', r) → r = Ok tt →
  Forall (λ wp, paths w' !! wp.2 = None) (installed_paths c).
Proof.
  unfold Uninstall. destruct (remove_paths O _ _) as [w1 errs] eqn:E. intros ? ->.
  assert (w1 = w' ∧ errs = []) as [-> ->] by (destruct errs; by simplify_eq).
  apply remove_paths_spec in E as [_ Hd]. apply Forall_forall. intros [what p] Hp. by eapply Hd.
Qed.

Lemma present_true p w : present O p w = true ↔ is_Some (paths w !! p).
Proof. unfold present. rewrite <- fh_stat. by destruct (os_Stat O p w). Qed.

(** C25: Take a configuration whose paths are apart ([separate]) and whose label needs
    no XML escaping, and a source that is a file.  After every outcome of an
    installation, a file at the program's path is the one that was there before or a
    complete executable copy of the source, never a part of it.  When the installation
    reports success, the program is there with the content of the source, and the
    status shows the plist, the program and a loaded job.  A removal that then reports
    success leaves none of the plist, the program, the socket and the log rotation
    file behind; whether the job is unloaded it does not say
    ([uninstall_leaves_daemon]). *)
Theorem installer_lifecycle c src a d m w w1 r1 :
  separate c → no_char "<" (ld_Label c) = true → no_char "&" (ld_Label c) = true →
  Abs cwd src = Ok a → paths w !! a = Some (File d m) →
  Install O cwd launchctl c src w = (w1, r1) →
  complete_copy a (ld_BinaryPath c) w w1 ∧
  (r1 = Ok tt →
     let st := (Installer_Status O launchctl c w1).2 in
     (∃ m1, paths w1 !! ld_BinaryPath c = Some (File d m1)) ∧
     is_PlistInstalled st = true ∧ is_BinaryInstalled st = true ∧ is_Loaded st = true ∧
     ∀ w2, Uninstall O launchctl c w1 = (w2, Ok tt) →
       let st' := (Installer_Status O launchctl c w2).2 in
       is_PlistInstalled st' = false ∧ is_BinaryInstalled st' = false ∧ is_SocketPresent st' = false ∧
       (ld_NewsyslogPath c ≠ "" → paths w2 !! ld_NewsyslogPath c = None)).
Proof.
  intros Hs L1 L2 Ha Hd Hi. destruct (Install_spec _ _ _ _ _ _ Hs Ha Hi) as [Hc Hr]. split; [done|].
  intros Hok. destruct (Hr Hok) as ([[k Hp] _] & Hb & Hj). destruct (Hb _ _ Hd) as (m' & Hbin & _).
  specialize (Hj L1 L2). cbn zeta. unfold Installer_Status.
  destruct (launchctl ["print"; ServiceTarget c] w1) as [w1' [o e]] eqn:E1.
  apply lh_print in E1. apply E1 in Hj as ->. cbn. rewrite !present_true. split; [eauto|]. split_and!; [eauto..|done|].
  intros w2 Hu. pose proof (Uninstall_spec _ _ _ _ Hu eq_refl) as Hn. unfold installed_paths in Hn.
  rewrite Forall_app, !Forall_cons in Hn. destruct Hn as [(N1 & N2 & N3 & _) N4].
  destruct (launchctl ["print"; ServiceTarget c] w2) as [w2' [o2 e2]] eqn:E2. cbn in *.
  rewrite <- !not_true_iff_false, !present_true, N1, N2, N3.
  split_and!; [by intros []..|]. intros Hne. destruct (String.eqb_spec (ld_NewsyslogPath c) ""); [done|].
  by apply Forall_cons in N4 as [? _].
Qed.
End host.

(** ** An executable launchd *)

(** The jobs it has loaded, and whether it fails to boot jobs out. *)
Record LaunchdSim := mkLdSim { ls_jobs : gset string; ls_stuck : bool }.

(** The text of the plist up to the label's value. *)
Definition label_prefix : string :=
  text_of (list.take 5 (plist_head (DefaultLaunchdConfig ""))) +:+ tab +:+ "<string>".

Definition plist_label (t : string) : string :=
  match cut_on "<" (drop (String.length label_prefix) t) with Some (l, _) => l | None => "" end.

Definition launchctl_sim (args : list string) (wx : FsSim * LaunchdSim) : (FsSim * LaunchdSim) * (string * option string) :=
  let '(w, x) := wx in
  match args with
  | ["bootstrap"; "system"; p] =>
      match fs_paths w !! p with
      | Some (File t _) => ((w, mkLdSim ({["system/" +:+ plist_label t]} ∪ ls_jobs x) (ls_stuck x)), ("", None))
      | _ => ((w, x), ("", Some "no plist"))
      end
  | ["bootout"; t] =>
      if ls_stuck x || bool_decide (t ∉ ls_jobs x) then ((w, x), ("", Some "bootout failed"))
      else ((w, mkLdSim (ls_jobs x ∖ {[t]}) (ls_stuck x)), ("", None))
  | ["print"; t] => ((w, x), (if bool_decide (t ∈ ls_jobs x) then ("state = running", None) else ("", Some "not found")))
  | _ => ((w, x), ("", Some "usage"))
  end.

Lemma plist_label_text c : no_char "<" (ld_Label c) = true → plist_label (plist_text c) = ld_Label c.
Proof.
  intros Hl. unfold plist_label.
  assert (∃ rest, plist_text c = label_prefix +:+ (ld_Label c +:+ String "<" rest)) as [rest ->].
  { unfold plist_text, plist_head. eexists. unfold label_prefix, text_of.
    cbn [app fmap list_fmap list.take Concat plist_head DefaultLaunchdConfig]. unfold string_line at 1.
    rewrite !sapp_assoc. cbn [String.app]. reflexivity. }
  by rewrite drop_app, cut_on_app.
Qed.

#[export] Instance launchctl_sim_host : LaunchdHost (lift_os LaunchdSim fs_sim) launchctl_sim.
Proof.
  refine {| jobs := λ wx, ls_jobs wx.2; lh_logs := ∅ |}.
  - intros args [w x] wx' r Hr p d m _. assert (fs_paths wx'.1 = fs_paths w) as He; [|cbn; by rewrite He].
    unfold launchctl_sim in Hr. repeat case_match; by simplify_eq.
  - intros c m [w x] w' out Hl _ Hp Hr. cbn [paths lift_os_host fs_sim_host fst] in Hp. unfold launchctl_sim in Hr.
    rewrite Hp in Hr. simplify_eq. cbn [snd ls_jobs].
    rewrite plist_label_text by done. unfold ServiceTarget. set_solver.
  - intros t [w x] w' out e Hr. cbn in Hr. destruct (ls_stuck x || _); by simplify_eq.
  - intros t [w x] w' out e Hr. cbn in Hr. case_bool_decide; by simplify_eq.
Defined.

Definition demo_launchd : LaunchdConfig :=
  mkLaunchd DefaultLabel DefaultPlistDir DefaultBinaryPath "/var/run/macvz-netd.sock" "/etc/macvz/config.yaml" false 501 20
    DefaultStdoutPath DefaultStderrPath DefaultNewsyslogPath 0 0.

Definition fresh_mac (stuck : bool) : FsSim * LaunchdSim :=
  (mkFsSim {["/Users/me/macvz-netd" := File "ELF" 493]} [] 0, mkLdSim ∅ stuck).

Definition demo_install (stuck : bool) :=
  @Install canonical_range _ (lift_os LaunchdSim fs_sim) (Ok "/") launchctl_sim demo_launchd "/Users/me/macvz-netd"
    (fresh_mac stuck).

Lemma demo_separate : separate (lift_os LaunchdSim fs_sim) launchctl_sim demo_launchd.
Proof.
  split; try (split; [|split]); try (vm_compute; intros; discriminate); try (apply not_elem_of_empty).
  - split; [vm_compute; discriminate|apply not_elem_of_empty].
  - intros tmp [s Hs]. rewrite Hs. vm_compute. discriminate.
Qed.

Lemma installer_lifecycle_witness :
  (demo_install false).2 = Ok tt ∧
  is_Loaded (Installer_Status (lift_os LaunchdSim fs_sim) launchctl_sim demo_launchd (demo_install false).1).2 = true.
Proof.
  split; [by vm_compute|].
  eapply (installer_lifecycle (H := canonical_range) (lift_os LaunchdSim fs_sim) (Ok "/") launchctl_sim demo_launchd
    "/Users/me/macvz-netd" "/Users/me/macvz-netd" "ELF" 493 (fresh_mac false) (demo_install false).1 (demo_install false).2).
  - apply demo_separate.
  - reflexivity.
  - reflexivity.
  - reflexivity.
  - reflexivity.
  - by destruct (demo_install false) eqn:E.
  - by vm_compute.
Defined.

(** A removal reports success although the daemon is still loaded: the error of
    booting the job out is dropped. *)
Theorem uninstall_leaves_daemon :
  let w1 := (demo_install true).1 in
  let '(w2, r) := Uninstall (lift_os LaunchdSim fs_sim) launchctl_sim demo_launchd w1 in
  (demo_install true).2 = Ok tt ∧ r = Ok tt ∧
  is_Loaded (Installer_Status (lift_os LaunchdSim fs_sim) launchctl_sim demo_launchd w2).2 = true.
Proof. by vm_compute. Qed.
