(* ===== verification/Bundle.v ===== *)
(** * The diagnostic bundle: [pkg/diagbundle/bundle.go]

    Collecting, redacting and writing the sources of a bundle, over the host's
    files ([OsFs]).  A collector is an operation on the host that yields its raw
    output and possibly an error.  The clock's reading is given as the date and
    time it stands for in UTC.  The tar and gzip writers behind [Archive] are the
    standard library's; the archive holds the files this model writes. *)

From S2P Require Import Prelude GoFloat GoStrings GoJson GoRegexp Redact OsFs Filepath.

Open Scope Z_scope.

Record DateTime := mkDate { d_year : Z; d_month : Z; d_day : Z; d_hour : Z; d_min : Z; d_sec : Z }.

(** A number with leading zeros. *)
Definition padded (n : nat) (z : Z) : string :=
  let s := Itoa z in Concat (replicate (n - String.length s) "0") +:+ s.

(** [Format] with the layouts 20060102T150405Z and RFC 3339, in UTC. *)
Definition stamp (t : DateTime) : string :=
  padded 4 (d_year t) +:+ padded 2 (d_month t) +:+ padded 2 (d_day t) +:+ "T" +:+
  padded 2 (d_hour t) +:+ padded 2 (d_min t) +:+ padded 2 (d_sec t) +:+ "Z".

Definition rfc3339 (t : DateTime) : string :=
  padded 4 (d_year t) +:+ "-" +:+ padded 2 (d_month t) +:+ "-" +:+ padded 2 (d_day t) +:+ "T" +:+
  padded 2 (d_hour t) +:+ ":" +:+ padded 2 (d_min t) +:+ ":" +:+ padded 2 (d_sec t) +:+ "Z".

(** A rune that is safe in a file name. *)
Definition name_rune : rset := class (λ n, alnum_z n || (n =? 45) || (n =? 95) || (n =? 46)).

Definition sanitize (s : string) : string := Concat ((λ c, if name_rune c then c else "-") <$> runes s).

Definition emptyDash (s : string) : string := if String.eqb s "" then "-" else s.

(** What a collector yields: the raw output, and the error if it failed. *)
Definition Collected : Type := string * option string.

Record Source (W : Type) := mkSource { so_Name : string; so_Collect : W → W * Collected }.
Arguments mkSource {W} _ _. Arguments so_Name {W} _. Arguments so_Collect {W} _.

Record FileResult := mkFR { fr_Name : string; fr_Bytes : Z; fr_Err : string }.

Record BundleResult := mkBR { br_Dir : string; br_Archive : string; br_Files : list FileResult }.

Record Builder (W : Type) := mkBuilder { b_redactor : Redactor; b_sources : list (Source W); b_now : DateTime }.
Arguments mkBuilder {W} _ _ _. Arguments b_redactor {W} _. Arguments b_sources {W} _. Arguments b_now {W} _.

Inductive BundleError : Type := BCreateDir (msg : string) | BWriteManifest (msg : string).

Definition NewBuilder {W} (now : DateTime) : Builder W := mkBuilder DefaultRedactor [] now.

Definition Add {W} (b : Builder W) (name : string) (collect : W → W * Collected) : Builder W :=
  mkBuilder (b_redactor b) (b_sources b ++ [mkSource name collect]) (b_now b).

Definition DirName {W} (b : Builder W) (node : string) : string :=
  let ts := stamp (b_now b) in
  if String.eqb node "" then "macvz-bundle-" +:+ ts else "macvz-bundle-" +:+ sanitize node +:+ "-" +:+ ts.

(** [%-40s]: padded with spaces to forty runes. *)
Definition left_40 (s : string) : string := s +:+ Concat (replicate (40 - length (runes s)) " ").

Definition file_line (f : FileResult) : string :=
  let status := if String.eqb (fr_Err f) "" then Itoa (fr_Bytes f) +:+ " bytes" else "ERROR: " +:+ fr_Err f in
  "  " +:+ left_40 (fr_Name f) +:+ " " +:+ status +:+ nl.

Definition name_le (f g : FileResult) : bool := String.leb (fr_Name f) (fr_Name g).

Definition manifest_head {W} (b : Builder W) (node : string) : string :=
  "MacVz diagnostic bundle" +:+ nl +:+
  "node:      " +:+ emptyDash node +:+ nl +:+
  "generated: " +:+ rfc3339 (b_now b) +:+ nl +:+
  nl +:+ "This bundle was redacted: PEM private keys, WireGuard private/preshared" +:+ nl +:+
  "keys, JWT/bearer tokens, and sensitive config values are replaced with " +:+ Placeholder +:+ "." +:+ nl +:+
  "Review the contents before sharing; redaction is best-effort." +:+ nl +:+ nl +:+
  "contents:" +:+ nl.

Definition renderManifest {W} (b : Builder W) (node : string) (files : list FileResult) : string :=
  manifest_head b node +:+ Concat (file_line <$> sort_by name_le files).

Section build.
Context {W : Type} (O : Os W).

(** One source: its output is redacted whatever happens, and a failure of the
    collector or of a file operation is recorded, never returned. *)
Definition write_source (r : Redactor) (dir : string) (s : Source W) (w : W) : W * FileResult :=
  let '(w, (raw, err)) := so_Collect s w in
  let redacted := Redact r raw in
  let target := JoinPath [dir; so_Name s] in
  match os_MkdirAll O (Dir target) 448 w with
  | (w, Some msg) => (w, mkFR (so_Name s) 0 msg)
  | (w, None) =>
      match os_WriteFile O target redacted 384 w with
      | (w, Some msg) => (w, mkFR (so_Name s) 0 msg)
      | (w, None) =>
          let n := Z.of_nat (String.length redacted) in
          match err with
          | None => (w, mkFR (so_Name s) n "")
          | Some msg =>
              let '(w, _) := os_WriteFile O (target +:+ ".error") (Redact r msg +:+ nl) 384 w in
              (w, mkFR (so_Name s) n msg)
          end
      end
  end.

Fixpoint write_sources (r : Redactor) (dir : string) (l : list (Source W)) (w : W) : W * list FileResult :=
  match l with
  | [] => (w, [])
  | s :: l' =>
      let '(w, fr) := write_source r dir s w in
      let '(w, frs) := write_sources r dir l' w in (w, fr :: frs)
  end.

Definition Build (b : Builder W) (parentDir node : string) (w : W) : W * (BundleResult * option BundleError) :=
  let dir := JoinPath [parentDir; DirName b node] in
  match os_MkdirAll O dir 448 w with
  | (w, Some msg) => (w, (mkBR "" "" [], Some (BCreateDir msg)))
  | (w, None) =>
      let '(w, files) := write_sources (b_redactor b) dir (b_sources b) w in
      let '(w, e) := os_WriteFile O (JoinPath [dir; "manifest.txt"]) (renderManifest b node files) 384 w in
      (w, (mkBR dir "" files, BWriteManifest <$> e))
  end.
End build.

(** ** What a build writes

    [logged_os] is a host that also keeps what was written to it, in order. *)

Definition Written : Type := string * string.

Definition on_snd {L W A} (f : W → W * A) (lw : L * W) : (L * W) * A :=
  let '(l, w) := lw in let '(w', r) := f w in ((l, w'), r).

Definition logged_os {W} (O : Os W) : Os (list Written * W) := {|
  os_Stat p lw := os_Stat O p lw.2;
  os_Open p lw := os_Open O p lw.2;
  os_ReadFile p lw := os_ReadFile O p lw.2;
  os_MkdirAll p m := on_snd (os_MkdirAll O p m);
  os_WriteFile p d m lw := let '(w, r) := os_WriteFile O p d m lw.2 in ((lw.1 ++ [(p, d)], w), r);
  os_Remove p := on_snd (os_Remove O p);
  os_CreateTemp d p := on_snd (os_CreateTemp O d p);
  os_CopyFile s d := on_snd (os_CopyFile O s d);
  os_Chmod p m := on_snd (os_Chmod O p m);
  os_Rename s d := on_snd (os_Rename O s d);
|}.

Definition lift_source {L W} (s : Source W) : Source (L * W) := mkSource (so_Name s) (on_snd (so_Collect s)).
Definition lift_builder {W} (b : Builder W) : Builder (list Written * W) :=
  mkBuilder (b_redactor b) (lift_source <$> b_sources b) (b_now b).

(** A redacted file of the bundle: a source's output, or its error. *)
Definition redacted_file {W} (r : Redactor) (dir : string) (s : Source W) (wd : Written) : Prop :=
  ∃ w w' raw err, so_Collect s w = (w', (raw, err)) ∧
    (wd = (JoinPath [dir; so_Name s], Redact r raw) ∨
     ∃ msg, err = Some msg ∧ wd = (JoinPath [dir; so_Name s] +:+ ".error", Redact r msg +:+ nl)).

(** What the result says of a source agrees with what was written for it: the
    size it gives is that of the source's redacted output. *)
Definition recorded {W} (dir : string) (wds : list Written) (s : Source W) (fr : FileResult) : Prop :=
  fr_Name fr = so_Name s ∧
  (fr_Bytes fr ≠ 0 → ∃ text, (JoinPath [dir; so_Name s], text) ∈ wds ∧ fr_Bytes fr = Z.of_nat (String.length text)).

(** The manifest: its head and a line for every result, by name. *)
Definition manifest_of {W} (b : Builder W) (node : string) (files : list FileResult) (text : string) : Prop :=
  ∃ shown, shown ≡ₚ files ∧ StronglySorted (λ f g, name_le f g = true) shown ∧
    text = manifest_head b node +:+ Concat (file_line <$> shown).

Lemma renderManifest_of {W} (b : Builder W) node files : manifest_of b node files (renderManifest b node files).
Proof.
  exists (sort_by name_le files). split_and!; [apply sort_by_perm| |done].
  apply sort_by_sorted; [apply (le_key_total fr_Name)|apply (le_key_trans fr_Name)].
Qed.

Section build_writes.
Context {W : Type} (O : Os W).

Lemma recorded_mono dir wds wds' (s : Source W) fr : wds ⊆ wds' → recorded dir wds s fr → recorded dir wds' s fr.
Proof. intros Hs [Hn Hb]. split; [done|]. intros Hne. destruct (Hb Hne) as (text & Hin & ->). exists text. split; [by apply Hs|done]. Qed.

Lemma write_source_log r dir (s : Source W) log w log' w' fr :
  write_source (logged_os O) r dir (lift_source s) (log, w) = ((log', w'), fr) →
  ∃ wds, log' = log ++ wds ∧ Forall (redacted_file r dir s) wds ∧ recorded dir wds s fr.
Proof.
  unfold write_source. cbn [lift_source so_Collect so_Name on_snd]. destruct (so_Collect s w) as [w1 [raw err]] eqn:Ec.
  cbn [logged_os os_MkdirAll os_WriteFile on_snd fst snd]. destruct (os_MkdirAll O _ 448 w1) as [w2 [msg|]].
  { intros [= <- <- <-]. exists []. by rewrite app_nil_r. }
  cbn [logged_os os_WriteFile fst snd]. destruct (os_WriteFile O _ (Redact r raw) 384 w2) as [w3 [msg|]].
  { intros [= <- <- <-]. eexists. split_and!; [done| |done]. constructor; [|constructor]. exists w, w1, raw, err. auto. }
  destruct err as [msg|].
  - cbn [logged_os os_WriteFile fst snd]. destruct (os_WriteFile O _ _ 384 w3) as [w4 e]. intros [= <- <- <-]. rewrite <- app_assoc.
    eexists. split_and!; [done| |split; [done|]; intros _; eexists; split; [by left|done]].
    constructor; [|constructor; [|constructor]]; exists w, w1, raw, (Some msg); eauto 10.
  - intros [= <- <- <-]. eexists. split_and!; [done| |split; [done|]; intros _; eexists; split; [by left|done]].
    constructor; [|constructor]. exists w, w1, raw, None. auto.
Qed.

Lemma write_sources_log r dir (l : list (Source W)) log w log' w' frs :
  write_sources (logged_os O) r dir (lift_source <$> l) (log, w) = ((log', w'), frs) →
  ∃ wds, log' = log ++ wds ∧ Forall (λ wd, ∃ s, s ∈ l ∧ redacted_file r dir s wd) wds ∧ Forall2 (recorded dir wds) l frs.
Proof.
  revert log w frs. induction l as [|s l IH]; intros log w frs; cbn [fmap list_fmap write_sources].
  { intros [= <- <- <-]. exists []. by rewrite app_nil_r. }
  destruct (write_source _ _ _ _ _) as [[log1 w1] fr] eqn:E1. destruct (write_sources _ _ _ _ _) as [[log2 w2] frs2] eqn:E2.
  intros [= <- <- <-]. apply write_source_log in E1 as (wds1 & -> & H1 & Hn). apply IH in E2 as (wds2 & -> & H2 & Hn2).
  exists (wds1 ++ wds2). rewrite app_assoc. split_and!; [done| |].
  - apply Forall_app. split; [eapply Forall_impl; [exact H1|]|eapply Forall_impl; [exact H2|]].
    + intros wd Hwd. exists s. split; [left|done].
    + intros wd (s' & Hs & Hwd). exists s'. split; [by right|done].
  - constructor; [by eapply recorded_mono; [|exact Hn]; apply list_subseteq_app_l|].
    eapply Forall2_impl; [exact Hn2|]. intros s' fr'. apply recorded_mono. by apply list_subseteq_app_r.
Qed.

(** C21: on every host and whatever fails, each write of a build but the last is a
    redaction, either of the output of one of its sources at the source's path or of
    its error beside it, and a size the result gives is that of what was written for
    the source; the last write is the manifest, which lists the result of every source
    once, sorted by name.  A build fails exactly when the host refuses to make its
    directory, before anything is written, or to write its manifest: no source makes
    it fail. *)
Theorem build_writes_redacted (b : Builder W) parentDir node w log w' res err :
  Build (logged_os O) (lift_builder b) parentDir node ([], w) = ((log, w'), (res, err)) →
  let dir := JoinPath [parentDir; DirName b node] in
  match (os_MkdirAll O dir 448 w).2 with
  | Some msg => err = Some (BCreateDir msg) ∧ log = [] ∧ w' = (os_MkdirAll O dir 448 w).1
  | None => ∃ wds text w1, log = wds ++ [(JoinPath [dir; "manifest.txt"], text)] ∧
      Forall (λ wd, ∃ s, s ∈ b_sources b ∧ redacted_file (b_redactor b) dir s wd) wds ∧
      Forall2 (recorded dir wds) (b_sources b) (br_Files res) ∧ manifest_of b node (br_Files res) text ∧
      w' = (os_WriteFile O (JoinPath [dir; "manifest.txt"]) text 384 w1).1 ∧
      err = BWriteManifest <$> (os_WriteFile O (JoinPath [dir; "manifest.txt"]) text 384 w1).2
  end.
Proof.
  cbn zeta. unfold Build. change (DirName (lift_builder b) node) with (DirName b node). set (dir := JoinPath [parentDir; _]).
  cbn [logged_os os_MkdirAll on_snd]. destruct (os_MkdirAll O dir 448 w) as [w1 [msg|]]; [by intros [= <- <- _ <-]|].
  cbn [lift_builder b_redactor b_sources]. fold (logged_os O).
  destruct (write_sources _ _ _ _ _) as [[log1 w2] files] eqn:E. apply write_sources_log in E as (wds & -> & Hw & Hn).
  change (renderManifest (lift_builder b)) with (renderManifest b). cbn [logged_os os_WriteFile fst snd].
  destruct (os_WriteFile O _ _ 384 w2) as [w3 e] eqn:Ew. intros [= <- <- <- <-]. exists wds, (renderManifest b node files), w2.
  rewrite Ew. split_and!; try done. apply renderManifest_of.
Qed.
End build_writes.

(** ** The manifest is not redacted *)

Definition demo_now : DateTime := mkDate 2026 1 2 3 4 5.

Definition failing : Source FsSim := mkSource "kubernetes/node.yaml" (λ w, (w, ("", Some "GET failed: token=hunter2"))).

Definition demo_builder : Builder FsSim := mkBuilder DefaultRedactor [failing] demo_now.

Definition build_demo := Build fs_sim demo_builder "/tmp" "mac 1" (mkFsSim ∅ [] 0).

Definition file_at (p : string) (w : FsSim) : string := match fs_paths w !! p with Some (File d _) => d | _ => "" end.

(** The error of a collector is redacted in the file beside its output, but goes
    into the manifest as it is: a secret in an error message is in the bundle, against
    the promise that every byte a source produces passes the redactor. *)
Theorem manifest_leaks_errors :
  let dir := "/tmp/macvz-bundle-mac-1-20260102T030405Z" in
  let w := build_demo.1 in
  file_at (dir +:+ "/kubernetes/node.yaml.error") w = "GET failed: token=[REDACTED]" +:+ nl ∧
  Contains (file_at (dir +:+ "/manifest.txt") w) "token=hunter2" = true.
Proof. by vm_compute. Qed.

(** Two sources of one name, such as log files with the same base name: the second
    one replaces the first, and the manifest lists both. *)
Definition same_name : Builder FsSim :=
  mkBuilder DefaultRedactor [mkSource "logs/macvz.log" (λ w, (w, ("kubelet", None))); mkSource "logs/macvz.log" (λ w, (w, ("netd", None)))] demo_now.

Lemma same_name_overwrites :
  let r := Build fs_sim same_name "/tmp" "" (mkFsSim ∅ [] 0) in
  file_at "/tmp/macvz-bundle-20260102T030405Z/logs/macvz.log" r.1 = "netd" ∧ length (br_Files r.2.1) = 2%nat.
Proof. by vm_compute. Qed.

Lemma build_writes_redacted_witness :
  ∃ log, (Build (logged_os fs_sim) (lift_builder demo_builder) "/tmp" "mac 1" ([], mkFsSim ∅ [] 0)).1.1 = log ∧
    ∃ wds text, log = wds ++ [("/tmp/macvz-bundle-mac-1-20260102T030405Z/manifest.txt", text)] ∧
       manifest_of demo_builder "mac 1" [mkFR "kubernetes/node.yaml" 0 "GET failed: token=hunter2"] text.
Proof.
  eexists. split; [reflexivity|].
  destruct (Build (logged_os fs_sim) (lift_builder demo_builder) "/tmp" "mac 1" ([], mkFsSim ∅ [] 0)) as [[log w] [res err]] eqn:E.
  pose proof (build_writes_redacted fs_sim demo_builder "/tmp" "mac 1" (mkFsSim ∅ [] 0) log w res err E) as H.
  assert (br_Files res = [mkFR "kubernetes/node.yaml" 0 "GET failed: token=hunter2"]) as Hf.
  { apply (f_equal (λ x, br_Files x.2.1)) in E. vm_compute in E. exact (eq_sym E). }
  cbv beta zeta in H. rewrite Hf in H. destruct H as (wds & text & w1 & Hlog & _ & _ & Hm & _).
  exists wds, text. split; [exact Hlog|exact Hm].
Defined.
