(* ===== verification/Sha256.v ===== *)
(** * SHA-256 and hexadecimal encoding

    [crypto/sha256.Sum256] and [encoding/hex.hex_EncodeToString], executable, on
    32-bit words kept as [Z] with their wrap-around written out.  The workload
    name of a Pod that does not fit a DNS label ends in a digest prefix. *)

From S2P Require Import Prelude GoStrings.

Open Scope Z_scope.

Definition w32 (z : Z) : Z := z mod 2 ^ 32.
Definition add32 (a b : Z) : Z := w32 (a + b).
Definition rotr (n x : Z) : Z := Z.lor (Z.shiftr x n) (w32 (Z.shiftl x (32 - n))).
Definition not32 (x : Z) : Z := Z.lxor x (2 ^ 32 - 1).

Definition xor3 (a b c : Z) : Z := Z.lxor a (Z.lxor b c).
Definition Ch (x y z : Z) : Z := Z.lxor (Z.land x y) (Z.land (not32 x) z).
Definition Maj (x y z : Z) : Z := xor3 (Z.land x y) (Z.land x z) (Z.land y z).
Definition bsig0 (x : Z) : Z := xor3 (rotr 2 x) (rotr 13 x) (rotr 22 x).
Definition bsig1 (x : Z) : Z := xor3 (rotr 6 x) (rotr 11 x) (rotr 25 x).
Definition ssig0 (x : Z) : Z := xor3 (rotr 7 x) (rotr 18 x) (Z.shiftr x 3).
Definition ssig1 (x : Z) : Z := xor3 (rotr 17 x) (rotr 19 x) (Z.shiftr x 10).

(** The round constants are the first 32 bits of the fractional parts of the
    cube roots of the first 64 primes, the initial state those of the square
    roots of the first eight (FIPS 180-4, 4.2.2 and 5.3.3). *)
Definition is_prime (n : Z) : bool :=
  forallb (λ d, negb (n mod d =? 0)) (seqZ 2 (Z.sqrt n - 1)).

Definition primes : list Z := filter is_prime (seqZ 2 310).

(** The largest [r + d] with [d < 2 ^ bits] whose cube is at most [n]. *)
Fixpoint cbrt_from (bits : nat) (r n : Z) : Z :=
  match bits with
  | O => r
  | S b => let r' := r + 2 ^ Z.of_nat b in cbrt_from b (if r' ^ 3 <=? n then r' else r) n
  end.

Definition K256 : list Z :=
  Eval vm_compute in (λ p, w32 (cbrt_from 35 0 (p * 2 ^ 96))) <$> firstn 64 primes.

Definition H256 : list Z := Eval vm_compute in (λ p, w32 (Z.sqrt (p * 2 ^ 64))) <$> firstn 8 primes.

Fixpoint bytes_of (s : string) : list Z :=
  match s with EmptyString => [] | String a r => Z.of_N (c2n a) :: bytes_of r end.

(** The [n] low-order bytes of [x], most significant first. *)
Fixpoint be_bytes (n : nat) (x : Z) : list Z :=
  match n with O => [] | S m => (x / 2 ^ (8 * Z.of_nat m)) mod 256 :: be_bytes m x end.

Fixpoint be_words (fuel : nat) (l : list Z) : list Z :=
  match fuel, l with
  | S f, a :: b :: c :: d :: r => (((a * 256 + b) * 256 + c) * 256 + d) :: be_words f r
  | _, _ => []
  end.

Definition pad (m : list Z) : list Z :=
  let len := Z.of_nat (length m) in
  m ++ [128] ++ replicate (Z.to_nat ((55 - len) mod 64)) 0 ++ be_bytes 8 (8 * len).

(** The message schedule, latest word first. *)
Fixpoint schedule (n : nat) (w : list Z) : list Z :=
  match n with
  | O => w
  | S m =>
      schedule m
        (add32 (add32 (ssig1 (default 0 (w !! 1%nat))) (default 0 (w !! 6%nat)))
               (add32 (ssig0 (default 0 (w !! 14%nat))) (default 0 (w !! 15%nat))) :: w)
  end.

Definition round (st : list Z) (kw : Z * Z) : list Z :=
  match st with
  | [a; b; c; d; e; f; g; h] =>
      let t1 := add32 (add32 (add32 h (bsig1 e)) (Ch e f g)) (add32 kw.1 kw.2) in
      let t2 := add32 (bsig0 a) (Maj a b c) in
      [add32 t1 t2; a; b; c; add32 d t1; e; f; g]
  | _ => st
  end.

Definition block (h : list Z) (ws : list Z) : list Z :=
  zip_with add32 h (foldl round h (zip K256 (rev (schedule 48 (rev ws))))).

Fixpoint blocks (fuel : nat) (h ws : list Z) : list Z :=
  match fuel, ws with
  | S f, _ :: _ => blocks f (block h (firstn 16 ws)) (skipn 16 ws)
  | _, _ => h
  end.

(** The digest as 32 bytes.  Four bytes make a word and sixteen words a block,
    so the padded length bounds both recursions. *)
Definition Sum256 (s : string) : list Z :=
  let m := pad (bytes_of s) in
  blocks (length m) H256 (be_words (length m) m) ≫= be_bytes 4.

Definition hex_byte (b : Z) : string :=
  String (digit_char (b / 16)) (String (digit_char (b mod 16)) "").

Definition hex_EncodeToString (l : list Z) : string := Concat (hex_byte <$> l).

(** The first published test vectors (FIPS 180-4). *)
Example Sum256_abc :
  hex_EncodeToString (Sum256 "abc") =
  "ba7816bf8f01cfea414140de5dae2223b00361a396177a9cb410ff61f20015ad".
Proof. vm_compute. reflexivity. Qed.

Example Sum256_two_blocks :
  hex_EncodeToString (Sum256 "abcdbcdecdefdefgefghfghighijhijkijkljklmklmnlmnomnopnopq") =
  "248d6a61d20638b8e5c026930c3e6039a33ce45964ff2167f6ecedd419db06c1".
Proof. vm_compute. reflexivity. Qed.

(** ** The shape of a digest *)

Lemma round_length st kw : length (round st kw) = length st.
Proof. unfold round. by repeat case_match. Qed.

Lemma foldl_round_length l st : length (foldl round st l) = length st.
Proof. revert st. induction l as [|x l IH]; intros st; simpl; [done|]. by rewrite IH, round_length. Qed.

Lemma block_length h ws : length (block h ws) = length h.
Proof. unfold block. rewrite length_zip_with, foldl_round_length. lia. Qed.

Lemma blocks_length n h ws : length (blocks n h ws) = length h.
Proof.
  revert h ws. induction n as [|n IH]; intros h [|x ws]; try done. cbn [blocks]. by rewrite IH, block_length.
Qed.

Definition byte (b : Z) : Prop := 0 ≤ b < 256.

Lemma be_bytes_byte n x : Forall byte (be_bytes n x).
Proof. induction n as [|n IH]; simpl; constructor; [|done]. by apply Z.mod_pos_bound. Qed.

Lemma be_bytes_length n x : length (be_bytes n x) = n.
Proof. induction n; simpl; auto. Qed.

Lemma Sum256_shape s : length (Sum256 s) = 32%nat ∧ Forall byte (Sum256 s).
Proof.
  unfold Sum256. set (h := blocks _ _ _).
  assert (length h = 8%nat) as Hh by apply blocks_length. clearbody h. split.
  - do 9 (destruct h as [|? h]; try done).
  - apply Forall_bind. apply Forall_forall. intros. apply be_bytes_byte.
Qed.

(** Lower-case hexadecimal digits. *)
Definition hex_char (a : ascii) : bool :=
  let n := c2n a in ((48 <=? n) && (n <=? 57) || (97 <=? n) && (n <=? 102))%N.

Lemma hex_byte_char b : byte b → s_forall hex_char (hex_byte b) = true.
Proof.
  intros Hb. refine (forall_below (λ b, s_forall hex_char (hex_byte b)) 256 _ b Hb).
  vm_compute. reflexivity.
Qed.

Lemma EncodeToString_shape l :
  Forall byte l →
  String.length (hex_EncodeToString l) = (2 * length l)%nat ∧ s_forall hex_char (hex_EncodeToString l) = true.
Proof.
  unfold hex_EncodeToString. induction l as [|b l IH]; intros Hl; [done|].
  apply Forall_cons in Hl as [Hb Hl]. destruct (IH Hl) as [IH1 IH2].
  cbn [fmap list_fmap Concat]. rewrite slength_app, s_forall_app, hex_byte_char, IH2 by done.
  rewrite IH1. simpl. split; [lia|done].
Qed.
