(* ===== verification/PodSpec.v ===== *)
(** * Pod specs: [pkg/provider] translate.go, securitycontext.go, dns.go

    The Kubernetes objects with the fields the node reads, the workload spec of
    [internal/types], the shape checks that reject a Pod, the mapping of
    resources, security context and DNS onto the spec, and the workload name.

    A pointer field of the API is an [option].  [resource.Quantity] belongs to
    apimachinery: it is the record of the observations the node makes of it. *)

From S2P Require Import Prelude GoStrings Sha256.

Open Scope Z_scope.

(** ** Kubernetes objects *)

Record Quantity := mkQ { q_MilliValue : Z; q_Value : Z; q_IsZero : bool }.

Record KeyRef := mkKeyRef { kr_Name : string; kr_Key : string; kr_Optional : option bool }.

Record ResourceFieldSelector := mkRFS { rf_Resource : string; rf_Divisor : Quantity }.

Record EnvVarSource := mkEVS {
  ev_FieldRef : option string;
  ev_ResourceFieldRef : option ResourceFieldSelector;
  ev_ConfigMapKeyRef : option KeyRef;
  ev_SecretKeyRef : option KeyRef;
}.

Record EnvVar := mkEnv { e_Name : string; e_Value : string; e_ValueFrom : option EnvVarSource }.

(** A whole ConfigMap or Secret: its name and the optional flag. *)
Record ObjRef := mkObjRef { or_Name : string; or_Optional : option bool }.

Record EnvFromSource := mkEnvFrom {
  ef_Prefix : string; ef_ConfigMapRef : option ObjRef; ef_SecretRef : option ObjRef;
}.

Record Capabilities := mkCaps { cap_Add : list string; cap_Drop : list string }.

Record PodSecurityContext := mkPSC {
  psc_Sysctls : list (string * string);
  psc_SELinuxOptions : option string; psc_WindowsOptions : option string;
  psc_SeccompProfile : option string; psc_AppArmorProfile : option string;
  psc_RunAsUser : option Z; psc_RunAsGroup : option Z; psc_RunAsNonRoot : option bool;
}.

Record SecurityContext := mkSC {
  sc_Privileged : option bool;
  sc_SELinuxOptions : option string; sc_WindowsOptions : option string; sc_ProcMount : option string;
  sc_SeccompProfile : option string; sc_AppArmorProfile : option string;
  sc_RunAsUser : option Z; sc_RunAsGroup : option Z; sc_RunAsNonRoot : option bool;
  sc_ReadOnlyRootFilesystem : option bool; sc_Capabilities : option Capabilities;
}.

Record VolumeMount := mkVM {
  vm_Name : string; vm_MountPath : string; vm_ReadOnly : bool; vm_SubPath : string; vm_SubPathExpr : string;
}.

(** The handler a probe names; [HNone] is one the node does not recognise. *)
Inductive Handler : Type :=
  | HExec (cmd : list string)
  | HHTTPGet (host scheme path : string) (port : Z + string)
  | HTCPSocket (host : string) (port : Z + string)
  | HNone.

Record Probe := mkProbe {
  pb_Handler : Handler;
  pb_InitialDelaySeconds : Z; pb_PeriodSeconds : Z; pb_TimeoutSeconds : Z;
  pb_FailureThreshold : Z; pb_SuccessThreshold : Z;
}.

Record Container := mkContainer {
  c_Name : string; c_Image : string; c_Command : list string; c_Args : list string;
  c_Env : list EnvVar; c_EnvFrom : list EnvFromSource;
  c_Limits : gmap string Quantity; c_Requests : gmap string Quantity;
  c_SecurityContext : option SecurityContext;
  c_VolumeMounts : list VolumeMount; c_Ports : list (string * Z);
  c_StartupProbe : option Probe; c_ReadinessProbe : option Probe; c_LivenessProbe : option Probe;
}.

Record HostPathVolumeSource := mkHostPath { hp_Path : string; hp_Type : option string }.
Record KeyToPath := mkItem { it_Key : string; it_Path : string; it_Mode : option Z }.

Record ObjVolumeSource := mkObjVol {
  ov_Name : string; ov_Items : list KeyToPath; ov_DefaultMode : option Z; ov_Optional : option bool;
}.

Inductive Projection : Type :=
  | PToken (audience : string) (expiration : option Z) (path : string)
  | PConfigMap (name : string) (items : list KeyToPath) (optional : option bool)
  | PSecret (name : string) (items : list KeyToPath) (optional : option bool)
  | PDownward (items : list (string * option string * option Z))
  | POther.

Record ProjectedVolumeSource := mkProjected { pj_Sources : list Projection; pj_DefaultMode : option Z }.

Record Volume := mkVolume {
  v_Name : string;
  v_HostPath : option HostPathVolumeSource;
  v_EmptyDir : option string;
  v_ConfigMap : option ObjVolumeSource;
  v_Secret : option ObjVolumeSource;
  v_Projected : option ProjectedVolumeSource;
}.

Record PodDNSConfig := mkPodDNS {
  pd_Nameservers : list string; pd_Searches : list string; pd_Options : list (string * option string);
}.

Record Pod := mkPod {
  pod_Namespace : string; pod_Name : string; pod_UID : string;
  pod_Labels : gmap string string; pod_Annotations : gmap string string;
  pod_NodeName : string; pod_ServiceAccountName : string;
  pod_Containers : list Container; pod_InitContainers : list Container;
  pod_EphemeralContainers : list Container;
  pod_RestartPolicy : string;
  pod_HostNetwork : bool; pod_HostPID : bool; pod_HostIPC : bool;
  pod_SecurityContext : option PodSecurityContext;
  pod_Volumes : list Volume; pod_ImagePullSecrets : list string;
  pod_DNSPolicy : string; pod_DNSConfig : option PodDNSConfig;
  pod_TerminationGracePeriodSeconds : option Z;
}.

(** ** The workload spec ([internal/types]) *)

Record Mount := mkMount { m_Source : string; m_Target : string; m_ReadOnly : bool; m_Tmpfs : bool }.

Record ContainerSpec := mkSpec {
  s_Name : string; s_Image : string; s_Command : list string; s_Args : list string;
  s_Env : gmap string string; s_CPUMillis : Z; s_MemoryBytes : Z; s_Mounts : list Mount;
  s_DNS : list string; s_DNSSearch : list string; s_DNSOptions : list string;
  s_User : string; s_ReadOnlyRootFS : bool; s_CapAdd : list string; s_CapDrop : list string;
}.

(** ** Reasons to reject a Pod *)

Inductive Reason : Type :=
  | RNoContainers | RMultiContainer (n : nat) | RInitContainers (n : nat) | REphemeral (n : nat)
  | RRestartPolicy (p : string) | RHostNetwork | RHostPID | RHostIPC
  | RSysctls | RPodSELinux | RPodWindows | RPodSeccomp | RPodAppArmor
  | RPrivileged | RSELinux | RWindows | RProcMount (m : string) | RSeccomp | RAppArmor
  | RGroupWithoutUser | RNonRootConflict.

Definition reason_if (b : bool) (r : Reason) : list Reason := if b then [r] else [].
Definition is_some {A} (o : option A) : bool := match o with Some _ => true | None => false end.
Definition is_true (o : option bool) : bool := match o with Some b => b | None => false end.

Definition RestartPolicyAlways : string := "Always".
Definition RestartPolicyOnFailure : string := "OnFailure".
Definition RestartPolicyNever : string := "Never".

Definition seccompSupported (p : option string) : bool :=
  match p with None => true | Some t => negb (String.eqb t "Localhost") end.
Definition appArmorSupported (p : option string) : bool :=
  match p with None => true | Some t => negb (String.eqb t "Localhost") end.

(** The container's value, falling back to the Pod's. *)
Definition effectiveRunAsUser (psc : option PodSecurityContext) (csc : option SecurityContext) : option Z :=
  match csc ≫= sc_RunAsUser with Some u => Some u | None => psc ≫= psc_RunAsUser end.
Definition effectiveRunAsGroup (psc : option PodSecurityContext) (csc : option SecurityContext) : option Z :=
  match csc ≫= sc_RunAsGroup with Some u => Some u | None => psc ≫= psc_RunAsGroup end.
Definition effectiveRunAsNonRoot (psc : option PodSecurityContext) (csc : option SecurityContext) : option bool :=
  match csc ≫= sc_RunAsNonRoot with Some u => Some u | None => psc ≫= psc_RunAsNonRoot end.

Definition podLevelReasons (psc : PodSecurityContext) : list Reason :=
  reason_if (negb (bool_decide (psc_Sysctls psc = []))) RSysctls
  ++ reason_if (is_some (psc_SELinuxOptions psc)) RPodSELinux
  ++ reason_if (is_some (psc_WindowsOptions psc)) RPodWindows
  ++ reason_if (negb (seccompSupported (psc_SeccompProfile psc))) RPodSeccomp
  ++ reason_if (negb (appArmorSupported (psc_AppArmorProfile psc))) RPodAppArmor.

Definition containerLevelReasons (csc : SecurityContext) : list Reason :=
  reason_if (is_true (sc_Privileged csc)) RPrivileged
  ++ reason_if (is_some (sc_SELinuxOptions csc)) RSELinux
  ++ reason_if (is_some (sc_WindowsOptions csc)) RWindows
  ++ match sc_ProcMount csc with
     | Some m => reason_if (negb (String.eqb m "Default")) (RProcMount m)
     | None => []
     end
  ++ reason_if (negb (seccompSupported (sc_SeccompProfile csc))) RSeccomp
  ++ reason_if (negb (appArmorSupported (sc_AppArmorProfile csc))) RAppArmor.

Definition identityReasons (psc : option PodSecurityContext) (csc : option SecurityContext) : list Reason :=
  let uid := effectiveRunAsUser psc csc in
  reason_if (is_some (effectiveRunAsGroup psc csc) && negb (is_some uid)) RGroupWithoutUser
  ++ reason_if (is_true (effectiveRunAsNonRoot psc csc) && bool_decide (uid = Some 0)) RNonRootConflict.

Definition securityContextReasons (pod : Pod) : list Reason :=
  match pod_Containers pod with
  | [] => []
  | c :: _ =>
      match pod_SecurityContext pod with Some psc => podLevelReasons psc | None => [] end
      ++ match c_SecurityContext c with Some csc => containerLevelReasons csc | None => [] end
      ++ identityReasons (pod_SecurityContext pod) (c_SecurityContext c)
  end.

Definition known_policy (p : string) : bool :=
  String.eqb p "" || String.eqb p RestartPolicyAlways
  || String.eqb p RestartPolicyOnFailure || String.eqb p RestartPolicyNever.

Definition unsupportedReasons (pod : Pod) : list Reason :=
  match pod_Containers pod with
  | [] => [RNoContainers]
  | [_] => []
  | l => [RMultiContainer (length l)]
  end
  ++ match pod_InitContainers pod with [] => [] | l => [RInitContainers (length l)] end
  ++ match pod_EphemeralContainers pod with [] => [] | l => [REphemeral (length l)] end
  ++ reason_if (negb (known_policy (pod_RestartPolicy pod))) (RRestartPolicy (pod_RestartPolicy pod))
  ++ securityContextReasons pod
  ++ reason_if (pod_HostNetwork pod) RHostNetwork
  ++ reason_if (pod_HostPID pod) RHostPID
  ++ reason_if (pod_HostIPC pod) RHostIPC.

(** ** Resources and security context on the spec *)

Definition resourceQuantity (c : Container) (name : string) : option Quantity :=
  match c_Limits c !! name with Some q => Some q | None => c_Requests c !! name end.

Definition runtimeCapName (s : string) : string :=
  if String.eqb s "ALL" || HasPrefix s "CAP_" then s else "CAP_" +:+ s.

Definition user_spec (psc : option PodSecurityContext) (csc : option SecurityContext) : string :=
  match effectiveRunAsUser psc csc with
  | None => ""
  | Some uid =>
      match effectiveRunAsGroup psc csc with
      | Some gid => Itoa uid +:+ ":" +:+ Itoa gid
      | None => Itoa uid
      end
  end.

Definition with_user (s : ContainerSpec) (u : string) : ContainerSpec :=
  mkSpec (s_Name s) (s_Image s) (s_Command s) (s_Args s) (s_Env s) (s_CPUMillis s) (s_MemoryBytes s)
    (s_Mounts s) (s_DNS s) (s_DNSSearch s) (s_DNSOptions s) u (s_ReadOnlyRootFS s) (s_CapAdd s) (s_CapDrop s).

Definition with_caps (s : ContainerSpec) (ro : bool) (add drop : list string) : ContainerSpec :=
  mkSpec (s_Name s) (s_Image s) (s_Command s) (s_Args s) (s_Env s) (s_CPUMillis s) (s_MemoryBytes s)
    (s_Mounts s) (s_DNS s) (s_DNSSearch s) (s_DNSOptions s) (s_User s) ro add drop.

Definition applySecurityContext (pod : Pod) (c : Container) (spec : ContainerSpec) : ContainerSpec :=
  let psc := pod_SecurityContext pod in
  let csc := c_SecurityContext c in
  let spec := if is_some (effectiveRunAsUser psc csc) then with_user spec (user_spec psc csc) else spec in
  match csc with
  | None => spec
  | Some sc =>
      let caps := default (mkCaps [] []) (sc_Capabilities sc) in
      with_caps spec (is_true (sc_ReadOnlyRootFilesystem sc) || s_ReadOnlyRootFS spec)
        (s_CapAdd spec ++ (runtimeCapName <$> cap_Add caps))
        (s_CapDrop spec ++ (runtimeCapName <$> cap_Drop caps))
  end.

(** Literal values only; [resolveEnv] replaces the whole environment. *)
Definition literal_env (l : list EnvVar) : gmap string string :=
  foldl (λ m e, match e_ValueFrom e with None => <[e_Name e := e_Value e]> m | Some _ => m end) ∅ l.

Definition translateContainer (pod : Pod) (c : Container) : ContainerSpec :=
  applySecurityContext pod c
    (mkSpec (c_Name c) (c_Image c) (c_Command c) (c_Args c) (literal_env (c_Env c))
       (match resourceQuantity c "cpu" with Some q => q_MilliValue q | None => 0 end)
       (match resourceQuantity c "memory" with Some q => q_Value q | None => 0 end)
       [] [] [] [] "" false [] []).

(** ** DNS *)

Record DNSConfig := mkDNS { dns_ClusterDNS : list string; dns_ClusterDomain : string }.

Definition defaultClusterDomain : string := "cluster.local".

Definition dns_enabled (d : DNSConfig) : bool := negb (bool_decide (dns_ClusterDNS d = [])).

Definition dns_domain (d : DNSConfig) : string :=
  if String.eqb (dns_ClusterDomain d) "" then defaultClusterDomain else dns_ClusterDomain d.

Definition fromPodDNSConfig (pod : Pod) : list string * list string * list string :=
  match pod_DNSConfig pod with
  | None => ([], [], [])
  | Some dc =>
      (pd_Nameservers dc, pd_Searches dc,
       (λ o, match o.2 with Some v => o.1 +:+ ":" +:+ v | None => o.1 end) <$> pd_Options dc)
  end.

Definition dedupeAppend (base extra : list string) : list string :=
  foldl (λ acc e, if bool_decide (e ∈ acc) then acc else acc ++ [e]) base extra.

Definition resolveDNS (pod : Pod) (cfg : DNSConfig) : list string * list string * list string :=
  if String.eqb (pod_DNSPolicy pod) "None" then fromPodDNSConfig pod
  else if String.eqb (pod_DNSPolicy pod) "Default" then ([], [], [])
  else if negb (dns_enabled cfg) then ([], [], [])
  else
    let domain := dns_domain cfg in
    let '(en, es, eo) := fromPodDNSConfig pod in
    (dedupeAppend (dns_ClusterDNS cfg) en,
     dedupeAppend [pod_Namespace pod +:+ ".svc." +:+ domain; "svc." +:+ domain; domain] es,
     dedupeAppend ["ndots:5"] eo).

(** ** Workload names *)

Definition maxWorkloadIDLen : nat := 63.
Definition WorkloadPrefix : string := "macvz".

Definition alnum (a : ascii) : bool :=
  let n := c2n a in ((97 <=? n) && (n <=? 122) || (48 <=? n) && (n <=? 57))%N.

Definition dash : ascii := ch 45.
Definition Dash : string := String dash "".

(** The bytes of a multi-byte rune are all outside [a-z0-9], so a run of them
    yields the same single hyphen as the rune does. *)
Fixpoint dash_runs (lastDash : bool) (s : string) : string :=
  match s with
  | EmptyString => ""
  | String a r =>
      if alnum a then String a (dash_runs false r)
      else if lastDash then dash_runs true r
      else String dash (dash_runs true r)
  end.

Fixpoint trim_left_dash (s : string) : string :=
  match s with
  | String a r => if Ascii.eqb a dash then trim_left_dash r else s
  | EmptyString => ""
  end.

(** [strings.TrimRight(s, "-")] *)
Fixpoint trim_right_dash (s : string) : string :=
  match s with
  | EmptyString => ""
  | String a r =>
      match trim_right_dash r with
      | EmptyString => if Ascii.eqb a dash then "" else String a ""
      | t => String a t
      end
  end.

Definition sanitizeDNSLabel (s : string) : string :=
  let out := trim_right_dash (trim_left_dash (dash_runs false (ToLower s))) in
  if String.eqb out "" then "wl" else out.

Definition WorkloadID (namespace podName containerName : string) : string :=
  let id := sanitizeDNSLabel (Join [WorkloadPrefix; namespace; podName; containerName] "-") in
  if (String.length id <=? maxWorkloadIDLen)%nat then id
  else
    let suffix := take 8 (hex_EncodeToString (Sum256 (namespace +:+ "/" +:+ podName +:+ "/" +:+ containerName))) in
    let keep := (maxWorkloadIDLen - String.length suffix - 1)%nat in
    trim_right_dash (take keep id) +:+ Dash +:+ suffix.

(** ** Workload names are DNS labels *)

Definition label_char (a : ascii) : bool := alnum a || Ascii.eqb a dash.

Definition first_char (s : string) : option ascii :=
  match s with String a _ => Some a | EmptyString => None end.

Fixpoint last_char (s : string) : option ascii :=
  match s with
  | EmptyString => None
  | String a EmptyString => Some a
  | String _ r => last_char r
  end.

Definition at_end (o : option ascii) : bool := match o with Some a => alnum a | None => false end.

(** RFC 1123: at most 63 letters, digits and hyphens, a letter or digit at both
    ends. *)
Definition dns_label (s : string) : bool :=
  (String.length s <=? maxWorkloadIDLen)%nat && s_forall label_char s
  && at_end (first_char s) && at_end (last_char s).

Lemma alnum_not_dash a : alnum a = true → Ascii.eqb a dash = false.
Proof. intros Ha. destruct (Ascii.eqb a dash) eqn:E; [|done]. by apply Ascii.eqb_eq in E as ->. Qed.

Lemma label_not_dash a : label_char a = true → Ascii.eqb a dash = false → alnum a = true.
Proof. unfold label_char. intros Ha E. by rewrite E, orb_false_r in Ha. Qed.

Lemma hex_alnum a : hex_char a = true → alnum a = true.
Proof.
  unfold hex_char, alnum. rewrite !orb_true_iff, !andb_true_iff, !N.leb_le. lia.
Qed.

Lemma last_char_cons a s : s ≠ "" → last_char (String a s) = last_char s.
Proof. by destruct s. Qed.

Lemma last_char_app s t : t ≠ "" → last_char (s +:+ t) = last_char t.
Proof.
  intros Ht. induction s as [|a s IH]; [done|]. rewrite sapp_cons, last_char_cons; [done|].
  intros H. by apply sapp_eq_nil in H as [_ ->].
Qed.

Lemma last_char_forall P s a : s_forall P s = true → last_char s = Some a → P a = true.
Proof.
  induction s as [|b s IH]; simpl; [done|]. rewrite andb_true_iff. intros [Hb Hs].
  destruct s; [intros; by simplify_eq|by apply IH].
Qed.

Lemma last_char_some s : s ≠ "" → is_Some (last_char s).
Proof. induction s as [|a s IH]; [done|]. intros _. destruct s; [by eexists|by apply IH]. Qed.

Lemma take_split n s : s = take n s +:+ drop n s.
Proof.
  revert n. induction s as [|a s IH]; intros [|n]; try done. simpl take. simpl drop.
  rewrite sapp_cons. by rewrite <- (IH n).
Qed.

Lemma take_length n s : (String.length (take n s) ≤ n)%nat.
Proof. revert n. induction s as [|a s IH]; intros [|n]; simpl; try lia. specialize (IH n). lia. Qed.

Lemma take_long n s : (n ≤ String.length s)%nat → String.length (take n s) = n.
Proof.
  revert n. induction s as [|a s IH]; intros [|n]; simpl; intros; try lia. by rewrite IH; lia.
Qed.

Lemma dash_runs_label b s : s_forall label_char (dash_runs b s) = true.
Proof.
  revert b. induction s as [|a s IH]; intros b; simpl; [done|].
  destruct (alnum a) eqn:E; [|by destruct b; simpl; rewrite ?IH].
  simpl. unfold label_char at 1. by rewrite E, IH.
Qed.

Lemma trim_left_dash_suffix s : ∃ t, s = t +:+ trim_left_dash s.
Proof.
  induction s as [|a s [t IH]]; [by exists ""|]. simpl. destruct (Ascii.eqb a dash); [|by exists ""].
  exists (String a t). rewrite sapp_cons. by rewrite <- IH.
Qed.

Lemma trim_left_dash_first s a r :
  trim_left_dash s = String a r → Ascii.eqb a dash = false.
Proof.
  induction s as [|b s IH]; simpl; [done|]. destruct (Ascii.eqb b dash) eqn:E; [done|].
  intros; by simplify_eq.
Qed.

Lemma trim_right_dash_prefix s : ∃ t, s = trim_right_dash s +:+ t.
Proof.
  induction s as [|a s [t IH]]; [by exists ""|]. simpl.
  destruct (trim_right_dash s) as [|b u] eqn:E.
  - destruct (Ascii.eqb a dash); [by exists (String a s)|].
    exists s. by rewrite sapp_cons, sapp_nil_l.
  - exists t. rewrite sapp_cons. by rewrite <- IH.
Qed.

Lemma trim_right_dash_length s : (String.length (trim_right_dash s) ≤ String.length s)%nat.
Proof.
  destruct (trim_right_dash_prefix s) as [t E]. rewrite E at 2. rewrite slength_app. lia.
Qed.

Lemma trim_right_dash_last s a : last_char (trim_right_dash s) = Some a → Ascii.eqb a dash = false.
Proof.
  induction s as [|b s IH]; simpl; [done|].
  destruct (trim_right_dash s) as [|c u].
  - destruct (Ascii.eqb b dash) eqn:E; [done|]. simpl. intros; by simplify_eq.
  - rewrite last_char_cons by done. apply IH.
Qed.

(** A character other than a hyphen stops the trimming. *)
Lemma trim_right_dash_keeps p a r :
  Ascii.eqb a dash = false →
  trim_right_dash (p +:+ String a r) = p +:+ String a (trim_right_dash r).
Proof.
  intros Ha. induction p as [|b p IH].
  - rewrite !sapp_nil_l. simpl. destruct (trim_right_dash r); [by rewrite Ha|done].
  - rewrite !sapp_cons. simpl. rewrite IH. by destruct p.
Qed.

Lemma sanitize_shape s :
  s_forall label_char (sanitizeDNSLabel s) = true ∧
  at_end (first_char (sanitizeDNSLabel s)) = true ∧ at_end (last_char (sanitizeDNSLabel s)) = true.
Proof.
  unfold sanitizeDNSLabel. set (d := dash_runs false (ToLower s)).
  assert (s_forall label_char d = true) as Hd by apply dash_runs_label. clearbody d.
  destruct (trim_left_dash_suffix d) as [t Ht]. set (l := trim_left_dash d) in *.
  destruct (trim_right_dash_prefix l) as [u Hu]. set (o := trim_right_dash l) in *.
  assert (s_forall label_char o = true) as Ho.
  { rewrite Ht, Hu, !s_forall_app in Hd. bools. done. }
  destruct (String.eqb o "") eqn:E; [done|]. bools. split_and!; [done| |].
  - destruct o as [|a o']; [done|]. rewrite sapp_cons in Hu.
    simpl in *. bools. eapply label_not_dash; [done|]. by eapply (trim_left_dash_first d).
  - destruct (last_char_some o E) as [a Ha]. rewrite Ha. simpl.
    apply label_not_dash; [by eapply last_char_forall|by eapply (trim_right_dash_last l)].
Qed.

Lemma suffix_shape s :
  String.length (take 8 (hex_EncodeToString (Sum256 s))) = 8%nat ∧
  s_forall alnum (take 8 (hex_EncodeToString (Sum256 s))) = true.
Proof.
  destruct (Sum256_shape s) as [Hl Hb]. destruct (EncodeToString_shape _ Hb) as [Hlen Hc].
  rewrite Hl in Hlen. split; [apply take_long; lia|].
  rewrite (take_split 8 (hex_EncodeToString _)), s_forall_app in Hc. bools.
  eapply s_forall_impl; [|done]. apply hex_alnum.
Qed.

Lemma WorkloadID_dns_label ns p c : dns_label (WorkloadID ns p c) = true.
Proof.
  unfold WorkloadID. set (id := sanitizeDNSLabel _). set (ident := ns +:+ _).
  destruct (sanitize_shape (Join [WorkloadPrefix; ns; p; c] "-")) as (Hc & Hf & Hl).
  fold id in Hc, Hf, Hl. clearbody id. unfold dns_label.
  destruct (Nat.leb_spec (String.length id) maxWorkloadIDLen) as [Hle|Hgt].
  { apply Nat.leb_le in Hle. by rewrite Hle, Hc, Hf, Hl. }
  destruct (suffix_shape ident) as [Hs8 Hsa]. set (suf := take 8 _) in *. clearbody suf.
  rewrite Hs8. unfold maxWorkloadIDLen in *. change (63 - 8 - 1)%nat with 54%nat.
  destruct id as [|a id]; [done|]. simpl in Hf.
  change (take 54 (String a id)) with ("" +:+ String a (take 53 id)).
  rewrite trim_right_dash_keeps by by apply alnum_not_dash. rewrite sapp_nil_l.
  pose proof (trim_right_dash_length (take 53 id)) as L1. pose proof (take_length 53 id) as L2.
  assert (s_forall label_char (trim_right_dash (take 53 id)) = true) as Ht.
  { simpl in Hc. bools. match goal with H : s_forall _ id = true |- _ => rename H into Hi end.
    rewrite (take_split 53 id), s_forall_app in Hi. apply andb_true_iff in Hi as [Hi _].
    destruct (trim_right_dash_prefix (take 53 id)) as [t E]. rewrite E, s_forall_app in Hi.
    by apply andb_true_iff in Hi as [Hi _]. }
  assert (String.length (trim_right_dash (take 53 id)) ≤ 53)%nat as Hlen by lia.
  set (t := trim_right_dash (take 53 id)) in *. clearbody t. clear L1 L2.
  assert (suf ≠ "") as Hne by (intros ->; done).
  rewrite !sapp_cons. cbn [first_char at_end]. rewrite Hf.
  rewrite last_char_cons, !last_char_app by (try done; intros H; by apply sapp_eq_nil in H as [_ ?]).
  destruct (last_char_some suf Hne) as [z Hz].
  assert (alnum z = true) as Haz by by eapply last_char_forall. rewrite Hz. simpl at_end. rewrite Haz.
  simpl. rewrite !slength_app, s_forall_app, Hs8, Ht. simpl.
  rewrite (s_forall_impl alnum label_char) by (try done; unfold label_char; by intros ? ->).
  rewrite !andb_true_r. unfold label_char at 1. rewrite Hf. simpl.
  rewrite andb_true_r. apply Nat.leb_le. simpl. lia.
Qed.

Lemma lower_ascii a r : (c2n a < 128)%N → ToLower (String a r) = String (lower_char a) (ToLower r).
Proof.
  intros Ha. unfold ToLower. cbn [lower_go].
  assert ((c2n a =? 226)%N = false ∧ (c2n a =? 196)%N = false) as [-> ->].
  { rewrite !N.eqb_neq. lia. }
  by destruct r as [|b [|c r]].
Qed.

Lemma sanitize_prefixed a r :
  alnum a = true → ∃ t, sanitizeDNSLabel ("macvz-" +:+ String a r) = "macvz-" +:+ String a t.
Proof.
  intros Ha. unfold sanitizeDNSLabel.
  assert ((c2n a < 128)%N ∧ lower_char a = a) as [Hlt Hlow].
  { revert Ha. unfold alnum, lower_char. rewrite orb_true_iff, !andb_true_iff, !N.leb_le. intros H.
    split; [lia|]. destruct ((65 <=? c2n a) && (c2n a <=? 90))%N eqn:E; [|done].
    rewrite andb_true_iff, !N.leb_le in E. lia. }
  exists (trim_right_dash (dash_runs false (ToLower r))).
  rewrite !sapp_cons, sapp_nil_l. rewrite !lower_ascii by (first [done|by vm_compute]).
  rewrite Hlow. cbn [dash_runs]. rewrite Ha.
  match goal with |- context [trim_left_dash ?s] =>
    change (trim_left_dash s) with ("macvz-" +:+ String a (dash_runs false (ToLower r))) end.
  by rewrite trim_right_dash_keeps by by apply alnum_not_dash.
Qed.

Lemma WorkloadID_prefixed ns p c :
  at_end (first_char ns) = true → HasPrefix (WorkloadID ns p c) "macvz-" = true.
Proof.
  intros Hns. destruct ns as [|a ns]; [done|]. simpl in Hns. unfold WorkloadID.
  change (Join [WorkloadPrefix; String a ns; p; c] "-")
    with ("macvz-" +:+ String a (ns +:+ "-" +:+ p +:+ "-" +:+ c)).
  destruct (sanitize_prefixed a (ns +:+ "-" +:+ p +:+ "-" +:+ c) Hns) as [t ->].
  destruct (_ <=? _)%nat; [apply HasPrefix_app|].
  destruct (suffix_shape (String a ns +:+ "/" +:+ p +:+ "/" +:+ c)) as [-> _].
  change (take _ ("macvz-" +:+ String a t)) with ("macvz-" +:+ String a (take 47 t)).
  rewrite trim_right_dash_keeps by by apply alnum_not_dash. rewrite sapp_assoc. apply HasPrefix_app.
Qed.

(** C34: the name of every micro-VM is a DNS label of at most 63 characters,
    also when the Pod's identity is longer and the digest suffix takes over;
    and when the namespace starts with a letter or digit, as Kubernetes
    requires, it carries the [macvz-] prefix by which the cleanup tooling
    recognises the node's own micro-VMs. *)
Theorem workload_names ns p c (Hns : at_end (first_char ns) = true) :
  dns_label (WorkloadID ns p c) = true ∧ HasPrefix (WorkloadID ns p c) (WorkloadPrefix +:+ "-") = true.
Proof. split; [apply WorkloadID_dns_label|by apply WorkloadID_prefixed]. Qed.

Definition long_name : string := "a-deployment-with-a-rather-long-name-7d4b9c6f5d-x2x9k".

Lemma workload_names_witness :
  at_end (first_char "team-a") = true ∧
  WorkloadID "team-a" long_name "web.sidecar" =
    "macvz-team-a-a-deployment-with-a-rather-long-name-7d4b-772ca105" ∧
  dns_label (WorkloadID "team-a" long_name "web.sidecar") = true.
Proof.
  split_and!; [done|vm_compute; reflexivity|].
  by destruct (workload_names "team-a" long_name "web.sidecar" eq_refl).
Defined.
