(* ===== verification/PodEnv.v ===== *)
(** * Environment and pull credentials: [pkg/provider] configmap.go, secrets.go,
      downward.go, pullsecrets.go

    The environment of a container is resolved from ConfigMaps, Secrets, the
    Downward API and literal values with [$(VAR)] references; the registry
    credential of an image comes from the Pod's pull Secrets.  The informer
    listers are getters: a function that may be absent (nil) and may fail.
    [json_auths] stands for [json.Unmarshal] into the two shapes of a docker
    credential file. *)

From S2P Require Import Prelude GoFloat GoStrings WireGuard PodSpec.

Open Scope Z_scope.

(** ** Getters and errors *)

Record ConfigMap := mkCM { cm_Data : gmap string string; cm_BinaryData : gmap string string }.
Record Secret := mkSecret { sec_Data : gmap string string }.

(** [apierrors.IsNotFound] or any other failure of a lister. *)
Inductive GetError : Type := GNotFound | GOther (text : string).

Definition ConfigMapGetter : Type := option (string → string → result GetError ConfigMap).
Definition SecretGetter : Type := option (string → string → result GetError Secret).

(** The errors of translating a Pod.  The first two are the sentinels that
    [CreatePod] retries on. *)
Inductive PodError : Type :=
  | EConfigPending (what : string)
  | ESecretUnavailable (what : string)
  | EUnsupported (rs : list Reason)
  | EUnsupportedVolume (e : PodError)
  | ENoConfigMaps (name : string) | ENoSecrets (name : string)
  | EReadSecret (name text : string)
  | EEnv (name : string) (e : PodError)
  | EFieldRef (path : string) | EResourceFieldRef (r : string) | ENoFieldRef
  | EVolume (name what : string)
  | EPathEscapes (root : string) | ERootNotAbs (root : string) | ERelPath
  | ENoVolumeRoot | ENoPodUID | ENoVolumeName | ENoTokens
  | EPullSecret (name what : string).

(** [errors.Is(err, errConfigPending) || errors.Is(err, errSecretUnavailable)]:
    [%w] keeps the chain, and the wrapping of an unsupported volume ([%v]) cuts
    it. *)
Fixpoint retryable (e : PodError) : bool :=
  match e with
  | EConfigPending _ | ESecretUnavailable _ => true
  | EEnv _ e' => retryable e'
  | _ => false
  end.

Definition getConfigMap (cms : ConfigMapGetter) (ns name : string) (optional : bool)
    : result PodError (option ConfigMap) :=
  match cms with
  | None => Err (ENoConfigMaps name)
  | Some get =>
      match get ns name with
      | Ok cm => Ok (Some cm)
      | Err GNotFound => if optional then Ok None else Err (EConfigPending name)
      | Err (GOther t) => Err (EConfigPending name)
      end
  end.

Definition loadSecret (getter : SecretGetter) (ns name : string) (optional : bool)
    : result PodError (option Secret) :=
  match getter with
  | None => Err (ENoSecrets name)
  | Some get =>
      match get ns name with
      | Ok sec => Ok (Some sec)
      | Err GNotFound => if optional then Ok None else Err (ESecretUnavailable name)
      | Err (GOther t) => Err (EReadSecret name t)
      end
  end.

(** Keys in lexical order; sorting makes the iteration order of the map
    irrelevant. *)
Definition sortedKeys {A} (m : gmap string A) : list string := sort_strings (map_to_list m).*1.

(** ** Downward API *)

Definition is_quote (a : ascii) : bool := Ascii.eqb a (ch 39) || Ascii.eqb a (ch 34).

(** [prefix['key']] *)
Definition subscriptKey (path prefix : string) : option string :=
  if negb (HasPrefix path (prefix +:+ "[")) || negb (HasSuffix path "]") then None
  else
    let inner := take (String.length path - String.length prefix - 2) (drop (S (String.length prefix)) path) in
    match first_char inner, last_char inner with
    | Some f, Some l =>
        if (2 <=? String.length inner)%nat && Ascii.eqb f l && is_quote f
        then Some (take (String.length inner - 2) (drop 1 inner)) else None
    | _, _ => None
    end.

Definition resolveFieldRef (pod : Pod) (path : string) : result PodError string :=
  if String.eqb path "metadata.name" then Ok (pod_Name pod)
  else if String.eqb path "metadata.namespace" then Ok (pod_Namespace pod)
  else if String.eqb path "metadata.uid" then Ok (pod_UID pod)
  else if String.eqb path "spec.nodeName" then Ok (pod_NodeName pod)
  else if String.eqb path "spec.serviceAccountName" then Ok (pod_ServiceAccountName pod)
  else match subscriptKey path "metadata.labels" with
  | Some key => Ok (default "" (pod_Labels pod !! key))
  | None =>
      match subscriptKey path "metadata.annotations" with
      | Some key => Ok (default "" (pod_Annotations pod !! key))
      | None => Err (EFieldRef path)
      end
  end.

Definition positive_or_one (d : Z) : Z := if d <=? 0 then 1 else d.

Definition divideCPU (cpu divisor : Quantity) : string :=
  Itoa (ceil_int64 (fdiv (float64 (q_MilliValue cpu)) (float64 (positive_or_one (q_MilliValue divisor))))).

Definition divideBytes (q divisor : Quantity) : string :=
  Itoa (ceil_int64 (fdiv (float64 (q_Value q)) (float64 (positive_or_one (q_Value divisor))))).

(** An absent resource is the zero quantity. *)
Definition quantity_of (rl : gmap string Quantity) (name : string) : Quantity :=
  default (mkQ 0 0 true) (rl !! name).

Definition resolveResourceFieldRef (c : Container) (ref : ResourceFieldSelector) : result PodError string :=
  let divisor := if q_IsZero (rf_Divisor ref) then mkQ 1000 1 false else rf_Divisor ref in
  let r := rf_Resource ref in
  if String.eqb r "limits.cpu" then Ok (divideCPU (quantity_of (c_Limits c) "cpu") divisor)
  else if String.eqb r "requests.cpu" then Ok (divideCPU (quantity_of (c_Requests c) "cpu") divisor)
  else if String.eqb r "limits.memory" then Ok (divideBytes (quantity_of (c_Limits c) "memory") divisor)
  else if String.eqb r "requests.memory" then Ok (divideBytes (quantity_of (c_Requests c) "memory") divisor)
  else if String.eqb r "limits.ephemeral-storage" then
    Ok (divideBytes (quantity_of (c_Limits c) "ephemeral-storage") divisor)
  else if String.eqb r "requests.ephemeral-storage" then
    Ok (divideBytes (quantity_of (c_Requests c) "ephemeral-storage") divisor)
  else Err (EResourceFieldRef r).

Definition resolveDownwardField (pod : Pod) (c : Container) (src : EnvVarSource) : result PodError string :=
  match ev_FieldRef src, ev_ResourceFieldRef src with
  | Some path, _ => resolveFieldRef pod path
  | None, Some ref => resolveResourceFieldRef c ref
  | None, None => Err ENoFieldRef
  end.

(** ** Variable references *)

Definition dollar : ascii := ch 36.
Definition Dollar : string := String dollar "".

(** The byte loop, with the bytes already consumed by the previous iteration
    skipped. *)
Fixpoint expand_go (vars : gmap string string) (skip : nat) (s : string) : string :=
  match s with
  | EmptyString => ""
  | String a r =>
      match skip with
      | S k => expand_go vars k r
      | O =>
          if negb (Ascii.eqb a dollar) then String a (expand_go vars 0 r)
          else match r with
          | EmptyString => Dollar
          | String b r' =>
              if Ascii.eqb b dollar then String dollar (expand_go vars 1 r)
              else if Ascii.eqb b (ch 40) then
                match cut_on (ch 41) r' with
                | None => String dollar (expand_go vars 0 r)
                | Some (name, _) =>
                    match vars !! name with Some v => v | None => "$(" +:+ name +:+ ")" end
                    +:+ expand_go vars (String.length name + 2) r
                end
              else String dollar (expand_go vars 0 r)
          end
      end
  end.

Definition expandEnv (value : string) (vars : gmap string string) : string :=
  if ContainsByte dollar value then expand_go vars 0 value else value.

(** ** The environment *)

Definition env_start (a : ascii) : bool :=
  let n := c2n a in
  ((n =? 95) || (65 <=? n) && (n <=? 90) || (97 <=? n) && (n <=? 122))%N.

Definition env_rest (a : ascii) : bool :=
  let n := c2n a in env_start a || ((48 <=? n) && (n <=? 57))%N.

Definition isEnvVarName (s : string) : bool :=
  match s with EmptyString => false | String a r => env_start a && s_forall env_rest r end.

Definition addEnvFromKey (prefix : string) (data : gmap string string) (env : gmap string string)
    (key : string) : gmap string string :=
  let name := prefix +:+ key in
  if isEnvVarName name then <[name := default "" (data !! key)]> env else env.

Section resolve.
Context (pod : Pod) (c : Container) (cms : ConfigMapGetter) (secrets : SecretGetter).

Definition env_from (env : gmap string string) (ef : EnvFromSource)
    : result PodError (gmap string string) :=
  match ef_ConfigMapRef ef, ef_SecretRef ef with
  | Some ref, _ =>
      cm <-- getConfigMap cms (pod_Namespace pod) (or_Name ref) (is_true (or_Optional ref));
      Ok (match cm with
          | None => env
          | Some cm => foldl (addEnvFromKey (ef_Prefix ef) (cm_Data cm)) env (sortedKeys (cm_Data cm))
          end)
  | None, Some ref =>
      sec <-- loadSecret secrets (pod_Namespace pod) (or_Name ref) (is_true (or_Optional ref));
      Ok (match sec with
          | None => env
          | Some sec => foldl (addEnvFromKey (ef_Prefix ef) (sec_Data sec)) env (sortedKeys (sec_Data sec))
          end)
  | None, None => Ok env
  end.

Definition env_explicit (env : gmap string string) (e : EnvVar)
    : result PodError (gmap string string) :=
  match e_ValueFrom e with
  | None => Ok (<[e_Name e := expandEnv (e_Value e) env]> env)
  | Some src =>
      if is_some (ev_FieldRef src) || is_some (ev_ResourceFieldRef src) then
        match resolveDownwardField pod c src with
        | Ok v => Ok (<[e_Name e := v]> env)
        | Err err => Err (EEnv (e_Name e) err)
        end
      else match ev_ConfigMapKeyRef src, ev_SecretKeyRef src with
      | Some ref, _ =>
          let optional := is_true (kr_Optional ref) in
          cm <-- getConfigMap cms (pod_Namespace pod) (kr_Name ref) optional;
          match cm with
          | None => Ok env
          | Some cm =>
              match cm_Data cm !! kr_Key ref with
              | Some v => Ok (<[e_Name e := v]> env)
              | None => if optional then Ok env else Err (EConfigPending (kr_Name ref))
              end
          end
      | None, Some ref =>
          let optional := is_true (kr_Optional ref) in
          sec <-- loadSecret secrets (pod_Namespace pod) (kr_Name ref) optional;
          match sec with
          | None => Ok env
          | Some sec =>
              match sec_Data sec !! kr_Key ref with
              | Some v => Ok (<[e_Name e := v]> env)
              | None => if optional then Ok env else Err (ESecretUnavailable (kr_Name ref))
              end
          end
      | None, None => Ok env
      end
  end.

Fixpoint fold_env {A} (f : gmap string string → A → result PodError (gmap string string))
    (env : gmap string string) (l : list A) : result PodError (gmap string string) :=
  match l with
  | [] => Ok env
  | x :: l' => env' <-- f env x; fold_env f env' l'
  end.

(** [None] when there is nothing to set. *)
Definition resolveEnv : result PodError (option (gmap string string)) :=
  env <-- fold_env env_from ∅ (c_EnvFrom c);
  env <-- fold_env env_explicit env (c_Env c);
  Ok (if bool_decide (env = ∅) then None else Some env).
End resolve.

(** ** Pull credentials *)

Record RegistryAuth := mkAuth { ra_Server : string; ra_Username : string; ra_Password : string }.
Record dockerAuthEntry := mkEntry { da_Username : string; da_Password : string; da_Auth : string }.

Definition defaultRegistryHost : string := "docker.io".
Definition DockerConfigJsonKey : string := ".dockerconfigjson".
Definition DockerConfigKey : string := ".dockercfg".

Definition registryHost (image : string) : string :=
  match cut_on (ch 47) image with
  | None => defaultRegistryHost
  | Some (first, _) =>
      if String.eqb first "localhost" || ContainsByte (ch 46) first || ContainsByte (ch 58) first
      then first else defaultRegistryHost
  end.

(** Everything after the first ["://"]. *)
Fixpoint after_scheme (s : string) : option string :=
  if HasPrefix s "://" then Some (drop 3 s)
  else match s with EmptyString => None | String _ r => after_scheme r end.

Definition normalizeRegistryKey (key : string) : string :=
  let k := default key (after_scheme key) in
  match cut_on (ch 47) k with Some (h, _) => h | None => k end.

Definition isDockerHub (host : string) : bool :=
  String.eqb host "docker.io" || String.eqb host "index.docker.io" || String.eqb host "registry-1.docker.io".

Definition registryMatches (host key : string) : bool :=
  String.eqb host key || isDockerHub host && isDockerHub key.

Fixpoint string_of_bytes (l : list Z) : string :=
  match l with [] => "" | b :: l' => String (ch (Z.to_N b)) (string_of_bytes l') end.

(** [None] is an entry that holds no usable credential. *)
Definition credentials (e : dockerAuthEntry) : option (string * string) :=
  if negb (String.eqb (da_Username e) "") || negb (String.eqb (da_Password e) "")
  then Some (da_Username e, da_Password e)
  else if negb (String.eqb (da_Auth e) "") then
    match DecodeString (TrimSpace (da_Auth e)) with
    | Some bs => cut_on (ch 58) (string_of_bytes bs)
    | None => None
    end
  else None.

Section pull.
Context `{MapRange}.
(** The ["auths"] object of a dockerconfigjson file, or a whole legacy
    dockercfg file. *)
Context (json_auths : bool → string → option (gmap string dockerAuthEntry)).

Definition parsePullSecret (sec : Secret) : option (gmap string dockerAuthEntry) :=
  let entries legacy data :=
    match json_auths legacy data with
    | Some auths => if bool_decide (auths = ∅) then None else Some auths
    | None => None
    end in
  match sec_Data sec !! DockerConfigJsonKey with
  | Some data => entries false data
  | None =>
      match sec_Data sec !! DockerConfigKey with
      | Some data => entries true data
      | None => None
      end
  end.

Fixpoint first_match (host : string) (l : list (string * dockerAuthEntry))
    : result string (option RegistryAuth) :=
  match l with
  | [] => Ok None
  | (key, entry) :: l' =>
      if registryMatches host (normalizeRegistryKey key) then
        match credentials entry with
        | Some (user, pass) => Ok (Some (mkAuth host user pass))
        | None => Err key
        end
      else first_match host l'
  end.

Definition credentialsFor (auths : gmap string dockerAuthEntry) (host : string)
    : result string (option RegistryAuth) := first_match host (range auths).

Fixpoint pull_loop (getter : SecretGetter) (ns host : string) (refs : list string)
    : result PodError (option RegistryAuth) :=
  match refs with
  | [] => Ok None
  | name :: refs' =>
      if String.eqb name "" then pull_loop getter ns host refs'
      else
        sec <-- loadSecret getter ns name false;
        match sec ≫= parsePullSecret with
        | None => Err (EPullSecret name "parse")
        | Some auths =>
            match credentialsFor auths host with
            | Err key => Err (EPullSecret name key)
            | Ok (Some auth) => Ok (Some auth)
            | Ok None => pull_loop getter ns host refs'
            end
        end
  end.

Definition resolvePullAuth (getter : SecretGetter) (pod : Pod) (image : string)
    : result PodError (option RegistryAuth) :=
  pull_loop getter (pod_Namespace pod) (registryHost image) (pod_ImagePullSecrets pod).
End pull.

(** ** Properties *)

(** Doubling every [$] is the escape that [expandEnv] removes. *)
Fixpoint escape (s : string) : string :=
  match s with
  | EmptyString => ""
  | String a r => if Ascii.eqb a dollar then String dollar (String dollar (escape r)) else String a (escape r)
  end.

Lemma expand_go_escape vars s : expand_go vars 0 (escape s) = s.
Proof.
  induction s as [|a s IH]; [done|]. simpl.
  destruct (Ascii.eqb a dollar) eqn:E.
  - apply Ascii.eqb_eq in E as ->. cbn [expand_go]. rewrite Ascii.eqb_refl. cbn [negb]. by rewrite IH.
  - cbn [expand_go]. rewrite E. cbn [negb]. by rewrite IH.
Qed.

Lemma expandEnv_escape vars s : expandEnv (escape s) vars = s.
Proof.
  unfold expandEnv. destruct (ContainsByte dollar (escape s)) eqn:E; [apply expand_go_escape|].
  induction s as [|a s IH]; [done|]. simpl in *. destruct (Ascii.eqb a dollar) eqn:Ea.
  - done.
  - simpl in E. rewrite Ea in E. by rewrite IH.
Qed.

Lemma fold_env_app {A} (f : gmap string string → A → result PodError (gmap string string)) env l k :
  fold_env f env (l ++ k) = (env' <-- fold_env f env l; fold_env f env' k).
Proof. revert env. induction l as [|x l IH]; intros env; simpl; [done|]. by destruct (f env x). Qed.

(** An entry sets at most the variable it names. *)
Lemma env_explicit_other pod c cms secrets env e env' name :
  env_explicit pod c cms secrets env e = Ok env' → name ≠ e_Name e → env' !! name = env !! name.
Proof.
  intros H Hn. unfold env_explicit in H.
  repeat (case_match; simplify_eq/=; try done); by rewrite lookup_insert_ne by done.
Qed.

Lemma env_explicit_others pod c cms secrets l env env' name :
  fold_env (env_explicit pod c cms secrets) env l = Ok env' →
  Forall (λ e, name ≠ e_Name e) l → env' !! name = env !! name.
Proof.
  revert env. induction l as [|e l IH]; intros env H Hl; simplify_eq/=; [done|].
  apply Forall_cons in Hl as [He Hl]. destruct (env_explicit _ _ _ _ env e) as [env1|] eqn:E; [|done].
  rewrite (IH _ H Hl). by eapply env_explicit_other.
Qed.

(** A literal environment variable reaches the workload exactly.  Whatever
    ConfigMaps, Secrets, Downward API fields and other variables the container
    declares, the last entry that names a variable decides it, and a literal
    value written with every dollar sign doubled arrives as the original text:
    no [$(VAR)] reference inside it is substituted. *)
Theorem literal_env_exact pod c cms secrets l1 e l2 v env :
  c_Env c = l1 ++ e :: l2 → e_ValueFrom e = None → e_Value e = escape v →
  Forall (λ e', e_Name e ≠ e_Name e') l2 →
  resolveEnv pod c cms secrets = Ok env →
  ∃ m, env = Some m ∧ m !! e_Name e = Some v.
Proof.
  intros Hc Hlit Hv Hl2 H. unfold resolveEnv in H. rewrite Hc in H.
  destruct (fold_env _ ∅ _) as [env0|]; [|done].
  rewrite fold_env_app in H. destruct (fold_env _ env0 l1) as [env1|]; [|done].
  cbn [fold_env] in H. unfold env_explicit at 1 in H. rewrite Hlit, Hv, expandEnv_escape in H.
  destruct (fold_env _ _ l2) as [m|] eqn:E; [|done]. simplify_eq.
  apply (env_explicit_others _ _ _ _ _ _ _ (e_Name e)) in E; [|done]. rewrite lookup_insert_eq in E.
  exists m. split; [|done]. case_bool_decide; [|done]. by subst.
Qed.

Definition bare_container (name : string) (env : list EnvVar) (from : list EnvFromSource) : Container :=
  mkContainer name "img" [] [] env from ∅ ∅ None [] [] None None None.

Definition bare_pod (ns name : string) (cs : list Container) : Pod :=
  mkPod ns name "uid-1" ∅ ∅ "node" "" cs [] [] "Always" false false false None [] [] "" None None.

Definition one_configmap : ConfigMapGetter :=
  Some (λ _ _, Ok (mkCM (<["PRICE" := "free"]> (<["9BAD" := "x"]> ∅)) ∅)).

Definition priced : Container :=
  bare_container "web"
    [mkEnv "HOST" "db" None; mkEnv "URL" "http://$(HOST)/$(NONE)" None; mkEnv "PRICE" "$$(HOST) costs $$5" None]
    [mkEnvFrom "" (Some (mkObjRef "cm" None)) None].

Lemma literal_env_exact_witness :
  ∃ m, resolveEnv (bare_pod "ns" "p" [priced]) priced one_configmap None = Ok (Some m) ∧
       m !! "PRICE" = Some "$(HOST) costs $5" ∧ m !! "URL" = Some "http://db/$(NONE)" ∧ m !! "9BAD" = None.
Proof.
  destruct (literal_env_exact (bare_pod "ns" "p" [priced]) priced one_configmap None
    [mkEnv "HOST" "db" None; mkEnv "URL" "http://$(HOST)/$(NONE)" None]
    (mkEnv "PRICE" "$$(HOST) costs $$5" None) [] "$(HOST) costs $5"
    (match resolveEnv (bare_pod "ns" "p" [priced]) priced one_configmap None with Ok o => o | Err _ => None end)
    eq_refl eq_refl eq_refl (Forall_nil_2 _) ltac:(vm_compute; reflexivity)) as (m & Hm & HP).
  exists m. revert Hm. vm_compute. intros ?. simplify_eq. vm_compute. done.
Defined.
