(* ===== verification/Volumes.v ===== *)
(** * Volumes: [pkg/provider] volumes.go and the volume halves of configmap.go,
      secrets.go and projected.go

    A Pod's volumes become mounts of the micro-VM, backing directories and
    files to materialise on the host.  The host paths come from Pod fields, so
    the point of this code is confinement: everything it creates lies under the
    node's volume root, and a hostPath under an allowed prefix. *)

From S2P Require Import Prelude GoStrings Filepath PodSpec PodEnv.

Open Scope Z_scope.

Record VolumePolicy := mkVolPolicy { vp_Root : string; vp_HostPathAllowedPrefixes : list string }.

Record fileToWrite := mkFile { f_path : string; f_mode : Z; f_data : string }.

Record resolvedVolumes := mkVols {
  rv_mounts : list Mount; rv_ephemeralDirs : list string; rv_configFiles : list fileToWrite;
}.

Record backing := mkBacking { bk_dir : string; bk_files : list fileToWrite }.

(** [nil] disables the token issuer; the arguments are the namespace, service
    account, audiences and requested lifetime. *)
Definition TokenRequester : Type :=
  option (string → string → Pod → list string → option Z → result string string).

(** [os.FileMode(int32) & os.ModePerm] *)
Definition file_mode (m : Z) : Z := Z.land (m mod 2 ^ 32) 511.
Definition defaultFileMode : Z := 420.
Definition mode_or (m : option Z) (d : Z) : Z := match m with Some x => file_mode x | None => d end.

(** ** Paths *)

Definition safeJoinUnderRoot (root : string) (elems : list string) : result PodError string :=
  let cleanRoot := Clean root in
  if negb (IsAbs cleanRoot) then Err (ERootNotAbs root)
  else
    let joined := Clean (JoinPath (cleanRoot :: elems)) in
    match Rel cleanRoot joined with
    | None => Err ERelPath
    | Some rel =>
        if String.eqb rel "." || String.eqb rel ".." || HasPrefix rel (".." +:+ Separator) || IsAbs rel
        then Err (EPathEscapes cleanRoot)
        else Ok joined
    end.

Definition safePodRoot (root podUID : string) : result PodError string :=
  if String.eqb root "" then Err ENoVolumeRoot
  else if String.eqb podUID "" then Err ENoPodUID
  else safeJoinUnderRoot root [podUID].

Definition safeVolumeDir (root podUID volumeName : string) : result PodError string :=
  if String.eqb volumeName "" then Err ENoVolumeName
  else podRoot <-- safePodRoot root podUID; safeJoinUnderRoot podRoot [volumeName].

Definition withinAllowedPrefix (clean : string) (prefixes : list string) : bool :=
  existsb (λ p, let p := Clean p in String.eqb clean p || HasPrefix clean (p +:+ Separator)) prefixes.

(** ** Files of a volume *)

(** The [add] closure: one file below [dir], slashes of the relative path
    opening subdirectories. *)
Definition add_file (dir rel data : string) (mode : Z) : result PodError fileToWrite :=
  dest <-- safeJoinUnderRoot dir (split_on sep rel); Ok (mkFile dest mode data).

(** The items of a ConfigMap or Secret source: a missing key is skipped when
    the source is optional and a retryable error otherwise. *)
Fixpoint item_files (dir : string) (mode : Z) (optional : bool) (missing : PodError)
    (keyData : string → option string) (items : list KeyToPath) : result PodError (list fileToWrite) :=
  match items with
  | [] => Ok []
  | it :: items' =>
      match keyData (it_Key it) with
      | None => if optional then item_files dir mode optional missing keyData items' else Err missing
      | Some data =>
          f <-- add_file dir (it_Path it) data (mode_or (it_Mode it) mode);
          fs <-- item_files dir mode optional missing keyData items';
          Ok (f :: fs)
      end
  end.

(** Without items, every key becomes a file of its name. *)
Definition key_files (dir : string) (mode : Z) (data : gmap string string) : result PodError (list fileToWrite) :=
  map_result (λ k, add_file dir k (default "" (data !! k)) mode) (sortedKeys data).

Definition cm_keyData (cm : ConfigMap) (key : string) : option string :=
  match cm_Data cm !! key with Some v => Some v | None => cm_BinaryData cm !! key end.

Definition configMapVolumeFiles (ns : string) (src : ObjVolumeSource) (dir : string) (cms : ConfigMapGetter)
    : result PodError (list fileToWrite) :=
  let optional := is_true (ov_Optional src) in
  let mode := mode_or (ov_DefaultMode src) defaultFileMode in
  cm <-- getConfigMap cms ns (ov_Name src) optional;
  match cm with
  | None => Ok []
  | Some cm =>
      match ov_Items src with
      | [] =>
          fs <-- key_files dir mode (cm_Data cm);
          gs <-- key_files dir mode (cm_BinaryData cm);
          Ok (fs ++ gs)
      | items => item_files dir mode optional (EConfigPending (ov_Name src)) (cm_keyData cm) items
      end
  end.

Definition secretVolumeFiles (ns : string) (src : ObjVolumeSource) (dir : string) (secrets : SecretGetter)
    : result PodError (list fileToWrite) :=
  let optional := is_true (ov_Optional src) in
  let mode := mode_or (ov_DefaultMode src) defaultFileMode in
  sec <-- loadSecret secrets ns (ov_Name src) optional;
  match sec with
  | None => Ok []
  | Some sec =>
      match ov_Items src with
      | [] => key_files dir mode (sec_Data sec)
      | items => item_files dir mode optional (ESecretUnavailable (ov_Name src)) (λ k, sec_Data sec !! k) items
      end
  end.

(** ** Projected volumes *)

Definition serviceAccountName (pod : Pod) : string :=
  if String.eqb (pod_ServiceAccountName pod) "" then "default" else pod_ServiceAccountName pod.

(** A projected ConfigMap without items yields the text keys only. *)
Definition projectedConfigMapFiles (ns name : string) (items : list KeyToPath) (opt : option bool)
    (dir : string) (mode : Z) (cms : ConfigMapGetter) : result PodError (list fileToWrite) :=
  let optional := is_true opt in
  cm <-- getConfigMap cms ns name optional;
  match cm with
  | None => Ok []
  | Some cm =>
      match items with
      | [] => key_files dir mode (cm_Data cm)
      | _ => item_files dir mode optional (EConfigPending name) (cm_keyData cm) items
      end
  end.

Definition projectedSecretFiles (ns name : string) (items : list KeyToPath) (opt : option bool)
    (dir : string) (mode : Z) (secrets : SecretGetter) : result PodError (list fileToWrite) :=
  let optional := is_true opt in
  sec <-- loadSecret secrets ns name optional;
  match sec with
  | None => Ok []
  | Some sec =>
      match items with
      | [] => key_files dir mode (sec_Data sec)
      | _ => item_files dir mode optional (ESecretUnavailable name) (λ k, sec_Data sec !! k) items
      end
  end.

(** An item is its path, its [fieldRef] when it has one, and its mode. *)
Definition projectedDownwardFiles (pod : Pod) (items : list (string * option string * option Z))
    (dir : string) (mode : Z) : result PodError (list fileToWrite) :=
  map_result (λ it, let '(path, field, m) := it in
    match field with
    | None => Err (EVolume path "downwardAPI item has no fieldRef")
    | Some fp => v <-- resolveFieldRef pod fp; add_file dir path v (mode_or m mode)
    end) items.

Definition source_files (pod : Pod) (dir : string) (mode : Z) (cms : ConfigMapGetter)
    (secrets : SecretGetter) (tokens : TokenRequester) (p : Projection) : result PodError (list fileToWrite) :=
  match p with
  | PToken audience expiration path =>
      match tokens with
      | None => Err ENoTokens
      | Some request =>
          let audiences := if String.eqb audience "" then [] else [audience] in
          match request (pod_Namespace pod) (serviceAccountName pod) pod audiences expiration with
          | Err t => Err (EConfigPending t)
          | Ok token => f <-- add_file dir path token mode; Ok [f]
          end
      end
  | PConfigMap name items opt => projectedConfigMapFiles (pod_Namespace pod) name items opt dir mode cms
  | PSecret name items opt => projectedSecretFiles (pod_Namespace pod) name items opt dir mode secrets
  | PDownward items => projectedDownwardFiles pod items dir mode
  | POther => Ok []
  end.

Definition projectedVolumeFiles (pod : Pod) (src : ProjectedVolumeSource) (dir : string)
    (cms : ConfigMapGetter) (secrets : SecretGetter) (tokens : TokenRequester)
    : result PodError (list fileToWrite) :=
  let mode := mode_or (pj_DefaultMode src) defaultFileMode in
  fs <-- map_result (source_files pod dir mode cms secrets tokens) (pj_Sources src);
  Ok (concat fs).

(** ** Volumes and mounts *)

Definition isDefaultProjectedToken (v : Volume) : bool :=
  HasPrefix (v_Name v) "kube-api-access-"
  || match v_Projected v with
     | Some p => existsb (λ s, match s with PToken _ _ _ => true | _ => false end) (pj_Sources p)
     | None => false
     end.

Definition hostPathType (hp : HostPathVolumeSource) : string := default "" (hp_Type hp).

Definition directory_type (t : string) : bool :=
  String.eqb t "" || String.eqb t "Directory" || String.eqb t "DirectoryOrCreate".

Definition validateHostPath (name : string) (hp : HostPathVolumeSource) (policy : VolumePolicy)
    : result PodError unit :=
  guard (IsAbs (hp_Path hp)) (EVolume name "path must be absolute") ;--
  guard (directory_type (hostPathType hp)) (EVolume name "type is not supported") ;--
  guard (withinAllowedPrefix (Clean (hp_Path hp)) (vp_HostPathAllowedPrefixes policy))
    (EVolume name "not within an allowed prefix").

Definition backed (name : string) (policy : VolumePolicy) : result PodError unit :=
  guard (negb (String.eqb (vp_Root policy) "")) (EVolume name "no volume root is configured") ;--
  guard (IsAbs (vp_Root policy)) (EVolume name "node.volumes.root is not absolute").

Definition validateVolumeSource (v : Volume) (policy : VolumePolicy) : result PodError unit :=
  match v_HostPath v with
  | Some hp =>
      guard (negb (bool_decide (vp_HostPathAllowedPrefixes policy = [])))
        (EVolume (v_Name v) "hostPath is disabled") ;--
      validateHostPath (v_Name v) hp policy
  | None =>
      if is_some (v_EmptyDir v) || is_some (v_ConfigMap v) || is_some (v_Secret v) || is_some (v_Projected v)
      then backed (v_Name v) policy
      else Err (EVolume (v_Name v) "unsupported source type")
  end.

Section mounts.
Context (pod : Pod) (policy : VolumePolicy).
Context (cms : ConfigMapGetter) (secrets : SecretGetter) (tokens : TokenRequester).

(** A per-Pod directory holding the given files, bound read-only. *)
Definition file_mount (vm : VolumeMount) (target : string)
    (files : string → result PodError (list fileToWrite)) : result PodError (Mount * backing) :=
  dir <-- safeVolumeDir (vp_Root policy) (pod_UID pod) (vm_Name vm);
  fs <-- files dir;
  Ok (mkMount dir target true false, mkBacking dir fs).

Definition resolveMount (vol : Volume) (vm : VolumeMount) : result PodError (Mount * backing) :=
  if negb (IsAbs (vm_MountPath vm)) then Err (EVolume (vm_Name vm) "mountPath must be absolute")
  else if negb (String.eqb (vm_SubPath vm) "") || negb (String.eqb (vm_SubPathExpr vm) "")
  then Err (EVolume (vm_Name vm) "subPath is not supported yet")
  else
    let target := Clean (vm_MountPath vm) in
    match v_HostPath vol, v_EmptyDir vol, v_ConfigMap vol, v_Secret vol, v_Projected vol with
    | Some hp, _, _, _, _ =>
        Ok (mkMount (Clean (hp_Path hp)) target (vm_ReadOnly vm) false, mkBacking "" [])
    | None, Some medium, _, _, _ =>
        if String.eqb medium "Memory" then Ok (mkMount "" target false true, mkBacking "" [])
        else
          dir <-- safeVolumeDir (vp_Root policy) (pod_UID pod) (vm_Name vm);
          Ok (mkMount dir target (vm_ReadOnly vm) false, mkBacking dir [])
    | None, None, Some src, _, _ =>
        file_mount vm target (λ dir, configMapVolumeFiles (pod_Namespace pod) src dir cms)
    | None, None, None, Some src, _ =>
        file_mount vm target (λ dir, secretVolumeFiles (pod_Namespace pod) src dir secrets)
    | None, None, None, None, Some src =>
        file_mount vm target (λ dir, projectedVolumeFiles pod src dir cms secrets tokens)
    | None, None, None, None, None => Err (EVolume (vm_Name vm) "unsupported source type")
    end.

(** The declared volumes by name; the tolerated token volume is left out. *)
Fixpoint volumes_by_name (byName : gmap string Volume) (l : list Volume)
    : result PodError (gmap string Volume) :=
  match l with
  | [] => Ok byName
  | v :: l' =>
      if isDefaultProjectedToken v && negb (is_some tokens) then volumes_by_name byName l'
      else validateVolumeSource v policy ;-- volumes_by_name (<[v_Name v := v]> byName) l'
  end.

Fixpoint mount_loop (byName : gmap string Volume) (l : list VolumeMount)
    : result PodError resolvedVolumes :=
  match l with
  | [] => Ok (mkVols [] [] [])
  | vm :: l' =>
      match byName !! vm_Name vm with
      | None => mount_loop byName l'
      | Some vol =>
          mb <-- resolveMount vol vm;
          out <-- mount_loop byName l';
          let '(m, b) := mb in
          Ok (mkVols (m :: rv_mounts out)
                (if String.eqb (bk_dir b) "" then rv_ephemeralDirs out else bk_dir b :: rv_ephemeralDirs out)
                (bk_files b ++ rv_configFiles out))
      end
  end.

Definition resolveVolumes : result PodError resolvedVolumes :=
  byName <-- volumes_by_name ∅ (pod_Volumes pod);
  match pod_Containers pod with
  | [] => Ok (mkVols [] [] [])
  | c :: _ => mount_loop byName (c_VolumeMounts c)
  end.
End mounts.

(** ** Confinement *)

Lemma Join_abs x l : IsAbs x = true → IsAbs (Join (x :: l) Separator) = true.
Proof.
  intros Hx. apply HasPrefix_spec in Hx as [t ->].
  destruct l; [apply HasPrefix_app|]. cbn [Join]. rewrite sapp_assoc. apply HasPrefix_app.
Qed.

Lemma safeJoin_below root elems p :
  safeJoinUnderRoot root elems = Ok p → IsAbs root = true ∧ below root p ∧ Clean p = p.
Proof.
  unfold safeJoinUnderRoot. rewrite IsAbs_Clean. destruct (IsAbs root) eqn:Hr; [|done]. cbn [negb].
  destruct (comps_Clean root Hr) as [Ec Ha].
  assert (IsAbs (JoinPath (Clean root :: elems)) = true) as Hj.
  { cbn [JoinPath]. destruct (String.eqb (Clean root) "") eqn:E; [bools; by rewrite E in Ha|].
    rewrite IsAbs_Clean. by apply Join_abs. }
  destruct (comps_Clean _ Hj) as [Ej Haj]. set (j := JoinPath _) in *. clearbody j.
  destruct (Rel (Clean root) (Clean j)) as [rel|] eqn:ER; [|done].
  destruct (String.eqb rel "." || _ || _ || _) eqn:E; intros; simplify_eq. bools.
  split; [done|]. split; [|by apply Clean_idem].
  destruct (Rel_abs _ _ _ Ha Haj ER) as [[-> _]|[[->|HP]|(rest & Hn & Hc & Et & _)]]; try congruence.
  split; [done|]. exists rest. by rewrite Et, Ec.
Qed.

Lemma safePodRoot_below root uid p : safePodRoot root uid = Ok p → below root p.
Proof. unfold safePodRoot. intros H. repeat case_match; simplify_eq. by eapply safeJoin_below. Qed.

(** The per-Pod directory: every volume directory lies strictly below it. *)
Lemma safeVolumeDir_below root uid name d :
  safeVolumeDir root uid name = Ok d →
  d ≠ "" ∧ ∃ podRoot, safePodRoot root uid = Ok podRoot ∧ below root podRoot ∧ below podRoot d.
Proof.
  unfold safeVolumeDir. destruct (String.eqb name ""); [done|].
  destruct (safePodRoot root uid) as [podRoot|] eqn:E; [|done]. intros H.
  destruct (safeJoin_below _ _ _ H) as (_ & Hb & _). split.
  - destruct Hb as [Ha _]. by intros ->.
  - exists podRoot. split_and!; [done|by eapply safePodRoot_below|done].
Qed.

(** A materialised file: below its directory, with permission bits only. *)
Definition file_in (dir : string) (f : fileToWrite) : Prop :=
  below dir (f_path f) ∧ 0 ≤ f_mode f ≤ 511.

Lemma file_mode_bounds m : 0 ≤ file_mode m ≤ 511.
Proof.
  unfold file_mode. change 511 with (Z.ones 9). rewrite Z.land_ones by lia.
  change (Z.ones 9) with 511. pose proof (Z.mod_pos_bound (m mod 2 ^ 32) (2 ^ 9)). lia.
Qed.

Lemma mode_or_bounds m d : 0 ≤ d ≤ 511 → 0 ≤ mode_or m d ≤ 511.
Proof. destruct m; simpl; [intros _; apply file_mode_bounds|done]. Qed.

#[local] Hint Resolve mode_or_bounds : core.

Lemma add_file_in dir rel data mode f :
  0 ≤ mode ≤ 511 → add_file dir rel data mode = Ok f → file_in dir f.
Proof.
  unfold add_file. intros Hm H. destruct (safeJoinUnderRoot _ _) eqn:E; simplify_eq.
  split; [by eapply safeJoin_below|done].
Qed.

Lemma item_files_in dir mode optional missing kd items fs :
  0 ≤ mode ≤ 511 → item_files dir mode optional missing kd items = Ok fs → Forall (file_in dir) fs.
Proof.
  intros Hm. revert fs. induction items as [|it items IH]; intros fs H; simplify_eq/=; [done|].
  destruct (kd (it_Key it)); [|by destruct optional; [apply IH|]].
  destruct (add_file _ _ _ _) eqn:E; [|done]. destruct (item_files _ _ _ _ _ items); simplify_eq.
  constructor; [eapply add_file_in; [|done]; auto|by apply IH].
Qed.

Lemma map_result_Forall {E A B} (f : A → result E B) (P : B → Prop) l k :
  (∀ x y, f x = Ok y → P y) → map_result f l = Ok k → Forall P k.
Proof.
  intros Hf H. apply map_result_Ok in H. induction H; constructor; eauto.
Qed.

Lemma key_files_in dir mode data fs :
  0 ≤ mode ≤ 511 → key_files dir mode data = Ok fs → Forall (file_in dir) fs.
Proof. intros Hm. apply map_result_Forall. intros k f. by apply add_file_in. Qed.

#[local] Hint Resolve item_files_in key_files_in : core.

Lemma default_mode_bounds : 0 ≤ defaultFileMode ≤ 511.
Proof. by unfold defaultFileMode. Qed.

#[local] Hint Resolve default_mode_bounds : core.

Lemma configMapVolumeFiles_in ns src dir cms fs :
  configMapVolumeFiles ns src dir cms = Ok fs → Forall (file_in dir) fs.
Proof.
  unfold configMapVolumeFiles. intros H. destruct (getConfigMap _ _ _ _) as [[cm|]|]; simplify_eq; [|done].
  destruct (ov_Items src); [|by eauto].
  destruct (key_files _ _ (cm_Data cm)) eqn:E1; [|done].
  destruct (key_files _ _ (cm_BinaryData cm)) eqn:E2; simplify_eq. apply Forall_app; split; eauto.
Qed.

Lemma secretVolumeFiles_in ns src dir secrets fs :
  secretVolumeFiles ns src dir secrets = Ok fs → Forall (file_in dir) fs.
Proof.
  unfold secretVolumeFiles. intros H. destruct (loadSecret _ _ _ _) as [[sec|]|]; simplify_eq; [|done].
  destruct (ov_Items src); eauto.
Qed.

Lemma source_files_in pod dir mode cms secrets tokens p fs :
  0 ≤ mode ≤ 511 → source_files pod dir mode cms secrets tokens p = Ok fs → Forall (file_in dir) fs.
Proof.
  intros Hm H. destruct p as [aud ex path|name items opt|name items opt|items|]; simpl in H.
  - destruct tokens as [req|]; [|done]. destruct (req _ _ _ _ _); [|done].
    destruct (add_file _ _ _ _) eqn:E; simplify_eq. by repeat constructor; eapply add_file_in.
  - unfold projectedConfigMapFiles in H. destruct (getConfigMap _ _ _ _) as [[cm|]|]; simplify_eq; [|done].
    destruct items; eauto.
  - unfold projectedSecretFiles in H. destruct (loadSecret _ _ _ _) as [[cm|]|]; simplify_eq; [|done].
    destruct items; eauto.
  - eapply map_result_Forall; [|exact H]. intros [[path field] m] f. destruct field; [|done].
    destruct (resolveFieldRef _ _); [|done]. apply add_file_in. auto.
  - by simplify_eq.
Qed.

Lemma projectedVolumeFiles_in pod src dir cms secrets tokens fs :
  projectedVolumeFiles pod src dir cms secrets tokens = Ok fs → Forall (file_in dir) fs.
Proof.
  unfold projectedVolumeFiles. intros H. destruct (map_result _ _) as [l|] eqn:E; simplify_eq.
  apply Forall_concat. eapply map_result_Forall; [|exact E].
  intros p k. apply source_files_in. auto.
Qed.

(** ** The hostPath allowlist *)

(** Prefix [p] admits path [q]: below it component by component.  The root
    directory as a prefix admits only itself, since no cleaned path starts
    with two separators. *)
Definition admits (q p : string) : Prop :=
  IsAbs p = true ∧ at_or_below p q ∧ (comps p = [] → comps q = []).

Lemma HasPrefix_trans_abs q p t : HasPrefix q (p +:+ t) = true → p ≠ "" → IsAbs q = IsAbs p.
Proof.
  intros [u ->]%HasPrefix_spec Hp. destruct p as [|a p]; [done|]. rewrite !sapp_cons.
  unfold IsAbs, Separator. cbn [HasPrefix].
  by destruct ((p +:+ t) +:+ u), p.
Qed.

Lemma Clean_nonempty p : Clean p ≠ "".
Proof.
  destruct (IsAbs p) eqn:Hp; [by rewrite Clean_abs|].
  unfold Clean, parse_path. rewrite Hp. unfold show_path.
  pose proof (foldl_push_piece (split_on sep p) [] (Forall_nil_2 _) (split_on_clean p)) as Hcs.
  apply Forall_rev in Hcs. destruct (rev _) as [|c [|d cs]]; [done| |]; apply Forall_cons in Hcs as [[Hc _] _].
  - done.
  - cbn [Join]. intros H. by apply sapp_eq_nil in H as [? _].
Qed.

Lemma no_double_root cs t : Forall comp cs → show_path true cs ≠ (Separator +:+ Separator) +:+ t.
Proof.
  intros Hcs E. destruct cs as [|c cs]; [done|]. apply Forall_cons in Hcs as [Hc _].
  assert (piece c) as Hp by (destruct Hc as (? & _ & _ & ?); done).
  assert (IsAbs (Join (c :: cs) Separator) = false) as Hf.
  { destruct cs as [|d cs]; [rewrite <- (sapp_nil_r c)|]; by apply IsAbs_piece. }
  unfold show_path in E. rewrite sapp_assoc in E. unfold Separator in E at 1 3. rewrite !sapp_cons in E.
  injection E as E. change (Join (c :: cs) Separator = Separator +:+ t) in E.
  unfold IsAbs in Hf. by rewrite E, HasPrefix_app in Hf.
Qed.

Lemma prefix_admits q p :
  IsAbs q = true →
  String.eqb (Clean q) (Clean p) || HasPrefix (Clean q) (Clean p +:+ Separator) = true ↔ admits q p.
Proof.
  intros Hq. pose proof (comps_comp q Hq) as Cq. rewrite orb_true_iff, String.eqb_eq. split.
  - intros H. assert (IsAbs p = true) as Hp.
    { rewrite <- IsAbs_Clean. destruct H as [H|H]; [by rewrite <- H, IsAbs_Clean|].
      rewrite <- (HasPrefix_trans_abs _ _ _ H (Clean_nonempty p)). by rewrite IsAbs_Clean. }
    pose proof (comps_comp p Hp) as Cp. rewrite !Clean_abs in H by done.
    destruct H as [H|[t H]%HasPrefix_spec].
    + apply show_inj in H; [|done..]. split_and!; [done| |congruence].
      split; [done|]. exists []. by rewrite app_nil_r.
    + rewrite sapp_assoc in H. destruct (decide (comps p = [])) as [Ep|Ep].
      { exfalso. apply (no_double_root (comps q) t Cq). by rewrite H, Ep. }
      destruct (show_prefix (comps p) (comps q) t) as [rest Hr]; [done..|].
      split_and!; [done| |done]. split; [done|]. exists rest. split; [|done].
      rewrite Hr in Cq. by apply Forall_app in Cq as [_ ?].
  - intros (Hp & (_ & rest & Cr & E) & Hroot). rewrite !Clean_abs by done.
    destruct rest as [|r rest]; [left; by rewrite E, app_nil_r|right].
    destruct (comps p) as [|x ps] eqn:Ep; [by rewrite Hroot in E|].
    apply HasPrefix_spec. exists (Join (r :: rest) Separator). rewrite E. unfold show_path.
    rewrite Join_app_sep by done. by rewrite !sapp_assoc.
Qed.

Lemma within_exact q prefixes :
  IsAbs q = true → withinAllowedPrefix (Clean q) prefixes = true ↔ ∃ p, p ∈ prefixes ∧ admits q p.
Proof.
  intros Hq. unfold withinAllowedPrefix. rewrite existsb_exists.
  split; intros (p & Hp & H); exists p; (split; [by apply list_elem_of_In|]); by apply prefix_admits.
Qed.

(** ** Whole Pods *)

(** Where a mount may come from: guest memory, a directory of this Pod, or a
    host path that the node's allowlist admits. *)
Definition mount_authorised (policy : VolumePolicy) (dirs : list string) (m : Mount) : Prop :=
  m_Tmpfs m = true ∨ m_Source m ∈ dirs ∨
  ∃ p, p ∈ vp_HostPathAllowedPrefixes policy ∧ admits (m_Source m) p.

Record vols_ok (policy : VolumePolicy) (uid : string) (rv : resolvedVolumes) : Prop := {
  vo_dirs : ∀ d, d ∈ rv_ephemeralDirs rv →
    ∃ podRoot, safePodRoot (vp_Root policy) uid = Ok podRoot ∧ below (vp_Root policy) podRoot ∧ below podRoot d;
  vo_files : ∀ f, f ∈ rv_configFiles rv → ∃ d, d ∈ rv_ephemeralDirs rv ∧ file_in d f;
  vo_mounts : ∀ m, m ∈ rv_mounts rv →
    IsAbs (m_Target m) = true ∧ mount_authorised policy (rv_ephemeralDirs rv) m;
}.

Definition vols_app (a b : resolvedVolumes) : resolvedVolumes :=
  mkVols (rv_mounts a ++ rv_mounts b) (rv_ephemeralDirs a ++ rv_ephemeralDirs b)
    (rv_configFiles a ++ rv_configFiles b).

Lemma mount_authorised_mono policy dirs dirs' m :
  dirs ⊆ dirs' → mount_authorised policy dirs m → mount_authorised policy dirs' m.
Proof. intros Hd [H|[H|H]]; [by left|right; left; by apply Hd|by right; right]. Qed.

Lemma vols_ok_app policy uid a b :
  vols_ok policy uid a → vols_ok policy uid b → vols_ok policy uid (vols_app a b).
Proof.
  intros [D1 F1 M1] [D2 F2 M2]. split; cbn.
  - intros d [H|H]%elem_of_app; auto.
  - intros f [H|H]%elem_of_app;
      [destruct (F1 f H) as (d & Hd & Hf)|destruct (F2 f H) as (d & Hd & Hf)];
      exists d; (split; [|done]); apply elem_of_app; auto.
  - intros m [H|H]%elem_of_app; [destruct (M1 m H)|destruct (M2 m H)]; (split; [done|]);
      (eapply mount_authorised_mono; [|done]); set_solver.
Qed.

Section whole.
Context (pod : Pod) (policy : VolumePolicy).
Context (cms : ConfigMapGetter) (secrets : SecretGetter) (tokens : TokenRequester).

Lemma volumes_by_name_valid l byName out :
  volumes_by_name policy tokens byName l = Ok out →
  map_Forall (λ _ v, validateVolumeSource v policy = Ok tt) byName →
  map_Forall (λ _ v, validateVolumeSource v policy = Ok tt) out.
Proof.
  revert byName. induction l as [|v l IH]; intros byName H Hb; simplify_eq/=; [done|].
  destruct (_ && _); [by eapply IH|].
  destruct (validateVolumeSource v policy) as [[]|] eqn:E; [|done].
  eapply IH; [done|]. by apply map_Forall_insert_2.
Qed.

Lemma validated_hostPath v hp :
  v_HostPath v = Some hp → validateVolumeSource v policy = Ok tt →
  ∃ p, p ∈ vp_HostPathAllowedPrefixes policy ∧ admits (Clean (hp_Path hp)) p.
Proof.
  intros Hv H. unfold validateVolumeSource in H. rewrite Hv in H.
  unfold guard in H. destruct (negb _); [|done].
  unfold validateHostPath, guard in H.
  destruct (IsAbs (hp_Path hp)) eqn:Ha; [|done]. destruct (directory_type _); [|done].
  destruct (withinAllowedPrefix _ _) eqn:Hw; [|done].
  rewrite <- (Clean_idem _ Ha) in Hw. apply within_exact in Hw; [done|]. by rewrite IsAbs_Clean.
Qed.

(** What one mount contributes. *)
Lemma resolveMount_ok vol vm m b :
  validateVolumeSource vol policy = Ok tt → resolveMount pod policy cms secrets tokens vol vm = Ok (m, b) →
  vols_ok policy (pod_UID pod)
    (mkVols [m] (if String.eqb (bk_dir b) "" then [] else [bk_dir b]) (bk_files b)).
Proof.
  intros Hv H. unfold resolveMount in H. destruct (IsAbs (vm_MountPath vm)) eqn:Ha; [|done].
  cbn [negb] in H. destruct (_ || _); [done|].
  assert (IsAbs (Clean (vm_MountPath vm)) = true) as Ht by by rewrite IsAbs_Clean.
  assert (∀ fl, (∀ dir fs, fl dir = Ok fs → Forall (file_in dir) fs) →
    file_mount pod policy vm (Clean (vm_MountPath vm)) fl = Ok (m, b) →
    vols_ok policy (pod_UID pod)
      (mkVols [m] (if String.eqb (bk_dir b) "" then [] else [bk_dir b]) (bk_files b))) as Hfm.
  { intros fl Hfl Hm. unfold file_mount in Hm. destruct (safeVolumeDir _ _ _) as [d|] eqn:Ed; [|done].
    destruct (fl d) as [fs|] eqn:Ef; [|done]. simplify_eq. cbn [bk_dir bk_files].
    destruct (safeVolumeDir_below _ _ _ _ Ed) as [Hd Hdd].
    rewrite (proj2 (String.eqb_neq _ _) Hd). split; cbn.
    - by intros ? ->%list_elem_of_singleton.
    - intros f Hf. exists d. split; [set_solver|]. by eapply (proj1 (Forall_forall _ _) (Hfl _ _ Ef)).
    - intros ? ->%list_elem_of_singleton. split; [done|]. right; left. set_solver. }
  destruct (v_HostPath vol) as [hp|] eqn:Eh; [|destruct (v_EmptyDir vol) as [med|]; [|
    destruct (v_ConfigMap vol) as [src|]; [|destruct (v_Secret vol) as [src|]; [|
    destruct (v_Projected vol) as [src|]; [|done]]]]].
  - simplify_eq. split; cbn; [set_solver|set_solver|]. intros ? ->%list_elem_of_singleton. split; [done|].
    right; right. by eapply validated_hostPath.
  - destruct (String.eqb med "Memory").
    + simplify_eq. split; cbn; [set_solver|set_solver|]. intros ? ->%list_elem_of_singleton.
      split; [done|]. by left.
    + destruct (safeVolumeDir _ _ _) as [d|] eqn:Ed; [|done]. simplify_eq. cbn [bk_dir bk_files].
      destruct (safeVolumeDir_below _ _ _ _ Ed) as [Hd Hdd].
      rewrite (proj2 (String.eqb_neq _ _) Hd). split; cbn; [by intros ? ->%list_elem_of_singleton|set_solver|].
      intros ? ->%list_elem_of_singleton. split; [done|]. right; left. set_solver.
  - eapply Hfm; [|exact H]. intros dir fs Hfs. exact (configMapVolumeFiles_in _ _ _ _ _ Hfs).
  - eapply Hfm; [|exact H]. intros dir fs Hfs. exact (secretVolumeFiles_in _ _ _ _ _ Hfs).
  - eapply Hfm; [|exact H]. intros dir fs Hfs. exact (projectedVolumeFiles_in _ _ _ _ _ _ _ Hfs).
Qed.

Lemma mount_loop_ok byName l rv :
  map_Forall (λ _ v, validateVolumeSource v policy = Ok tt) byName →
  mount_loop pod policy cms secrets tokens byName l = Ok rv → vols_ok policy (pod_UID pod) rv.
Proof.
  intros Hb. revert rv. induction l as [|vm l IH]; intros rv H; simplify_eq/=.
  { split; set_solver. }
  destruct (byName !! vm_Name vm) as [vol|] eqn:Ev; [|by apply IH].
  destruct (resolveMount _ _ _ _ _ vol vm) as [[m b]|] eqn:Em; [|done].
  destruct (mount_loop _ _ _ _ _ byName l) as [out|]; [|done]. simplify_eq.
  apply resolveMount_ok in Em; [|by eapply Hb].
  assert ((if String.eqb (bk_dir b) "" then rv_ephemeralDirs out else bk_dir b :: rv_ephemeralDirs out) =
    (if String.eqb (bk_dir b) "" then [] else [bk_dir b]) ++ rv_ephemeralDirs out) as ->
    by by destruct (String.eqb _ _).
  exact (vols_ok_app _ _ (mkVols [m] _ _) out Em (IH out eq_refl)).
Qed.
End whole.

Lemma resolveVolumes_ok pod policy cms secrets tokens rv :
  resolveVolumes pod policy cms secrets tokens = Ok rv → vols_ok policy (pod_UID pod) rv.
Proof.
  intros H. unfold resolveVolumes in H. destruct (volumes_by_name _ _ _ _) as [byName|] eqn:E; [|done].
  apply volumes_by_name_valid in E; [|apply map_Forall_empty].
  destruct (pod_Containers pod); simplify_eq; [split; set_solver|]. by eapply mount_loop_ok.
Qed.

Lemma safePodRoot_comps root uid p :
  comp uid → safePodRoot root uid = Ok p → comps p = comps root ++ [uid].
Proof.
  intros Hu H. unfold safePodRoot in H. destruct (String.eqb root ""), (String.eqb uid ""); try done.
  unfold safeJoinUnderRoot in H. rewrite IsAbs_Clean in H. destruct (IsAbs root) eqn:Hr; [|done].
  cbn [negb] in H. destruct (comps_Clean root Hr) as [Ec Ha].
  destruct (Rel _ _); [|done]. destruct (_ || _ || _ || _); [done|]. simplify_eq.
  cbn [JoinPath]. rewrite (proj2 (String.eqb_neq _ _) (Clean_nonempty root)).
  change (Join [Clean root; uid] Separator) with (Clean root +:+ Separator +:+ uid).
  destruct (comps_app (Clean root) uid Ha) as [Hj Ej].
  rewrite Clean_idem by done. destruct (comps_Clean _ Hj) as [-> _]. rewrite Ej, Ec.
  destruct Hu as (U1 & U2 & U3 & U4). rewrite split_on_none by done. cbn [foldl].
  rewrite push_comp by done. cbn [rev]. by rewrite rev_involutive.
Qed.

(** C6: everything a Pod's volumes make the node create or share is confined.
    Each backing directory lies strictly below the Pod's own directory, which
    lies strictly below the volume root; each materialised file lies strictly
    below one of those directories and has permission bits only; each mount
    has an absolute target and comes from guest memory, from one of those
    directories, or from a host path the allowlist admits.  This holds for
    every ConfigMap key, Secret key, projected path, UID and volume name, ".."
    and absolute spellings included. *)
Theorem volumes_confined pod policy cms secrets tokens rv
    (H : resolveVolumes pod policy cms secrets tokens = Ok rv) :
  vols_ok policy (pod_UID pod) rv.
Proof. by eapply resolveVolumes_ok. Qed.

Definition ex_policy : VolumePolicy := mkVolPolicy "/var/lib//macvz/./volumes" ["/data/"; "/"].

Definition ex_volumes : list Volume :=
  [mkVolume "conf" None None (Some (mkObjVol "app" [mkItem "a.yaml" "sub/../a.yaml" (Some 33279)] None None)) None None;
   mkVolume "scratch" None (Some "") None None None;
   mkVolume "shared" (Some (mkHostPath "/data/x/../pool" None)) None None None None].

Definition ex_mounts : list VolumeMount :=
  [mkVM "conf" "/etc/app" false "" ""; mkVM "scratch" "/tmp/" false "" ""; mkVM "shared" "/mnt" true "" ""].

Definition volume_pod (uid : string) (vols : list Volume) (mounts : list VolumeMount) : Pod :=
  mkPod "ns" "p" uid ∅ ∅ "node" ""
    [mkContainer "web" "img" [] [] [] [] ∅ ∅ None mounts [] None None None]
    [] [] "Always" false false false None vols [] "" None None.

Definition app_configmap : ConfigMapGetter :=
  Some (λ _ _, Ok (mkCM (<["a.yaml" := "x: 1"]> ∅) ∅)).

Definition ex_resolved (uid : string) : result PodError resolvedVolumes :=
  resolveVolumes (volume_pod uid ex_volumes ex_mounts) ex_policy app_configmap None None.

Definition ex_rv : resolvedVolumes :=
  mkVols
    [mkMount "/var/lib/macvz/volumes/uid-1/conf" "/etc/app" true false;
     mkMount "/var/lib/macvz/volumes/uid-1/scratch" "/tmp" false false;
     mkMount "/data/pool" "/mnt" true false]
    ["/var/lib/macvz/volumes/uid-1/conf"; "/var/lib/macvz/volumes/uid-1/scratch"]
    [mkFile "/var/lib/macvz/volumes/uid-1/conf/a.yaml" 511 "x: 1"].

Lemma volumes_confined_witness :
  ex_resolved "uid-1" = Ok ex_rv ∧ vols_ok ex_policy "uid-1" ex_rv ∧
  is_ok (resolveVolumes
    (volume_pod "uid-1"
       [mkVolume "conf" None None (Some (mkObjVol "app" [mkItem "a.yaml" "../../x" None] None None)) None None]
       ex_mounts) ex_policy app_configmap None None) = false.
Proof.
  split_and!; [vm_compute; reflexivity| |vm_compute; reflexivity].
  apply (volumes_confined (volume_pod "uid-1" ex_volumes ex_mounts) ex_policy app_configmap None None ex_rv).
  vm_compute. reflexivity.
Defined.

(** The storage of different Pods is disjoint.  When two Pods of a node
    have different UIDs, no directory or file of the first lies at or below
    the directory that deleting the second removes. *)
Theorem pod_storage_disjoint pod1 pod2 policy cms secrets tokens rv podRoot2 path
    (Hrv : resolveVolumes pod1 policy cms secrets tokens = Ok rv)
    (Hroot : safePodRoot (vp_Root policy) (pod_UID pod2) = Ok podRoot2)
    (H1 : comp (pod_UID pod1)) (H2 : comp (pod_UID pod2)) (Hne : pod_UID pod1 ≠ pod_UID pod2)
    (Hpath : path ∈ rv_ephemeralDirs rv ∨ path ∈ f_path <$> rv_configFiles rv) :
  ~ at_or_below podRoot2 path.
Proof.
  destruct (resolveVolumes_ok _ _ _ _ _ _ Hrv) as [D F _].
  assert (∃ podRoot1, safePodRoot (vp_Root policy) (pod_UID pod1) = Ok podRoot1 ∧ below podRoot1 path) as (r1 & E1 & B1).
  { destruct Hpath as [Hd|Hf].
    - destruct (D _ Hd) as (r & Hr & _ & Hb). by exists r.
    - apply list_elem_of_fmap in Hf as (f & -> & Hf). destruct (F f Hf) as (d & Hd & [Hb _]).
      destruct (D _ Hd) as (r & Hr & _ & Hrb). exists r. split; [done|by eapply below_trans]. }
  intros (_ & rest2 & _ & E2). destruct B1 as (_ & rest1 & _ & _ & E). rewrite E in E2.
  apply safePodRoot_comps in E1, Hroot; [|done..]. rewrite E1, Hroot, <- !app_assoc in E2.
  apply app_inv_head in E2. by simplify_eq/=.
Qed.

Lemma pod_storage_disjoint_witness :
  ~ at_or_below "/var/lib/macvz/volumes/uid-2" "/var/lib/macvz/volumes/uid-1/conf/a.yaml".
Proof.
  apply (pod_storage_disjoint (volume_pod "uid-1" ex_volumes ex_mounts) (volume_pod "uid-2" [] [])
    ex_policy app_configmap None None ex_rv).
  - vm_compute. reflexivity.
  - vm_compute. reflexivity.
  - by apply (bool_decide_unpack _).
  - by apply (bool_decide_unpack _).
  - done.
  - right. cbn. set_solver.
Defined.

(** The hostPath allowlist is exact and aware of path components: an
    absolute path passes if and only if, after cleaning, an allowed absolute
    prefix is a component prefix of it, so [/data] admits [/data] and
    [/data/x] but neither [/database] nor [/data/../etc]; the prefix [/] admits
    the root directory alone, not the paths below it. *)
Theorem hostpath_allowlist_exact q prefixes (Hq : IsAbs q = true) :
  withinAllowedPrefix (Clean q) prefixes = true ↔
  ∃ p, p ∈ prefixes ∧ IsAbs p = true ∧ at_or_below p q ∧ (comps p = [] → comps q = []).
Proof. by apply within_exact. Qed.

Lemma hostpath_allowlist_exact_witness :
  withinAllowedPrefix (Clean "/data/x/../pool") ["/data/"; "/"] = true ∧
  withinAllowedPrefix (Clean "/database") ["/data/"; "/"] = false ∧
  withinAllowedPrefix (Clean "/data/../etc") ["/data/"; "/"] = false.
Proof.
  split_and!; [|by vm_compute..]. apply (hostpath_allowlist_exact "/data/x/../pool"); [done|].
  exists "/data/". split_and!; [set_solver|done| |done]. split; [done|]. exists ["pool"].
  split; [|done]. by repeat constructor.
Defined.
