(* ===== verification/Runtime.v ===== *)
(** * The runtime contract: [pkg/runtime]

    The interface between the provider and the host's container runtime.  A
    runtime acts on a world; what its clients rely on is the class [VmHost]:
    which micro-VMs exist, and how each operation may change that set.  [vm_sim]
    is an executable runtime that satisfies it, with scripted failures. *)

From S2P Require Import Prelude GoStrings Sha256 PodSpec WireGuard PodEnv.

Open Scope Z_scope.

Inductive Phase : Type := PhaseUnknown | PhaseCreated | PhaseRunning | PhaseStopped | PhaseFailed.

#[export] Instance Phase_eq_dec : EqDecision Phase.
Proof. solve_decision. Defined.

Record Status := mkStatus {
  st_ID : string; st_Phase : Phase; st_ExitCode : Z; st_Message : string; st_StartedAt : Z; st_IP : string;
}.

(** The sentinel an error wraps, when it wraps one, and its text. *)
Inductive RtKind : Type :=
  | ErrNotReady | ErrNotFound | ErrAlreadyExists | ErrNotRunning | ErrIncompatibleArch | ErrOther.

#[export] Instance RtKind_eq_dec : EqDecision RtKind.
Proof. solve_decision. Defined.

Record RtError := mkRtErr { re_kind : RtKind; re_text : string }.

Record Runtime (W : Type) := mkRuntime {
  rt_Pull : string → option RegistryAuth → W → W * result RtError unit;
  rt_Create : ContainerSpec → W → W * result RtError string;
  rt_Start : string → W → W * result RtError unit;
  rt_Stop : string → Z → W → W * result RtError unit;
  rt_Destroy : string → W → W * result RtError unit;
  rt_Status : string → W → W * result RtError Status;
  rt_List : W → W * result RtError (list Status);
}.
Arguments rt_Pull {W}. Arguments rt_Create {W}. Arguments rt_Start {W}. Arguments rt_Stop {W}.
Arguments rt_Destroy {W}. Arguments rt_Status {W}. Arguments rt_List {W}.

Definition is_not_found {A} (r : result RtError A) : bool :=
  match r with Err e => bool_decide (re_kind e = ErrNotFound) | Ok _ => false end.

(** [err != nil && !errors.Is(err, runtime.ErrNotFound)] *)
Definition hard_failure {A} (r : result RtError A) : bool :=
  match r with Err e => negb (bool_decide (re_kind e = ErrNotFound)) | Ok _ => false end.

(** What a client may rely on: the micro-VMs of the host by name.  Only Create
    adds one, the one it was asked for; only Destroy removes one, the one it
    was given, and when it reports success or not-found that one is gone. *)
Class VmHost {W} (RT : Runtime W) := {
  vms : W → gset string;
  vms_Pull : ∀ i a w, vms (rt_Pull RT i a w).1 = vms w;
  vms_Start : ∀ i w, vms (rt_Start RT i w).1 = vms w;
  vms_Stop : ∀ i t w, vms (rt_Stop RT i t w).1 = vms w;
  vms_Status : ∀ i w, vms (rt_Status RT i w).1 = vms w;
  vms_List : ∀ w, vms (rt_List RT w).1 = vms w;
  vms_Create : ∀ s w w' r, rt_Create RT s w = (w', r) →
    match r with Ok id => id = s_Name s ∧ vms w' = {[id]} ∪ vms w | Err _ => vms w' = vms w end;
  vms_Destroy : ∀ i w w' r, rt_Destroy RT i w = (w', r) →
    if hard_failure r then vms w' = vms w ∨ vms w' = vms w ∖ {[i]} else vms w' = vms w ∖ {[i]};
  vms_found : ∀ i w w' st, rt_Status RT i w = (w', Ok st) → st_ID st = i ∧ i ∈ vms w;
  vms_not_found : ∀ i w w' e, rt_Status RT i w = (w', Err e) → re_kind e = ErrNotFound → i ∉ vms w;
  vms_listed : ∀ w w' l, rt_List RT w = (w', Ok l) → list_to_set (st_ID <$> l) = vms w;
}.

(** ** An executable runtime

    Micro-VMs by name with their status, an address pool, and a script of
    failures: each mutating call consumes one entry. *)

Record VmSim := mkSim { sim_vms : gmap string Status; sim_next : Z; sim_faults : list (option RtKind) }.

Definition sim_fault (w : VmSim) : VmSim * option RtKind :=
  match sim_faults w with
  | [] => (w, None)
  | f :: fs => (mkSim (sim_vms w) (sim_next w) fs, f)
  end.

Definition with_vms (w : VmSim) (m : gmap string Status) : VmSim := mkSim m (sim_next w) (sim_faults w).

Definition sim_fail {A} (k : RtKind) : result RtError A := Err (mkRtErr k "container: failed").

Definition sim_create (s : ContainerSpec) (w0 : VmSim) : VmSim * result RtError string :=
  let '(w, f) := sim_fault w0 in
  match f with
  | Some k => (w, sim_fail k)
  | None =>
      let m := match sim_vms w !! s_Name s with
               | Some _ => sim_vms w
               | None => <[s_Name s := mkStatus (s_Name s) PhaseCreated 0 "" 0 ""]> (sim_vms w)
               end in
      (with_vms w m, Ok (s_Name s))
  end.

(** Booting takes the next address of the vmnet. *)
Definition sim_start (i : string) (w0 : VmSim) : VmSim * result RtError unit :=
  let '(w, f) := sim_fault w0 in
  match f, sim_vms w !! i with
  | Some k, _ => (w, sim_fail k)
  | None, None => (w, sim_fail ErrNotFound)
  | None, Some st =>
      let n := sim_next w in
      (mkSim (<[i := mkStatus (st_ID st) PhaseRunning 0 "" n ("192.168.64." +:+ Itoa n)]> (sim_vms w))
         (n + 1) (sim_faults w), Ok tt)
  end.

Definition sim_stop (i : string) (t : Z) (w0 : VmSim) : VmSim * result RtError unit :=
  let '(w, f) := sim_fault w0 in
  match f, sim_vms w !! i with
  | Some k, _ => (w, sim_fail k)
  | None, None => (w, Ok tt)
  | None, Some st =>
      (with_vms w (<[i := mkStatus (st_ID st) PhaseStopped 0 "" (st_StartedAt st) ""]> (sim_vms w)), Ok tt)
  end.

(** A scripted not-found is only reported for a name that does not exist. *)
Definition sim_destroy (i : string) (w0 : VmSim) : VmSim * result RtError unit :=
  let '(w, f) := sim_fault w0 in
  match f with
  | Some ErrNotFound | None => (with_vms w (delete i (sim_vms w)), Ok tt)
  | Some k => (w, sim_fail k)
  end.

Definition sim_status (i : string) (w : VmSim) : VmSim * result RtError Status :=
  match sim_vms w !! i with
  | Some st => (w, Ok (mkStatus i (st_Phase st) (st_ExitCode st) (st_Message st) (st_StartedAt st) (st_IP st)))
  | None => (w, sim_fail ErrNotFound)
  end.

Definition sim_list (w : VmSim) : VmSim * result RtError (list Status) :=
  (w, Ok ((λ kv, mkStatus kv.1 (st_Phase kv.2) (st_ExitCode kv.2) (st_Message kv.2) (st_StartedAt kv.2) (st_IP kv.2))
          <$> map_to_list (sim_vms w))).

Definition vm_sim : Runtime VmSim :=
  mkRuntime VmSim
    (λ _ _ w, let '(w', f) := sim_fault w in (w', match f with Some k => sim_fail k | None => Ok tt end))
    sim_create sim_start sim_stop sim_destroy sim_status sim_list.

Lemma sim_fault_vms w w' f : sim_fault w = (w', f) → sim_vms w' = sim_vms w.
Proof. unfold sim_fault. by destruct (sim_faults w); intros; simplify_eq. Qed.

#[export] Program Instance vm_sim_host : VmHost vm_sim := {| vms w := dom (sim_vms w) |}.
Next Obligation. intros i a w. simpl. destruct (sim_fault w) eqn:E. simpl. by erewrite sim_fault_vms. Qed.
Next Obligation.
  intros i w. simpl. unfold sim_start. destruct (sim_fault w) as [w1 [k|]] eqn:E; apply sim_fault_vms in E; simpl.
  - by rewrite E.
  - destruct (sim_vms w1 !! i) eqn:Hi; simpl; rewrite E in *; [|done].
    apply dom_insert_lookup_L. by eexists.
Qed.
Next Obligation.
  intros i t w. simpl. unfold sim_stop. destruct (sim_fault w) as [w1 [k|]] eqn:E; apply sim_fault_vms in E; simpl.
  - by rewrite E.
  - destruct (sim_vms w1 !! i) eqn:Hi; simpl; rewrite E in *; [|done].
    apply dom_insert_lookup_L. by eexists.
Qed.
Next Obligation. intros i w. simpl. unfold sim_status. by destruct (sim_vms w !! i). Qed.
Next Obligation. done. Qed.
Next Obligation.
  intros s w w' r. simpl. unfold sim_create. destruct (sim_fault w) as [w1 [k|]] eqn:E; apply sim_fault_vms in E.
  - intros. simplify_eq. simpl. by rewrite E.
  - intros. simplify_eq. simpl. rewrite <- E. split; [done|].
    destruct (sim_vms w1 !! s_Name s) eqn:Hs; [|by rewrite dom_insert_L].
    apply elem_of_dom_2 in Hs. set_solver.
Qed.
Next Obligation.
  intros i w w' r. simpl. unfold sim_destroy. destruct (sim_fault w) as [w1 f] eqn:E; apply sim_fault_vms in E.
  destruct f as [k|]; [destruct k|]; intros; simplify_eq; simpl; rewrite ?E; auto; by rewrite dom_delete_L.
Qed.
Next Obligation.
  intros i w w' st. simpl. unfold sim_status. destruct (sim_vms w !! i) eqn:Hi; intros; simplify_eq.
  split; [done|]. by apply elem_of_dom.
Qed.
Next Obligation.
  intros i w w' e. simpl. unfold sim_status. destruct (sim_vms w !! i) eqn:Hi; intros; simplify_eq.
  by apply not_elem_of_dom.
Qed.
Next Obligation.
  intros w w' l. simpl. unfold sim_list. intros [= <- <-]. apply set_eq. intros i.
  rewrite elem_of_list_to_set, list_elem_of_fmap, elem_of_dom. split.
  - intros (st & -> & ([k s] & -> & Hs)%list_elem_of_fmap). apply elem_of_map_to_list in Hs. simpl. by eexists.
  - intros [s Hs]. eexists. split; [|apply list_elem_of_fmap; eexists; split; [done|by apply elem_of_map_to_list]].
    done.
Qed.
