(* ===== verification/KeyedMutex.v ===== *)
(** * Per-workload locks: [pkg/runtime/container/keyedmutex.go]

    The driver holds the lock of a workload for the whole of each operation that
    changes it.  The lock table is a map from keys to mutexes behind a mutex of
    its own; this is a model of its calls at the grain of the mutex operations,
    with any interleaving of any number of goroutines. *)

From S2P Require Import Prelude.

Abbreviation goroutine := nat.
Abbreviation mutex := nat.

(** Where a goroutine is in [lock(key)] and in the operation it guards. *)
Inductive Pc : Type :=
  | AtTable (k : string)              (* calling k.mu.Lock() *)
  | InTable (k : string)              (* holding k.mu *)
  | AtKey (k : string) (m : mutex)    (* has the key's mutex, calling mu.Lock() *)
  | Inside (k : string) (m : mutex).  (* holding it: the guarded operation *)

(** [keyedMutex] with the holders of its mutexes and where everyone is;
    a goroutine outside is absent from [ks_pcs]. *)
Record keyedMutex := mkKM {
  ks_mu : option goroutine; ks_m : gmap string mutex; ks_held : gmap mutex goroutine; ks_fresh : mutex;
  ks_pcs : gmap goroutine Pc;
}.

Definition km_new : keyedMutex := mkKM None ∅ ∅ 0 ∅.

(** The next step of goroutine [t], [None] when it is blocked; one that is
    outside calls [lock(key)]. *)
Definition km_step (s : keyedMutex) (t : goroutine) (key : string) : option keyedMutex :=
  let 'mkKM mu m held fresh pcs := s in
  match pcs !! t with
  | None => Some (mkKM mu m held fresh (<[t := AtTable key]> pcs))
  | Some (AtTable k) =>
      match mu with
      | None => Some (mkKM (Some t) m held fresh (<[t := InTable k]> pcs))
      | Some _ => None
      end
  | Some (InTable k) =>
      match m !! k with
      | Some x => Some (mkKM None m held fresh (<[t := AtKey k x]> pcs))
      | None => Some (mkKM None (<[k := fresh]> m) held (S fresh) (<[t := AtKey k fresh]> pcs))
      end
  | Some (AtKey k x) =>
      match held !! x with
      | None => Some (mkKM mu m (<[x := t]> held) fresh (<[t := Inside k x]> pcs))
      | Some _ => None
      end
  | Some (Inside k x) => Some (mkKM mu m (delete x held) fresh (delete t pcs))
  end.

Inductive km_reach : keyedMutex → Prop :=
  | km_start : km_reach km_new
  | km_move s t key s' : km_reach s → km_step s t key = Some s' → km_reach s'.

(** ** The invariant *)

Definition wants (p : Pc) : option (string * mutex) :=
  match p with AtKey k m | Inside k m => Some (k, m) | _ => None end.

Record km_inv (s : keyedMutex) : Prop := {
  ki_key : ∀ t p k x, ks_pcs s !! t = Some p → wants p = Some (k, x) → ks_m s !! k = Some x;
  ki_inj : ∀ k1 k2 x, ks_m s !! k1 = Some x → ks_m s !! k2 = Some x → k1 = k2;
  ki_fresh : ∀ k x, ks_m s !! k = Some x → (x < ks_fresh s)%nat;
  ki_held : ∀ x t, ks_held s !! x = Some t ↔ ∃ k, ks_pcs s !! t = Some (Inside k x);
  ki_mu : ∀ t, ks_mu s = Some t ↔ ∃ k, ks_pcs s !! t = Some (InTable k);
}.

Lemma km_inv_new : km_inv km_new.
Proof. split; intros; simpl in *; simplify_map_eq; try done; (split; [done|intros [? ?]; simplify_map_eq]). Qed.

(** Where the others are does not change. *)
Lemma pcs_insert (pcs : gmap goroutine Pc) t p t' q :
  <[t := p]> pcs !! t' = Some q ↔ (t = t' ∧ p = q) ∨ (t ≠ t' ∧ pcs !! t' = Some q).
Proof. by rewrite lookup_insert_Some. Qed.

(** Moving a goroutine that neither holds nor takes a key's mutex. *)
Lemma held_insert (pcs : gmap goroutine Pc) t p x t' :
  (∀ k y, p ≠ Inside k y) → (∀ k y, pcs !! t ≠ Some (Inside k y)) →
  (∃ k, <[t := p]> pcs !! t' = Some (Inside k x)) ↔ ∃ k, pcs !! t' = Some (Inside k x).
Proof.
  intros Hp Ht. setoid_rewrite pcs_insert. split; [intros (k & [[_ ->]|[_ ?]]); [by destruct (Hp k x)|eauto]|].
  intros [k Hk]. exists k. right. split; [|done]. intros <-. by apply (Ht k x).
Qed.

Lemma table_insert (pcs : gmap goroutine Pc) t p t' :
  (∀ k, p ≠ InTable k) → (∀ k, pcs !! t ≠ Some (InTable k)) →
  (∃ k, <[t := p]> pcs !! t' = Some (InTable k)) ↔ ∃ k, pcs !! t' = Some (InTable k).
Proof.
  intros Hp Ht. setoid_rewrite pcs_insert. split; [intros (k & [[_ ->]|[_ ?]]); [by destruct (Hp k)|eauto]|].
  intros [k Hk]. exists k. right. split; [|done]. intros <-. by apply (Ht k).
Qed.

Lemma km_inv_lookup s t k :
  km_inv s → ks_pcs s !! t = Some (InTable k) →
  let '(m, fresh, x) := match ks_m s !! k with
    | Some x => (ks_m s, ks_fresh s, x) | None => (<[k := ks_fresh s]> (ks_m s), S (ks_fresh s), ks_fresh s) end in
  km_inv (mkKM None m (ks_held s) fresh (<[t := AtKey k x]> (ks_pcs s))).
Proof.
  destruct s as [mu m held fresh pcs]. intros [Hk Hi Hf Hh Hm] Et. simpl in *.
  assert (∀ t', (None : option goroutine) = Some t' ↔ ∃ k0, <[t := AtKey k match m !! k with Some x => x | None => fresh end]> pcs !! t' = Some (InTable k0)) as Hm'.
  { intros t'. split; [done|]. intros [k0 [[_ [=]]|[Hne Ht']]%pcs_insert].
    assert (mu = Some t) by (apply Hm; eauto). assert (mu = Some t') by (apply Hm; eauto). congruence. }
  assert (∀ x y t', held !! y = Some t' ↔ ∃ k0, <[t := AtKey k x]> pcs !! t' = Some (Inside k0 y)) as Hh'.
  { intros x y t'. rewrite Hh, held_insert; [done|done|]. by rewrite Et. }
  destruct (m !! k) as [x|] eqn:Ex; (split; simpl; [..|apply Hh'|apply Hm']); try done.
  - intros t' p k' x'. rewrite pcs_insert. intros [[<- <-]|[_ ?]]; [by intros [= <- <-]|by eapply Hk].
  - intros t' p k' x'. rewrite pcs_insert. intros [[<- <-]|[_ Hp]]; [intros [= <- <-]; by rewrite lookup_insert_eq|].
    intros Hw. rewrite lookup_insert_ne; [by eapply Hk|]. intros <-. by rewrite (Hk t' p k x') in Ex.
  - intros k1 k2 x [[<- <-]|[? H1]]%lookup_insert_Some [[<- ?]|[? H2]]%lookup_insert_Some; try done.
    + apply Hf in H2. lia.
    + subst. apply Hf in H1. lia.
    + by eapply Hi.
  - intros k1 x [[<- <-]|[? H1]]%lookup_insert_Some; [lia|]. apply Hf in H1. lia.
Qed.

Lemma km_inv_step s t key s' : km_inv s → km_step s t key = Some s' → km_inv s'.
Proof.
  intros Hinv. pose proof (km_inv_lookup s t) as Hl. revert Hl. pose proof Hinv as [Hk Hi Hf Hh Hm].
  destruct s as [mu m held fresh pcs]. unfold km_step. simpl in *.
  destruct (pcs !! t) as [[k|k|k x|k x]|] eqn:Et; intros Hl.
  - destruct mu as [u|]; [done|]. intros [= <-]. split; simpl; try done.
    + intros t' p k' x. rewrite pcs_insert. intros [[<- <-]|[_ ?]]; [done|by eapply Hk].
    + intros x t'. rewrite Hh, held_insert; [done|done|by rewrite Et].
    + intros t'. setoid_rewrite pcs_insert. split; [intros [= <-]; eauto|].
      intros [k' [[-> _]|[? Ht']]]; [done|]. assert (None = Some t') by (apply Hm; eauto). done.
  - specialize (Hl k Hinv eq_refl). destruct (m !! k); by intros [= <-].
  - destruct (held !! x) eqn:Ex; [done|]. intros [= <-]. split; simpl; try done.
    + intros t' p k' x'. rewrite pcs_insert. intros [[<- <-]|[_ ?]]; [intros [= <- <-]|]; by eapply Hk.
    + intros y t'. rewrite lookup_insert_Some, Hh. setoid_rewrite pcs_insert. split.
      * intros [[<- <-]|[Hne [k' Hk']]]; [eauto|]. exists k'. right. split; [|done]. intros <-. congruence.
      * intros [k' [[<- [= <- <-]]|[Hne Hk']]]; [by left|]. right. split; [|eauto]. intros <-.
        assert (held !! x = Some t') by (apply Hh; eauto). congruence.
    + intros t'. rewrite Hm, table_insert; [done|done|by rewrite Et].
  - intros [= <-]. split; simpl; try done.
    + intros t' p k' x' [_ ?]%lookup_delete_Some. by eapply Hk.
    + intros y t'. rewrite lookup_delete_Some, Hh. setoid_rewrite lookup_delete_Some. split.
      * intros [Hne [k' Hk']]. exists k'. split; [|done]. intros <-. congruence.
      * intros [k' [Hne Hk']]. split; [|eauto]. intros <-.
        assert (held !! x = Some t) by (apply Hh; eauto). assert (held !! x = Some t') by (apply Hh; eauto). congruence.
    + intros t'. rewrite Hm. setoid_rewrite lookup_delete_Some. split; [|naive_solver].
      intros [k' Hk']. exists k'. split; [|done]. intros <-. congruence.
  - intros [= <-]. split; simpl; try done.
    + intros t' p k' x'. rewrite pcs_insert. intros [[<- <-]|[_ ?]]; [done|by eapply Hk].
    + intros x t'. rewrite Hh, held_insert; [done|done|by rewrite Et].
    + intros t'. rewrite Hm, table_insert; [done|done|by rewrite Et].
Qed.

Lemma km_reach_inv s : km_reach s → km_inv s.
Proof. induction 1; [apply km_inv_new|by eapply km_inv_step]. Qed.

(** ** What the locks promise *)

(** C36: two goroutines are never inside operations on the same workload, in any
    interleaving of any number of them; and one that waits for a workload's lock
    waits for an operation on that same workload, never for one on another. *)
Theorem workload_mutual_exclusion s :
  km_reach s →
  (∀ t1 t2 k x1 x2, ks_pcs s !! t1 = Some (Inside k x1) → ks_pcs s !! t2 = Some (Inside k x2) → t1 = t2) ∧
  (∀ t k x key, ks_pcs s !! t = Some (AtKey k x) → km_step s t key = None →
     ∃ t', ks_pcs s !! t' = Some (Inside k x)).
Proof.
  intros [Hk Hi _ Hh _]%km_reach_inv. split.
  - intros t1 t2 k x1 x2 H1 H2. assert (x1 = x2) as ->.
    { pose proof (Hk _ _ _ _ H1 eq_refl). pose proof (Hk _ _ _ _ H2 eq_refl). congruence. }
    assert (ks_held s !! x2 = Some t1) by (apply Hh; eauto). assert (ks_held s !! x2 = Some t2) by (apply Hh; eauto).
    congruence.
  - intros t k x key Ht. pose proof (Hk _ _ _ _ Ht eq_refl) as Hkx. destruct s as [mu m held fresh pcs].
    unfold km_step. simpl in *. rewrite Ht. destruct (held !! x) as [t'|] eqn:Ex; [|done]. intros _.
    apply Hh in Ex as [k' Hk']. exists t'. assert (k' = k) as ->; [|done].
    eapply Hi; [exact (Hk _ _ _ _ Hk' eq_refl)|done].
Qed.

(** The locks never deadlock: in every reachable state with a goroutine in a
    call or an operation, one of them can take its next step. *)
Theorem locks_progress s :
  km_reach s → ks_pcs s ≠ ∅ → ∃ t p, ks_pcs s !! t = Some p ∧ ∀ key, km_step s t key ≠ None.
Proof.
  intros [Hk Hi _ Hh Hm]%km_reach_inv Hne. destruct s as [mu m held fresh pcs]. simpl in *.
  assert (∀ t k, pcs !! t = Some (InTable k) → ∀ key, km_step (mkKM mu m held fresh pcs) t key ≠ None) as Hin.
  { intros t k Ht key. unfold km_step. rewrite Ht. by destruct (m !! k). }
  assert (∀ t k x, pcs !! t = Some (Inside k x) → ∀ key, km_step (mkKM mu m held fresh pcs) t key ≠ None) as Hout.
  { intros t k x Ht key. unfold km_step. by rewrite Ht. }
  destruct mu as [u|]; [destruct (proj1 (Hm u) eq_refl) as [k Hu]; eauto|].
  apply map_choose in Hne as (t & p & Ht). destruct p as [k|k|k x|k x]; [|eauto| |eauto].
  - exists t, (AtTable k). split; [done|]. intros key. unfold km_step. by rewrite Ht.
  - destruct (held !! x) as [t'|] eqn:Ex.
    + apply Hh in Ex as [k' Hk']. eauto.
    + exists t, (AtKey k x). split; [done|]. intros key. unfold km_step. rewrite Ht. by rewrite Ex.
Qed.

(** ** Two operations on one workload, one on another *)

Fixpoint km_run (s : keyedMutex) (l : list (goroutine * string)) : option keyedMutex :=
  match l with
  | [] => Some s
  | (t, key) :: l' => match km_step s t key with Some s' => km_run s' l' | None => None end
  end.

Lemma km_run_reach s l s' : km_reach s → km_run s l = Some s' → km_reach s'.
Proof.
  revert s. induction l as [|[t key] l IH]; intros s Hs; simpl; [by intros [= <-]|].
  destruct (km_step s t key) eqn:E; [|done]. intros H. eapply IH; [|exact H]. by eapply km_move.
Qed.

(** Goroutine 0 stops pod-a, 1 wants to destroy pod-a, 2 starts pod-b. *)
Definition busy_trace : list (goroutine * string) :=
  (λ t, (t, if (t =? 2)%nat then "pod-b" else "pod-a")) <$> [0; 0; 0; 0; 1; 1; 1; 2; 2; 2; 2]%nat.
Definition busy : keyedMutex := default km_new (km_run km_new busy_trace).

Lemma busy_reach : km_reach busy.
Proof. apply (km_run_reach km_new busy_trace); [constructor|]. vm_compute. reflexivity. Qed.

Lemma workload_mutual_exclusion_witness :
  ks_pcs busy !! 1%nat = Some (AtKey "pod-a" 0) ∧ ks_pcs busy !! 2%nat = Some (Inside "pod-b" 1) ∧
  ∃ t', ks_pcs busy !! t' = Some (Inside "pod-a" 0%nat).
Proof.
  split; [vm_compute; reflexivity|]. split; [vm_compute; reflexivity|].
  apply (proj2 (workload_mutual_exclusion busy busy_reach) 1%nat "pod-a" 0%nat ""); vm_compute; reflexivity.
Defined.

Lemma locks_progress_witness : ∃ t p, ks_pcs busy !! t = Some p ∧ ∀ key, km_step busy t key ≠ None.
Proof. apply locks_progress; [exact busy_reach|]. intros H. apply (f_equal (lookup 0%nat)) in H. by vm_compute in H. Defined.
