(* ===== verification/Driver.v ===== *)
(** * The apple/container driver: [pkg/runtime/container]

    The driver turns each runtime operation into one or more invocations of the
    [container] command, and reads its JSON output and its error text.  [Cli W]
    stands for the command: what an invocation does to the host [W], what it
    prints and how it fails.  The driver is verified for every command that
    satisfies [ContainerTool]; the result is an instance of [VmHost], the
    contract the provider is verified against.

    Error texts follow the source, except that the detail [encoding/json] adds
    to a parse error is left out, and that [Quote] takes every non-ASCII rune
    to be printable. *)

From S2P Require Import Prelude GoFloat GoStrings GoJson GoTime Sha256 PodSpec WireGuard PodEnv Runtime.

Open Scope Z_scope.

Definition int64 (z : Z) : Z := (z + 2 ^ 63) mod 2 ^ 64 - 2 ^ 63.

(** [%q], [strconv.Quote] *)
Definition quote_byte (a : ascii) : string :=
  let n := code a in
  let esc (c : string) := String backslash c in
  if (n =? 34) || (n =? 92) then esc (String a "")
  else if between 32 126 n then String a ""
  else if n =? 7 then esc "a" else if n =? 8 then esc "b" else if n =? 12 then esc "f"
  else if n =? 10 then esc "n" else if n =? 13 then esc "r" else if n =? 9 then esc "t"
  else if n =? 11 then esc "v" else esc ("x" +:+ hex_byte n).

Fixpoint quote_body (fuel : nat) (s : string) : string :=
  match fuel, s with
  | S m, String a r =>
      match rune_len s with
      | S (S k) => take (S (S k)) s +:+ quote_body m (drop (S (S k)) s)
      | _ => quote_byte a +:+ quote_body m r
      end
  | _, _ => ""
  end.

Definition Quote (s : string) : string :=
  String quote (quote_body (String.length s) s +:+ String quote "").

(** ** The command ([runner.go]) *)

Record CLIError := mkCLIErr { cli_Args : list string; cli_ExitCode : Z; cli_Stderr : string; cli_Err : string }.

Definition CLIError_Error (e : CLIError) : string :=
  let msg := TrimSpace (cli_Stderr e) in
  let msg := if String.eqb msg "" then cli_Err e else msg in
  let msg := if String.eqb msg "" then "command failed" else msg in
  "container " +:+ Join (cli_Args e) " " +:+ ": " +:+ msg.

(** How a process ended, as [os/exec] reports it: with an exit status (-1 when a
    signal killed it), or not started at all. *)
Inductive ExecErr : Type := Exited (code : Z) (text : string) | NotStarted (text : string).

Definition newCommandError (args : list string) (stderr : string) (e : ExecErr) : CLIError :=
  match e with
  | Exited c t => mkCLIErr args c stderr t
  | NotStarted t => mkCLIErr args (-1) stderr t
  end.

(** The host's [container] binary: running it on arguments and a standard input
    yields its output, its diagnostics and how it ended. *)
Record Cli (W : Type) := mkCli {
  cli_exec : list string → option string → W → W * (string * string * option ExecErr);
}.
Arguments mkCli {W}. Arguments cli_exec {W}.

Section runner.
Context {W : Type} (C : Cli W).

Definition cli_output (args : list string) (w : W) : W * (string * option CLIError) :=
  let '(w', (out, errout, e)) := cli_exec C args None w in
  (w', (out, match e with Some x => Some (newCommandError args errout x) | None => None end)).

Definition cli_run (stdin : option string) (args : list string) (w : W) : W * option CLIError :=
  let '(w', (_, errout, e)) := cli_exec C args stdin w in
  (w', match e with Some x => Some (newCommandError args errout x) | None => None end).
End runner.

(** A buffer that keeps the first [limit] bytes written to it. *)
Record cappedBuffer := mkCapped { cb_buf : string; cb_limit : Z }.

Definition capped_Write (b : cappedBuffer) (p : string) : cappedBuffer * Z :=
  let room := cb_limit b - Z.of_nat (String.length (cb_buf b)) in
  let n := Z.of_nat (String.length p) in
  (if 0 <? room then mkCapped (cb_buf b +:+ take (Z.to_nat room) p) (cb_limit b) else b, n).

(** ** Errors *)

Definition sentinel (k : RtKind) : string :=
  match k with
  | ErrNotReady => "runtime: not ready"
  | ErrNotFound => "runtime: workload not found"
  | ErrAlreadyExists => "runtime: workload already exists"
  | ErrNotRunning => "runtime: workload not running"
  | ErrIncompatibleArch => "runtime: image architecture incompatible"
  | ErrOther => ""
  end.

Definition targetOS : string := "linux".
Definition targetArch : string := "arm64".
Definition emulatedArch : string := "amd64".

Definition classify_stderr (stderr : string) : RtKind :=
  let msg := ToLower stderr in
  if Contains msg "not found" || Contains msg "no such container" then ErrNotFound
  else if Contains msg "not running" then ErrNotRunning
  else if Contains msg "already exists" then ErrAlreadyExists
  else if Contains msg "unsupported platform" || Contains msg ("platform " +:+ targetOS +:+ "/" +:+ targetArch)
  then ErrIncompatibleArch
  else ErrOther.

Definition mapErr (e : CLIError) : RtError :=
  match classify_stderr (cli_Stderr e) with
  | ErrOther => mkRtErr ErrOther (CLIError_Error e)
  | k => mkRtErr k (sentinel k +:+ ": " +:+ CLIError_Error e)
  end.

(** [fmt.Errorf(prefix + ": %w", err)] *)
Definition wrap (prefix : string) (e : RtError) : RtError := mkRtErr (re_kind e) (prefix +:+ ": " +:+ re_text e).
Definition plain (text : string) : RtError := mkRtErr ErrOther text.
Definition bare (k : RtKind) : RtError := mkRtErr k (sentinel k).

(** ** Inspect output *)

Record Network := mkNetwork { nw_IPv4Address : string }.
Record InspectStatus := mkIS {
  is_State : string; is_StartedDate : string; is_ExitCode : option Z; is_ExitStatus : option Z;
  is_Networks : list Network;
}.
Record inspectResult := mkIR { ir_ID : string; ir_Status : InspectStatus }.

Definition zero_is : InspectStatus := mkIS "" "" None None [].
Definition zero_ir : inspectResult := mkIR "" zero_is.

Definition dec_network : Decoder Network :=
  dec_struct [field "ipv4Address" nw_IPv4Address (λ _ x, mkNetwork x) dec_string].

Definition dec_istatus : Decoder InspectStatus := dec_struct [
  field "state" is_State
    (λ o x, mkIS x (is_StartedDate o) (is_ExitCode o) (is_ExitStatus o) (is_Networks o)) dec_string;
  field "startedDate" is_StartedDate
    (λ o x, mkIS (is_State o) x (is_ExitCode o) (is_ExitStatus o) (is_Networks o)) dec_string;
  field "exitCode" is_ExitCode
    (λ o x, mkIS (is_State o) (is_StartedDate o) x (is_ExitStatus o) (is_Networks o)) (dec_ptr 0 dec_int);
  field "exitStatus" is_ExitStatus
    (λ o x, mkIS (is_State o) (is_StartedDate o) (is_ExitCode o) x (is_Networks o)) (dec_ptr 0 dec_int);
  field "networks" is_Networks
    (λ o x, mkIS (is_State o) (is_StartedDate o) (is_ExitCode o) (is_ExitStatus o) x)
    (dec_slice (mkNetwork "") dec_network)].

Definition dec_inspect : Decoder inspectResult := dec_struct [
  field "id" ir_ID (λ o x, mkIR x (ir_Status o)) dec_string;
  field "status" ir_Status (λ o x, mkIR (ir_ID o) x) dec_istatus].

Definition inspect_results (out : string) : option (list inspectResult) :=
  Unmarshal [] (dec_slice zero_ir dec_inspect) out.

Definition firstInt (values : list (option Z)) : option Z :=
  match omap id values with v :: _ => Some v | [] => None end.

Definition phaseFor (state startedDate : string) (exitCode : option Z) : Phase :=
  let s := ToLower state in
  if String.eqb s "running" then PhaseRunning
  else if String.eqb s "stopped" then
    if String.eqb startedDate "" then PhaseCreated
    else match exitCode with
    | Some c => if c =? 0 then PhaseStopped else PhaseFailed
    | None => PhaseStopped
    end
  else PhaseUnknown.

(** The zero [time.Time], the first of January of year 1. *)
Definition zeroTime : Z := -62135596800 * Second.

Fixpoint first_address (l : list Network) : string :=
  match l with
  | [] => ""
  | n :: l' =>
      if String.eqb (nw_IPv4Address n) "" then first_address l'
      else match cut_on "/" (nw_IPv4Address n) with Some (h, _) => h | None => nw_IPv4Address n end
  end.

Definition statusFromInspect (r : inspectResult) : Status :=
  let s := ir_Status r in
  let exitCode := firstInt [is_ExitCode s; is_ExitStatus s] in
  mkStatus (ir_ID r) (phaseFor (is_State s) (is_StartedDate s) exitCode) (default 0 exitCode) ""
    (if String.eqb (is_StartedDate s) "" then zeroTime else default zeroTime (ParseRFC3339 (is_StartedDate s)))
    (first_address (is_Networks s)).

Definition parseStatus (id out : string) : result RtError Status :=
  match inspect_results out with
  | None => Err (plain ("status " +:+ Quote id +:+ ": parse inspect output"))
  | Some [] => Err (wrap ("status " +:+ Quote id) (bare ErrNotFound))
  | Some (r :: _) => Ok (statusFromInspect r)
  end.

(** ** Images *)

Record Variant := mkVariant { v_OS : string; v_Arch : string }.
Record imageInspect := mkImage { im_Variants : list Variant }.

Definition dec_variant : Decoder Variant :=
  dec_struct [("config", dec_struct [
    field "os" v_OS (λ o x, mkVariant x (v_Arch o)) dec_string;
    field "architecture" v_Arch (λ o x, mkVariant (v_OS o) x) dec_string])].

Definition dec_image : Decoder imageInspect :=
  dec_struct [field "variants" im_Variants (λ _ x, mkImage x) (dec_slice (mkVariant "" "") dec_variant)].

Record platformChoice := mkChoice { pc_platform : string; pc_rosetta : bool }.

Definition known_variant (v : Variant) : bool :=
  negb (String.eqb (v_OS v) "" || String.eqb (v_Arch v) "" ||
        String.eqb (v_OS v) "unknown" || String.eqb (v_Arch v) "unknown").
Definition is_arch (arch : string) (v : Variant) : bool :=
  String.eqb (v_OS v) targetOS && String.eqb (v_Arch v) arch.
Definition platform_of (v : Variant) : string := v_OS v +:+ "/" +:+ v_Arch v.

(** The scan of the variants: the native one if found, otherwise whether there
    is an emulated one and the platforms seen, each once, in order. *)
Fixpoint scan_variants (l : list Variant) (amd64 : bool) (found : list string) : platformChoice + (bool * list string) :=
  match l with
  | [] => inr (amd64, found)
  | v :: l' =>
      if negb (known_variant v) then scan_variants l' amd64 found
      else if is_arch targetArch v then inl (mkChoice (targetOS +:+ "/" +:+ targetArch) false)
      else
        scan_variants l' (amd64 || is_arch emulatedArch v)
          (if bool_decide (platform_of v ∈ found) then found else found ++ [platform_of v])
  end.

Definition rosettaSuffix (rosetta : bool) : string :=
  if rosetta then " or " +:+ targetOS +:+ "/" +:+ emulatedArch else "".

Definition choosePlatform (rosetta : bool) (image : string) (vs : list Variant) : result RtError platformChoice :=
  match scan_variants vs false [] with
  | inl c => Ok c
  | inr (amd64, found) =>
      if amd64 && rosetta then Ok (mkChoice (targetOS +:+ "/" +:+ emulatedArch) true)
      else
        let names := Join (match found with [] => ["none"] | _ => found end) ", " in
        Err (mkRtErr ErrIncompatibleArch (sentinel ErrIncompatibleArch +:+ ": image " +:+ Quote image +:+ " has no " +:+
          targetOS +:+ "/" +:+ targetArch +:+
          (if amd64 && negb rosetta then
             " variant (found: " +:+ names +:+ "); enable Rosetta-for-Linux (runtimeRosetta: true) to run amd64 images on Apple Silicon, or use an arm64/multi-arch image"
           else
             rosettaSuffix rosetta +:+ " variant (found: " +:+ names +:+ "); macvz boots arm64 micro-VMs on Apple Silicon")))
  end.

(** ** Operations *)

Record Driver := mkDriver { d_rosetta : bool; d_dataRoot : string }.

Definition vol_arg (m : Mount) : list string :=
  if m_Tmpfs m then ["--tmpfs"; m_Target m]
  else ["--volume"; m_Source m +:+ ":" +:+ m_Target m +:+ (if m_ReadOnly m then ":ro" else "")].

Definition each (flag : string) (l : list string) : list string := l ≫= λ x, [flag; x].

Definition miB : Z := 1024 * 1024.

(** The arguments of [container create], in the order they are appended. *)
Definition create_args (platform : option platformChoice) (spec : ContainerSpec) : list string :=
  ["create"; "--name"; s_Name spec]
  ++ match platform with
     | None => []
     | Some c => ["--platform"; pc_platform c] ++ (if pc_rosetta c then ["--rosetta"] else [])
     end
  ++ (sortedKeys (s_Env spec) ≫= λ k, ["--env"; k +:+ "=" +:+ default "" (s_Env spec !! k)])
  ++ each "--dns" (s_DNS spec)
  ++ each "--dns-search" (s_DNSSearch spec)
  ++ each "--dns-option" (s_DNSOptions spec)
  ++ (if 0 <? s_CPUMillis spec
      then ["--cpus"; Itoa (Z.quot (int64 (s_CPUMillis spec + 999)) 1000)] else [])
  ++ (if 0 <? s_MemoryBytes spec
      then ["--memory"; Itoa (Z.quot (int64 (s_MemoryBytes spec + miB - 1)) miB) +:+ "M"] else [])
  ++ (if String.eqb (s_User spec) "" then [] else ["--user"; s_User spec])
  ++ (if s_ReadOnlyRootFS spec then ["--read-only"] else [])
  ++ each "--cap-add" (s_CapAdd spec)
  ++ each "--cap-drop" (s_CapDrop spec)
  ++ (s_Mounts spec ≫= vol_arg)
  ++ [s_Image spec] ++ s_Command spec ++ s_Args spec.

Section ops.
Context {W : Type} (C : Cli W) (d : Driver).

Definition Ready (w : W) : W * result RtError unit :=
  let '(w', (_, e)) := cli_output C ["system"; "status"] w in
  (w', match e with
       | Some x => Err (mkRtErr ErrNotReady (sentinel ErrNotReady +:+ ": " +:+ CLIError_Error x))
       | None => Ok tt
       end).

Definition selectPlatform (image : string) (w : W) : W * result RtError platformChoice :=
  let '(w', (out, e)) := cli_output C ["image"; "inspect"; image] w in
  let ctx := "verify arch " +:+ Quote image in
  (w', match e with
       | Some x => Err (wrap ctx (mapErr x))
       | None =>
           match Unmarshal [] (dec_slice (mkImage []) dec_image) out with
           | None => Err (plain (ctx +:+ ": parse inspect output"))
           | Some [] => Err (wrap ctx (bare ErrNotFound))
           | Some (i :: _) => choosePlatform (d_rosetta d) image (im_Variants i)
           end
       end).

Definition registryLogin (a : RegistryAuth) (w : W) : W * result RtError unit :=
  let '(w', e) := cli_run C (Some (ra_Password a))
    ["registry"; "login"; "--username"; ra_Username a; "--password-stdin"; ra_Server a] w in
  (w', match e with
       | Some x => Err (wrap ("authenticate to registry " +:+ Quote (ra_Server a)) (mapErr x))
       | None => Ok tt
       end).

(** A failed logout is logged only. *)
Definition registryLogout (a : RegistryAuth) (w : W) : W := (cli_output C ["registry"; "logout"; ra_Server a] w).1.

Definition pull_image (image : string) (w : W) : W * result RtError unit :=
  let '(w1, (_, e)) := cli_output C ["image"; "pull"; image] w in
  match e with
  | Some x => (w1, Err (wrap ("pull " +:+ Quote image) (mapErr x)))
  | None =>
      let '(w2, r) := selectPlatform image w1 in
      (w2, match r with Ok _ => Ok tt | Err x => Err x end)
  end.

Definition Pull (image : string) (auth : option RegistryAuth) (w : W) : W * result RtError unit :=
  if String.eqb image "" then (w, Err (plain "pull: image reference is empty"))
  else match auth with
  | Some a =>
      if String.eqb (ra_Server a) "" then pull_image image w
      else
        let '(w1, r) := registryLogin a w in
        match r with
        | Err x => (w1, Err (wrap ("pull " +:+ Quote image) x))
        | Ok _ => let '(w2, r2) := pull_image image w1 in (registryLogout a w2, r2)
        end
  | None => pull_image image w
  end.

Definition Create (spec : ContainerSpec) (w : W) : W * result RtError string :=
  let name := s_Name spec in
  if String.eqb name "" then (w, Err (plain "create: spec.Name is required"))
  else if String.eqb (s_Image spec) "" then (w, Err (plain ("create: spec.Image is required for " +:+ Quote name)))
  else
    let '(w1, choice) :=
      if d_rosetta d then
        let '(w', r) := selectPlatform (s_Image spec) w in
        (w', match r with Ok c => Ok (Some c) | Err x => Err x end)
      else (w, Ok None) in
    match choice with
    | Err x => (w1, Err (wrap ("create " +:+ Quote name) x))
    | Ok platform =>
        let '(w2, (out, e)) := cli_output C (create_args platform spec) w1 in
        (w2, match e with
             | Some x =>
                 if bool_decide (re_kind (mapErr x) = ErrAlreadyExists) then Ok name
                 else Err (wrap ("create " +:+ Quote name) (mapErr x))
             | None => let id := TrimSpace out in Ok (if String.eqb id "" then name else id)
             end)
    end.

Definition Start (id : string) (w : W) : W * result RtError unit :=
  let '(w', (_, e)) := cli_output C ["start"; id] w in
  (w', match e with Some x => Err (wrap ("start " +:+ Quote id) (mapErr x)) | None => Ok tt end).

(** A missing workload counts as done. *)
Definition gone_is_ok (op id : string) (e : option CLIError) : result RtError unit :=
  match e with
  | Some x =>
      if bool_decide (re_kind (mapErr x) = ErrNotFound) then Ok tt else Err (wrap (op +:+ " " +:+ Quote id) (mapErr x))
  | None => Ok tt
  end.

Definition stop_seconds (timeout : Z) : Z := Z.max 0 (Z.quot (Round timeout Second) Second).

Definition Stop (id : string) (timeout : Z) (w : W) : W * result RtError unit :=
  let '(w', (_, e)) := cli_output C ["stop"; "--time"; Itoa (stop_seconds timeout); id] w in
  (w', gone_is_ok "stop" id e).

Definition Destroy (id : string) (w : W) : W * result RtError unit :=
  let '(w', (_, e)) := cli_output C ["delete"; "--force"; id] w in (w', gone_is_ok "destroy" id e).

Definition List (w : W) : W * result RtError (list Status) :=
  let '(w', (out, e)) := cli_output C ["list"; "--all"; "--format"; "json"] w in
  (w', match e with
       | Some x => Err (wrap "list workloads" (mapErr x))
       | None =>
           let out := TrimSpace out in
           if String.eqb out "" || String.eqb out "null" then Ok []
           else match inspect_results out with
           | None => Err (plain "list workloads: parse output")
           | Some l => Ok (statusFromInspect <$> l)
           end
       end).

Definition GetStatus (id : string) (w : W) : W * result RtError Status :=
  let '(w', (out, e)) := cli_output C ["inspect"; id] w in
  (w', match e with Some x => Err (wrap ("status " +:+ Quote id) (mapErr x)) | None => parseStatus id out end).

(** ** Logs and exec: the arguments and the outcome *)

Definition logs_args (follow : bool) (tail : Z) (id : string) : list string :=
  ["logs"] ++ (if follow then ["--follow"] else []) ++ (if 0 <? tail then ["-n"; Itoa tail] else []) ++ [id].

(** [Logs]: [started] is the error of starting the command. *)
Definition Logs_open (follow : bool) (tail : Z) (id : string) (started : option ExecErr) : result RtError unit :=
  match started with
  | Some e => Err (wrap ("logs " +:+ Quote id) (mapErr (newCommandError (logs_args follow tail id) "" e)))
  | None => Ok tt
  end.

(** [cmdReadCloser.Close], after the process was killed and reaped: [ended] is
    how it had ended.  A stream ended on request is no error. *)
Definition stream_Close (args : list string) (cancelled : bool) (stderr : string) (ended : option ExecErr)
    : result RtError unit :=
  if cancelled then Ok tt
  else match ended with
  | None => Ok tt
  | Some (Exited c t) => if c =? -1 then Ok tt else Err (mapErr (newCommandError args stderr (Exited c t)))
  | Some e => Err (mapErr (newCommandError args stderr e))
  end.

Inductive ExecResult : Type := ExecOk | ExecExit (id : string) (code : Z) | ExecFailed (e : RtError).

Definition exec_args (tty stdin : bool) (id : string) (cmd : list string) : list string :=
  ["exec"] ++ (if tty then ["--tty"] else []) ++ (if stdin then ["--interactive"] else []) ++ [id] ++ cmd.

Definition Exec (id : string) (cmd : list string) (stdin : option string) (tty : bool) (w : W) : W * ExecResult :=
  match cmd with
  | [] => (w, ExecFailed (plain ("exec " +:+ Quote id +:+ ": command is empty")))
  | _ =>
      let '(w', e) := cli_run C stdin (exec_args tty (is_some stdin) id cmd) w in
      (w', match e with
           | None => ExecOk
           | Some x =>
               if bool_decide (re_kind (mapErr x) = ErrOther) && (0 <=? cli_ExitCode x)
               then ExecExit id (cli_ExitCode x)
               else ExecFailed (wrap ("exec " +:+ Quote id) (mapErr x))
           end)
  end.

Definition driver_runtime : Runtime W := mkRuntime W Pull Create Start Stop Destroy GetStatus List.
End ops.

(** ** What the driver relies on

    The documented behaviour of the [container] command: [create --name] makes
    the named container or fails without making one, [delete --force] removes
    the one it is given, nothing else changes which containers exist; an
    "already exists" failure of [create] is about that name, a "not found"
    failure of [delete] or [inspect] means there is no such container; [create]
    prints the name, and [inspect] and [list] print what exists, as JSON. *)

Definition says_missing (stderr : string) : bool :=
  Contains (ToLower stderr) "not found" || Contains (ToLower stderr) "no such container".
Definition says_exists (stderr : string) : bool := Contains (ToLower stderr) "already exists".

(** The first word of the commands that change which containers exist. *)
Definition changes_containers (args : list string) : bool :=
  match args with a :: _ => String.eqb a "create" || String.eqb a "delete" | [] => false end.

Class ContainerTool {W} (C : Cli W) := {
  tool_vms : W → gset string;
  tool_other : ∀ args stdin w, changes_containers args = false → tool_vms (cli_exec C args stdin w).1 = tool_vms w;
  tool_create : ∀ name rest w w' out err e,
    cli_exec C ("create" :: "--name" :: name :: rest) None w = (w', (out, err, e)) →
    match e with
    | None => TrimSpace out = name ∧ tool_vms w' = {[name]} ∪ tool_vms w
    | Some _ => tool_vms w' = tool_vms w ∧ (says_exists err = true → name ∈ tool_vms w)
    end;
  tool_delete : ∀ id w w' out err e,
    cli_exec C ["delete"; "--force"; id] None w = (w', (out, err, e)) →
    match e with
    | None => tool_vms w' = tool_vms w ∖ {[id]}
    | Some _ =>
        (tool_vms w' = tool_vms w ∨ tool_vms w' = tool_vms w ∖ {[id]}) ∧ (says_missing err = true → id ∉ tool_vms w')
    end;
  tool_inspect : ∀ id w w' out err e,
    cli_exec C ["inspect"; id] None w = (w', (out, err, e)) →
    match e with
    | None =>
        match inspect_results out with
        | Some (r :: _) => ir_ID r = id ∧ id ∈ tool_vms w
        | Some [] => id ∉ tool_vms w
        | None => True
        end
    | Some _ => says_missing err = true → id ∉ tool_vms w
    end;
  tool_list : ∀ w w' out err,
    cli_exec C ["list"; "--all"; "--format"; "json"] None w = (w', (out, err, None)) →
    if String.eqb (TrimSpace out) "" || String.eqb (TrimSpace out) "null" then tool_vms w = ∅
    else match inspect_results (TrimSpace out) with
    | Some l => list_to_set (ir_ID <$> l) = tool_vms w
    | None => True
    end;
}.

Lemma classify_missing err : classify_stderr err = ErrNotFound ↔ says_missing err = true.
Proof.
  unfold classify_stderr, says_missing. destruct (_ || _); [done|].
  split; [|done]. by repeat case_match.
Qed.

Lemma classify_exists err : classify_stderr err = ErrAlreadyExists → says_exists err = true.
Proof. unfold classify_stderr, says_exists. by repeat case_match. Qed.

Lemma mapErr_kind e : re_kind (mapErr e) = classify_stderr (cli_Stderr e).
Proof. unfold mapErr. by destruct (classify_stderr _). Qed.

Lemma newCommandError_stderr args err e : cli_Stderr (newCommandError args err e) = err.
Proof. by destruct e. Qed.

Section refinement.
Context {W : Type} (C : Cli W) (d : Driver) `{!ContainerTool C}.

Lemma output_other args w : changes_containers args = false → tool_vms (cli_output C args w).1 = tool_vms w.
Proof.
  intros Ha. unfold cli_output. pose proof (tool_other args None w Ha) as E.
  by destruct (cli_exec C args None w) as [w' [[out err] e]].
Qed.

Lemma run_other stdin args w : changes_containers args = false → tool_vms (cli_run C stdin args w).1 = tool_vms w.
Proof.
  intros Ha. unfold cli_run. pose proof (tool_other args stdin w Ha) as E.
  by destruct (cli_exec C args stdin w) as [w' [[out err] e]].
Qed.

Lemma selectPlatform_vms image w : tool_vms (selectPlatform C d image w).1 = tool_vms w.
Proof.
  unfold selectPlatform. pose proof (output_other ["image"; "inspect"; image] w eq_refl) as E.
  by destruct (cli_output _ _ w) as [w' [out e]].
Qed.

Lemma pull_image_vms image w : tool_vms (pull_image C d image w).1 = tool_vms w.
Proof.
  unfold pull_image. pose proof (output_other ["image"; "pull"; image] w eq_refl) as E.
  destruct (cli_output _ _ w) as [w1 [out [x|]]]; [done|]. simpl in E.
  pose proof (selectPlatform_vms image w1) as E2. destruct (selectPlatform C d image w1) as [w2 r]. simpl in *. congruence.
Qed.

Lemma Pull_vms image auth w : tool_vms (Pull C d image auth w).1 = tool_vms w.
Proof.
  unfold Pull. destruct (String.eqb image ""); [done|]. destruct auth as [a|]; [|apply pull_image_vms].
  destruct (String.eqb (ra_Server a) ""); [apply pull_image_vms|]. unfold registryLogin.
  match goal with |- context [cli_run C ?s ?l w] => pose proof (run_other s l w eq_refl) as E;
    destruct (cli_run C s l w) as [w1 [x|]] end; simpl in *; [done|].
  pose proof (pull_image_vms image w1) as E2. destruct (pull_image C d image w1) as [w2 r2]. simpl in *.
  unfold registryLogout. rewrite output_other by done. congruence.
Qed.

Lemma Create_vms s w w' r :
  Create C d s w = (w', r) →
  match r with
  | Ok id => id = s_Name s ∧ tool_vms w' = {[id]} ∪ tool_vms w
  | Err _ => tool_vms w' = tool_vms w
  end.
Proof.
  unfold Create. destruct (String.eqb (s_Name s) "") eqn:En; [by intros; simplify_eq|].
  destruct (String.eqb (s_Image s) ""); [by intros; simplify_eq|].
  set (pre := if d_rosetta d then _ else _).
  assert (tool_vms pre.1 = tool_vms w) as Hpre.
  { unfold pre. destruct (d_rosetta d); [|done]. pose proof (selectPlatform_vms (s_Image s) w) as E.
    by destruct (selectPlatform C d (s_Image s) w). }
  destruct pre as [w1 [platform|x]]; simpl in Hpre; [|by intros; simplify_eq].
  unfold cli_output, create_args at 1. cbn [app].
  match goal with |- context [cli_exec C (?a :: ?b :: ?c :: ?rest) None w1] =>
    destruct (cli_exec C (a :: b :: c :: rest) None w1) as [w2 [[out err] e]] eqn:Ec end.
  apply tool_create in Ec. rewrite Hpre in Ec. destruct e as [x|].
  - destruct Ec as [Hv He]. rewrite mapErr_kind, newCommandError_stderr. case_bool_decide as Hk.
    + intros; simplify_eq. split; [done|]. apply classify_exists in Hk. specialize (He Hk). set_solver.
    + intros; by simplify_eq.
  - destruct Ec as [Ho Hv]. rewrite Ho, En. intros; by simplify_eq.
Qed.

Lemma gone_is_ok_hard op id args err e :
  hard_failure (gone_is_ok op id (Some (newCommandError args err e))) = negb (says_missing err).
Proof.
  unfold gone_is_ok. rewrite mapErr_kind, newCommandError_stderr. case_bool_decide as Hk; simpl.
  - apply classify_missing in Hk. by rewrite Hk.
  - rewrite mapErr_kind, newCommandError_stderr, bool_decide_eq_false_2 by done.
    destruct (says_missing err) eqn:Em; [|done]. by apply classify_missing in Em.
Qed.

Lemma Destroy_vms i w w' r :
  Destroy C i w = (w', r) →
  if hard_failure r then tool_vms w' = tool_vms w ∨ tool_vms w' = tool_vms w ∖ {[i]}
  else tool_vms w' = tool_vms w ∖ {[i]}.
Proof.
  unfold Destroy, cli_output. destruct (cli_exec _ _ _ w) as [w2 [[out err] e]] eqn:Ec. apply tool_delete in Ec.
  destruct e as [x|]; intros; simplify_eq; [|done]. destruct Ec as [Hv Hm]. rewrite gone_is_ok_hard.
  destruct (says_missing err); simpl; [|done]. specialize (Hm eq_refl). destruct Hv as [Hv|Hv]; [|done].
  rewrite Hv in *. set_solver.
Qed.

Lemma GetStatus_found i w w' st : GetStatus C i w = (w', Ok st) → st_ID st = i ∧ i ∈ tool_vms w.
Proof.
  unfold GetStatus, cli_output. destruct (cli_exec _ _ _ w) as [w2 [[out err] e]] eqn:Ec. apply tool_inspect in Ec.
  destruct e as [x|]; [done|]. unfold parseStatus. destruct (inspect_results out) as [[|r l]|]; intros; by simplify_eq.
Qed.

Lemma GetStatus_missing i w w' e : GetStatus C i w = (w', Err e) → re_kind e = ErrNotFound → i ∉ tool_vms w.
Proof.
  unfold GetStatus, cli_output. destruct (cli_exec _ _ _ w) as [w2 [[out err] x]] eqn:Ec. apply tool_inspect in Ec.
  destruct x as [x|].
  - intros H Hk. simplify_eq. apply Ec, classify_missing. simpl in Hk.
    by rewrite mapErr_kind, newCommandError_stderr in Hk.
  - unfold parseStatus. destruct (inspect_results out) as [[|r l]|]; intros; by simplify_eq.
Qed.

Lemma List_exact w w' l : List C w = (w', Ok l) → list_to_set (st_ID <$> l) = tool_vms w.
Proof.
  unfold List, cli_output. destruct (cli_exec _ _ _ w) as [w2 [[out err] e]] eqn:Ec.
  destruct e as [x|]; [done|]. apply tool_list in Ec. destruct (_ || _).
  - intros; simplify_eq. by rewrite Ec.
  - destruct (inspect_results _) as [rs|]; intros; simplify_eq. rewrite <- Ec. f_equal.
    rewrite <- list_fmap_compose. by apply list_fmap_ext.
Qed.
End refinement.

#[export] Program Instance driver_host {W} (C : Cli W) (d : Driver) `{!ContainerTool C} : VmHost (driver_runtime C d) :=
  {| vms := tool_vms |}.
Next Obligation. intros. apply Pull_vms. Qed.
Next Obligation.
  intros W C d HC i w. simpl. unfold Start. pose proof (output_other C ["start"; i] w eq_refl) as E.
  by destruct (cli_output C _ w) as [w' [out e]].
Qed.
Next Obligation.
  intros W C d HC i t w. simpl. unfold Stop.
  pose proof (output_other C ["stop"; "--time"; Itoa (stop_seconds t); i] w eq_refl) as E.
  by destruct (cli_output C _ w) as [w' [out e]].
Qed.
Next Obligation.
  intros W C d HC i w. simpl. unfold GetStatus. pose proof (output_other C ["inspect"; i] w eq_refl) as E.
  by destruct (cli_output C _ w) as [w' [out e]].
Qed.
Next Obligation.
  intros W C d HC w. simpl. unfold List. pose proof (output_other C ["list"; "--all"; "--format"; "json"] w eq_refl) as E.
  by destruct (cli_output C _ w) as [w' [out e]].
Qed.
Next Obligation. intros W C d HC s w w' r E. exact (Create_vms C d s w w' r E). Qed.
Next Obligation. intros W C d HC i w w' r E. exact (Destroy_vms C i w w' r E). Qed.
Next Obligation. intros W C d HC i w w' st E. exact (GetStatus_found C i w w' st E). Qed.
Next Obligation. intros W C d HC i w w' e E. exact (GetStatus_missing C i w w' e E). Qed.
Next Obligation. intros W C d HC w w' l E. exact (List_exact C w w' l E). Qed.

(** ** An executable container command

    Containers by name; output as JSON text.  Names are words without quotes. *)

Record SimContainer := mkSC { sc_state : string; sc_started : string; sc_address : string }.

Definition name_ok (s : string) : bool := is_word s && plain_text s.
Definition jstr (s : string) : json := let t := if plain_text s then s else "" in JStr t t.

Definition container_json (name : string) (c : SimContainer) : json :=
  JObj [("id", JStr name name);
        ("status", JObj [("state", jstr (sc_state c)); ("startedDate", jstr (sc_started c));
                         ("networks", JArr [JObj [("ipv4Address", jstr (sc_address c))]])])].

Definition tool_fail {W} (msg : string) (w : W) : W * (string * string * option ExecErr) :=
  (w, ("", "Error: " +:+ msg, Some (Exited 1 "exit status 1"))).
Definition tool_ok {W} (out : string) (w : W) : W * (string * string * option ExecErr) := (w, (out, "", None)).

Abbreviation ToolSim := (gmap string SimContainer).

(** The containers with a proper name. *)
Definition sim_containers (w : ToolSim) : list (string * SimContainer) :=
  filter (λ kv, name_ok kv.1 = true) (map_to_list w).

Definition arm_image : json :=
  JArr [JObj [("variants", JArr [JObj [("config", JObj [("os", JStr "linux" "linux"); ("architecture", JStr "arm64" "arm64")])]])]].

Definition missing (w : ToolSim) := tool_fail "container not found" w.

(** Changing the state of a container that exists. *)
Definition sim_update (id : string) (f : SimContainer → SimContainer) (w : ToolSim) :=
  match w !! id with Some c => tool_ok "" (<[id := f c]> w) | None => missing w end.

Definition tool_sim : Cli ToolSim := mkCli (λ args _ w,
  match args with
  | [] => tool_ok "" w
  | cmd :: rest =>
      let is_ := String.eqb cmd in
      if is_ "create" then
        match rest with
        | _ :: name :: _ =>
            if negb (name_ok name) then tool_fail "invalid name" w
            else match w !! name with
            | Some _ => tool_fail "container already exists" w
            | None => tool_ok (name +:+ nl) (<[name := mkSC "stopped" "" ""]> w)
            end
        | _ => tool_fail "usage" w
        end
      else if is_ "delete" then
        match rest with
        | [_; id] => match w !! id with Some _ => tool_ok (id +:+ nl) (delete id w) | None => missing w end
        | _ => tool_fail "usage" w
        end
      else if is_ "start" then
        match rest with
        | [id] => sim_update id (λ _, mkSC "running" "2024-05-01T10:00:00Z" "192.168.64.7/24") w
        | _ => tool_fail "usage" w
        end
      else if is_ "stop" then
        match rest with
        | [_; _; id] => sim_update id (λ c, mkSC "stopped" (sc_started c) "") w
        | _ => tool_fail "usage" w
        end
      else if is_ "inspect" then
        match rest with
        | [id] =>
            match w !! id with
            | Some c => if name_ok id then tool_ok (show (JArr [container_json id c])) w else missing w
            | None => missing w
            end
        | _ => tool_fail "usage" w
        end
      else if is_ "list" then tool_ok (show (JArr ((λ kv, container_json kv.1 kv.2) <$> sim_containers w))) w
      else if is_ "image" then
        match rest with
        | [sub; _] => tool_ok (if String.eqb sub "inspect" then show arm_image else "") w
        | _ => tool_fail "usage" w
        end
      else tool_ok "" w
  end).

Definition sim_names (w : ToolSim) : gset string := list_to_set (sim_containers w).*1.

Lemma elem_of_sim_names w n : n ∈ sim_names w ↔ name_ok n = true ∧ is_Some (w !! n).
Proof.
  unfold sim_names. rewrite elem_of_list_to_set, list_elem_of_fmap. split.
  - intros ([k c] & -> & [Hk Hin]%list_elem_of_filter). simpl in *. apply elem_of_map_to_list in Hin. eauto.
  - intros [Hn [c Hc]]. exists (n, c). split; [done|]. apply list_elem_of_filter.
    split; [done|]. by apply elem_of_map_to_list.
Qed.

Lemma sim_names_insert w n c : name_ok n = true → sim_names (<[n := c]> w) = {[n]} ∪ sim_names w.
Proof.
  intros Hn. apply set_eq. intros m. rewrite elem_of_union, elem_of_singleton, !elem_of_sim_names, lookup_insert_is_Some.
  destruct (decide (n = m)); naive_solver.
Qed.

Lemma sim_names_update w n c : is_Some (w !! n) → sim_names (<[n := c]> w) = sim_names w.
Proof.
  intros Hn. apply set_eq. intros m. rewrite !elem_of_sim_names, lookup_insert_is_Some.
  destruct (decide (n = m)); naive_solver.
Qed.

Lemma sim_names_delete w n : sim_names (delete n w) = sim_names w ∖ {[n]}.
Proof.
  apply set_eq. intros m. rewrite elem_of_difference, elem_of_singleton, !elem_of_sim_names, lookup_delete_is_Some.
  naive_solver.
Qed.

Lemma name_ok_spec n : name_ok n = true → is_word n = true ∧ plain_text n = true.
Proof. apply andb_true_iff. Qed.

Lemma jstr_printable s : printable (jstr s) = true.
Proof.
  unfold jstr. cbn [printable]. rewrite String.eqb_refl, andb_true_r.
  by destruct (plain_text s) eqn:E; [rewrite E|].
Qed.

Lemma container_printable n c : name_ok n = true → printable (container_json n c) = true.
Proof.
  intros [_ Hp]%name_ok_spec. cbn [printable container_json forallb fst snd]. rewrite Hp, String.eqb_refl.
  rewrite !jstr_printable. done.
Qed.

Definition decoded (n : string) (c : SimContainer) : inspectResult :=
  let t s := if plain_text s then s else "" in
  mkIR n (mkIS (t (sc_state c)) (t (sc_started c)) None None [mkNetwork (t (sc_address c))]).

Lemma container_decodes n c : dec_inspect zero_ir (container_json n c) = Some (decoded n c).
Proof. reflexivity. Qed.

Lemma containers_decode l :
  dec_elems zero_ir dec_inspect [] ((λ kv, container_json kv.1 kv.2) <$> l) = Some ((λ kv, decoded kv.1 kv.2) <$> l).
Proof. induction l as [|[n c] l IH]; [done|]. cbn [fmap list_fmap dec_elems tail]. rewrite container_decodes. by rewrite IH. Qed.

Lemma printed_containers l :
  Forall (λ kv, name_ok kv.1 = true) l →
  inspect_results (show (JArr ((λ kv, container_json kv.1 kv.2) <$> l))) = Some ((λ kv, decoded kv.1 kv.2) <$> l).
Proof.
  intros Hl. unfold inspect_results, Unmarshal. rewrite Parse_show; [apply containers_decode| |].
  - cbn [nesting]. assert (foldr (λ x m, Nat.max (nesting x) m) 0%nat ((λ kv, container_json kv.1 kv.2) <$> l) ≤ 4)%nat.
    { clear Hl. induction l as [|[n c] l IH]; [simpl; lia|]. rewrite fmap_cons. cbn [foldr].
      change (nesting (container_json _ _)) with 4%nat. lia. }
    unfold maxNestingDepth. lia.
  - cbn [printable]. apply forallb_forall. intros j Hj%list_elem_of_In.
    apply list_elem_of_fmap in Hj as ([n c] & -> & Hin). rewrite Forall_forall in Hl.
    by apply container_printable, (Hl _ Hin).
Qed.

Lemma show_array_trimmed l : TrimSpace (show (JArr l)) = show (JArr l).
Proof.
  apply TrimSpace_edged. exists "["%char, "]"%char, (Join (show <$> l) ","). split_and!; [done..|]. by right.
Qed.

(** The sim only answers [create] and [delete] with a change. *)
Lemma sim_other args stdin w : changes_containers args = false → sim_names (cli_exec tool_sim args stdin w).1 = sim_names w.
Proof.
  intros Ha. destruct (cli_exec tool_sim args stdin w) as [w' r] eqn:E.
  assert (w' = w ∨ ∃ id c, is_Some (w !! id) ∧ w' = <[id := c]> w) as Hw.
  { cbn [cli_exec tool_sim] in E. unfold sim_update, missing, tool_ok, tool_fail in E.
    destruct args as [|a args]; [simplify_eq; by left|].
    cbn [changes_containers] in Ha. apply orb_false_iff in Ha as [Hc Hd]. rewrite Hc, Hd in E.
    repeat case_match; simplify_eq; eauto 6. }
  simpl. destruct Hw as [->|(id & c & Hs & ->)]; [done|]. by apply sim_names_update.
Qed.

#[export] Program Instance tool_sim_ok : ContainerTool tool_sim := {| tool_vms := sim_names |}.
Next Obligation. exact sim_other. Qed.
Next Obligation.
  intros name rest w w' out err e E. cbn [cli_exec tool_sim String.eqb Ascii.eqb Bool.eqb] in E.
  unfold missing, tool_ok, tool_fail in E.
  destruct (name_ok name) eqn:Hn; simpl in E; [|simplify_eq; split; [done|]; by vm_compute].
  pose proof Hn as [Hw _]%name_ok_spec. apply is_word_spec in Hw as [Hg Hne].
  destruct (w !! name) eqn:El; simplify_eq.
  - split; [done|]. intros _. apply elem_of_sim_names. split; [done|by eexists].
  - split; [by apply TrimSpace_newline|by apply sim_names_insert].
Qed.
Next Obligation.
  intros id w w' out err e E. cbn [cli_exec tool_sim String.eqb Ascii.eqb Bool.eqb] in E.
  unfold missing, tool_ok, tool_fail in E.
  destruct (w !! id) eqn:El; simplify_eq; [apply sim_names_delete|].
  split; [by left|]. intros _ [_ [? ?]]%elem_of_sim_names. congruence.
Qed.
Next Obligation.
  intros id w w' out err e E. cbn [cli_exec tool_sim String.eqb Ascii.eqb Bool.eqb] in E.
  unfold missing, tool_ok, tool_fail in E.
  destruct (w !! id) as [c|] eqn:El; [destruct (name_ok id) eqn:Hn|]; simplify_eq.
  - pose proof (printed_containers [(id, c)] ltac:(by constructor)) as Hp. cbn [fmap list_fmap fst snd] in Hp.
    rewrite Hp. split; [done|]. apply elem_of_sim_names. split; [done|by eexists].
  - intros _ [? _]%elem_of_sim_names. congruence.
  - intros _ [_ [? ?]]%elem_of_sim_names. congruence.
Qed.
Next Obligation.
  intros w w' out err E. cbn [cli_exec tool_sim String.eqb Ascii.eqb Bool.eqb] in E. unfold tool_ok in E. simplify_eq.
  rewrite show_array_trimmed.
  assert (Forall (λ kv, name_ok kv.1 = true) (sim_containers w')) as Hf.
  { apply Forall_forall. by intros kv [? _]%list_elem_of_filter. }
  destruct (String.eqb _ "" || _) eqn:Eb; [by apply orb_true_iff in Eb as [Eb|Eb]; apply String.eqb_eq in Eb|].
  rewrite printed_containers by done. unfold sim_names. f_equal.
  rewrite <- list_fmap_compose. by apply list_fmap_ext.
Qed.

(** ** Reading the arguments back

    A reference reading of [container create]: options until the first word that
    is not one, then the image and its command. *)

Record Request := mkReq {
  rq_name : string; rq_platform : string; rq_rosetta : bool; rq_env : list (string * string);
  rq_dns : list string; rq_search : list string; rq_options : list string; rq_cpus : string; rq_memory : string;
  rq_user : string; rq_readonly : bool; rq_add : list string; rq_drop : list string; rq_mounts : list Mount;
  rq_image : string; rq_command : list string;
}.

Definition empty_request : Request := mkReq "" "" false [] [] [] [] "" "" "" false [] [] [] "" [].

Definition read_volume (v : string) : option Mount :=
  match split_on ":" v with
  | [s; t] => Some (mkMount s t false false)
  | [s; t; o] => if String.eqb o "ro" then Some (mkMount s t true false) else None
  | _ => None
  end.

Definition set_option (q : Request) (flag v : string) : option Request :=
  let 'mkReq n p r e d s o c m u ro ca cd ms i k := q in
  if String.eqb flag "--name" then Some (mkReq v p r e d s o c m u ro ca cd ms i k)
  else if String.eqb flag "--platform" then Some (mkReq n v r e d s o c m u ro ca cd ms i k)
  else if String.eqb flag "--env" then
    match cut_on "=" v with Some kv => Some (mkReq n p r (e ++ [kv]) d s o c m u ro ca cd ms i k) | None => None end
  else if String.eqb flag "--dns" then Some (mkReq n p r e (d ++ [v]) s o c m u ro ca cd ms i k)
  else if String.eqb flag "--dns-search" then Some (mkReq n p r e d (s ++ [v]) o c m u ro ca cd ms i k)
  else if String.eqb flag "--dns-option" then Some (mkReq n p r e d s (o ++ [v]) c m u ro ca cd ms i k)
  else if String.eqb flag "--cpus" then Some (mkReq n p r e d s o v m u ro ca cd ms i k)
  else if String.eqb flag "--memory" then Some (mkReq n p r e d s o c v u ro ca cd ms i k)
  else if String.eqb flag "--user" then Some (mkReq n p r e d s o c m v ro ca cd ms i k)
  else if String.eqb flag "--cap-add" then Some (mkReq n p r e d s o c m u ro (ca ++ [v]) cd ms i k)
  else if String.eqb flag "--cap-drop" then Some (mkReq n p r e d s o c m u ro ca (cd ++ [v]) ms i k)
  else if String.eqb flag "--tmpfs" then
    Some (mkReq n p r e d s o c m u ro ca cd (ms ++ [mkMount "" v false true]) i k)
  else if String.eqb flag "--volume" then
    match read_volume v with
    | Some x => Some (mkReq n p r e d s o c m u ro ca cd (ms ++ [x]) i k)
    | None => None
    end
  else None.

Definition set_switch (q : Request) (flag : string) : option Request :=
  let 'mkReq n p r e d s o c m u ro ca cd ms i k := q in
  if String.eqb flag "--rosetta" then Some (mkReq n p true e d s o c m u ro ca cd ms i k)
  else if String.eqb flag "--read-only" then Some (mkReq n p r e d s o c m u true ca cd ms i k)
  else None.

Fixpoint read_options (args : list string) (q : Request) : option Request :=
  match args with
  | [] => None
  | a :: rest =>
      if HasPrefix a "-" then
        match set_switch q a with
        | Some q' => read_options rest q'
        | None =>
            match rest with
            | v :: rest' => match set_option q a v with Some q' => read_options rest' q' | None => None end
            | [] => None
            end
        end
      else
        let 'mkReq n p r e d s o c m u ro ca cd ms _ _ := q in
        Some (mkReq n p r e d s o c m u ro ca cd ms a rest)
  end.

Definition read_create (args : list string) : option Request :=
  match args with a :: rest => if String.eqb a "create" then read_options rest empty_request else None | [] => None end.

Definition cpus_of (spec : ContainerSpec) : Z := Z.quot (int64 (s_CPUMillis spec + 999)) 1000.
Definition mib_of (spec : ContainerSpec) : Z := Z.quot (int64 (s_MemoryBytes spec + miB - 1)) miB.

(** A mount as [container create] is told it. *)
Definition told_mount (m : Mount) : Mount :=
  if m_Tmpfs m then mkMount "" (m_Target m) false true else mkMount (m_Source m) (m_Target m) (m_ReadOnly m) false.

(** What the spec asks for. *)
Definition request_of (platform : option platformChoice) (spec : ContainerSpec) : Request :=
  mkReq (s_Name spec)
    (match platform with Some c => pc_platform c | None => "" end)
    (match platform with Some c => pc_rosetta c | None => false end)
    ((λ k, (k, default "" (s_Env spec !! k))) <$> sortedKeys (s_Env spec))
    (s_DNS spec) (s_DNSSearch spec) (s_DNSOptions spec)
    (if 0 <? s_CPUMillis spec then Itoa (cpus_of spec) else "")
    (if 0 <? s_MemoryBytes spec then Itoa (mib_of spec) +:+ "M" else "")
    (s_User spec) (s_ReadOnlyRootFS spec) (s_CapAdd spec) (s_CapDrop spec)
    (told_mount <$> s_Mounts spec)
    (s_Image spec) (s_Command spec ++ s_Args spec).

(** Reading an option and its value, then the rest. *)
Lemma read_option q flag v rest q' :
  HasPrefix flag "-" = true → set_switch q flag = None → set_option q flag v = Some q' →
  read_options (flag :: v :: rest) q = read_options rest q'.
Proof. intros H1 H2 H3. cbn [read_options]. by rewrite H1, H2, H3. Qed.

(** An option given once per element of a list, [g q l] adding [l] to a field. *)
Lemma read_each (g : Request → list string → Request) flag :
  HasPrefix flag "-" = true → (∀ q, set_switch q flag = None) →
  (∀ q v, set_option q flag v = Some (g q [v])) → (∀ q, g q [] = q) → (∀ q k l, g (g q k) l = g q (k ++ l)) →
  ∀ l rest q, read_options (each flag l ++ rest) q = read_options rest (g q l).
Proof.
  intros H1 H2 H3 H4 H5 l rest. induction l as [|v l IH]; intros q; [by rewrite H4|].
  change (each flag (v :: l)) with (flag :: v :: each flag l). cbn [app].
  erewrite read_option; [|done|done|apply H3]. by rewrite IH, H5.
Qed.

Definition add_dns (q : Request) (l : list string) : Request :=
  let 'mkReq n p r e d s o c m u ro ca cd ms i k := q in mkReq n p r e (d ++ l) s o c m u ro ca cd ms i k.
Definition add_search (q : Request) (l : list string) : Request :=
  let 'mkReq n p r e d s o c m u ro ca cd ms i k := q in mkReq n p r e d (s ++ l) o c m u ro ca cd ms i k.
Definition add_options (q : Request) (l : list string) : Request :=
  let 'mkReq n p r e d s o c m u ro ca cd ms i k := q in mkReq n p r e d s (o ++ l) c m u ro ca cd ms i k.
Definition add_caps (q : Request) (l : list string) : Request :=
  let 'mkReq n p r e d s o c m u ro ca cd ms i k := q in mkReq n p r e d s o c m u ro (ca ++ l) cd ms i k.
Definition drop_caps (q : Request) (l : list string) : Request :=
  let 'mkReq n p r e d s o c m u ro ca cd ms i k := q in mkReq n p r e d s o c m u ro ca (cd ++ l) ms i k.

Ltac each_option g :=
  apply (read_each g); [done|by intros []|by intros []|intros []; cbn; by rewrite app_nil_r
                       |intros [] *; cbn; by rewrite <- app_assoc].

Lemma read_dns l rest q : read_options (each "--dns" l ++ rest) q = read_options rest (add_dns q l).
Proof. each_option add_dns. Qed.
Lemma read_search l rest q : read_options (each "--dns-search" l ++ rest) q = read_options rest (add_search q l).
Proof. each_option add_search. Qed.
Lemma read_resolver l rest q : read_options (each "--dns-option" l ++ rest) q = read_options rest (add_options q l).
Proof. each_option add_options. Qed.
Lemma read_add l rest q : read_options (each "--cap-add" l ++ rest) q = read_options rest (add_caps q l).
Proof. each_option add_caps. Qed.
Lemma read_drop l rest q : read_options (each "--cap-drop" l ++ rest) q = read_options rest (drop_caps q l).
Proof. each_option drop_caps. Qed.

Lemma read_env q rest keys (env : gmap string string) :
  Forall (λ k, no_char "=" k = true) keys →
  let 'mkReq n p r e d s o c m u ro ca cd ms i k := q in
  read_options ((keys ≫= λ k, ["--env"; k +:+ "=" +:+ default "" (env !! k)]) ++ rest) q =
  read_options rest (mkReq n p r (e ++ ((λ k, (k, default "" (env !! k))) <$> keys)) d s o c m u ro ca cd ms i k).
Proof.
  intros Hk. revert q. induction Hk as [|x keys Hx Hk IH]; intros [n p r e d s o c m u ro ca cd ms i k].
  { by rewrite app_nil_r. }
  rewrite bind_cons. cbn [app]. erewrite read_option; [|done|done|].
  2: { cbn [set_option]. simpl (String.eqb _ _). cbv iota.
    change (x +:+ "=" +:+ default "" (env !! x)) with (x +:+ String "=" (default "" (env !! x))).
    rewrite cut_on_app by done. reflexivity. }
  specialize (IH (mkReq n p r (e ++ [(x, default "" (env !! x))]) d s o c m u ro ca cd ms i k)).
  cbn iota in IH. rewrite IH. by rewrite <- app_assoc.
Qed.

Lemma read_volume_of s t ro :
  no_char ":" s = true → no_char ":" t = true →
  read_volume (s +:+ ":" +:+ t +:+ (if ro : bool then ":ro" else "")) = Some (mkMount s t ro false).
Proof.
  intros Hs Ht. unfold read_volume.
  change (s +:+ ":" +:+ ?r) with (s +:+ String ":" r). rewrite (split_on_app ":" s) by done. destruct ro.
  - change ":ro" with (String ":" "ro"). rewrite split_on_app by done. done.
  - rewrite sapp_nil_r. by rewrite split_on_none.
Qed.

Definition plain_mount (m : Mount) : bool :=
  m_Tmpfs m || no_char ":" (m_Source m) && no_char ":" (m_Target m).

Lemma read_mounts q rest l :
  Forall (λ m, plain_mount m = true) l →
  let 'mkReq n p r e d s o c m u ro ca cd ms i k := q in
  read_options ((l ≫= vol_arg) ++ rest) q =
  read_options rest (mkReq n p r e d s o c m u ro ca cd (ms ++ (told_mount <$> l)) i k).
Proof.
  intros Hl. revert q. induction Hl as [|x l Hx Hl IH]; intros [n p r e d s o c m u ro ca cd ms i k].
  { by rewrite app_nil_r. }
  rewrite bind_cons, <- app_assoc, fmap_cons.
  specialize (IH (mkReq n p r e d s o c m u ro ca cd (ms ++ [told_mount x]) i k)). cbn iota in IH.
  rewrite <- app_assoc in IH. cbn [app] in IH. rewrite <- IH. clear IH.
  unfold vol_arg at 1. unfold told_mount, plain_mount in *. destruct (m_Tmpfs x) eqn:Et; cbn [app].
  - by erewrite read_option.
  - apply andb_true_iff in Hx as [Hs Ht]. erewrite read_option; [reflexivity|done|done|].
    cbn [set_option]. simpl (String.eqb _ _). cbv iota. by rewrite read_volume_of.
Qed.

(** The limits, the user and the read-only flag, each given only when wanted. *)
Lemma read_limits (cpu mem ro : bool) user c m rest n p r e d s o ca cd ms i k :
  read_options ((if cpu then ["--cpus"; c] else []) ++ (if mem then ["--memory"; m] else []) ++
    (if String.eqb user "" then [] else ["--user"; user]) ++ (if ro then ["--read-only"] else []) ++ rest)
    (mkReq n p r e d s o "" "" "" false ca cd ms i k) =
  read_options rest (mkReq n p r e d s o (if cpu then c else "") (if mem then m else "") user ro ca cd ms i k).
Proof.
  destruct cpu, mem; cbn [app]; repeat (erewrite read_option; [|done..]);
    destruct (String.eqb_spec user "") as [->|Hu]; cbn [app]; try (erewrite read_option; [|done..]); by destruct ro.
Qed.

Lemma read_image q image rest :
  HasPrefix image "-" = false →
  let 'mkReq n p r e d s o c m u ro ca cd ms _ _ := q in
  read_options (image :: rest) q = Some (mkReq n p r e d s o c m u ro ca cd ms image rest).
Proof. intros H. destruct q. cbn [read_options]. by rewrite H. Qed.

Lemma read_platform (platform : option platformChoice) n rest :
  read_options (match platform with
    | None => []
    | Some c => ["--platform"; pc_platform c] ++ (if pc_rosetta c then ["--rosetta"] else [])
    end ++ rest) (mkReq n "" false [] [] [] [] "" "" "" false [] [] [] "" []) =
  read_options rest (mkReq n (match platform with Some c => pc_platform c | None => "" end)
    (match platform with Some c => pc_rosetta c | None => false end) [] [] [] [] "" "" "" false [] [] [] "" []).
Proof. destruct platform as [[p []]|]; [..|done]; cbn [app pc_platform pc_rosetta];
  (erewrite read_option; [|done..]; reflexivity). Qed.

Lemma forallb_Forall_eq {A} (f : A → bool) (l : list A) : forallb f l = true ↔ Forall (λ x, f x = true) l.
Proof. rewrite forallb_forall, Forall_forall. by setoid_rewrite list_elem_of_In. Qed.

Definition sendable (spec : ContainerSpec) : bool :=
  negb (HasPrefix (s_Image spec) "-") &&
  forallb (no_char "=") (sortedKeys (s_Env spec)) && forallb plain_mount (s_Mounts spec).

(** The arguments the driver builds for [container create], read by the
    option grammar, say exactly what the spec asks for: every variable, DNS
    setting, limit, capability and mount, in order, then the image and the whole
    command, whatever the command's own words look like.  The image must not look
    like an option, no variable name may hold an equals sign and no bind mount a
    colon. *)
Theorem create_args_faithful platform spec :
  sendable spec = true → read_create (create_args platform spec) = Some (request_of platform spec).
Proof.
  unfold sendable. rewrite !andb_true_iff, negb_true_iff, !forallb_Forall_eq. intros [[Hi Hk] Hv].
  unfold create_args, read_create, request_of. cbn [app]. rewrite String.eqb_refl. unfold empty_request.
  erewrite read_option; [|done..]. rewrite read_platform.
  rewrite (read_env (mkReq _ _ _ _ _ _ _ _ _ _ _ _ _ _ _ _) _ _ (s_Env spec) Hk).
  rewrite read_dns, read_search, read_resolver. cbn [add_dns add_search add_options app].
  rewrite read_limits, read_add, read_drop. cbn [add_caps drop_caps].
  rewrite (read_mounts (mkReq _ _ _ _ _ _ _ _ _ _ _ _ _ _ _ _) _ _ Hv). cbn [app].
  by rewrite (read_image (mkReq _ _ _ _ _ _ _ _ _ _ _ _ _ _ _ _)).
Qed.

Definition sample_spec : ContainerSpec :=
  mkSpec "pod-a" "img:1" ["sh"; "--name"] ["-c"; "a:b=c"] {["A" := "x=y"]} 1500 (3 * miB + 1)
    [mkMount "/h" "/c" true false; mkMount "" "/tmp" false true] ["10.0.0.10"] ["svc"] [] "1000:1000" true ["NET_ADMIN"] ["ALL"].

Lemma create_args_faithful_witness :
  sendable sample_spec = true ∧
  read_create (create_args None sample_spec) = Some (request_of None sample_spec) ∧
  rq_cpus (request_of None sample_spec) = "2" ∧ rq_memory (request_of None sample_spec) = "4M".
Proof.
  split; [vm_compute; reflexivity|]. split; [apply create_args_faithful; vm_compute; reflexivity|].
  split; vm_compute; reflexivity.
Defined.

(** ** The choice of platform *)

Lemma known_arch arch v : arch ≠ "" → arch ≠ "unknown" → is_arch arch v = true → known_variant v = true.
Proof.
  unfold is_arch, known_variant. intros H1 H2 [Ho%String.eqb_eq Ha%String.eqb_eq]%andb_true_iff. rewrite Ho, Ha.
  apply String.eqb_neq in H1, H2. by rewrite H1, H2.
Qed.

(** The scan stops at a native variant; otherwise it has seen every known one. *)
Lemma scan_variants_spec vs b found :
  match scan_variants vs b found with
  | inl c => existsb (is_arch targetArch) vs = true ∧ c = mkChoice (targetOS +:+ "/" +:+ targetArch) false
  | inr (b', found') =>
      existsb (is_arch targetArch) vs = false ∧ b' = b || existsb (is_arch emulatedArch) vs ∧
      ∀ p, p ∈ found' ↔ p ∈ found ∨ ∃ v, v ∈ vs ∧ known_variant v = true ∧ p = platform_of v
  end.
Proof.
  revert b found. induction vs as [|v vs IH]; intros b found; simpl; [rewrite orb_false_r; set_solver|].
  destruct (known_variant v) eqn:Ek; simpl.
  - destruct (is_arch targetArch v); [done|]. specialize (IH (b || is_arch emulatedArch v)
      (if bool_decide (platform_of v ∈ found) then found else found ++ [platform_of v])).
    destruct (scan_variants _ _ _) as [c|[b' found']]; [done|]. destruct IH as (H1 & -> & H3).
    split; [done|]. split; [by rewrite orb_assoc|]. intros p. rewrite H3. clear H1 H3.
    assert (p ∈ (if bool_decide (platform_of v ∈ found) then found else found ++ [platform_of v]) ↔
      p ∈ found ∨ p = platform_of v) as -> by (destruct (bool_decide_reflect (platform_of v ∈ found)); rewrite ?elem_of_app, ?list_elem_of_singleton; naive_solver).
    setoid_rewrite elem_of_cons. naive_solver.
  - assert (∀ arch, arch ≠ "" → arch ≠ "unknown" → is_arch arch v = false) as Hn.
    { intros arch H1 H2. destruct (is_arch arch v) eqn:E; [|done]. by rewrite (known_arch arch v) in Ek. }
    rewrite !Hn by done. specialize (IH b found). destruct (scan_variants _ _ _) as [c|[b' found']]; [done|].
    destruct IH as (H1 & H2 & H3). split; [done|]. split; [done|]. intros p. rewrite H3.
    split; intros [?|(u & Hu & Hk & ->)]; [by left|right|by left|right].
    { exists u. by rewrite elem_of_cons; auto. }
    apply elem_of_cons in Hu as [->|Hu]; [congruence|by exists u].
Qed.

(** Which variant of an image a node boots: the native linux/arm64 one
    whenever the index has it, otherwise linux/amd64 under Rosetta when the node
    enables Rosetta and the index has it, and in every other case the pull or the
    create is refused as an incompatible architecture. *)
Theorem platform_exact rosetta image vs :
  let native := existsb (is_arch targetArch) vs in
  let emulated := existsb (is_arch emulatedArch) vs && rosetta in
  match choosePlatform rosetta image vs with
  | Ok c => native = true ∧ c = mkChoice "linux/arm64" false ∨
            native = false ∧ emulated = true ∧ c = mkChoice "linux/amd64" true
  | Err e => native = false ∧ emulated = false ∧ re_kind e = ErrIncompatibleArch
  end.
Proof.
  unfold choosePlatform. pose proof (scan_variants_spec vs false []) as H.
  destruct (scan_variants vs false []) as [c|[b found]].
  - destruct H as [-> ->]. by left.
  - destruct H as (-> & -> & _). simpl. destruct (_ && rosetta) eqn:E; [by right|done].
Qed.

(** ** Pulling with a credential *)

Abbreviation Call := (list string * option string)%type.

(** The command, recording each invocation and its standard input. *)
Definition logged {W} (C : Cli W) : Cli (W * list Call) := mkCli (λ args stdin '(w, log),
  let '(w', out) := cli_exec C args stdin w in ((w', log ++ [(args, stdin)]), out)).

Definition login_call (a : RegistryAuth) : Call :=
  (["registry"; "login"; "--username"; ra_Username a; "--password-stdin"; ra_Server a], Some (ra_Password a)).
Definition logout_call (a : RegistryAuth) : Call := (["registry"; "logout"; ra_Server a], None).

Section trace.
Context {W : Type} (C : Cli W) (d : Driver).

Lemma output_logged args w log :
  ∃ w' r, cli_output (logged C) args (w, log) = ((w', log ++ [(args, None)]), r).
Proof.
  unfold cli_output, logged. cbn [cli_exec]. destruct (cli_exec C args None w) as [w' [[out err] e]]. by eexists _, _.
Qed.

(** The pull itself: the pull command and, when it worked, one inspection. *)
Lemma pull_image_logged image w log :
  ∃ w' reads r, pull_image (logged C) d image (w, log) = ((w', log ++ reads), r) ∧
    (reads = [(["image"; "pull"; image], None)] ∧ (∃ e, r = Err e) ∨
     reads = [(["image"; "pull"; image], None); (["image"; "inspect"; image], None)]).
Proof.
  unfold pull_image. destruct (output_logged ["image"; "pull"; image] w log) as (w1 & [out e] & ->).
  destruct e as [x|]; [by eexists _, _, _; split; [|left; split; [|eexists]]|].
  unfold selectPlatform. destruct (output_logged ["image"; "inspect"; image] w1 (log ++ [(["image"; "pull"; image], None)])) as (w2 & [out2 e2] & ->).
  rewrite <- app_assoc. eexists _, _, _. split; [done|by right].
Qed.

(** A pull that logged in to a registry always logs out of it as its last
    action, whatever the pull and the inspection did, and a pull whose login
    failed runs nothing else and fails; the password is the standard input of the
    login and is in no argument list that does not come from the caller. *)
Theorem pull_drops_credential image (a : RegistryAuth) w :
  image ≠ "" → ra_Server a ≠ "" →
  let '(w', log, r) := Pull (logged C) d image (Some a) (w, []) in
  log = [login_call a] ∧ (∃ e, r = Err e) ∨
  log = [login_call a; (["image"; "pull"; image], None); logout_call a] ∧ (∃ e, r = Err e) ∨
  log = [login_call a; (["image"; "pull"; image], None); (["image"; "inspect"; image], None); logout_call a].
Proof.
  intros Hi Hs. unfold Pull. apply String.eqb_neq in Hi, Hs. rewrite Hi, Hs. unfold registryLogin, cli_run.
  cbn [cli_exec logged]. destruct (cli_exec C _ _ w) as [w1 [[out err] [e|]]]; [left; split; [done|by eexists]|].
  destruct (pull_image_logged image w1 [login_call a]) as (w2 & reads & r & E & Hr). cbn [app] in *. unfold login_call in E at 1.
  rewrite E. clear E. unfold registryLogout.
  destruct (output_logged ["registry"; "logout"; ra_Server a] w2 (login_call a :: reads)) as (w3 & r3 & ->).
  destruct Hr as [[-> ?]| ->]; [by right; left|by right; right].
Qed.
End trace.

Definition sample_auth : RegistryAuth := mkAuth "ghcr.io" "bot" "s3cret".

Lemma pull_drops_credential_witness :
  let '(w', log, r) := Pull (logged tool_sim) (mkDriver false "") "ghcr.io/a:1" (Some sample_auth) (∅, []) in
  r = Ok tt ∧ last log = Some (["registry"; "logout"; "ghcr.io"], None).
Proof.
  pose proof (pull_drops_credential tool_sim (mkDriver false "") "ghcr.io/a:1" sample_auth ∅ ltac:(done) ltac:(done)) as H.
  vm_compute in H |- *. by destruct H as [[? _]|[[? _]|_]].
Defined.

(** ** The driver as the provider's runtime *)

(** C35: the driver keeps the contract the provider is verified against: over any
    [container] command that behaves as documented, its seven operations are an
    instance of [VmHost] whose micro-VMs are the containers that exist.  Create
    makes exactly the named container or none, Destroy that does not fail leaves
    none, a status is about a container that exists, a not-found is about one that
    does not, and List is exact. *)
Theorem driver_keeps_contract {W} (C : Cli W) (d : Driver) (T : ContainerTool C) :
  ∃ H : VmHost (driver_runtime C d), ∀ w, vms (VmHost := H) w = tool_vms w.
Proof. by exists (driver_host C d). Qed.

Lemma driver_keeps_contract_witness :
  (∃ H : VmHost (driver_runtime tool_sim (mkDriver false "")), ∀ w, vms (VmHost := H) w = tool_vms w) ∧
  (let '(w1, r1) := Create tool_sim (mkDriver false "") sample_spec ∅ in
   let '(w2, r2) := GetStatus tool_sim "pod-a" (Start tool_sim "pod-a" w1).1 in
   r1 = Ok "pod-a" ∧ (match r2 with Ok s => st_Phase s = PhaseRunning ∧ st_IP s = "192.168.64.7" | Err _ => False end)).
Proof. split; [exact (driver_keeps_contract tool_sim _ tool_sim_ok)|]. vm_compute. auto. Defined.

(** ** Limits *)

(** The whole processors and mebibytes asked of the micro-VM cover the
    Pod's limits and exceed them by less than one processor and one mebibyte, for
    every limit more than a unit below the largest int64. *)
Theorem limits_rounded_up spec :
  0 < s_CPUMillis spec <= 2 ^ 63 - 1000 → 0 < s_MemoryBytes spec <= 2 ^ 63 - miB →
  s_CPUMillis spec <= 1000 * cpus_of spec < s_CPUMillis spec + 1000 ∧
  s_MemoryBytes spec <= miB * mib_of spec < s_MemoryBytes spec + miB.
Proof.
  unfold cpus_of, mib_of, int64, miB. intros Hc Hm.
  rewrite !Z.mod_small by lia. rewrite !Z.quot_div_nonneg by lia.
  Z.to_euclidean_division_equations. lia.
Qed.

Lemma limits_rounded_up_witness :
  s_CPUMillis sample_spec <= 1000 * cpus_of sample_spec < s_CPUMillis sample_spec + 1000 ∧
  s_MemoryBytes sample_spec <= miB * mib_of sample_spec < s_MemoryBytes sample_spec + miB.
Proof. apply limits_rounded_up; vm_compute; split; congruence. Defined.

(** ** Exit codes of [exec] *)

(** A command in the guest that prints nothing the driver takes for its own
    errors has its exit code reported. *)
Lemma exec_reports_exit {W} (C : Cli W) id cmd stdin tty w :
  cmd ≠ [] →
  let '(w', (out, err, e)) := cli_exec C (exec_args tty (is_some stdin) id cmd) stdin w in
  (Exec C id cmd stdin tty w).2 =
    match e with
    | None => ExecOk
    | Some x =>
        let ce := newCommandError (exec_args tty (is_some stdin) id cmd) err x in
        if bool_decide (classify_stderr err = ErrOther) && (0 <=? cli_ExitCode ce)
        then ExecExit id (cli_ExitCode ce) else ExecFailed (wrap ("exec " +:+ Quote id) (mapErr ce))
    end.
Proof.
  intros Hc. unfold Exec, cli_run. destruct cmd as [|c cmd]; [done|].
  destruct (cli_exec _ _ _ w) as [w' [[out err] [x|]]]; [|done]. cbv zeta.
  by rewrite mapErr_kind, newCommandError_stderr.
Qed.

(** The guest of this command is a shell that fails with status 127. *)
Definition shell_tool (stderr : string) : Cli unit := mkCli (λ _ _ w, (w, ("", stderr, Some (Exited 127 "exit status 127")))).

(** A guest command's own output decides whether its exit code survives.  The
    same exit status 127 is reported as such when the guest stays silent and as a
    missing workload when the guest prints that a command was not found, because
    the driver classifies the standard error the guest shares with the
    [container] command. *)
Theorem exec_confuses_guest_output :
  (Exec (shell_tool "") "pod-a" ["sh"; "-c"; "frob"] None false tt).2 = ExecExit "pod-a" 127 ∧
  ∃ text, (Exec (shell_tool "sh: frob: command not found") "pod-a" ["sh"; "-c"; "frob"] None false tt).2 =
    ExecFailed (mkRtErr ErrNotFound text).
Proof. split; [reflexivity|]. eexists. vm_compute. reflexivity. Qed.

(** A stop the command refuses because the container is not running is an error,
    unlike one it refuses because there is none. *)
Lemma stop_not_running_fails {W} (C : Cli W) id timeout w w' out err x :
  cli_exec C ["stop"; "--time"; Itoa (stop_seconds timeout); id] None w = (w', (out, err, Some x)) →
  classify_stderr err = ErrNotRunning → ∃ e, Stop C id timeout w = (w', Err e) ∧ re_kind e = ErrNotRunning.
Proof.
  intros He Hk. unfold Stop, cli_output, gone_is_ok. rewrite He, mapErr_kind, newCommandError_stderr, Hk.
  rewrite bool_decide_eq_false_2 by done. eexists. split; [done|]. cbn [re_kind wrap].
  by rewrite mapErr_kind, newCommandError_stderr.
Qed.

(** What is kept of a diagnostic stream, however it was cut into writes: its
    first [limit] bytes. *)
Lemma capped_Write_prefix b p :
  Z.of_nat (String.length (cb_buf b)) <= cb_limit b →
  let '(b', n) := capped_Write b p in
  n = Z.of_nat (String.length p) ∧ cb_limit b' = cb_limit b ∧
  Z.of_nat (String.length (cb_buf b')) = Z.min (cb_limit b) (Z.of_nat (String.length (cb_buf b)) + n).
Proof.
  intros Hb. unfold capped_Write. split; [done|]. destruct (Z.ltb_spec 0 (cb_limit b - Z.of_nat (String.length (cb_buf b)))) as [H|H];
    cbn [cb_limit cb_buf]; split; try done; [|lia].
  rewrite slength_app. assert (∀ k s, String.length (take k s) = Nat.min k (String.length s)) as Hl.
  { clear. intros k. induction k as [|k IH]; intros s; [by destruct s|]. destruct s as [|a s]; [done|]. simpl. by rewrite IH. }
  rewrite Hl. lia.
Qed.
