(* ===== verification/DriverStats.v ===== *)
(** * Samples from the runtime: [pkg/runtime/container/stats.go], [disk.go]

    Workload samples and the image cache, read from the JSON the [container]
    command prints.  Counters are uint64 and wrap around where the source adds or
    multiplies them. *)

From S2P Require Import Prelude GoFloat GoStrings GoJson GoTime Sha256 PodSpec WireGuard PodEnv Runtime Driver.

Open Scope Z_scope.

Definition uint64 (z : Z) : Z := z mod 2 ^ 64.

(** ** Workload samples *)

Record statsResult := mkSR {
  sr_ID : string; sr_CPUUsageUsec : Z; sr_MemoryUsageBytes : Z; sr_MemoryLimitBytes : Z;
  sr_NetworkRxBytes : Z; sr_NetworkTxBytes : Z;
}.

Record ResourceStats := mkRS {
  rs_Timestamp : Z; rs_CPUUsageCoreNanoSeconds : Z; rs_MemoryUsageBytes : Z; rs_MemoryLimitBytes : Z;
  rs_NetworkRxBytes : Z; rs_NetworkTxBytes : Z;
}.

Definition dec_stats : Decoder statsResult := dec_struct [
  field "id" sr_ID (λ o x, mkSR x (sr_CPUUsageUsec o) (sr_MemoryUsageBytes o) (sr_MemoryLimitBytes o)
    (sr_NetworkRxBytes o) (sr_NetworkTxBytes o)) dec_string;
  field "cpuUsageUsec" sr_CPUUsageUsec (λ o x, mkSR (sr_ID o) x (sr_MemoryUsageBytes o) (sr_MemoryLimitBytes o)
    (sr_NetworkRxBytes o) (sr_NetworkTxBytes o)) dec_uint64;
  field "memoryUsageBytes" sr_MemoryUsageBytes (λ o x, mkSR (sr_ID o) (sr_CPUUsageUsec o) x (sr_MemoryLimitBytes o)
    (sr_NetworkRxBytes o) (sr_NetworkTxBytes o)) dec_uint64;
  field "memoryLimitBytes" sr_MemoryLimitBytes (λ o x, mkSR (sr_ID o) (sr_CPUUsageUsec o) (sr_MemoryUsageBytes o) x
    (sr_NetworkRxBytes o) (sr_NetworkTxBytes o)) dec_uint64;
  field "networkRxBytes" sr_NetworkRxBytes (λ o x, mkSR (sr_ID o) (sr_CPUUsageUsec o) (sr_MemoryUsageBytes o)
    (sr_MemoryLimitBytes o) x (sr_NetworkTxBytes o)) dec_uint64;
  field "networkTxBytes" sr_NetworkTxBytes (λ o x, mkSR (sr_ID o) (sr_CPUUsageUsec o) (sr_MemoryUsageBytes o)
    (sr_MemoryLimitBytes o) (sr_NetworkRxBytes o) x) dec_uint64].

(** [runtime.ErrStatsUnavailable], or any other error. *)
Inductive StatsError : Type := StatsUnavailable (text : string) | StatsFailed (e : RtError).

Definition no_stats (id : string) : StatsError :=
  StatsUnavailable ("stats " +:+ Quote id +:+ ": runtime: workload stats unavailable").

(** The entry of the workload, or the first. *)
Definition pick_stats (id : string) (r : statsResult) (l : list statsResult) : statsResult :=
  default r (List.find (λ x, String.eqb (sr_ID x) id) (r :: l)).

Definition parseStats (id out : string) (now : Z) : result StatsError ResourceStats :=
  match Unmarshal [] (dec_slice (mkSR "" 0 0 0 0 0) dec_stats) out with
  | None => Err (StatsFailed (plain ("stats " +:+ Quote id +:+ ": parse stats output")))
  | Some [] => Err (no_stats id)
  | Some (r0 :: l) =>
      let r := pick_stats id r0 l in
      Ok (mkRS now (uint64 (sr_CPUUsageUsec r * 1000)) (sr_MemoryUsageBytes r) (sr_MemoryLimitBytes r)
            (sr_NetworkRxBytes r) (sr_NetworkTxBytes r))
  end.

Definition Stats {W} (C : Cli W) (id : string) (now : Z) (w : W) : W * result StatsError ResourceStats :=
  let '(w', (out, e)) := cli_output C ["stats"; "--no-stream"; "--format"; "json"; id] w in
  (w', match e with
       | Some x =>
           match re_kind (mapErr x) with
           | ErrNotFound | ErrNotRunning => Err (no_stats id)
           | _ => Err (StatsFailed (wrap ("stats " +:+ Quote id) (mapErr x)))
           end
       | None => parseStats id out now
       end).

(** ** The node's filesystem *)

Record FilesystemUsage := mkFU {
  fu_Path : string; fu_Timestamp : Z; fu_TotalBytes : Z; fu_UsedBytes : Z; fu_AvailableBytes : Z;
  fu_TotalInodes : Z; fu_UsedInodes : Z;
}.

(** [home] is [os.UserHomeDir]'s result. *)
Definition dataRootPath (d : Driver) (home : option string) : string :=
  if negb (String.eqb (d_dataRoot d) "") then d_dataRoot d
  else match home with
  | Some h => if negb (String.eqb h "") then h else "/"
  | None => "/"
  end.

(** [statfs] is the system call behind the driver's field of that name. *)
Definition NodeFilesystem (d : Driver) (home : option string) (statfs : string → result string FilesystemUsage)
    : result string FilesystemUsage :=
  match statfs (dataRootPath d home) with
  | Err e => Err ("node filesystem: " +:+ e)
  | Ok fu => Ok fu
  end.

(** ** The image cache *)

Fixpoint trim_left_char (c : ascii) (s : string) : string :=
  match s with String a r => if Ascii.eqb a c then trim_left_char c r else s | EmptyString => "" end.
Fixpoint trim_right_char (c : ascii) (s : string) : string :=
  match s with
  | EmptyString => ""
  | String a r =>
      let t := trim_right_char c r in
      if Ascii.eqb a c && String.eqb t "" then "" else String a t
  end.
(** [strings.Trim] with a cutset of one byte *)
Definition Trim (s : string) (c : ascii) : string := trim_right_char c (trim_left_char c s).

(** [byteSize.UnmarshalJSON]: the text of the value, numeric or quoted; every
    other shape of value is not a number and counts as 0. *)
Definition byteSize_text (s : string) : Z :=
  let s := Trim (TrimSpace s) quote in
  if String.eqb s "" || String.eqb s "null" then 0 else default 0 (ParseUint s).

Definition dec_byteSize : Decoder Z := λ _ j,
  Some (match j with JNum lit => byteSize_text lit | JStr raw _ => byteSize_text (quoted raw) | _ => 0 end).

Record imageListEntry := mkILE { il_Reference : string; il_Name : string; il_Size : Z; il_Variants : list Z }.
Definition zero_entry : imageListEntry := mkILE "" "" 0 [].

Definition dec_entry : Decoder imageListEntry := dec_struct [
  field "reference" il_Reference (λ o x, mkILE x (il_Name o) (il_Size o) (il_Variants o)) dec_string;
  field "name" il_Name (λ o x, mkILE (il_Reference o) x (il_Size o) (il_Variants o)) dec_string;
  field "size" il_Size (λ o x, mkILE (il_Reference o) (il_Name o) x (il_Variants o)) dec_byteSize;
  field "variants" il_Variants (λ o x, mkILE (il_Reference o) (il_Name o) (il_Size o) x)
    (dec_slice 0 (dec_struct [("size", dec_byteSize)]))].

(** Lines of JSON, blank ones skipped; one bad line fails the whole. *)
Fixpoint parse_lines (l : list string) : option (list imageListEntry) :=
  match l with
  | [] => Some []
  | raw :: l' =>
      let line := TrimSpace raw in
      if String.eqb line "" then parse_lines l'
      else match Unmarshal zero_entry dec_entry line with
      | None => None
      | Some e => match parse_lines l' with Some es => Some (e :: es) | None => None end
      end
  end.

Definition lf : ascii := GoJson.byte 10.

Definition parseImageEntries (out : string) : option (list imageListEntry) :=
  match Unmarshal [] (dec_slice zero_entry dec_entry) out with
  | Some entries => Some entries
  | None =>
      match Unmarshal zero_entry dec_entry out with
      | Some single => Some [single]
      | None => parse_lines (split_on lf (TrimSpace out))
      end
  end.

Record ImageCacheUsage := mkIC { ic_Timestamp : Z; ic_TotalBytes : Z; ic_Count : Z }.

Definition entry_size (e : imageListEntry) : Z :=
  if il_Size e =? 0 then foldl (λ acc v, uint64 (acc + v)) 0 (il_Variants e) else il_Size e.

Definition parseImageCache (out : string) (now : Z) : result string ImageCacheUsage :=
  let trimmed := TrimSpace out in
  if String.eqb trimmed "" then Ok (mkIC now 0 0)
  else match parseImageEntries trimmed with
  | None => Err "image cache usage: parse image list"
  | Some entries =>
      Ok (mkIC now (foldl (λ acc e, uint64 (acc + entry_size e)) 0 entries) (Z.of_nat (length entries)))
  end.

Definition ImageCacheUsageOf {W} (C : Cli W) (now : Z) (w : W) : W * result string ImageCacheUsage :=
  let '(w', (out, e)) := cli_output C ["image"; "ls"; "--format"; "json"] w in
  (w', match e with
       | Some x => Err ("image cache usage: " +:+ re_text (mapErr x))
       | None => parseImageCache out now
       end).

(** ** The two listings agree *)

Lemma plain_no_lf s : plain_text s = true → no_char lf s = true.
Proof.
  apply s_forall_impl. intros a Ha. apply andb_true_iff in Ha as [Ha _]. destruct (Ascii.eqb_spec a lf) as [->|]; [|done].
  by vm_compute in Ha.
Qed.

Lemma no_char_Join c (l : list string) sep :
  no_char c sep = true → Forall (λ s, no_char c s = true) l → no_char c (Join l sep) = true.
Proof.
  intros Hs. induction 1 as [|x l Hx Hl IH]; [done|]. destruct l as [|y l]; [done|].
  change (Join (x :: y :: l) sep) with (x +:+ sep +:+ Join (y :: l) sep). by rewrite !no_char_app, Hx, Hs, IH.
Qed.

Lemma show_no_lf d j : (nesting j ≤ d)%nat → printable j = true → no_char lf (show j) = true.
Proof.
  revert j. induction d as [d IH] using lt_wf_ind. intros j Hd Hp.
  assert (∀ s, plain_text s = true → no_char lf (quoted s) = true) as Hq.
  { intros s Hs. unfold quoted. rewrite no_char_cons, no_char_app, plain_no_lf by done. done. }
  destruct j as [|b|lit|raw s|l|l]; simpl in Hp; try done; [by destruct b| | |].
  - apply andb_true_iff in Hp as [Hs _]. by apply Hq.
  - cbn [show nesting] in *. rewrite !no_char_app, no_char_Join; [done..|].
    rewrite Forall_fmap. apply Forall_forall. intros x Hx. rewrite forallb_Forall_eq, Forall_forall in Hp. simpl.
    pose proof (nesting_elem _ _ Hx). apply (IH (nesting x)); [lia|done|by apply Hp].
  - cbn [show nesting] in *. rewrite !no_char_app, no_char_Join; [done..|].
    rewrite Forall_fmap. apply Forall_forall. intros [k x] Hx. rewrite forallb_Forall_eq, Forall_forall in Hp. simpl.
    pose proof (nesting_member _ _ Hx) as Hn. specialize (Hp _ Hx). simpl in *. apply andb_true_iff in Hp as [Hk Hp].
    rewrite !no_char_app, Hq by done. apply (IH (nesting x)); [lia|done|done].
Qed.

(** An object a line can hold. *)
Definition listed (j : json) : bool :=
  match j with JObj _ => printable j && (Z.of_nat (nesting j) <? maxNestingDepth) | _ => false end.

Lemma listed_spec j : listed j = true →
  (∃ m, j = JObj m) ∧ printable j = true ∧ Z.of_nat (nesting j) < maxNestingDepth.
Proof. destruct j; try done. intros [? ?%Z.ltb_lt]%andb_true_iff. split; [by eexists|done]. Qed.

Lemma listed_edged j : listed j = true → edged (show j).
Proof.
  intros ((m & ->) & _ & _)%listed_spec. cbn [show].
  exists "{"%char, "}"%char, (Join ((λ kv, quoted kv.1 +:+ ":" +:+ show kv.2) <$> m) ","). repeat split. by right.
Qed.

(** A document followed by more than white space is not one. *)
Lemma Parse_trailing j rest :
  listed j = true → skip_ws rest ≠ "" → Parse (show j +:+ rest) = None.
Proof.
  intros (_ & Hp & Hn)%listed_spec Hr. unfold Parse.
  destruct (show_parses (Z.to_nat maxNestingDepth) j ltac:(lia) Hp rest) as [n E]. rewrite Z2Nat.id in E by done.
  apply value_bound in E as [_ E]. rewrite E by lia. apply String.eqb_neq in Hr. by rewrite Hr.
Qed.

Lemma listed_head j : listed j = true → ∃ t, show j = String "{" t.
Proof. intros ((m & ->) & _)%listed_spec. cbn [show]. by eexists. Qed.

Lemma parse_lines_listed (l : list json) :
  Forall (λ j, listed j = true) l → parse_lines (show <$> l) = mapM (dec_entry zero_entry) l.
Proof.
  induction 1 as [|j l Hj Hl IH]; [done|]. rewrite fmap_cons. cbn [parse_lines].
  rewrite TrimSpace_edged by by apply listed_edged. pose proof (listed_spec j Hj) as (_ & Hp & Hn).
  destruct (listed_head j Hj) as [t Ht]. rewrite Ht at 1. cbn [String.eqb].
  unfold Unmarshal. rewrite Parse_show by (done || lia). rewrite IH. cbn [mapM].
  by destruct (dec_entry zero_entry j), (mapM _ l).
Qed.

Lemma split_Join_lf (l : list string) :
  l ≠ [] → Forall (λ s, no_char lf s = true) l → split_on lf (Join l (String lf "")) = l.
Proof.
  intros Hne H. induction H as [|x l Hx Hl IH]; [done|]. destruct l as [|y l]; [by apply split_on_none|].
  change (Join (x :: y :: l) (String lf "")) with (x +:+ String lf (Join (y :: l) (String lf ""))).
  rewrite split_on_app by done. by rewrite IH.
Qed.

Lemma dec_elems_mapM (l : list json) : dec_elems zero_entry dec_entry [] l = mapM (dec_entry zero_entry) l.
Proof.
  induction l as [|j l IH]; [done|]. cbn [dec_elems mapM]. destruct (dec_entry zero_entry j); [|done]. simpl.
  rewrite IH. by destruct (mapM _ l).
Qed.

Lemma edged_Join (l : list string) sep : l ≠ [] → Forall edged l → edged (Join l sep).
Proof.
  intros Hne H. induction H as [|x l Hx Hl IH]; [done|]. destruct l as [|y l]; [done|].
  change (Join (x :: y :: l) sep) with (x +:+ sep +:+ Join (y :: l) sep).
  destruct Hx as (a & b & r & Ha & _ & Hx). destruct (IH ltac:(done)) as (a' & b' & r' & Ha' & Hb' & Hy).
  assert (∃ t, x = String a t) as [t ->] by (destruct Hx as [-> | ->]; by eexists).
  assert (∃ e u, graph_char e = true ∧ Join (y :: l) sep = u +:+ String e "") as (e & u & He & ->).
  { destruct Hy as [-> | ->]; [by exists a', ""|by exists b', (String a' r')]. }
  exists a, e, (t +:+ sep +:+ u). repeat split; [done..|]. right. by rewrite sapp_cons, !sapp_assoc.
Qed.

Lemma listed_array (l : list json) :
  Forall (λ j, listed j = true) l → printable (JArr l) = true ∧ Parse (show (JArr l)) = Some (JArr l).
Proof.
  intros Hl. assert (printable (JArr l) = true) as Hp.
  { apply forallb_Forall_eq. eapply Forall_impl; [done|]. by intros j (_ & ? & _)%listed_spec. }
  split; [done|]. apply Parse_show; [|done]. cbn [nesting]. rewrite Nat2Z.inj_succ. apply Z.le_succ_l. clear Hp.
  induction Hl as [|j l Hj Hl IH]; simpl; [done|]. apply listed_spec in Hj as (_ & _ & ?). lia.
Qed.

(** A listing of one line per object is not an array, and a single document only
    when it has one line. *)
Lemma lines_not_document (j k : json) (l : list json) :
  listed j = true → listed k = true → Parse (Join (show <$> j :: k :: l) (String lf "")) = None.
Proof.
  intros Hj Hk. rewrite fmap_cons.
  change (Join (show j :: (show <$> k :: l)) (String lf "")) with (show j +:+ String lf (Join (show <$> k :: l) (String lf ""))).
  apply Parse_trailing; [done|]. destruct (listed_head k Hk) as [t Ht]. rewrite fmap_cons, Ht.
  destruct (Join_head "{"%char t (show <$> l) (String lf "") "") as [u Hu]. rewrite sapp_nil_r in Hu. by rewrite Hu.
Qed.

(** The two listings of the image cache a runtime may print, a JSON array and
    one object per line, are read as the same entries, each decoded on its own;
    and an entry that does not decode fails either listing. *)
Theorem image_formats_agree (l : list json) :
  l ≠ [] → Forall (λ j, listed j = true) l →
  parseImageEntries (show (JArr l)) = mapM (dec_entry zero_entry) l ∧
  parseImageEntries (Join (show <$> l) (String lf "")) = mapM (dec_entry zero_entry) l.
Proof.
  intros Hne Hl. destruct (listed_array l Hl) as [Hp HP]. split; unfold parseImageEntries, Unmarshal at 1.
  - rewrite HP. cbn [dec_slice]. rewrite dec_elems_mapM. destruct (mapM _ l); [done|].
    unfold Unmarshal. rewrite HP. cbn [dec_entry dec_struct].
    assert (edged (show (JArr l))) as He.
    { exists "["%char, "]"%char, (Join (show <$> l) ","). repeat split. by right. }
    rewrite TrimSpace_edged, split_on_none by (done || by eapply show_no_lf).
    cbn [parse_lines]. rewrite TrimSpace_edged by done. unfold Unmarshal. by rewrite HP.
  - assert (parse_lines (split_on lf (TrimSpace (Join (show <$> l) (String lf "")))) = mapM (dec_entry zero_entry) l) as E.
    { rewrite TrimSpace_edged; [rewrite split_Join_lf; [by apply parse_lines_listed|by destruct l|]|apply edged_Join; [by destruct l|]].
      all: apply Forall_fmap; eapply Forall_impl; [exact Hl|]; intros j Hj; simpl.
      - apply listed_spec in Hj as (_ & ? & _). by eapply show_no_lf.
      - by apply listed_edged. }
    destruct l as [|j [|k l]]; [done| |].
    + apply Forall_cons_1 in Hl as [Hj _]. change (Join (show <$> [j]) (String lf "")) with (show j) in *.
      unfold Unmarshal. pose proof (listed_spec j Hj) as ((m & Hm) & Hpj & Hn). rewrite Parse_show by (done || lia).
      assert (dec_slice zero_entry dec_entry [] j = None) as -> by by rewrite Hm. rewrite E. cbn [mapM].
      by destruct (dec_entry zero_entry j).
    + apply Forall_cons_1 in Hl as [Hj Hl]. apply Forall_cons_1 in Hl as [Hk _].
      unfold Unmarshal. by rewrite lines_not_document, E.
Qed.

Definition image_json (name size : string) : json := JObj [("name", JStr name name); ("size", JStr size size)].

Lemma image_formats_agree_witness :
  let l := [image_json "nginx" "12000000"; image_json "headlamp" "80000000"] in
  parseImageEntries (show (JArr l)) = Some [mkILE "" "nginx" 12000000 []; mkILE "" "headlamp" 80000000 []] ∧
  parseImageEntries (Join (show <$> l) (String lf "")) = parseImageEntries (show (JArr l)).
Proof.
  destruct (image_formats_agree [image_json "nginx" "12000000"; image_json "headlamp" "80000000"]) as [H1 H2];
    [done|by repeat constructor|].
  cbv zeta. rewrite H1, H2. vm_compute. done.
Defined.
