(* ===== verification/Cleanup.v ===== *)
(** * Reclaiming micro-VMs: [pkg/drain], [pkg/orphan], [pkg/noderemove]

    The operator's cleanup pass, the reaper that runs for the life of the
    kubelet, and the node removal workflow.  All three destroy micro-VMs, so
    what matters is which ones: only the node's own, never one that backs a
    live Pod, and for the reaper only after a grace period. *)

From S2P Require Import Prelude GoStrings Sha256 PodSpec Runtime Driver.

Open Scope Z_scope.

Definition vmPrefix : string := WorkloadPrefix +:+ "-".
Definition IsMacVzVM (id : string) : bool := HasPrefix id vmPrefix.

Record Orphan := mkOrphan { o_ID : string; o_Phase : Phase }.

Inductive CleanError : Type :=
  | EStop (id : string) (e : RtError) | EDestroy (id : string) (e : RtError)
  | EFlush (e : string) | EList (e : RtError) | EExpected (e : string).

(** ** The cleaner ([drain.Cleaner]) *)

Record Cleaner (W : Type) := mkCleaner {
  cl_Flusher : option (W → W * result string unit);
  cl_Timeout : Z;
}.
Arguments mkCleaner {W}. Arguments cl_Flusher {W}. Arguments cl_Timeout {W}.

Definition orphan_of (expected : gset string) (s : Status) : option Orphan :=
  if negb (IsMacVzVM (st_ID s)) || bool_decide (st_ID s ∈ expected) then None
  else Some (mkOrphan (st_ID s) (st_Phase s)).

Definition seconds (n : Z) : Z := n * 1000000000.

Section cleaner.
Context {W : Type} (RT : Runtime W) (c : Cleaner W).

Definition Scan (expected : gset string) (w : W) : W * result CleanError (list Orphan) :=
  let '(w', r) := rt_List RT w in
  match r with
  | Err e => (w', Err (EList e))
  | Ok all => (w', Ok (sort_by (le_key o_ID) (omap (orphan_of expected) all)))
  end.

Definition reap_one (timeout : Z) (id : string) (w : W) : W * (list CleanError * bool) :=
  let '(w1, s) := rt_Stop RT id timeout w in
  let errs := match s with Err e => if hard_failure s then [EStop id e] else [] | Ok _ => [] end in
  let '(w2, d) := rt_Destroy RT id w1 in
  match d with
  | Err e => if hard_failure d then (w2, (errs ++ [EDestroy id e], false)) else (w2, (errs, true))
  | Ok _ => (w2, (errs, true))
  end.

Fixpoint reap_loop (timeout : Z) (l : list Orphan) (w : W) : W * (list CleanError * list string) :=
  match l with
  | [] => (w, ([], []))
  | o :: l' =>
      let '(w1, (errs, gone)) := reap_one timeout (o_ID o) w in
      let '(w2, (errs', reaped)) := reap_loop timeout l' w1 in
      (w2, (errs ++ errs', if gone then o_ID o :: reaped else reaped))
  end.

(** The names reaped and the joined errors. *)
Definition Reap (orphans : list Orphan) (dryRun : bool) (w : W) : W * (list string * list CleanError) :=
  let timeout := if cl_Timeout c <=? 0 then seconds 10 else cl_Timeout c in
  if dryRun then (w, (o_ID <$> orphans, []))
  else
    let '(w1, (errs, reaped)) := reap_loop timeout orphans w in
    match cl_Flusher c with
    | None => (w1, (reaped, errs))
    | Some flush =>
        let '(w2, f) := flush w1 in
        (w2, (reaped, errs ++ match f with Err e => [EFlush e] | Ok _ => [] end))
    end.

(** [cmd/macvz-kubelet]: removal reaps with no expected Pods. *)
Definition ReapAll (dryRun : bool) (w : W) : W * (list string * list CleanError) :=
  let '(w1, r) := Scan ∅ w in
  match r with Err e => (w1, ([], [e])) | Ok orphans => Reap orphans dryRun w1 end.
End cleaner.

(** ** The reaper ([orphan.Reaper]) *)

Record ReapPolicy := mkReapPolicy { rp_Interval : Z; rp_GracePeriod : Z; rp_DryRun : bool }.

Record ReapResult := mkReapResult {
  rr_At : Z; rr_Scanned : nat; rr_Pending : nat; rr_Reaped : list string; rr_DryRun : bool;
  rr_Err : list CleanError;
}.

Record Reaper := mkReaper {
  rp_policy : ReapPolicy; rp_firstSeen : gmap string Z; rp_last : option ReapResult;
}.

Definition NewReaper (p : ReapPolicy) : Reaper := mkReaper p ∅ None.

(** One orphan: its first sighting is recorded, and it is mature when that lies
    a grace period back. *)
Definition classify (grace now : Z) (st : gmap string Z * list Orphan * nat) (o : Orphan)
    : gmap string Z * list Orphan * nat :=
  let '(seen, matured, pending) := st in
  let first := default now (seen !! o_ID o) in
  let seen := <[o_ID o := first]> seen in
  if grace <=? now - first then (seen, matured ++ [o], pending) else (seen, matured, S pending).

Definition partition (grace now : Z) (seen : gmap string Z) (orphans : list Orphan)
    : gmap string Z * list Orphan * nat :=
  let current : gset string := list_to_set (o_ID <$> orphans) in
  foldl (classify grace now) (filter (λ kv, kv.1 ∈ current) seen, [], O) orphans.

Section reaper.
Context {W : Type} (RT : Runtime W) (c : Cleaner W).

(** [expected]: what the Pod lister says at this pass. *)
Definition reapOnce (r : Reaper) (now : Z) (expected : result string (gset string)) (w : W)
    : Reaper * W :=
  let p := rp_policy r in
  let store seen res := mkReaper p seen (Some res) in
  match expected with
  | Err e => (store (rp_firstSeen r) (mkReapResult now 0 0 [] (rp_DryRun p) [EExpected e]), w)
  | Ok ex =>
      let '(w1, s) := Scan RT ex w in
      match s with
      | Err e => (store (rp_firstSeen r) (mkReapResult now 0 0 [] (rp_DryRun p) [e]), w1)
      | Ok orphans =>
          let '(seen, matured, pending) := partition (rp_GracePeriod p) now (rp_firstSeen r) orphans in
          match matured with
          | [] => (store seen (mkReapResult now (length orphans) pending [] (rp_DryRun p) []), w1)
          | _ =>
              let '(w2, (reaped, errs)) :=
                Reap RT c (sort_by (le_key o_ID) matured) (rp_DryRun p) w1 in
              let seen := if rp_DryRun p then seen else foldr delete seen reaped in
              (store seen (mkReapResult now (length orphans) pending reaped (rp_DryRun p) errs), w2)
          end
      end
  end.

(** The loop of [Run]: the passes so far, newest last.  Between two passes
    the rest of the node may do anything to the host, and the clock and the
    Pod lister may return anything.  A pass that could not list the Pods or
    the micro-VMs saw nothing. *)
Record pass := mkPass { ps_now : Z; ps_orphans : option (list string) }.

Definition pass_of (now : Z) (expected : result string (gset string)) (w : W) : pass :=
  mkPass now
    match expected with
    | Err _ => None
    | Ok ex => match (Scan RT ex w).2 with Ok l => Some (o_ID <$> l) | Err _ => None end
    end.

Inductive reaper_run (p : ReapPolicy) : Reaper → list pass → Prop :=
  | run_start : reaper_run p (NewReaper p) []
  | run_pass r h now ex w r' w' :
      reaper_run p r h → reapOnce r now ex w = (r', w') → reaper_run p r' (h ++ [pass_of now ex w]).

(** [id] was an orphan in every pass of [h] that saw anything, and in the
    first of them, at time [t]. *)
Definition orphaned_since (id : string) (t : Z) (h : list pass) : Prop :=
  ∃ h1 p h2, h = h1 ++ p :: h2 ∧ ps_now p = t ∧ (∃ l, ps_orphans p = Some l) ∧
    Forall (λ q, ∀ l, ps_orphans q = Some l → id ∈ l) (p :: h2).
End reaper.

(** ** Node removal ([noderemove.Run]) *)

Inductive StepStatus : Type := StepOK | StepSkipped | StepFailed.

#[export] Instance StepStatus_eq_dec : EqDecision StepStatus.
Proof. solve_decision. Defined.

Record StepResult := mkStep { sr_Name : string; sr_Status : StepStatus; sr_Detail : string; sr_Err : option string }.

Definition skipped (name detail : string) : StepResult := mkStep name StepSkipped detail None.

Definition clean_error_text (e : CleanError) : string :=
  match e with
  | EStop id e => "stop " +:+ id +:+ ": " +:+ re_text e
  | EDestroy id e => "destroy " +:+ id +:+ ": " +:+ re_text e
  | EFlush e => "flush pf anchor: " +:+ e
  | EList e => "list workloads: " +:+ re_text e
  | EExpected e => e
  end.

(** [errors.Join] prints one error a line. *)
Definition errors_text (l : list CleanError) : string := Join (clean_error_text <$> l) nl.

Definition summarizeIDs (ids : list string) : string := match ids with [] => "(none)" | _ => Join ids ", " end.

Record RemoveOptions (W : Type) := mkRemove {
  ro_Node : string; ro_DryRun : bool;
  ro_Nodes : option (string → W → W * result string unit);
  ro_VMs : option (bool → W → W * (list string * list CleanError));
  ro_PF : option (W → W * result string unit);
  ro_Mesh : option (W → W * result string unit);
}.
Arguments mkRemove {W}. Arguments ro_Node {W}. Arguments ro_DryRun {W}. Arguments ro_Nodes {W}.
Arguments ro_VMs {W}. Arguments ro_PF {W}. Arguments ro_Mesh {W}.

Section remove.
Context {W : Type}.

(** A nil dependency is [None]; [detail] is what a step reports when it succeeds. *)
Definition runStep (name : string) (dryRun : bool) (skipReason detail : string) (action : option (W → W * result string unit)) (w : W)
    : W * StepResult :=
  match action with
  | None => (w, skipped name skipReason)
  | Some act =>
      if dryRun then (w, skipped name "dry-run: would run")
      else
        let '(w', r) := act w in
        (w', match r with Ok _ => mkStep name StepOK detail None | Err e => mkStep name StepFailed "step failed" (Some e) end)
  end.

Definition runReapVMs (o : RemoveOptions W) (w : W) : W * StepResult :=
  match ro_VMs o with
  | None => (w, skipped "reap-vms" "runtime unavailable")
  | Some reap =>
      let '(w', (reaped, errs)) := reap (ro_DryRun o) w in
      let n := Itoa (Z.of_nat (length reaped)) in
      (w',
       match errs with
       | _ :: _ => mkStep "reap-vms" StepFailed ("reaped " +:+ n +:+ " micro-VM(s) before error: " +:+ summarizeIDs reaped) (Some (errors_text errs))
       | [] =>
           if ro_DryRun o then
             skipped "reap-vms" (match reaped with
                                 | [] => "dry-run: no MacVz micro-VMs to remove"
                                 | _ => "dry-run: would destroy " +:+ n +:+ " micro-VM(s): " +:+ summarizeIDs reaped
                                 end)
           else mkStep "reap-vms" StepOK
                  (match reaped with
                   | [] => "no MacVz micro-VMs to remove"
                   | _ => "destroyed " +:+ n +:+ " micro-VM(s): " +:+ summarizeIDs reaped
                   end) None
       end)
  end.

Definition Run (o : RemoveOptions W) (w : W) : W * list StepResult :=
  let '(w1, s1) := runStep "delete-node" (ro_DryRun o) "no kubeconfig or --keep-node set"
                     ("Node " +:+ Quote (ro_Node o) +:+ " deleted")
                     (match ro_Nodes o with Some d => Some (d (ro_Node o)) | None => None end) w in
  let '(w2, s2) := runReapVMs o w1 in
  let '(w3, s3) := runStep "flush-pf" (ro_DryRun o) "Pod network not enabled" "pf anchor flushed" (ro_PF o) w2 in
  let '(w4, s4) := runStep "mesh-down" (ro_DryRun o) "mesh not enabled" "routes deleted and interface destroyed" (ro_Mesh o) w3 in
  (w4, [s1; s2; s3; s4]).

(** No step failed. *)
Definition Result_OK (steps : list StepResult) : bool :=
  forallb (λ s, negb (bool_decide (sr_Status s = StepFailed))) steps.
End remove.

(** ** What reaping does to the host *)

Section host.
Context {W : Type} (RT : Runtime W) `{!VmHost RT} (c : Cleaner W).

Lemma Scan_vms ex w : vms (Scan RT ex w).1 = vms w.
Proof.
  unfold Scan. pose proof (vms_List w) as H. destruct (rt_List RT w) as [w' [l|e]]; exact H.
Qed.

(** Scanning finds exactly the node's micro-VMs outside the expected set. *)
Lemma Scan_exact ex w w' l id :
  Scan RT ex w = (w', Ok l) →
  id ∈ o_ID <$> l ↔ id ∈ vms w ∧ IsMacVzVM id = true ∧ id ∉ ex.
Proof.
  unfold Scan. destruct (rt_List RT w) as [w1 [all|e]] eqn:E; intros; simplify_eq.
  apply vms_listed in E. rewrite <- E, elem_of_list_to_set.
  rewrite list_elem_of_fmap. setoid_rewrite sort_by_perm. setoid_rewrite list_elem_of_omap.
  rewrite list_elem_of_fmap. unfold orphan_of. split.
  - intros (o & -> & s & Hs & Ho). destruct (negb _ || _) eqn:Eb; [done|]. bools. simplify_eq. eauto.
  - intros ((s & -> & Hs) & Hm & Hx). exists (mkOrphan (st_ID s) (st_Phase s)). split; [done|].
    exists s. split; [done|]. by rewrite Hm, bool_decide_eq_false_2.
Qed.

Lemma reap_one_vms t id w w' errs gone :
  reap_one RT t id w = (w', (errs, gone)) →
  (vms w' = vms w ∨ vms w' = vms w ∖ {[id]}) ∧ (gone = true → vms w' = vms w ∖ {[id]}) ∧
  (errs = [] → gone = true).
Proof.
  unfold reap_one. pose proof (vms_Stop id t w) as Hs. destruct (rt_Stop RT id t w) as [w1 s]. simpl in Hs.
  destruct (rt_Destroy RT id w1) as [w2 d] eqn:Ed. pose proof (vms_Destroy _ _ _ _ Ed) as Hd.
  rewrite Hs in Hd. clear Ed. destruct d as [u|e]; simpl in *.
  - intros; simplify_eq. naive_solver.
  - destruct (negb _); intros; simplify_eq; [|naive_solver]. split_and!; [done|done|].
    by intros [_ ?]%app_eq_nil.
Qed.

Lemma reap_loop_vms t l w w' errs reaped :
  reap_loop RT t l w = (w', (errs, reaped)) →
  vms w' ⊆ vms w ∧ (∀ id, id ∈ vms w → id ∉ vms w' → id ∈ o_ID <$> l) ∧
  (∀ id, id ∈ reaped → id ∉ vms w') ∧ (errs = [] → reaped = o_ID <$> l) ∧
  (∀ id, id ∈ reaped → id ∈ o_ID <$> l).
Proof.
  revert w w' errs reaped. induction l as [|o l IH]; intros w w' errs reaped H; simpl in H.
  { simplify_eq. set_solver. }
  destruct (reap_one RT t (o_ID o) w) as [w1 [e1 gone]] eqn:E1.
  destruct (reap_loop RT t l w1) as [w2 [e2 r2]] eqn:E2. simplify_eq.
  apply reap_one_vms in E1 as (H1 & Hg & He). apply IH in E2 as (S & D & G & A & M).
  split_and!.
  - etrans; [exact S|]. destruct H1 as [-> | ->]; [done|apply subseteq_difference_l; done].
  - intros id Hid Hn. apply elem_of_cons.
    destruct (decide (id ∈ vms w1)) as [Hi|Hi]; [right; by apply D|left].
    destruct H1 as [E|E]; rewrite E in Hi; [done|]. destruct (decide (id = o_ID o)); [done|].
    destruct Hi. by apply elem_of_difference; rewrite not_elem_of_singleton.
  - intros id. destruct gone; [|by apply G]. intros [->|Hr]%elem_of_cons; [|by apply G].
    rewrite Hg in S by done. clear - S. set_solver.
  - intros [-> ->]%app_eq_nil. rewrite He by done. simpl. by rewrite A.
  - intros id. rewrite fmap_cons, elem_of_cons. destruct gone; rewrite ?elem_of_cons; naive_solver.
Qed.

Lemma Reap_vms l dry w w' reaped errs :
  cl_Flusher c = None → Reap RT c l dry w = (w', (reaped, errs)) →
  (dry = true → vms w' = vms w) ∧ vms w' ⊆ vms w ∧
  (∀ id, id ∈ vms w → id ∉ vms w' → id ∈ o_ID <$> l) ∧
  (dry = false → errs = [] → ∀ id, id ∈ o_ID <$> l → id ∉ vms w').
Proof.
  intros Hf. unfold Reap. destruct dry; [intros; simplify_eq; set_solver|].
  destruct (reap_loop _ _ l w) as [w1 [e r]] eqn:E. rewrite Hf. intros; simplify_eq.
  apply reap_loop_vms in E as (S & D & G & A & M). split_and!; [done|done|done|].
  intros _ He id. rewrite <- (A He). apply G.
Qed.

(** Reaping everything without an error takes the node's micro-VMs and no others. *)
Lemma ReapAll_exact w w' reaped id :
  cl_Flusher c = None → ReapAll RT c false w = (w', (reaped, [])) → id ∈ vms w' ↔ id ∈ vms w ∧ IsMacVzVM id = false.
Proof.
  intros Hf E. unfold ReapAll in E.
  pose proof (Scan_vms ∅ w) as Hv. destruct (Scan RT ∅ w) as [w1 [l|e]] eqn:Es; simpl in Hv; [|done].
  pose proof (Scan_exact ∅ w w1 l id Es) as Hex.
  apply Reap_vms in E as (_ & Hsub & Hgone & Hall); [|done]. rewrite Hv in *.
  specialize (Hgone id). specialize (Hall eq_refl eq_refl id). specialize (Hsub id).
  destruct (IsMacVzVM id) eqn:Em.
  - split; [|by intros []]. intros Hin. destruct Hall; [|done]. apply Hex. set_solver.
  - split; [intros Hin; split; [by apply Hsub|done]|]. intros [Hin _].
    destruct (decide (id ∈ vms w')) as [|Hn]; [done|].
    apply Hex in Hgone as (_ & ? & _); [done|done|done].
Qed.
End host.

(** ** The grace period *)


(** A first sighting comes from the old record or from this pass. *)
Definition sighting (seen0 : gmap string Z) (now : Z) (ids : list string) (seen : gmap string Z) : Prop :=
  ∀ id t, seen !! id = Some t → seen0 !! id = Some t ∨ (t = now ∧ id ∈ ids).

Definition mature (grace now : Z) (seen : gmap string Z) (ids : list string) (o : Orphan) : Prop :=
  o_ID o ∈ ids ∧ ∃ t, seen !! o_ID o = Some t ∧ grace ≤ now - t.

Lemma classify_keeps grace now seen matured pending o id t :
  seen !! id = Some t → (classify grace now (seen, matured, pending) o).1.1 !! id = Some t.
Proof.
  intros Hs. unfold classify. destruct (decide (id = o_ID o)) as [->|Hn].
  - rewrite Hs. simpl. destruct (_ <=? _); simpl; by rewrite lookup_insert_eq.
  - destruct (_ <=? _); simpl; by rewrite lookup_insert_ne.
Qed.

Lemma classify_fold grace now seen0 ids orphans seen matured pending :
  (∀ o, o ∈ orphans → o_ID o ∈ ids) →
  sighting seen0 now ids seen → Forall (mature grace now seen ids) matured →
  ∀ seen' matured' pending',
  foldl (classify grace now) (seen, matured, pending) orphans = (seen', matured', pending') →
  sighting seen0 now ids seen' ∧ Forall (mature grace now seen' ids) matured'.
Proof.
  revert seen matured pending. induction orphans as [|o l IH]; intros seen matured pending Hin Hs Hm s m p H.
  { simpl in H. by simplify_eq. }
  cbn [foldl] in H. destruct (classify grace now (seen, matured, pending) o) as [[s1 m1] p1] eqn:E.
  refine (IH s1 m1 p1 (λ o' Ho', Hin o' (list_elem_of_further _ _ _ Ho')) _ _ s m p H).
  - intros id t Hid. unfold classify in E. destruct (decide (id = o_ID o)) as [->|Hn].
    + destruct (seen !! o_ID o) as [t0|] eqn:E0; [apply Hs; rewrite E0|right];
        destruct (_ <=? _); simplify_eq; rewrite lookup_insert_eq in Hid; simplify_eq; [done..| |];
        (split; [done|apply Hin, list_elem_of_here]).
    + apply Hs. destruct (_ <=? _); simplify_eq; by rewrite lookup_insert_ne in Hid.
  - assert (Forall (mature grace now s1 ids) matured) as Hold.
    { eapply Forall_impl; [exact Hm|]. intros x (Hx & t & Ht & Hg). split; [done|]. exists t. split; [|done].
      apply (classify_keeps grace now seen matured pending o) in Ht. by rewrite E in Ht. }
    unfold classify in E. destruct (grace <=? now - default now (seen !! o_ID o)) eqn:Eg; simplify_eq; [|done].
    apply Forall_app. split; [done|]. bools. constructor; [|done].
    split; [apply Hin, list_elem_of_here|]. eexists. split; [apply lookup_insert_eq|done].
Qed.

Lemma partition_spec grace now seen0 orphans seen matured pending :
  partition grace now seen0 orphans = (seen, matured, pending) →
  (∀ id t, seen !! id = Some t →
     id ∈ o_ID <$> orphans ∧ (seen0 !! id = Some t ∨ t = now)) ∧
  Forall (mature grace now seen (o_ID <$> orphans)) matured.
Proof.
  unfold partition. set (cur := list_to_set _). intros H.
  destruct (classify_fold grace now (filter (λ kv : string * Z, kv.1 ∈ cur) seen0) (o_ID <$> orphans) orphans
    (filter (λ kv : string * Z, kv.1 ∈ cur) seen0) [] O) with (4 := H) as [Hs Hm].
  - intros o Ho. by apply list_elem_of_fmap_2.
  - intros id t Ht. by left.
  - done.
  - split; [|done]. intros id t Ht. destruct (Hs id t Ht) as [Hf|[-> Hid]]; [|auto].
    apply map_lookup_filter_Some in Hf as [Hf Hc]. simpl in Hc. unfold cur in Hc.
    rewrite elem_of_list_to_set in Hc. auto.
Qed.

Lemma orphaned_since_app id t h p :
  (∀ l, ps_orphans p = Some l → id ∈ l) → orphaned_since id t h → orphaned_since id t (h ++ [p]).
Proof.
  intros Hp (h1 & q & h2 & -> & Ht & Hl & Hf). exists h1, q, (h2 ++ [p]).
  rewrite <- app_assoc. split_and!; [done|done|done|]. rewrite app_comm_cons.
  apply Forall_app. split; [done|]. by constructor.
Qed.

Lemma orphaned_since_new id p h l :
  ps_orphans p = Some l → id ∈ l → orphaned_since id (ps_now p) (h ++ [p]).
Proof.
  intros Hp Hid. exists h, p, []. split_and!; [done|done|by exists l|]. constructor; [|done].
  intros l' Hl'. by simplify_eq.
Qed.

Lemma foldr_delete_lookup {A} (m : gmap string A) ids id x :
  foldr delete m ids !! id = Some x → m !! id = Some x.
Proof.
  induction ids as [|i ids IH]; simpl; [done|]. intros H. apply IH.
  by apply lookup_delete_Some in H as [_ ?].
Qed.

Section grace.
Context {W : Type} (RT : Runtime W) `{!VmHost RT} (c : Cleaner W) (p : ReapPolicy).

(** Every first sighting on record is the start of an unbroken orphanhood. *)
Definition sightings_true (r : Reaper) (h : list pass) : Prop :=
  rp_policy r = p ∧ ∀ id t, rp_firstSeen r !! id = Some t → orphaned_since id t h.

Lemma seen_true r h now ex w w1 orphans seen matured pending :
  sightings_true r h → Scan RT ex w = (w1, Ok orphans) →
  partition (rp_GracePeriod p) now (rp_firstSeen r) orphans = (seen, matured, pending) →
  ∀ id t, seen !! id = Some t → orphaned_since id t (h ++ [pass_of RT now (Ok ex) w]).
Proof.
  intros [_ Hr] Es Ep id t Hid. apply partition_spec in Ep as [Hp _].
  assert (ps_orphans (pass_of RT now (Ok ex) w) = Some (o_ID <$> orphans)) as Hps by (simpl; by rewrite Es).
  destruct (Hp id t Hid) as [Hin [Hold| ->]].
  - apply orphaned_since_app; [|by apply Hr]. intros l Hl. by simplify_eq.
  - by eapply (orphaned_since_new id (pass_of RT now (Ok ex) w)).
Qed.

Lemma reapOnce_sightings r h now ex w r' w' :
  sightings_true r h → reapOnce RT c r now ex w = (r', w') →
  sightings_true r' (h ++ [pass_of RT now ex w]).
Proof.
  intros Hr H. destruct Hr as [Hpol Hseen]. unfold reapOnce in H. rewrite Hpol in H.
  assert (ps_orphans (pass_of RT now ex w) = None →
    ∀ id t, rp_firstSeen r !! id = Some t → orphaned_since id t (h ++ [pass_of RT now ex w])) as Hskip.
  { intros Hn id t Ht. apply orphaned_since_app; [|by apply Hseen]. intros l Hl. by simplify_eq. }
  destruct ex as [ex|e]; [|by simplify_eq; split; [|apply Hskip]].
  destruct (Scan RT ex w) as [w1 [orphans|e]] eqn:Es.
  - destruct (partition _ _ _ _) as [[seen matured] pending] eqn:Ep.
    pose proof (seen_true _ _ _ _ _ _ _ _ _ _ (conj Hpol Hseen) Es Ep) as Hs.
    destruct matured as [|m ms]; [by simplify_eq|].
    destruct (Reap _ _ _ _ w1) as [w2 [reaped errs]]. simplify_eq. split; [done|].
    intros id t Ht. apply Hs. simpl in Ht. destruct (rp_DryRun p); [done|].
    by apply foldr_delete_lookup in Ht.
  - simplify_eq. split; [done|]. apply Hskip. simpl. by rewrite Es.
Qed.

Lemma run_sightings r h : reaper_run RT c p r h → sightings_true r h.
Proof.
  induction 1; [|by eapply reapOnce_sightings]. split; [done|]. intros id t. simpl. by rewrite lookup_empty.
Qed.
End grace.

(** C10: the reaper never takes down a live workload.  Whatever happens on the
    node between its passes, a micro-VM disappears in a pass only if it is one
    of the node's own, the Pod lister answered and does not expect it, the
    policy is not a dry run, and it was an orphan in every pass that saw the
    host since a first sighting at least a grace period ago. *)
Theorem reaper_spares_live {W} (RT : Runtime W) `{!VmHost RT} (c : Cleaner W) p r h now ex w r' w' id :
  cl_Flusher c = None → reaper_run RT c p r h → reapOnce RT c r now ex w = (r', w') →
  id ∈ vms w → id ∉ vms w' →
  IsMacVzVM id = true ∧ (∃ live, ex = Ok live ∧ id ∉ live) ∧ rp_DryRun p = false ∧
  ∃ t, rp_GracePeriod p ≤ now - t ∧ orphaned_since id t (h ++ [pass_of RT now ex w]).
Proof.
  intros Hf Hrun H Hin Hout. apply run_sightings in Hrun as Hr. destruct Hr as [<- Hseen].
  unfold reapOnce in H. destruct ex as [ex|e]; [|by simplify_eq].
  pose proof (Scan_vms RT ex w) as Hv. destruct (Scan RT ex w) as [w1 [orphans|e]] eqn:Es; simpl in Hv;
    [|simplify_eq; by rewrite Hv in Hout].
  destruct (partition _ _ _ _) as [[seen matured] pending] eqn:Ep.
  pose proof (seen_true RT (rp_policy r) _ _ _ _ _ _ _ _ _ _ (conj eq_refl Hseen) Es Ep) as Hs.
  destruct matured as [|m ms]; [simplify_eq; by rewrite Hv in Hout|].
  destruct (Reap _ _ _ _ w1) as [w2 [reaped errs]] eqn:Er. simplify_eq.
  apply (Reap_vms RT c) in Er as (Hdry & _ & Hgone & _); [|done]. rewrite Hv in *.
  specialize (Hgone id Hin Hout). rewrite sort_by_perm in Hgone.
  apply list_elem_of_fmap in Hgone as (o & -> & Ho).
  apply partition_spec in Ep as [_ Hm]. rewrite Forall_forall in Hm.
  destruct (Hm o Ho) as (Hoin & t & Ht & Hg).
  apply (Scan_exact RT ex w w1 orphans _ Es) in Hoin as (_ & Hmac & Hex).
  split_and!; [done|by exists ex| |exists t; split; [done|by apply Hs]].
  destruct (rp_DryRun _); [|done]. by rewrite Hdry in Hout.
Qed.

Definition three_vms : VmSim :=
  mkSim (<["macvz-ns-a-web" := mkStatus "" PhaseRunning 0 "" 0 "192.168.64.2"]>
         (<["macvz-ns-b-web" := mkStatus "" PhaseRunning 0 "" 0 "192.168.64.3"]>
         (<["other" := mkStatus "" PhaseRunning 0 "" 0 "192.168.64.4"]> ∅))) 5 [].

Definition nil_cleaner : Cleaner VmSim := mkCleaner None 0.
Definition five_minutes : ReapPolicy := mkReapPolicy (seconds 60) (seconds 300) false.

Definition first_pass := reapOnce vm_sim nil_cleaner (NewReaper five_minutes) 0 (Ok {["macvz-ns-b-web"]}) three_vms.
Definition second_pass :=
  reapOnce vm_sim nil_cleaner first_pass.1 (seconds 300) (Ok {["macvz-ns-b-web"]}) first_pass.2.

Lemma reaper_spares_live_witness :
  dom (sim_vms first_pass.2) = dom (sim_vms three_vms) ∧
  dom (sim_vms second_pass.2) = ({["macvz-ns-b-web"; "other"]} : gset string) ∧
  IsMacVzVM "macvz-ns-a-web" = true ∧
  ∃ t, seconds 300 ≤ seconds 300 - t ∧
    orphaned_since "macvz-ns-a-web" t
      ([pass_of vm_sim 0 (Ok {["macvz-ns-b-web"]}) three_vms]
       ++ [pass_of vm_sim (seconds 300) (Ok {["macvz-ns-b-web"]}) first_pass.2]).
Proof.
  split; [by apply (bool_decide_unpack _); vm_compute|].
  split; [by apply (bool_decide_unpack _); vm_compute|].
  destruct (reaper_spares_live vm_sim nil_cleaner five_minutes first_pass.1
    [pass_of vm_sim 0 (Ok {["macvz-ns-b-web"]}) three_vms] (seconds 300) (Ok {["macvz-ns-b-web"]})
    first_pass.2 second_pass.1 second_pass.2 "macvz-ns-a-web") as (H1 & _ & _ & H4).
  - done.
  - apply (run_pass vm_sim nil_cleaner five_minutes (NewReaper five_minutes) [] 0
      (Ok {["macvz-ns-b-web"]}) three_vms first_pass.1 first_pass.2); [constructor|].
    unfold first_pass. by destruct (reapOnce _ _ _ _ _ _).
  - unfold second_pass. by destruct (reapOnce _ _ _ _ _ _).
  - by apply (bool_decide_unpack _); vm_compute.
  - by apply (bool_decide_unpack _); vm_compute.
  - by split.
Defined.

(** A node removal that reports success left nothing behind and touched
    nothing else: when the micro-VM step of a real run did not fail, no
    micro-VM with the node's prefix exists afterwards, and every other
    workload of the host still does. *)
Theorem removal_reaps_exactly {W} (RT : Runtime W) `{!VmHost RT} (c : Cleaner W) (o : RemoveOptions W) w w' s :
  cl_Flusher c = None → ro_VMs o = Some (ReapAll RT c) → ro_DryRun o = false →
  runReapVMs o w = (w', s) → sr_Status s ≠ StepFailed →
  ∀ id, id ∈ vms w' ↔ id ∈ vms w ∧ IsMacVzVM id = false.
Proof.
  intros Hf Ho Hd H Hs id. unfold runReapVMs in H. rewrite Ho, Hd in H.
  destruct (ReapAll RT c false w) as [w2 [reaped errs]] eqn:E. simplify_eq. simpl in Hs.
  destruct errs; [|done]. by eapply ReapAll_exact.
Qed.

Definition remove_all : RemoveOptions VmSim :=
  mkRemove "mac-1" false None (Some (ReapAll vm_sim nil_cleaner)) None None.

Lemma removal_reaps_exactly_witness :
  let after := vms (RT := vm_sim) (runReapVMs remove_all three_vms).1 in
  ("macvz-ns-a-web" ∈ after ↔ "macvz-ns-a-web" ∈ vms (RT := vm_sim) three_vms ∧ IsMacVzVM "macvz-ns-a-web" = false) ∧
  ("other" ∈ after ↔ "other" ∈ vms (RT := vm_sim) three_vms ∧ IsMacVzVM "other" = false).
Proof.
  pose proof (removal_reaps_exactly vm_sim nil_cleaner remove_all three_vms
    (runReapVMs remove_all three_vms).1 (runReapVMs remove_all three_vms).2 eq_refl eq_refl eq_refl) as F.
  assert (runReapVMs remove_all three_vms =
    ((runReapVMs remove_all three_vms).1, (runReapVMs remove_all three_vms).2)) as E
    by (by destruct (runReapVMs remove_all three_vms)).
  specialize (F E ltac:(vm_compute; discriminate)). split; apply F.
Defined.
