(* ===== verification/Provider.v ===== *)
(** * Pod status: [pkg/provider] provider.go, status.go, restart.go (decisions),
      probe.go

    The provider's store of Pods, the reconciliation of a Pod's status from
    what the runtime reports, the restart decision and its backoff, and the
    probe loops.  Goroutines are values: a restart that [go] launches is a task
    in the provider's state, stepped by [Lifecycle]. *)

From S2P Require Import Prelude GoStrings GoNet Ipam Host PodNet WireGuard Filepath Sha256 PodSpec PodEnv Volumes.
From S2P Require Import Runtime.

Open Scope Z_scope.

(** [int32(x)] *)
Definition int32 (x : Z) : Z := (x + 2 ^ 31) mod 2 ^ 32 - 2 ^ 31.

(** ** Status records *)

Inductive PodPhase : Type := PodPending | PodRunning | PodSucceeded | PodFailed.

#[export] Instance PodPhase_eq_dec : EqDecision PodPhase.
Proof. solve_decision. Defined.

(** Message texts: written out, or the rendering of an error value. *)
Inductive Text : Type := Txt (s : string) | OfSpec (e : PodError) | OfPull (image : string) (e : RtError).

Definition no_text (t : Text) : bool := match t with Txt s => String.eqb s "" | _ => false end.

Inductive CState : Type :=
  | CWaiting (reason : string) (msg : Text)
  | CRunning (startedAt : Z)
  | CTerminated (code : Z) (reason : string) (msg : Text) (containerID : string).

Record ContainerStatus := mkCS {
  cs_Name : string; cs_Image : string; cs_ContainerID : string;
  cs_State : CState; cs_Ready : bool; cs_Started : option bool; cs_RestartCount : Z;
}.

Inductive CondType : Type := PodInitialized | PodReady | ContainersReady.

#[export] Instance CondType_eq_dec : EqDecision CondType.
Proof. solve_decision. Defined.

Record PodCondition := mkCond { pc_Type : CondType; pc_Status : bool; pc_Reason : string; pc_Message : Text }.

Record PodStatus := mkPodStatus {
  pst_Phase : PodPhase; pst_Reason : string; pst_Message : Text; pst_StartTime : option Z;
  pst_PodIP : string; pst_PodIPs : list string; pst_HostIP : string; pst_HostIPs : list string;
  pst_ContainerStatuses : list ContainerStatus; pst_Conditions : list PodCondition;
}.

Definition zero_status : PodStatus := mkPodStatus PodPending "" (Txt "") None "" [] "" [] [] [].

Record workload := mkWorkload { wl_container : string; wl_id : string }.

Record probeState := mkProbes {
  pr_hasStartup : bool; pr_hasReadiness : bool; pr_hasLiveness : bool;
  pr_startupDone : bool; pr_ready : bool;
}.

Record podState := mkPodState {
  ps_pod : Pod; ps_status : PodStatus; ps_workloads : list workload;
  ps_terminalStatus : option PodStatus; ps_vmIP : string; ps_attached : bool;
  ps_spec : ContainerSpec; ps_restartPolicy : string; ps_restarts : gmap string Z;
  ps_restarting : bool; ps_probes : option probeState;
}.

(** A restart goroutine: waiting out its backoff, working on a snapshot of the
    Pod, or about to commit its outcome. *)
Inductive stage : Type :=
  | Backoff (delay : Z)
  | Working (spec : ContainerSpec) (podIP : string) (wasAttached : bool)
  | Committing (newID : string) (attached : bool) (vmIP : string).

Record task := mkTask { tk_key : string; tk_oldID : string; tk_stage : stage }.

Record Provider := mkProvider {
  pv_pods : gmap string podState; pv_tasks : list task;
  pv_ipam : option PodIPAM; pv_podNet : option Router; pv_hostIP : string;
  pv_volumes : VolumePolicy; pv_dns : DNSConfig;
  pv_configMaps : ConfigMapGetter; pv_secrets : SecretGetter; pv_tokens : TokenRequester;
  pv_restartBackoffBase : Z;
}.

Definition podKey (ns name : string) : string := ns +:+ "/" +:+ name.

Definition defaultRestartBackoffBase : Z := 10 * 1000000000.
Definition defaultStopTimeout : Z := 30 * 1000000000.

Definition NewProvider (ipam : option PodIPAM) (pn : option Router) (hostIP : string) (v : VolumePolicy)
    (dns : DNSConfig) (cms : ConfigMapGetter) (secrets : SecretGetter) (tokens : TokenRequester) : Provider :=
  mkProvider ∅ [] ipam pn hostIP v dns cms secrets tokens defaultRestartBackoffBase.

Definition stopTimeout (pod : Pod) : Z :=
  match pod_TerminationGracePeriodSeconds pod with Some s => s * 1000000000 | None => defaultStopTimeout end.

Definition with_pods (p : Provider) (m : gmap string podState) : Provider :=
  mkProvider m (pv_tasks p) (pv_ipam p) (pv_podNet p) (pv_hostIP p) (pv_volumes p) (pv_dns p)
    (pv_configMaps p) (pv_secrets p) (pv_tokens p) (pv_restartBackoffBase p).
Definition with_tasks (p : Provider) (l : list task) : Provider :=
  mkProvider (pv_pods p) l (pv_ipam p) (pv_podNet p) (pv_hostIP p) (pv_volumes p) (pv_dns p)
    (pv_configMaps p) (pv_secrets p) (pv_tokens p) (pv_restartBackoffBase p).
Definition with_ipam (p : Provider) (a : option PodIPAM) : Provider :=
  mkProvider (pv_pods p) (pv_tasks p) a (pv_podNet p) (pv_hostIP p) (pv_volumes p) (pv_dns p)
    (pv_configMaps p) (pv_secrets p) (pv_tokens p) (pv_restartBackoffBase p).
Definition with_podNet (p : Provider) (rt : option Router) : Provider :=
  mkProvider (pv_pods p) (pv_tasks p) (pv_ipam p) rt (pv_hostIP p) (pv_volumes p) (pv_dns p)
    (pv_configMaps p) (pv_secrets p) (pv_tokens p) (pv_restartBackoffBase p).

Definition set_status (st : podState) (s : PodStatus) : podState :=
  mkPodState (ps_pod st) s (ps_workloads st) (ps_terminalStatus st) (ps_vmIP st) (ps_attached st) (ps_spec st)
    (ps_restartPolicy st) (ps_restarts st) (ps_restarting st) (ps_probes st).
Definition set_restarting (st : podState) (b : bool) : podState :=
  mkPodState (ps_pod st) (ps_status st) (ps_workloads st) (ps_terminalStatus st) (ps_vmIP st) (ps_attached st)
    (ps_spec st) (ps_restartPolicy st) (ps_restarts st) b (ps_probes st).
Definition set_probes (st : podState) (pr : option probeState) : podState :=
  mkPodState (ps_pod st) (ps_status st) (ps_workloads st) (ps_terminalStatus st) (ps_vmIP st) (ps_attached st)
    (ps_spec st) (ps_restartPolicy st) (ps_restarts st) (ps_restarting st) pr.

(** ** Restart decisions *)

Definition restartBackoffMax : Z := 300 * 1000000000.

Definition effectiveRestartPolicy (pod : Pod) : string :=
  if String.eqb (pod_RestartPolicy pod) "" then RestartPolicyAlways else pod_RestartPolicy pod.

Definition shouldRestart (policy : string) (exitCode : Z) : bool :=
  if String.eqb policy RestartPolicyAlways then true
  else if String.eqb policy RestartPolicyOnFailure then negb (exitCode =? 0)
  else false.

(** Doubling [count] times, cut off at the maximum.  The product stays below
    twice the maximum, far from the width of a [time.Duration]. *)
Fixpoint backoff_loop (count : nat) (d : Z) : Z :=
  match count with
  | O => d
  | S n => let d' := d * 2 in if restartBackoffMax <=? d' then restartBackoffMax else backoff_loop n d'
  end.

Definition restartBackoff (base count : Z) : Z := backoff_loop (Z.to_nat count) base.

(** The container restarts: already in flight, or launched now. *)
Definition maybeTriggerRestart (base : Z) (st : podState) (container oldID : string) (exitCode : Z)
    : podState * list task * bool :=
  if negb (shouldRestart (ps_restartPolicy st) exitCode) then (st, [], false)
  else if ps_restarting st then (st, [], true)
  else
    let backoff := restartBackoff base (default 0 (ps_restarts st !! container)) in
    (set_restarting st true,
     [mkTask (podKey (pod_Namespace (ps_pod st)) (pod_Name (ps_pod st))) oldID (Backoff backoff)], true).

(** ** Container statuses *)

Definition nonZero (code : Z) : Z := if code =? 0 then 1 else code.

Definition containerID (id : string) : string := "macvz://" +:+ id.

Definition containerStatus (c : Container) (id : string) (rs : Status) : ContainerStatus :=
  let cs state ready started := mkCS (c_Name c) (c_Image c) (containerID id) state ready started 0 in
  match st_Phase rs with
  | PhaseRunning => cs (CRunning (st_StartedAt rs)) true (Some true)
  | PhaseStopped =>
      cs (CTerminated (int32 (st_ExitCode rs)) "Completed" (Txt (st_Message rs)) (containerID id)) false None
  | PhaseFailed =>
      cs (CTerminated (nonZero (int32 (st_ExitCode rs))) "Error" (Txt (st_Message rs)) (containerID id)) false None
  | PhaseCreated => cs (CWaiting "Created" (Txt (st_Message rs))) false None
  | PhaseUnknown => cs (CWaiting "Unknown" (Txt (st_Message rs))) false None
  end.

Definition restartingStatus (c : Container) (restartCount : Z) : ContainerStatus :=
  mkCS (c_Name c) (c_Image c) ""
    (CWaiting "CrashLoopBackOff" (Txt "container exited; restarting per restartPolicy")) false None restartCount.

Definition waitingStatus (c : Container) (reason : string) (msg : Text) : ContainerStatus :=
  mkCS (c_Name c) (c_Image c) "" (CWaiting reason msg) false None 0.

Definition terminatedStatus (c : Container) (id : string) (code : Z) (reason msg : string) : ContainerStatus :=
  mkCS (c_Name c) (c_Image c) (containerID id) (CTerminated code reason (Txt msg) "") false None 0.

Definition with_restart_count (cs : ContainerStatus) (n : Z) : ContainerStatus :=
  mkCS (cs_Name cs) (cs_Image cs) (cs_ContainerID cs) (cs_State cs) (cs_Ready cs) (cs_Started cs) n.

Definition previousContainerStatus (s : PodStatus) (name : string) : option ContainerStatus :=
  List.find (λ cs, String.eqb (cs_Name cs) name) (pst_ContainerStatuses s).

(** ** Phase and conditions *)

Definition is_waiting (s : CState) : bool := match s with CWaiting _ _ => true | _ => false end.
Definition is_running (s : CState) : bool := match s with CRunning _ => true | _ => false end.
Definition is_succeeded (s : CState) : bool := match s with CTerminated code _ _ _ => code =? 0 | _ => false end.
Definition is_failed (s : CState) : bool :=
  match s with CTerminated code _ _ _ => negb (code =? 0) | _ => false end.

Definition count_states (f : CState → bool) (l : list ContainerStatus) : nat :=
  length (List.filter (λ s, f (cs_State s)) l).

Definition aggregatePhase (l : list ContainerStatus) : PodPhase :=
  if (length l =? 0)%nat then PodPending
  else if (0 <? count_states is_failed l)%nat then PodFailed
  else if (0 <? count_states is_waiting l)%nat then PodPending
  else if (0 <? count_states is_running l)%nat then PodRunning
  else if (count_states is_succeeded l =? length l)%nat then PodSucceeded
  else PodPending.

Definition podConditions (phase : PodPhase) (ready : bool) : list PodCondition :=
  [mkCond PodInitialized (negb (bool_decide (phase = PodPending))) "" (Txt "");
   mkCond ContainersReady ready "" (Txt ""); mkCond PodReady ready "" (Txt "")].

Definition withConditionReason (l : list PodCondition) (reason : string) (msg : Text) : list PodCondition :=
  (λ c, if bool_decide (pc_Type c = PodReady) || bool_decide (pc_Type c = ContainersReady)
        then mkCond (pc_Type c) false reason msg else c) <$> l.

(** Started and ready, from the probe results. *)
Definition probeReadiness (st : podState) (phase : PodPhase) : bool * bool :=
  let running := bool_decide (phase = PodRunning) in
  match ps_probes st with
  | None => (running, running)
  | Some pr =>
      if negb running then (running, running)
      else
        let started := if pr_hasStartup pr then pr_startupDone pr else running in
        (started, if negb started then false else if pr_hasReadiness pr then pr_ready pr else true)
  end.

(** ** Reconciliation *)

Record recon := mkRecon {
  rc_st : podState; rc_tasks : list task; rc_statuses : list ContainerStatus; rc_PodIP : string; rc_Message : Text;
}.

Section reconcile.
Context {W : Type} (RT : Runtime W) (base : Z).

(** [byName]: a later workload of the same container replaces an earlier one. *)
Definition workload_of (st : podState) (name : string) : option workload :=
  foldl (λ acc w, if String.eqb (wl_container w) name then Some w else acc) None (ps_workloads st).

Definition emit (a : recon) (st : podState) (tasks : list task) (cs : ContainerStatus) : recon :=
  mkRecon st (rc_tasks a ++ tasks) (rc_statuses a ++ [cs]) (rc_PodIP a) (rc_Message a).

(** A workload the runtime answered for. *)
Definition observed (a : recon) (c : Container) (id : string) (rs : Status) : recon :=
  let st := rc_st a in
  let running_status st' tasks :=
    let cs := with_restart_count (containerStatus c id rs) (default 0 (ps_restarts st' !! c_Name c)) in
    mkRecon st' (rc_tasks a ++ tasks) (rc_statuses a ++ [cs])
      (if String.eqb (rc_PodIP a) "" && negb (String.eqb (st_IP rs) "") then st_IP rs else rc_PodIP a)
      (rc_Message a) in
  if bool_decide (st_Phase rs = PhaseStopped) || bool_decide (st_Phase rs = PhaseFailed) then
    let exit := if bool_decide (st_Phase rs = PhaseFailed) then nonZero (int32 (st_ExitCode rs)) else st_ExitCode rs in
    let '(st', tasks, restarting) := maybeTriggerRestart base st (c_Name c) id exit in
    if restarting then emit a st' tasks (restartingStatus c (default 0 (ps_restarts st' !! c_Name c)))
    else running_status st' tasks
  else running_status st [].

(** A workload the runtime could not report on. *)
Definition unobserved (a : recon) (c : Container) (id : string) (e : RtError) : recon :=
  let st := rc_st a in
  if bool_decide (re_kind e = ErrNotFound) then
    let '(st', tasks, restarting) := maybeTriggerRestart base st (c_Name c) id 1 in
    if restarting then emit a st' tasks (restartingStatus c (default 0 (ps_restarts st' !! c_Name c)))
    else emit a st' tasks (terminatedStatus c id 0 "Lost" "runtime workload not found")
  else
    match previousContainerStatus (ps_status st) (c_Name c) with
    | Some prev =>
        mkRecon st (rc_tasks a) (rc_statuses a ++ [prev]) (rc_PodIP a) (Txt (re_text e))
    | None => emit a st [] (waitingStatus c "RuntimeError" (Txt (re_text e)))
    end.

Definition reconcile_one (a : recon) (c : Container) (w : W) : recon * W :=
  match workload_of (rc_st a) (c_Name c) with
  | None => (emit a (rc_st a) [] (waitingStatus c "NotCreated" (Txt "container has no backing workload")), w)
  | Some wl =>
      let '(w', r) := rt_Status RT (wl_id wl) w in
      (match r with Ok rs => observed a c (wl_id wl) rs | Err e => unobserved a c (wl_id wl) e end, w')
  end.

Fixpoint reconcile_loop (a : recon) (l : list Container) (w : W) : recon * W :=
  match l with
  | [] => (a, w)
  | c :: l' => let '(a', w') := reconcile_one a c w in reconcile_loop a' l' w'
  end.

Definition apply_probes (st : podState) (started ready : bool) (cs : ContainerStatus) : ContainerStatus :=
  match ps_probes st with
  | Some _ =>
      if is_running (cs_State cs)
      then mkCS (cs_Name cs) (cs_Image cs) (cs_ContainerID cs) (cs_State cs) ready (Some started) (cs_RestartCount cs)
      else cs
  | None => cs
  end.

Definition conditions_for (phase : PodPhase) (ready : bool) (podIP : string) (msg : Text) : list PodCondition :=
  let conds := podConditions phase ready in
  if negb (no_text msg) then withConditionReason conds "RuntimeStatusError" msg
  else if bool_decide (phase = PodRunning) && String.eqb podIP "" then
    withConditionReason conds "PodNetworkNotReady" (Txt "waiting for Pod IP allocation and network attach")
  else if bool_decide (phase = PodRunning) && negb ready then
    withConditionReason conds "ContainersNotReady" (Txt "container has not passed its startup/readiness probe")
  else conds.

(** The Pod's state with its restart flag updated, the restarts launched, and
    the new status; the callers store the status on the Pod. *)
Definition reconcileStatus (hostIP : string) (st : podState) (w : W) : podState * list task * PodStatus * W :=
  match ps_terminalStatus st with
  | Some s => (st, [], s, w)
  | None =>
      let '(a, w') :=
        reconcile_loop (mkRecon st [] [] (pst_PodIP (ps_status st)) (Txt "")) (pod_Containers (ps_pod st)) w in
      let phase := aggregatePhase (rc_statuses a) in
      let '(started, probeReady) := probeReadiness (rc_st a) phase in
      let podIP := rc_PodIP a in
      let ready := probeReady && negb (String.eqb podIP "") in
      (rc_st a, rc_tasks a,
       mkPodStatus phase "" (rc_Message a) (pst_StartTime (ps_status st)) podIP
         (if String.eqb podIP "" then [] else [podIP])
         hostIP (if String.eqb hostIP "" then [] else [hostIP])
         (apply_probes (rc_st a) started probeReady <$> rc_statuses a)
         (conditions_for phase ready podIP (rc_Message a)),
       w')
  end.
End reconcile.

(** ** Probes *)

Definition orDefault (v def : Z) : Z := if v <=? 0 then def else v.
Definition pathOrRoot (path : string) : string := if String.eqb path "" then "/" else path.

(** A numeric port, or a container port by name; an unknown name is port 0. *)
Definition resolvePort (port : Z + string) (c : Container) : Z :=
  match port with
  | inl n => n
  | inr name => default 0 (snd <$> List.find (λ cp, String.eqb cp.1 name) (c_Ports c))
  end.

(** What one attempt of a probe does; [None] for a handler the node does not
    support. *)
Inductive Attempt : Type :=
  | TryExec (cmd : list string)
  | TryHTTP (scheme host : string) (port : Z) (path : string)
  | TryTCP (host : string) (port : Z).

Definition probeHandler (c : Container) (podIP : string) (p : Probe) : option Attempt :=
  let or_pod h := if String.eqb h "" then podIP else h in
  match pb_Handler p with
  | HExec cmd => Some (TryExec cmd)
  | HHTTPGet host scheme path port =>
      let scheme := ToLower scheme in
      Some (TryHTTP (if String.eqb scheme "" then "http" else scheme) (or_pod host) (resolvePort port c)
              (pathOrRoot path))
  | HTCPSocket host port => Some (TryTCP (or_pod host) (resolvePort port c))
  | HNone => None
  end.

Definition startProbes (st : podState) : podState :=
  match pod_Containers (ps_pod st) with
  | [] => st
  | c :: _ =>
      if negb (is_some (c_StartupProbe c)) && negb (is_some (c_ReadinessProbe c)) && negb (is_some (c_LivenessProbe c))
      then st
      else
        set_probes st (Some (mkProbes (is_some (c_StartupProbe c)) (is_some (c_ReadinessProbe c))
                               (is_some (c_LivenessProbe c)) (negb (is_some (c_StartupProbe c))) false))
  end.

Definition stopProbes (st : podState) : podState := set_probes st None.

Definition setStartupDone (st : podState) : podState :=
  match ps_probes st with
  | None => st
  | Some pr =>
      set_probes st (Some (mkProbes (pr_hasStartup pr) (pr_hasReadiness pr) (pr_hasLiveness pr) true (pr_ready pr)))
  end.

Definition setReady (st : podState) (b : bool) : podState :=
  match ps_probes st with
  | None => st
  | Some pr =>
      set_probes st
        (Some (mkProbes (pr_hasStartup pr) (pr_hasReadiness pr) (pr_hasLiveness pr) (pr_startupDone pr) b))
  end.

Inductive probeKind : Type := probeStartup | probeReadiness_ | probeLiveness.

Inductive action : Type := ActStartupDone | ActReady (b : bool) | ActFail.

Record thresholds := mkTh { th_failure : Z; th_success : Z }.

Definition thresholds_of (k : probeKind) (p : Probe) : thresholds :=
  mkTh (orDefault (pb_FailureThreshold p) 3)
    (match k with probeReadiness_ => orDefault (pb_SuccessThreshold p) 1 | _ => 1 end).

(** The consecutive successes and failures, as [int32] counters. *)
Record counters := mkCtr { ct_successes : Z; ct_failures : Z }.

(** One attempt: the new counters, the action it takes, and whether the loop
    returns. *)
Definition probe_attempt (k : probeKind) (th : thresholds) (n : counters) (ok : bool)
    : counters * list action * bool :=
  if ok then
    let s := int32 (ct_successes n + 1) in
    let n' := mkCtr s 0 in
    if th_success th <=? s then
      match k with
      | probeStartup => (n', [ActStartupDone], true)
      | probeReadiness_ => (n', [ActReady true], false)
      | probeLiveness => (n', [], false)
      end
    else (n', [], false)
  else
    let f := int32 (ct_failures n + 1) in
    let n' := mkCtr 0 f in
    if th_failure th <=? f then
      match k with
      | probeReadiness_ => (n', [ActReady false], false)
      | _ => (n', [ActFail], true)
      end
    else (n', [], false).

(** The loop until the context is cancelled: one element per iteration, [None]
    while the startup probe still suspends this one, otherwise the outcome of
    the attempt.  The actions taken, and whether the loop returned by itself. *)
Fixpoint probe_loop (k : probeKind) (th : thresholds) (n : counters) (l : list (option bool))
    : list action * bool :=
  match l with
  | [] => ([], false)
  | None :: l' => probe_loop k th n l'
  | Some ok :: l' =>
      let '(n', acts, stop) := probe_attempt k th n ok in
      if stop then (acts, true)
      else let '(acts', r) := probe_loop k th n' l' in (acts ++ acts', r)
  end.

Definition runProbe (k : probeKind) (p : Probe) (l : list (option bool)) : list action * bool :=
  match pb_Handler p with
  | HNone => match k with probeStartup => ([ActStartupDone], true) | _ => ([], true) end
  | _ => probe_loop k (thresholds_of k p) (mkCtr 0 0) l
  end.

(** ** Restart backoff *)

Lemma backoff_loop_min n d :
  0 < d < restartBackoffMax → backoff_loop n d = Z.min (d * 2 ^ Z.of_nat n) restartBackoffMax.
Proof.
  revert d. induction n as [|n IH]; intros d Hd.
  - simpl. lia.
  - cbn [backoff_loop]. rewrite Nat2Z.inj_succ, Z.pow_succ_r by lia.
    assert (0 < 2 ^ Z.of_nat n) by (apply Z.pow_pos_nonneg; lia).
    destruct (Z.leb_spec restartBackoffMax (d * 2)); [nia|]. rewrite IH by lia.
    f_equal. lia.
Qed.

(** A crash-looping workload backs off exponentially: the delay before the
    next restart is the base doubled once per completed restart and capped at
    five minutes, for every restart count, without leaving the range of a
    64-bit duration. *)
Theorem backoff_exponential base count (Hb : 0 < base < restartBackoffMax) (Hc : 0 ≤ count) :
  restartBackoff base count = Z.min (base * 2 ^ count) restartBackoffMax ∧
  in_int64 (2 * restartBackoff base count) = true.
Proof.
  unfold restartBackoff. rewrite backoff_loop_min, Z2Nat.id by lia. split; [done|].
  assert (0 < 2 ^ count) by (apply Z.pow_pos_nonneg; lia).
  unfold in_int64, restartBackoffMax in *. apply andb_true_iff. rewrite Z.leb_le, Z.ltb_lt. lia.
Qed.

Lemma backoff_exponential_witness :
  restartBackoff defaultRestartBackoffBase 3 = 80 * 1000000000 ∧
  restartBackoff defaultRestartBackoffBase 2147483647 = restartBackoffMax.
Proof.
  split.
  - by rewrite (proj1 (backoff_exponential defaultRestartBackoffBase 3 ltac:(done) ltac:(lia))).
  - rewrite (proj1 (backoff_exponential defaultRestartBackoffBase 2147483647 ltac:(done) ltac:(lia))).
    apply Z.min_r. transitivity (defaultRestartBackoffBase * 2 ^ 10); [by vm_compute|].
    apply Z.mul_le_mono_nonneg_l; [by vm_compute|]. apply Z.pow_le_mono_r; lia.
Defined.

(** ** Liveness *)

(** The attempts made, without the suspended iterations. *)
Definition attempts (l : list (option bool)) : list bool := omap id l.

(** [m] consecutive failures somewhere in the sequence. *)
Definition failure_run (m : nat) (xs : list bool) : Prop :=
  ∃ l1 l3, xs = l1 ++ replicate m false ++ l3.

Definition starts_failing (m : nat) (xs : list bool) : Prop := ∃ l3, xs = replicate m false ++ l3.

Lemma failure_run_cons m b xs :
  failure_run m (b :: xs) ↔ starts_failing m (b :: xs) ∨ failure_run m xs.
Proof.
  split.
  - intros ([|x l1] & l3 & E); [left; by exists l3|]. simplify_eq/=. right. by exists l1, l3.
  - intros [[l3 E]|(l1 & l3 & ->)]; [by exists [], l3|by exists (b :: l1), l3].
Qed.

Lemma starts_failing_le m n xs : (n ≤ m)%nat → starts_failing m xs → starts_failing n xs.
Proof.
  intros Hle [l3 ->]. exists (replicate (m - n) false ++ l3).
  rewrite app_assoc, <- replicate_add. do 2 f_equal. lia.
Qed.

Lemma int32_small z : 0 ≤ z < 2 ^ 31 → int32 z = z.
Proof. intros. unfold int32. rewrite Z.mod_small; lia. Qed.

Lemma liveness_loop m th s f l :
  th_failure th = Z.of_nat m → (0 < m)%nat → Z.of_nat m < 2 ^ 31 → (f < m)%nat →
  ActFail ∈ (probe_loop probeLiveness th (mkCtr s (Z.of_nat f)) l).1 ↔
  starts_failing (m - f) (attempts l) ∨ failure_run m (attempts l).
Proof.
  intros Hth Hm Hw. revert s f. induction l as [|[ok|] l IH]; intros s f Hf.
  - simpl. split; [by intros ?%elem_of_nil|].
    intros [[l3 E]|(l1 & l3 & E)]; destruct m; try lia; [|by destruct l1].
    by replace (S m - f)%nat with (S (m - f)) in E by lia.
  - cbn [probe_loop attempts omap list_omap id]. unfold probe_attempt. destruct ok.
    + assert (starts_failing (m - f) (true :: attempts l) ∨ failure_run m (true :: attempts l)
              ↔ starts_failing (m - 0) (attempts l) ∨ failure_run m (attempts l)) as ->.
      { assert (∀ k, (0 < k)%nat → ¬ starts_failing k (true :: attempts l)) as Hno.
        { intros [|k] Hk [l3 ?]; [lia|done]. }
        rewrite failure_run_cons. split.
        - intros [Hs|[Hs|Hr]]; [destruct (Hno (m - f)%nat); [lia|done]|by destruct (Hno m)|by right].
        - rewrite Nat.sub_0_r. intros [[l3 E]|Hr]; right; right; [by exists [], l3|done]. }
      set (s' := int32 _). pose proof (IH s' 0%nat ltac:(lia)) as IH'. cbn [Z.of_nat] in IH'.
      destruct (th_success th <=? s'); cbn [fst];
        destruct (probe_loop probeLiveness th _ l) as [a r]; exact IH'.
    + cbn [ct_failures]. rewrite int32_small by lia. rewrite Hth.
      replace (Z.of_nat f + 1) with (Z.of_nat (S f)) by lia.
      destruct (Z.leb_spec (Z.of_nat m) (Z.of_nat (S f))).
      * cbn [fst]. split; [intros _; left|by intros _; apply list_elem_of_here].
        replace (m - f)%nat with 1%nat by lia. by exists (attempts l).
      * destruct (probe_loop probeLiveness th _ l) as [a r] eqn:E. cbn [fst app].
        pose proof (IH 0 (S f) ltac:(lia)) as IH'. rewrite E in IH'. cbn [fst] in IH'. rewrite IH'.
        replace (m - f)%nat with (S (m - S f)) by lia. rewrite failure_run_cons.
        assert (starts_failing (S (m - S f)) (false :: attempts l) ↔ starts_failing (m - S f) (attempts l)) as ->.
        { split; intros [l3 E3]; exists l3; simplify_eq/=; [done|by rewrite E3]. }
        assert (starts_failing m (false :: attempts l) → starts_failing (m - S f) (attempts l)).
        { intros Hs. apply (starts_failing_le m (S (m - S f))) in Hs; [|lia].
          destruct Hs as [l3 E3]. exists l3. by simplify_eq/=. }
        naive_solver.
  - by apply IH.
Qed.

(** A liveness probe kills its workload exactly when it has failed
    [failureThreshold] times in a row: the loop fails the workload if and only
    if that many consecutive attempts of it failed, however successes,
    failures and suspensions by the startup probe interleave. *)
Theorem liveness_threshold p l (Hh : pb_Handler p ≠ HNone) (Ht : 0 ≤ pb_FailureThreshold p < 2 ^ 31) :
  ActFail ∈ (runProbe probeLiveness p l).1 ↔
  failure_run (Z.to_nat (orDefault (pb_FailureThreshold p) 3)) (attempts l).
Proof.
  assert (runProbe probeLiveness p l =
    probe_loop probeLiveness (thresholds_of probeLiveness p) (mkCtr 0 (Z.of_nat 0)) l) as ->.
  { unfold runProbe. by destruct (pb_Handler p). }
  assert (0 < orDefault (pb_FailureThreshold p) 3 < 2 ^ 31).
  { unfold orDefault. destruct (Z.leb_spec (pb_FailureThreshold p) 0); lia. }
  rewrite (liveness_loop (Z.to_nat (orDefault (pb_FailureThreshold p) 3))); [|simpl; lia..].
  rewrite Nat.sub_0_r. split; [|by right]. intros [[l3 ->]|?]; [by exists [], l3|done].
Qed.

Definition live_probe : Probe := mkProbe (HTCPSocket "" (inl 80)) 0 10 1 2 1.

Lemma liveness_threshold_witness :
  ActFail ∈ (runProbe probeLiveness live_probe [Some false; Some true; None; Some false; None; Some false]).1 ∧
  ~ ActFail ∈ (runProbe probeLiveness live_probe [Some false; Some true; Some false; None; Some true]).1.
Proof.
  split.
  - apply liveness_threshold; [done|done|]. by exists [false; true], [].
  - vm_compute. set_solver.
Defined.

(** ** Readiness *)

(** The Ready condition of a status is true. *)
Definition pod_ready (s : PodStatus) : bool :=
  existsb (λ c, bool_decide (pc_Type c = PodReady) && pc_Status c) (pst_Conditions s).









Definition web : Container :=
  mkContainer "web" "nginx" [] [] [] [] ∅ ∅ None [] [] None (Some (mkProbe (HExec ["true"]) 0 10 1 3 1)) None.

Definition web_pod (name : string) : Pod :=
  mkPod "ns" name ("uid-" +:+ name) ∅ ∅ "node" "" [web] [] [] "Always" false false false None [] [] "" None None.

Definition web_state (pr : option probeState) : podState :=
  mkPodState (web_pod "a") zero_status [mkWorkload "web" "macvz-ns-a-web"] None "" false
    (translateContainer (web_pod "a") web) "Always" ∅ false pr.

Definition web_vm (ph : Phase) : VmSim :=
  mkSim (<["macvz-ns-a-web" := mkStatus "macvz-ns-a-web" ph 0 "" 7 "192.168.64.2"]> ∅) 3 [].


(** The Ready condition does not look at the restart in flight, nor at the
    probes a container declares but nobody runs: a container killed by its
    liveness probe stays ready through the backoff, and once the restart has
    stopped its probes, the new micro-VM, which has the same name, is ready as
    soon as it runs. *)
Theorem restarting_stays_ready :
  let passed := Some (mkProbes false true false true true) in
  is_Some (c_ReadinessProbe web) ∧
  pod_ready (reconcileStatus vm_sim 1 "" (set_restarting (web_state passed) true) (web_vm PhaseRunning)).1.2 = true ∧
  pod_ready (reconcileStatus vm_sim 1 "" (stopProbes (set_restarting (web_state passed) true)) (web_vm PhaseRunning)).1.2
    = true.
Proof. split_and!; [by eexists|vm_compute; reflexivity..]. Qed.

(** A workload that vanished from the runtime under restartPolicy Never is
    reported as exit code 0, so the Pod counts as succeeded. *)
Theorem lost_workload_succeeds :
  pst_Phase (reconcileStatus vm_sim 1 ""
    (mkPodState (web_pod "a") zero_status [mkWorkload "web" "macvz-ns-a-web"] None "" false
       (translateContainer (web_pod "a") web) RestartPolicyNever ∅ false None) (mkSim ∅ 3 [])).1.2 = PodSucceeded.
Proof. vm_compute. reflexivity. Qed.
