(* ===== verification/Lifecycle.v ===== *)
(** * Pod lifecycle: [pkg/provider] translate.go (translatePod), pod.go, ipam.go,
      podnet.go, restart.go (the goroutine), probe.go (failProbe)

    The handlers Virtual Kubelet calls and the goroutines they launch, over the
    IP allocator, the Pod network router, the runtime and the host's files.
    Each handler is one step; a restart is three (its backoff and snapshot, its
    work without the lock, its commit), so that Pods can be deleted and created
    in between. *)

From S2P Require Import Prelude GoStrings GoNet Ipam Host PodNet WireGuard Filepath Sha256 PodSpec PodEnv Volumes.
From S2P Require Import Runtime Provider.

Open Scope Z_scope.

(** The file operations of [os] the provider performs. *)
Record HostFS (W : Type) := mkFS {
  fs_MkdirAll : string → W → W * result string unit;
  fs_WriteFile : string → string → Z → W → W * result string unit;
  fs_Chmod : string → Z → W → W * result string unit;
  fs_RemoveAll : string → W → W * result string unit;
}.
Arguments mkFS {W}. Arguments fs_MkdirAll {W}. Arguments fs_WriteFile {W}. Arguments fs_Chmod {W}.
Arguments fs_RemoveAll {W}.

Inductive CreateError : Type :=
  | CENotReady (e : PodError) | CEVolumeDirs (e : string) | CEVolumeFiles (e : string)
  | CEAllocate (e : IpamError) | CEStartRecovered (e : RtError) | CEPullAuth (e : PodError)
  | CEPull (e : RtError) | CECreate (e : RtError) | CEStart (e : RtError)
  | CENoVMIP | CEAttach (e : NetError).

(** [errdefs.NotFound] *)
Inductive LookupError : Type := EPodNotFound (key : string).

(** ** Translation *)

Definition with_env (s : ContainerSpec) (env : gmap string string) : ContainerSpec :=
  mkSpec (s_Name s) (s_Image s) (s_Command s) (s_Args s) env (s_CPUMillis s) (s_MemoryBytes s)
    (s_Mounts s) (s_DNS s) (s_DNSSearch s) (s_DNSOptions s) (s_User s) (s_ReadOnlyRootFS s) (s_CapAdd s) (s_CapDrop s).

Definition with_name_mounts_dns (s : ContainerSpec) (name : string) (mounts : list Mount)
    (dns : list string * list string * list string) : ContainerSpec :=
  let '(ns, search, opts) := dns in
  mkSpec name (s_Image s) (s_Command s) (s_Args s) (s_Env s) (s_CPUMillis s) (s_MemoryBytes s)
    mounts ns search opts (s_User s) (s_ReadOnlyRootFS s) (s_CapAdd s) (s_CapDrop s).

Definition translatePod (pod : Pod) (policy : VolumePolicy) (dns : DNSConfig) (cms : ConfigMapGetter)
    (secrets : SecretGetter) (tokens : TokenRequester) : result PodError (ContainerSpec * resolvedVolumes) :=
  match unsupportedReasons pod with
  | _ :: _ as rs => Err (EUnsupported rs)
  | [] =>
      match resolveVolumes pod policy cms secrets tokens with
      | Err e => if retryable e then Err e else Err (EUnsupportedVolume e)
      | Ok vols =>
          match pod_Containers pod with
          | [] => Err (EUnsupported [RNoContainers])
          | c :: _ =>
              let spec := translateContainer pod c in
              env <-- resolveEnv pod c cms secrets;
              let spec := match env with Some m => with_env spec m | None => spec end in
              Ok (with_name_mounts_dns spec (WorkloadID (pod_Namespace pod) (pod_Name pod) (c_Name c))
                    (rv_mounts vols) (resolveDNS pod dns), vols)
          end
      end
  end.

Definition vmIPPollAttempts : nat := 20.

Section lifecycle.
Context `{MapRange} {W : Type} (RT : Runtime W) (R : Runner W) (FS : HostFS W).
Context (json_auths : bool → string → option (gmap string dockerAuthEntry)).
Context (ctx_done : W → bool).

(** ** Address pool *)

Definition allocateIP (p : Provider) (key : string) : Provider * result IpamError string :=
  match pv_ipam p with
  | None => (p, Ok "")
  | Some a => let '(a', r) := Allocate a key in (with_ipam p (Some a'), r)
  end.

Definition hasAllocatedIP (p : Provider) (key : string) : bool :=
  match pv_ipam p with None => false | Some a => negb (String.eqb (IPOf a key) "") end.

Definition releaseIP (p : Provider) (key : string) : Provider :=
  match pv_ipam p with None => p | Some a => with_ipam p (Some (Release a key)) end.

(** ** Network path *)

Fixpoint observeVMIPByID (n : nat) (id : string) (w : W) : W * string :=
  match n with
  | O => (w, "")
  | S m =>
      let '(w1, r) := rt_Status RT id w in
      match r with
      | Ok rs =>
          if negb (String.eqb (st_IP rs) "") then (w1, st_IP rs)
          else match m with O => (w1, "") | _ => if ctx_done w1 then (w1, "") else observeVMIPByID m id w1 end
      | Err _ => match m with O => (w1, "") | _ => if ctx_done w1 then (w1, "") else observeVMIPByID m id w1 end
      end
  end.

Definition observeVMIP (st : podState) (w : W) : W * string :=
  match ps_workloads st with [] => (w, "") | wl :: _ => observeVMIPByID vmIPPollAttempts (wl_id wl) w end.

Definition attach (p : Provider) (rt : Router) (key podIP vmIP : string) (w : W)
    : Provider * W * result NetError unit :=
  let '(rt', w', r) := Attach R rt (mkEp key podIP vmIP "") w in (with_podNet p (Some rt'), w', r).

(** Detach whose failure is only logged. *)
Definition detach (p : Provider) (key : string) (w : W) : Provider * W :=
  match pv_podNet p with
  | None => (p, w)
  | Some rt => let '(rt', w', _) := Detach R rt key w in (with_podNet p (Some rt'), w')
  end.

Definition detachPodNetwork (p : Provider) (st : podState) (key : string) (w : W) : Provider * W :=
  if ps_attached st then detach p key w else (p, w).

(** ** Volumes on the host *)

Fixpoint ensureVolumeDirs (dirs : list string) (w : W) : W * result string unit :=
  match dirs with
  | [] => (w, Ok tt)
  | d :: dirs' =>
      let '(w1, r) := fs_MkdirAll FS d w in
      match r with Ok _ => ensureVolumeDirs dirs' w1 | Err e => (w1, Err e) end
  end.

Definition writeFile (f : fileToWrite) (w : W) : W * result string unit :=
  let '(w1, r1) := fs_MkdirAll FS (Dir (f_path f)) w in
  match r1 with
  | Err e => (w1, Err e)
  | Ok _ =>
      let '(w2, r2) := fs_WriteFile FS (f_path f) (f_data f) (f_mode f) w1 in
      match r2 with Err e => (w2, Err e) | Ok _ => fs_Chmod FS (f_path f) (f_mode f) w2 end
  end.

Fixpoint writeConfigFiles (files : list fileToWrite) (w : W) : W * result string unit :=
  match files with
  | [] => (w, Ok tt)
  | f :: files' =>
      let '(w1, r) := writeFile f w in
      match r with Ok _ => writeConfigFiles files' w1 | Err e => (w1, Err e) end
  end.

(** Best effort: a root that cannot be resolved removes nothing. *)
Definition cleanupVolumeDirs (p : Provider) (pod : Pod) (w : W) : W :=
  match safePodRoot (vp_Root (pv_volumes p)) (pod_UID pod) with
  | Err _ => w
  | Ok root => (fs_RemoveAll FS root w).1
  end.

(** ** Creation *)

Definition lookupWorkload (id : string) (w : W) : W * option Status :=
  let '(w1, r) := rt_Status RT id w in (w1, match r with Ok st => Some st | Err _ => None end).

Fixpoint destroy_all (wls : list workload) (w : W) : W :=
  match wls with [] => w | wl :: wls' => destroy_all wls' (rt_Destroy RT (wl_id wl) w).1 end.

Definition rollback (p : Provider) (st : podState) (w : W) : W :=
  cleanupVolumeDirs p (ps_pod st) (destroy_all (ps_workloads st) w).

Definition unwindCreate (p : Provider) (st : podState) (adopted : bool) (w : W) : W :=
  if adopted then w else rollback p st w.

Definition terminal (reason : string) (msg : Text) (now : Z) : PodStatus :=
  let cond t := mkCond t false reason (Txt "") in
  mkPodStatus PodFailed reason msg (Some now) "" [] "" [] [] [cond PodInitialized; cond PodReady; cond ContainersReady].

Definition empty_spec : ContainerSpec := mkSpec "" "" [] [] ∅ 0 0 [] [] [] [] "" false [] [].

Definition markTerminalFailure (p : Provider) (key : string) (pod : Pod) (reason : string) (msg : Text) (now : Z)
    : Provider :=
  let s := terminal reason msg now in
  with_pods p (<[key := mkPodState pod s [] (Some s) "" false empty_spec "" ∅ false None]> (pv_pods p)).

Definition with_workload (st : podState) (wl : workload) : podState :=
  mkPodState (ps_pod st) (ps_status st) (ps_workloads st ++ [wl]) (ps_terminalStatus st) (ps_vmIP st)
    (ps_attached st) (ps_spec st) (ps_restartPolicy st) (ps_restarts st) (ps_restarting st) (ps_probes st).

Definition with_net (st : podState) (vmIP : string) (attached : bool) : podState :=
  mkPodState (ps_pod st) (ps_status st) (ps_workloads st) (ps_terminalStatus st) vmIP attached
    (ps_spec st) (ps_restartPolicy st) (ps_restarts st) (ps_restarting st) (ps_probes st).

(** Finding or building the micro-VM: the Pod's state with its workload,
    whether the micro-VM was adopted; or an error; or the terminal verdict
    that the image cannot run here. *)
Inductive built : Type :=
  | Built (st : podState) (adopted : bool)
  | BuildFailed (e : CreateError)
  | BuildNever (e : RtError).

Definition build (p : Provider) (pod : Pod) (c : Container) (spec : ContainerSpec) (st : podState) (w : W)
    : W * built :=
  let '(w1, existing) := lookupWorkload (s_Name spec) w in
  match existing with
  | Some rs =>
      let st := with_workload st (mkWorkload (c_Name c) (st_ID rs)) in
      if bool_decide (st_Phase rs = PhaseCreated) then
        let '(w2, r) := rt_Start RT (st_ID rs) w1 in
        (w2, match r with Ok _ => Built st true | Err e => BuildFailed (CEStartRecovered e) end)
      else (w1, Built st true)
  | None =>
      match resolvePullAuth json_auths (pv_secrets p) pod (s_Image spec) with
      | Err e => (w1, BuildFailed (CEPullAuth e))
      | Ok auth =>
          let '(w2, r2) := rt_Pull RT (s_Image spec) auth w1 in
          match r2 with
          | Err e => (w2, if bool_decide (re_kind e = ErrIncompatibleArch) then BuildNever e else BuildFailed (CEPull e))
          | Ok _ =>
              let '(w3, r3) := rt_Create RT spec w2 in
              match r3 with
              | Err e => (rollback p st w3, BuildFailed (CECreate e))
              | Ok id =>
                  let st := with_workload st (mkWorkload (c_Name c) id) in
                  let '(w4, r4) := rt_Start RT id w3 in
                  match r4 with
                  | Err e => (rollback p st w4, BuildFailed (CEStart e))
                  | Ok _ => (w4, Built st false)
                  end
              end
          end
      end
  end.

(** Wiring the micro-VM into the Pod network, when there is one. *)
Definition connect (p : Provider) (key podIP : string) (st : podState) (adopted : bool) (w : W)
    : Provider * W * result CreateError podState :=
  match pv_podNet p with
  | None => (p, w, Ok st)
  | Some rt =>
      if String.eqb podIP "" then (p, w, Ok st)
      else
        let '(w1, vmIP) := observeVMIP st w in
        if String.eqb vmIP "" then (p, unwindCreate p st adopted w1, Err CENoVMIP)
        else
          let '(p2, w2, r) := attach p rt key podIP vmIP w1 in
          match r with
          | Err e => (p2, unwindCreate p2 st adopted w2, Err (CEAttach e))
          | Ok _ => (p2, w2, Ok (with_net st vmIP true))
          end
  end.

(** Committing the Pod to the store with its first status. *)
Definition commit (p : Provider) (key : string) (st : podState) (w : W) : Provider * W :=
  let '(st', tasks, s, w') := reconcileStatus RT (pv_restartBackoffBase p) (pv_hostIP p) st w in
  let st'' := set_status st' s in
  let st'' := if bool_decide (pst_Phase s = PodRunning) then startProbes st'' else st'' in
  (with_tasks (with_pods p (<[key := st'']> (pv_pods p))) (pv_tasks p ++ tasks), w').

(** The tracked state of a new Pod: a copy of the object as it came from the
    API server, [prior] being its status there (populated when the kubelet
    restarted under a running Pod), with the start time and address set. *)
Definition initial_state (pod : Pod) (prior : PodStatus) (spec : ContainerSpec) (podIP : string) (now : Z)
    : podState :=
  mkPodState pod
    (mkPodStatus (pst_Phase prior) (pst_Reason prior) (pst_Message prior) (Some now) podIP (pst_PodIPs prior)
       (pst_HostIP prior) (pst_HostIPs prior) (pst_ContainerStatuses prior) (pst_Conditions prior))
    [] None "" false spec (effectiveRestartPolicy pod) ∅ false None.

(** The deferred release of an address that was not committed. *)
Definition undo_ip (p : Provider) (key podIP : string) (hadPodIP : bool) : Provider :=
  if negb (String.eqb podIP "") && negb hadPodIP then releaseIP p key else p.

Definition CreatePod (p : Provider) (pod : Pod) (prior : PodStatus) (now : Z) (w : W)
    : Provider * W * result CreateError unit :=
  let key := podKey (pod_Namespace pod) (pod_Name pod) in
  match pv_pods p !! key with
  | Some _ => (p, w, Ok tt)
  | None =>
      match translatePod pod (pv_volumes p) (pv_dns p) (pv_configMaps p) (pv_secrets p) (pv_tokens p) with
      | Err e =>
          if retryable e then (p, w, Err (CENotReady e))
          else (markTerminalFailure p key pod "UnsupportedPodSpec" (OfSpec e) now, w, Ok tt)
      | Ok (spec, vols) =>
          match pod_Containers pod with
          | [] => (p, w, Ok tt)
          | c :: _ =>
              let '(w1, r1) := ensureVolumeDirs (rv_ephemeralDirs vols) w in
              match r1 with
              | Err e => (p, w1, Err (CEVolumeDirs e))
              | Ok _ =>
                  let '(w2, r2) := writeConfigFiles (rv_configFiles vols) w1 in
                  match r2 with
                  | Err e => (p, w2, Err (CEVolumeFiles e))
                  | Ok _ =>
                      let hadPodIP := hasAllocatedIP p key in
                      let '(p3, r3) := allocateIP p key in
                      match r3 with
                      | Err e => (p3, w2, Err (CEAllocate e))
                      | Ok podIP =>
                          let '(w4, b) := build p3 pod c spec (initial_state pod prior spec podIP now) w2 in
                          match b with
                          | BuildFailed e => (undo_ip p3 key podIP hadPodIP, w4, Err e)
                          | BuildNever e =>
                              (undo_ip (markTerminalFailure p3 key pod "ImageArchitectureMismatch"
                                          (OfPull (s_Image spec) e) now) key podIP hadPodIP, w4, Ok tt)
                          | Built st adopted =>
                              let '(p5, w5, r5) := connect p3 key podIP st adopted w4 in
                              match r5 with
                              | Err e => (undo_ip p5 key podIP hadPodIP, w5, Err e)
                              | Ok st' => let '(p6, w6) := commit p5 key st' w5 in (p6, w6, Ok tt)
                              end
                          end
                      end
                  end
              end
          end
      end
  end.

(** ** Update, deletion, queries *)

Definition with_metadata (pod : Pod) (labels annotations : gmap string string) : Pod :=
  mkPod (pod_Namespace pod) (pod_Name pod) (pod_UID pod) labels annotations (pod_NodeName pod)
    (pod_ServiceAccountName pod) (pod_Containers pod) (pod_InitContainers pod) (pod_EphemeralContainers pod)
    (pod_RestartPolicy pod) (pod_HostNetwork pod) (pod_HostPID pod) (pod_HostIPC pod) (pod_SecurityContext pod)
    (pod_Volumes pod) (pod_ImagePullSecrets pod) (pod_DNSPolicy pod) (pod_DNSConfig pod)
    (pod_TerminationGracePeriodSeconds pod).

Definition with_pod (st : podState) (pod : Pod) : podState :=
  mkPodState pod (ps_status st) (ps_workloads st) (ps_terminalStatus st) (ps_vmIP st) (ps_attached st)
    (ps_spec st) (ps_restartPolicy st) (ps_restarts st) (ps_restarting st) (ps_probes st).

Definition UpdatePod (p : Provider) (pod : Pod) : Provider * result LookupError unit :=
  let key := podKey (pod_Namespace pod) (pod_Name pod) in
  match pv_pods p !! key with
  | None => (p, Err (EPodNotFound key))
  | Some st =>
      let st' := with_pod st (with_metadata (ps_pod st) (pod_Labels pod) (pod_Annotations pod)) in
      (with_pods p (<[key := st']> (pv_pods p)), Ok tt)
  end.

(** Stop and destroy each workload; failures are logged. *)
Fixpoint teardown (timeout : Z) (wls : list workload) (w : W) : W :=
  match wls with
  | [] => w
  | wl :: wls' =>
      let w1 := (rt_Stop RT (wl_id wl) timeout w).1 in
      teardown timeout wls' (rt_Destroy RT (wl_id wl) w1).1
  end.

Definition DeletePod (p : Provider) (pod : Pod) (w : W) : Provider * W * result LookupError unit :=
  let key := podKey (pod_Namespace pod) (pod_Name pod) in
  match pv_pods p !! key with
  | None => (p, w, Err (EPodNotFound key))
  | Some st =>
      let p1 := with_pods p (delete key (pv_pods p)) in
      let '(p2, w2) := detachPodNetwork p1 st key w in
      let p3 := releaseIP p2 key in
      let w3 := teardown (stopTimeout pod) (ps_workloads st) w2 in
      (p3, cleanupVolumeDirs p3 (ps_pod st) w3, Ok tt)
  end.

Definition GetPod (p : Provider) (ns name : string) : result LookupError (Pod * PodStatus) :=
  let key := podKey ns name in
  match pv_pods p !! key with None => Err (EPodNotFound key) | Some st => Ok (ps_pod st, ps_status st) end.

(** Reconcile one Pod and store the status on it. *)
Definition refresh (p : Provider) (key : string) (st : podState) (w : W) : Provider * W * PodStatus :=
  let '(st', tasks, s, w') := reconcileStatus RT (pv_restartBackoffBase p) (pv_hostIP p) st w in
  (with_tasks (with_pods p (<[key := set_status st' s]> (pv_pods p))) (pv_tasks p ++ tasks), w', s).

Definition GetPodStatus (p : Provider) (ns name : string) (w : W) : Provider * W * result LookupError PodStatus :=
  let key := podKey ns name in
  match pv_pods p !! key with
  | None => (p, w, Err (EPodNotFound key))
  | Some st => let '(p', w', s) := refresh p key st w in (p', w', Ok s)
  end.

Fixpoint refresh_all (p : Provider) (l : list (string * podState)) (w : W) : Provider * W :=
  match l with
  | [] => (p, w)
  | (key, st) :: l' => let '(p', w', _) := refresh p key st w in refresh_all p' l' w'
  end.

Definition GetPods (p : Provider) (w : W) : Provider * W := refresh_all p (range (pv_pods p)) w.

(** ** The restart goroutine *)

(** After the backoff, under the lock: the snapshot, or the end of the task
    when the Pod is gone or can never run. *)
Definition restart_begin (p : Provider) (t : task) : Provider * option task :=
  match pv_pods p !! tk_key t with
  | None => (p, None)
  | Some st =>
      match ps_terminalStatus st with
      | Some _ => (with_pods p (<[tk_key t := set_restarting st false]> (pv_pods p)), None)
      | None =>
          (with_pods p (<[tk_key t := stopProbes st]> (pv_pods p)),
           Some (mkTask (tk_key t) (tk_oldID t)
                   (Working (ps_spec st) (pst_PodIP (ps_status st)) (ps_attached st))))
      end
  end.

(** The work of [restartWorkload] outside the lock: the new name ([""] when
    it failed), whether it is attached, and its address. *)
Definition restart_work (p : Provider) (t : task) (spec : ContainerSpec) (podIP : string) (wasAttached : bool)
    (w : W) : Provider * W * task :=
  let key := tk_key t in
  let done id att ip := mkTask key (tk_oldID t) (Committing id att ip) in
  let '(p1, w1) := if wasAttached then detach p key w else (p, w) in
  let w2 := (rt_Stop RT (tk_oldID t) defaultStopTimeout w1).1 in
  let w3 := (rt_Destroy RT (tk_oldID t) w2).1 in
  let '(w4, r4) := rt_Create RT spec w3 in
  match r4 with
  | Err _ => (p1, w4, done "" false "")
  | Ok newID =>
      let '(w5, r5) := rt_Start RT newID w4 in
      match r5 with
      | Err _ => (p1, (rt_Destroy RT newID w5).1, done "" false "")
      | Ok _ =>
          match pv_podNet p1 with
          | None => (p1, w5, done newID false "")
          | Some rt =>
              if String.eqb podIP "" then (p1, w5, done newID false "")
              else
                let '(w6, vmIP) := observeVMIPByID vmIPPollAttempts newID w5 in
                if String.eqb vmIP "" then (p1, w6, done newID false "")
                else
                  let '(p7, w7, r7) := attach p1 rt key podIP vmIP w6 in
                  (p7, w7, match r7 with Ok _ => done newID true vmIP | Err _ => done newID false "" end)
          end
      end
  end.

Definition with_restart (st : podState) (oldID newID : string) (attached : bool) (vmIP : string) : podState :=
  let restarts :=
    match pod_Containers (ps_pod st) with
    | [] => ps_restarts st
    | c :: _ => <[c_Name c := int32 (default 0 (ps_restarts st !! c_Name c) + 1)]> (ps_restarts st)
    end in
  mkPodState (ps_pod st) (ps_status st)
    ((λ wl, if String.eqb (wl_id wl) oldID then mkWorkload (wl_container wl) newID else wl) <$> ps_workloads st)
    (ps_terminalStatus st) vmIP attached (ps_spec st) (ps_restartPolicy st) restarts false (ps_probes st).

Definition finishRestart (p : Provider) (key oldID newID : string) (attached : bool) (vmIP : string) (w : W)
    : Provider * W :=
  match pv_pods p !! key with
  | None => (p, if String.eqb newID "" then w else (rt_Destroy RT newID w).1)
  | Some st =>
      if String.eqb newID "" then (with_pods p (<[key := set_restarting st false]> (pv_pods p)), w)
      else (with_pods p (<[key := startProbes (with_restart st oldID newID attached vmIP)]> (pv_pods p)), w)
  end.

(** One step of the task at the head of the rest of the list. *)
Definition restart_step (p : Provider) (l1 : list task) (t : task) (l2 : list task) (w : W) : Provider * W :=
  match tk_stage t with
  | Backoff _ =>
      let '(p', next) := restart_begin p t in
      (with_tasks p' (l1 ++ option_list next ++ l2), w)
  | Working spec podIP wasAttached =>
      let '(p', w', t') := restart_work p t spec podIP wasAttached w in
      (with_tasks p' (l1 ++ t' :: l2), w')
  | Committing newID attached vmIP =>
      let '(p', w') := finishRestart p (tk_key t) (tk_oldID t) newID attached vmIP w in
      (with_tasks p' (l1 ++ l2), w')
  end.

(** ** Probe outcomes *)

Definition on_pod (p : Provider) (key : string) (f : podState → podState) : Provider :=
  match pv_pods p !! key with None => p | Some st => with_pods p (<[key := f st]> (pv_pods p)) end.

Definition probe_failure (c : Container) (id : string) (s : PodStatus) : PodStatus :=
  let reason := "ProbeFailure" in
  let msg := "container failed its liveness/startup probe" in
  mkPodStatus PodFailed reason (Txt msg) (pst_StartTime s) (pst_PodIP s) (pst_PodIPs s) (pst_HostIP s) (pst_HostIPs s)
    [terminatedStatus c id 137 reason msg]
    [mkCond PodInitialized true "" (Txt ""); mkCond ContainersReady false reason (Txt "");
     mkCond PodReady false reason (Txt "")].

Definition failed_state (st : podState) (s : PodStatus) : podState :=
  mkPodState (ps_pod st) s (ps_workloads st) (Some s) (ps_vmIP st) (ps_attached st) (ps_spec st)
    (ps_restartPolicy st) (ps_restarts st) (ps_restarting st) None.

Definition empty_container : Container := mkContainer "" "" [] [] [] [] ∅ ∅ None [] [] None None None.

Definition failProbe (p : Provider) (key container : string) (w : W) : Provider * W :=
  match pv_pods p !! key with
  | None => (p, w)
  | Some st =>
      match ps_terminalStatus st with
      | Some _ => (p, w)
      | None =>
          let id := match workload_of st container with Some wl => wl_id wl | None => "" end in
          let '(st', tasks, restarting) := maybeTriggerRestart (pv_restartBackoffBase p) st container id 1 in
          if restarting then (with_tasks (with_pods p (<[key := st']> (pv_pods p))) (pv_tasks p ++ tasks), w)
          else
            let c := match pod_Containers (ps_pod st) with c :: _ => c | [] => empty_container end in
            let w1 := (rt_Stop RT id defaultStopTimeout w).1 in
            (with_pods p (<[key := failed_state st (probe_failure c id (ps_status st))]> (pv_pods p)),
             (rt_Destroy RT id w1).1)
      end
  end.

(** ** The node as a transition system *)

Inductive call : Type :=
  | CallCreate (pod : Pod) (prior : PodStatus) (now : Z) | CallUpdate (pod : Pod) | CallDelete (pod : Pod)
  | CallStatus (ns name : string) | CallGetPods
  | CallProbe (key : string) (a : action) (container : string).

Definition exec_call (p : Provider) (c : call) (w : W) : Provider * W :=
  match c with
  | CallCreate pod prior now => (CreatePod p pod prior now w).1
  | CallUpdate pod => ((UpdatePod p pod).1, w)
  | CallDelete pod => (DeletePod p pod w).1
  | CallStatus ns name => (GetPodStatus p ns name w).1
  | CallGetPods => GetPods p w
  | CallProbe key ActStartupDone _ => (on_pod p key setStartupDone, w)
  | CallProbe key (ActReady b) _ => (on_pod p key (λ st, setReady st b), w)
  | CallProbe key ActFail container => failProbe p key container w
  end.

(** A handler call, a step of some restart in flight, or a change of the host
    behind the provider's back. *)
Inductive node_step : Provider * W → Provider * W → Prop :=
  | step_call p w c : node_step (p, w) (exec_call p c w)
  | step_restart p w l1 t l2 : pv_tasks p = l1 ++ t :: l2 → node_step (p, w) (restart_step p l1 t l2 w)
  | step_host p w w' : node_step (p, w) (p, w').

Inductive node_reach (p0 : Provider) (w0 : W) : Provider * W → Prop :=
  | reach_refl : node_reach p0 w0 (p0, w0)
  | reach_next s s' : node_reach p0 w0 s → node_step s s' → node_reach p0 w0 s'.
End lifecycle.

(** ** Addresses *)

Lemma IP_String_ne ip : IP_String ip ≠ "".
Proof.
  unfold IP_String. destruct (To4 ip).
  - unfold string4, octets. cbn [fmap list_fmap Join]. intros H. apply sapp_eq_nil in H as [_ H].
    by apply sapp_eq_nil in H as [? _].
  - unfold string6. destruct (best_run _ _ _) as [[i l]|].
    + intros H. apply sapp_eq_nil in H as [_ H]. by apply sapp_eq_nil in H as [? _].
    + cbn [groups_of fmap list_fmap Join]. intros H. apply sapp_eq_nil in H as [_ H].
      by apply sapp_eq_nil in H as [? _].
Qed.

Lemma Allocate_byKey a key a' ip :
  Allocate a key = (a', Ok ip) → byKey a' = <[key := ip]> (byKey a).
Proof.
  unfold Allocate. destruct (byKey a !! key) eqn:E; [intros; simplify_eq; by rewrite insert_id|].
  destruct (_ <? _); [done|]. destruct (iter_until _ _ _) as [?|[off ip']]; [done|].
  intros. by simplify_eq.
Qed.

Lemma Allocate_err a key a' e : Allocate a key = (a', Err e) → a' = a.
Proof.
  unfold Allocate. intros. repeat case_match; by simplify_eq.
Qed.

Lemma Release_byKey a key : byKey (Release a key) = delete key (byKey a).
Proof.
  unfold Release. destruct (byKey a !! key) eqn:E; [done|]. by rewrite delete_id.
Qed.

Lemma held_ip_ne a key ip : ipam_inv a → byKey a !! key = Some ip → ip ≠ "".
Proof.
  intros Hinv Hk. apply (inv_inverse a Hinv) in Hk. apply (inv_range a Hinv) in Hk as (off & _ & ->).
  apply IP_String_ne.
Qed.

(** A tracked Pod against the allocations: its address is the one allocated to
    its key; only a Pod that can never run may have none; and a sticky status
    carries the same address. *)
Record addr_ok (m : gmap string string) (key : string) (st : podState) : Prop := {
  ao_terminal : ∀ s, ps_terminalStatus st = Some s → pst_PodIP s = pst_PodIP (ps_status st);
  ao_held : pst_PodIP (ps_status st) ≠ "" → m !! key = Some (pst_PodIP (ps_status st));
  ao_live : ps_terminalStatus st = None → pst_PodIP (ps_status st) ≠ "";
}.

Record addr_inv (cidr : string) (p : Provider) : Prop := {
  ai_pool : ∃ a, pv_ipam p = Some a ∧ ipam_reach cidr a ∧ plain_net (ipnet a);
  ai_pods : ∀ a, pv_ipam p = Some a → map_Forall (addr_ok (byKey a)) (pv_pods p);
}.

(** The part of a Pod's state that addresses depend on is unchanged. *)
Definition same_addr (st st' : podState) : Prop :=
  ps_terminalStatus st' = ps_terminalStatus st ∧ pst_PodIP (ps_status st') = pst_PodIP (ps_status st).

Lemma same_addr_ok m key st st' : same_addr st st' → addr_ok m key st → addr_ok m key st'.
Proof. intros [Ht Hs] [H1 H2 H3]. split; rewrite ?Ht, ?Hs; done. Qed.

Lemma maybeTrigger_same base st c id exit st' tasks b :
  maybeTriggerRestart base st c id exit = (st', tasks, b) →
  ps_terminalStatus st' = ps_terminalStatus st ∧ ps_status st' = ps_status st ∧ ps_pod st' = ps_pod st.
Proof. unfold maybeTriggerRestart. intros. repeat case_match; by simplify_eq. Qed.

(** Reconciling keeps everything but the restart flag, and an address once it
    is known. *)
Definition recon_keeps (st : podState) (ip : string) (a : recon) : Prop :=
  ps_terminalStatus (rc_st a) = ps_terminalStatus st ∧ ps_status (rc_st a) = ps_status st ∧
  ps_pod (rc_st a) = ps_pod st ∧ (ip ≠ "" → rc_PodIP a = ip).

Lemma reconcile_one_keeps {W} (RT : Runtime W) base a c w a' w' st ip :
  reconcile_one RT base a c w = (a', w') → recon_keeps st ip a → recon_keeps st ip a'.
Proof.
  intros H (K1 & K2 & K3 & K4). unfold reconcile_one in H.
  destruct (workload_of _ _) as [wl|]; [|by simplify_eq].
  destruct (rt_Status RT (wl_id wl) w) as [w1 [rs|e]]; simplify_eq.
  - unfold observed, emit. assert (ip ≠ "" →
      (if String.eqb (rc_PodIP a) "" && negb (String.eqb (st_IP rs) "") then st_IP rs else rc_PodIP a) = ip) as Hip.
    { intros Hn. rewrite (K4 Hn). by rewrite (proj2 (String.eqb_neq _ _) Hn). }
    destruct (_ || _); [|by split_and!].
    destruct (maybeTriggerRestart _ _ _ _ _) as [[st' tasks] b] eqn:E.
    apply maybeTrigger_same in E as (E1 & E2 & E3). destruct b; split_and!; cbn; first [congruence|done].
  - unfold unobserved, emit. destruct (bool_decide _).
    + destruct (maybeTriggerRestart _ _ _ _ _) as [[st' tasks] b] eqn:E.
      apply maybeTrigger_same in E as (E1 & E2 & E3). destruct b; split_and!; cbn; first [congruence|done].
    + destruct (previousContainerStatus _ _); by split_and!.
Qed.

Lemma reconcile_loop_keeps {W} (RT : Runtime W) base l a w a' w' st ip :
  reconcile_loop RT base a l w = (a', w') → recon_keeps st ip a → recon_keeps st ip a'.
Proof.
  revert a w. induction l as [|c l IH]; intros a w H Ha; simpl in H; [by simplify_eq|].
  destruct (reconcile_one RT base a c w) as [a1 w1] eqn:E. eapply IH; [done|].
  by eapply reconcile_one_keeps.
Qed.

Lemma reconcile_same_addr {W} (RT : Runtime W) base hostIP st w st' tasks s w' m key :
  reconcileStatus RT base hostIP st w = (st', tasks, s, w') → addr_ok m key st →
  same_addr st (set_status st' s).
Proof.
  unfold reconcileStatus. intros H Ha. destruct (ps_terminalStatus st) as [s0|] eqn:Et.
  { simplify_eq. split; [done|]. simpl. by eapply ao_terminal. }
  destruct (reconcile_loop _ _ _ _ _) as [a w1] eqn:E. destruct (probeReadiness _ _). simplify_eq.
  apply (reconcile_loop_keeps _ _ _ _ _ _ _ st (pst_PodIP (ps_status st))) in E as (K1 & K2 & K3 & K4);
    [|by split_and!].
  split; simpl; [done|]. apply K4. by eapply ao_live.
Qed.

(** A step that neither touches the pool nor breaks a tracked Pod's address. *)
Definition keeps (p p' : Provider) : Prop :=
  pv_ipam p' = pv_ipam p ∧
  ∀ key st', pv_pods p' !! key = Some st' →
    ∃ st, pv_pods p !! key = Some st ∧ ∀ m, addr_ok m key st → addr_ok m key st'.

Lemma keeps_refl p : keeps p p.
Proof. split; [done|]. intros key st ?. by exists st. Qed.

Lemma keeps_trans p q r : keeps p q → keeps q r → keeps p r.
Proof.
  intros [I1 K1] [I2 K2]. split; [congruence|]. intros key st3 H3.
  destruct (K2 _ _ H3) as (st2 & H2 & A2). destruct (K1 _ _ H2) as (st1 & H1 & A1). exists st1. auto.
Qed.

Lemma keeps_fields p p' : pv_ipam p' = pv_ipam p → pv_pods p' = pv_pods p → keeps p p'.
Proof. intros Hi Hp. split; [done|]. rewrite Hp. intros key st ?. by exists st. Qed.

Lemma keeps_insert p p' key st st' :
  pv_ipam p' = pv_ipam p → pv_pods p !! key = Some st → pv_pods p' = <[key := st']> (pv_pods p) →
  (∀ m, addr_ok m key st → addr_ok m key st') → keeps p p'.
Proof.
  intros Hi Hk Hp Ha. split; [done|]. rewrite Hp. intros k s Hs.
  destruct (decide (k = key)) as [->|Hn].
  - rewrite lookup_insert_eq in Hs. simplify_eq. by exists st.
  - rewrite lookup_insert_ne in Hs by done. by exists s.
Qed.

Lemma keeps_inv cidr p p' : keeps p p' → addr_inv cidr p → addr_inv cidr p'.
Proof.
  intros [Hi Hk] [Hpool Hpods]. split; [by rewrite Hi|]. rewrite Hi. intros a Ha key st' Hs.
  destruct (Hk _ _ Hs) as (st & Hst & Hok). apply Hok. by eapply (Hpods a Ha).
Qed.

Lemma addr_ok_other m key key' v st : key ≠ key' → addr_ok m key st → addr_ok (<[key' := v]> m) key st.
Proof. intros Hn [H1 H2 H3]. split; [done| |done]. rewrite lookup_insert_ne by done. done. Qed.

Lemma addr_ok_delete m key key' st : key ≠ key' → addr_ok m key st → addr_ok (delete key' m) key st.
Proof. intros Hn [H1 H2 H3]. split; [done| |done]. rewrite lookup_delete_ne by done. done. Qed.

(** A Pod whose key is untracked may acquire and release an address. *)
Lemma pool_release cidr p key :
  pv_pods p !! key = None → addr_inv cidr p → addr_inv cidr (releaseIP p key).
Proof.
  intros Hn [(a & Ha & Hr & Hp) Hpods]. unfold releaseIP. rewrite Ha. split; simpl.
  - exists (Release a key). split; [done|].
    assert (ipam_step a (Release a key)) as Hs by constructor. split; [by econstructor|].
    by rewrite (proj2 (ipam_step_shape _ _ Hs (proj1 (ipam_reach_wf _ _ Hr)))).
  - intros ? [= <-] k st Hk. rewrite Release_byKey. apply addr_ok_delete; [|by eapply Hpods].
    intros ->. by rewrite Hn in Hk.
Qed.

Lemma pool_allocate cidr p key p' r :
  pv_pods p !! key = None → addr_inv cidr p → allocateIP p key = (p', r) →
  addr_inv cidr p' ∧ pv_pods p' = pv_pods p ∧
  (∀ ip, r = Ok ip → ip ≠ "" ∧ ∃ a, pv_ipam p' = Some a ∧ byKey a !! key = Some ip).
Proof.
  intros Hn [(a & Ha & Hr & Hp) Hpods] H. unfold allocateIP in H. rewrite Ha in H.
  destruct (Allocate a key) as [a' r'] eqn:E. simplify_eq. cbn [pv_pods with_ipam pv_ipam].
  assert (ipam_step a a') as Hs by (pose proof (step_allocate a key) as Hs; by rewrite E in Hs).
  assert (ipam_reach cidr a') as Hr' by by econstructor.
  assert (plain_net (ipnet a')) as Hp'
    by by rewrite (proj2 (ipam_step_shape _ _ Hs (proj1 (ipam_reach_wf _ _ Hr)))).
  destruct r as [ip|e].
  - apply Allocate_byKey in E. split_and!; [|done|].
    + split; [by exists a'|]. simpl. intros ? [= <-] k st Hk. rewrite E.
      apply addr_ok_other; [|by eapply Hpods]. intros ->. simpl in Hk. congruence.
    + intros ? [= <-]. assert (byKey a' !! key = Some ip) as Hk by (rewrite E; apply lookup_insert_eq).
      split; [|by exists a']. eapply held_ip_ne; [|done]. by apply (ipam_reach_wf cidr a' Hr').
  - apply Allocate_err in E as ->. split_and!; [|done|done].
    split; simpl; [by exists a|]. by intros ? [= <-]; apply Hpods.
Qed.

Section preserve.
Context `{MapRange} {W : Type} (RT : Runtime W) (R : Runner W) (FS : HostFS W).
Context (json_auths : bool → string → option (gmap string dockerAuthEntry)) (ctx_done : W → bool).
Context (cidr : string).

Lemma refresh_keeps p key st w p' w' s :
  pv_pods p !! key = Some st → refresh RT p key st w = (p', w', s) → keeps p p'.
Proof.
  intros Hk. unfold refresh. destruct (reconcileStatus _ _ _ _ _) as [[[st' tasks] s'] w1] eqn:E.
  intros; simplify_eq. eapply keeps_insert; [done|done|done|].
  intros m Ha. eapply same_addr_ok; [|done]. by eapply reconcile_same_addr.
Qed.

Lemma refresh_pods p key st w p' w' s k :
  refresh RT p key st w = (p', w', s) → k ≠ key → pv_pods p' !! k = pv_pods p !! k.
Proof.
  unfold refresh. destruct (reconcileStatus _ _ _ _ _) as [[[st' tasks] s'] w1].
  intros; simplify_eq. simpl. by rewrite lookup_insert_ne.
Qed.

Lemma refresh_all_keeps l p w p' w' :
  NoDup l.*1 → (∀ k st, (k, st) ∈ l → pv_pods p !! k = Some st) →
  refresh_all RT p l w = (p', w') → keeps p p'.
Proof.
  revert p w. induction l as [|[k st] l IH]; intros p w Hnd Hl Hr; simpl in Hr; [by simplify_eq; apply keeps_refl|].
  rewrite fmap_cons, NoDup_cons in Hnd. destruct Hnd as [Hni Hnd].
  destruct (refresh RT p k st w) as [[p1 w1] s] eqn:E.
  assert (pv_pods p !! k = Some st) as Hk by (apply Hl, list_elem_of_here).
  eapply keeps_trans; [by eapply refresh_keeps|]. eapply IH; [done| |done].
  intros k' st' Hin. rewrite (refresh_pods _ _ _ _ _ _ _ k' E).
  - apply Hl. by apply list_elem_of_further.
  - intros ->. apply Hni. by apply (list_elem_of_fmap_2 fst) in Hin.
Qed.

Lemma detach_same p key w p' w' :
  detach R p key w = (p', w') → pv_ipam p' = pv_ipam p ∧ pv_pods p' = pv_pods p.
Proof.
  unfold detach. destruct (pv_podNet p); [|intros; by simplify_eq].
  destruct (Detach _ _ _ _) as [[? ?] ?]. intros; by simplify_eq.
Qed.

Lemma attach_same p rt key ip vm w p' w' r :
  attach R p rt key ip vm w = (p', w', r) → pv_ipam p' = pv_ipam p ∧ pv_pods p' = pv_pods p.
Proof. unfold attach. destruct (Attach _ _ _ _) as [[? ?] ?]. intros; by simplify_eq. Qed.

Lemma restart_step_keeps p l1 t l2 w :
  keeps p (restart_step RT R ctx_done p l1 t l2 w).1.
Proof.
  unfold restart_step. destruct (tk_stage t) as [d|spec ip was|id att vm].
  - unfold restart_begin. destruct (pv_pods p !! tk_key t) as [st|] eqn:E; [|by apply keeps_fields].
    destruct (ps_terminalStatus st) eqn:Et; simpl;
      (eapply keeps_insert; [done|done|done|]); intros m; by apply same_addr_ok.
  - assert (pv_ipam (restart_work RT R ctx_done p t spec ip was w).1.1 = pv_ipam p ∧
            pv_pods (restart_work RT R ctx_done p t spec ip was w).1.1 = pv_pods p) as [Hi Hp].
    { unfold restart_work. destruct (if was then _ else _) as [p1 w1] eqn:Ed.
      assert (pv_ipam p1 = pv_ipam p ∧ pv_pods p1 = pv_pods p) as [Hi Hp].
      { destruct was; [by eapply detach_same|by simplify_eq]. }
      destruct (rt_Create _ _ _) as [w4 [id|e]]; [|done]. destruct (rt_Start _ _ _) as [w5 [u|e]]; [|done].
      destruct (pv_podNet p1) as [rt|]; [|done]. destruct (String.eqb ip ""); [done|].
      destruct (observeVMIPByID _ _ _ _ _) as [w6 vm]. destruct (String.eqb vm ""); [done|].
      destruct (attach _ _ _ _ _ _ _) as [[p7 w7] r7] eqn:Ea. apply attach_same in Ea as [Ei Ep].
      simpl. split; congruence. }
    destruct (restart_work _ _ _ _ _ _ _ _ _) as [[p' w'] t']. by apply keeps_fields.
  - unfold finishRestart. destruct (pv_pods p !! tk_key t) as [st|] eqn:E; [|by apply keeps_fields].
    destruct (String.eqb id ""); simpl; (eapply keeps_insert; [done|done|done|]); intros m; apply same_addr_ok; [done|].
    unfold startProbes. by repeat case_match.
Qed.

Lemma failProbe_keeps p key c w : keeps p (failProbe RT p key c w).1.
Proof.
  unfold failProbe. destruct (pv_pods p !! key) as [st|] eqn:E; [|apply keeps_refl].
  destruct (ps_terminalStatus st) eqn:Et; [apply keeps_refl|].
  destruct (maybeTriggerRestart _ _ _ _ _) as [[st' tasks] b] eqn:Em.
  apply maybeTrigger_same in Em as (E1 & E2 & _). destruct b; simpl.
  - eapply keeps_insert; [done|done|done|]. intros m. apply same_addr_ok. split; congruence.
  - eapply keeps_insert; [done|done|done|]. intros m [H1 H2 H3]. split; simpl; [by intros ? [= <-]|done|done].
Qed.

Lemma on_pod_keeps p key f : (∀ st, same_addr st (f st)) → keeps p (on_pod p key f).
Proof.
  intros Hf. unfold on_pod. destruct (pv_pods p !! key) as [st|] eqn:E; [|apply keeps_refl].
  eapply keeps_insert; [done|done|done|]. intros m. by apply same_addr_ok.
Qed.

Lemma undo_inv p key ip had :
  pv_pods p !! key = None ∨ had = true ∨ ip = "" → addr_inv cidr p → addr_inv cidr (undo_ip p key ip had).
Proof.
  intros Hc Hp. unfold undo_ip. destruct (negb _ && negb _) eqn:E; [|done]. bools.
  apply pool_release; [|done]. destruct Hc as [?|[?|?]]; [done|congruence|congruence].
Qed.

Lemma connect_same p key ip st ad w p' w' r :
  connect RT R FS ctx_done p key ip st ad w = (p', w', r) →
  pv_ipam p' = pv_ipam p ∧ pv_pods p' = pv_pods p ∧ ∀ st', r = Ok st' → same_addr st st'.
Proof.
  unfold connect. destruct (pv_podNet p) as [rt|]; [|intros; simplify_eq; split_and!; by intros; simplify_eq].
  destruct (String.eqb ip ""); [intros; simplify_eq; split_and!; by intros; simplify_eq|].
  destruct (observeVMIP _ _ _ _) as [w1 vm]. destruct (String.eqb vm ""); [intros; by simplify_eq|].
  destruct (attach _ _ _ _ _ _ _) as [[p2 w2] r2] eqn:Ea. apply attach_same in Ea as [Ei Ep].
  destruct r2; intros; simplify_eq; split_and!; by intros; simplify_eq.
Qed.

Lemma build_same p pod c spec st w w' st' ad :
  build RT FS json_auths p pod c spec st w = (w', Built st' ad) → same_addr st st'.
Proof.
  unfold build. intros H'. destruct (lookupWorkload _ _ _) as [w1 [rs|]].
  - destruct (bool_decide _); [|by simplify_eq].
    destruct (rt_Start _ _ _) as [w2 [u|e]]; by simplify_eq.
  - destruct (resolvePullAuth _ _ _ _) as [au|e]; [|by simplify_eq].
    destruct (rt_Pull _ _ _ _) as [w2 [u|e]]; [|by repeat case_match; simplify_eq].
    destruct (rt_Create _ _ _) as [w3 [id|e]]; [|by simplify_eq].
    destruct (rt_Start _ _ _) as [w4 [u'|e]]; by simplify_eq.
Qed.

Lemma commit_inv p key st w p' w' a :
  pv_ipam p = Some a → addr_ok (byKey a) key st → commit RT p key st w = (p', w') →
  addr_inv cidr p → addr_inv cidr p'.
Proof.
  intros Ha Hok Hc [Hpool Hpods]. unfold commit in Hc.
  destruct (reconcileStatus _ _ _ _ _) as [[[st' tasks] s] w1] eqn:E. simplify_eq.
  apply (reconcile_same_addr _ _ _ _ _ _ _ _ _ _ _ E) in Hok as Hsame.
  split; [done|]. simpl. intros a' Ha'. simplify_eq. apply map_Forall_insert_2; [|by apply Hpods].
  eapply same_addr_ok; [|done]. destruct Hsame as [S1 S2].
  destruct (bool_decide _); [|by split]. unfold startProbes. by repeat case_match.
Qed.

Lemma terminal_inv p key pod reason msg now :
  pv_pods p !! key = None → addr_inv cidr p → addr_inv cidr (markTerminalFailure p key pod reason msg now).
Proof.
  intros Hn [Hpool Hpods]. split; [done|]. simpl. intros a Ha. apply map_Forall_insert_2; [|by apply Hpods].
  split; simpl; [by intros ? [= <-]|done|done].
Qed.

(** Giving the address back commutes with recording a terminal Pod. *)
Lemma undo_terminal p key pod reason msg now ip had :
  undo_ip (markTerminalFailure p key pod reason msg now) key ip had =
  markTerminalFailure (undo_ip p key ip had) key pod reason msg now.
Proof.
  unfold undo_ip, releaseIP. destruct (negb _ && negb _); [|done]. simpl. by destruct (pv_ipam p).
Qed.

Lemma undo_pods p key ip had : pv_pods (undo_ip p key ip had) = pv_pods p.
Proof. unfold undo_ip, releaseIP. destruct (negb _ && negb _); [|done]. by destruct (pv_ipam p). Qed.

Lemma CreatePod_inv p pod prior now w :
  addr_inv cidr p → addr_inv cidr (CreatePod RT R FS json_auths ctx_done p pod prior now w).1.1.
Proof.
  intros Hp. unfold CreatePod. set (key := podKey _ _). destruct (pv_pods p !! key) eqn:Hn; [done|].
  destruct (translatePod _ _ _ _ _ _) as [[spec vols]|e]; [|destruct (retryable e); [done|by apply terminal_inv]].
  destruct (pod_Containers pod) as [|c cs]; [done|].
  destruct (ensureVolumeDirs _ _ _) as [w1 [u1|e1]]; [|done].
  destruct (writeConfigFiles _ _ _) as [w2 [u2|e2]]; [|done].
  destruct (allocateIP p key) as [p3 r3] eqn:Ea.
  destruct (pool_allocate cidr p key p3 r3 Hn Hp Ea) as (Hp3 & Hpods & Hip).
  assert (pv_pods p3 !! key = None) as Hn3 by by rewrite Hpods.
  destruct r3 as [ip|e3]; [|done]. destruct (Hip ip eq_refl) as (Hne & a & Hpa & Hka).
  destruct (build _ _ _ _ _ _ _ _ _) as [w4 [st ad|e4|e4]] eqn:Eb.
  - destruct (connect _ _ _ _ _ _ _ _ _ _) as [[p5 w5] r5] eqn:Ec.
    apply connect_same in Ec as (Ei & Ep & Es).
    assert (addr_inv cidr p5) as Hp5 by (eapply keeps_inv; [by apply keeps_fields|done]).
    destruct r5 as [st'|e5]; [|by apply undo_inv; [left; by rewrite Ep|]].
    destruct (commit _ _ _ _ _) as [p6 w6] eqn:E6. simpl. eapply commit_inv; [by rewrite Ei| |done|done].
    apply (same_addr_ok _ _ st); [by apply Es|]. apply build_same in Eb.
    eapply same_addr_ok; [done|]. by split.
  - apply undo_inv; [by left|done].
  - simpl. rewrite undo_terminal. apply terminal_inv; [by rewrite undo_pods|]. apply undo_inv; [by left|done].
Qed.

Lemma DeletePod_inv p pod w : addr_inv cidr p → addr_inv cidr (DeletePod RT R FS p pod w).1.1.
Proof.
  intros Hp. unfold DeletePod. set (key := podKey _ _). destruct (pv_pods p !! key) as [st|] eqn:E; [|done].
  destruct (detachPodNetwork _ _ _ _ _) as [p2 w2] eqn:Ed.
  assert (pv_ipam p2 = pv_ipam p ∧ pv_pods p2 = delete key (pv_pods p)) as [Ei Ep].
  { unfold detachPodNetwork in Ed. destruct (ps_attached st); [|by simplify_eq].
    by apply detach_same in Ed as [-> ->]. }
  simpl. apply pool_release; [by rewrite Ep, lookup_delete_eq|]. eapply keeps_inv; [|done].
  split; [done|]. rewrite Ep. intros k s [_ Hs]%lookup_delete_Some. by exists s.
Qed.

Lemma exec_call_inv p c w : addr_inv cidr p → addr_inv cidr (exec_call RT R FS json_auths ctx_done p c w).1.
Proof.
  intros Hp. destruct c as [pod prior now|pod|pod|ns name| |key a container]; cbn [exec_call].
  - by apply CreatePod_inv.
  - eapply keeps_inv; [|done]. unfold UpdatePod. set (key := podKey _ _).
    destruct (pv_pods p !! key) as [st|] eqn:E; [|apply keeps_refl].
    eapply keeps_insert; [done|done|done|]. intros m. by apply same_addr_ok.
  - by apply DeletePod_inv.
  - eapply keeps_inv; [|done]. unfold GetPodStatus. set (key := podKey _ _).
    destruct (pv_pods p !! key) as [st|] eqn:E; [|apply keeps_refl].
    destruct (refresh _ _ _ _ _) as [[p' w'] s] eqn:Er. by eapply refresh_keeps.
  - eapply keeps_inv; [|done]. unfold GetPods.
    destruct (refresh_all _ _ _ _) as [p' w'] eqn:Er. eapply refresh_all_keeps; [| |exact Er].
    + apply range_keys_NoDup.
    + intros k st. by rewrite elem_of_range.
  - eapply keeps_inv; [|done]. destruct a.
    + apply on_pod_keeps. intros st. unfold setStartupDone. by destruct (ps_probes st).
    + apply on_pod_keeps. intros st. unfold setReady. by destruct (ps_probes st).
    + apply failProbe_keeps.
Qed.

Lemma node_reach_inv p0 w0 s :
  addr_inv cidr p0 → node_reach RT R FS json_auths ctx_done p0 w0 s → addr_inv cidr s.1.
Proof.
  intros H0. induction 1 as [|s s' Hr IH Hs]; [done|]. destruct Hs as [p w c|p w l1 t l2 Ht|p w w'].
  - by apply exec_call_inv.
  - eapply keeps_inv; [apply restart_step_keeps|done].
  - done.
Qed.
End preserve.

(** ** A simulated node *)

Record NodeSim := mkNode {
  nd_vm : VmSim; nd_pf : gmap string string * list (option CommandError); nd_files : list string;
}.

Definition on_vm {A} (f : VmSim → VmSim * A) (n : NodeSim) : NodeSim * A :=
  let '(v, r) := f (nd_vm n) in (mkNode v (nd_pf n) (nd_files n), r).

Definition node_rt : Runtime NodeSim :=
  mkRuntime NodeSim (λ i a, on_vm (rt_Pull vm_sim i a)) (λ s, on_vm (rt_Create vm_sim s))
    (λ i, on_vm (rt_Start vm_sim i)) (λ i t, on_vm (rt_Stop vm_sim i t)) (λ i, on_vm (rt_Destroy vm_sim i))
    (λ i, on_vm (rt_Status vm_sim i)) (on_vm (rt_List vm_sim)).

Definition node_run : Runner NodeSim :=
  mkRunner (λ c n, let '(pf, r) := run pf_sim c (nd_pf n) in (mkNode (nd_vm n) pf (nd_files n), r)).

(** The paths touched, newest first. *)
Definition node_fs : HostFS NodeSim :=
  let touch p n := (mkNode (nd_vm n) (nd_pf n) (p :: nd_files n), Ok tt) in
  mkFS touch (λ p _ _, touch p) (λ p _, touch p) touch.

Definition sim_node (m : gmap string Status) (next : Z) (vm_faults : list (option RtKind))
    (pf_faults : list (option CommandError)) : NodeSim :=
  mkNode (mkSim m next vm_faults) (∅, pf_faults) [].

#[export] Program Instance node_rt_host : VmHost node_rt := {| vms n := dom (sim_vms (nd_vm n)) |}.
Next Obligation. intros i a w. simpl. unfold on_vm. pose proof (vms_Pull (RT := vm_sim) i a (nd_vm w)) as E.
  simpl in *. destruct (sim_fault (nd_vm w)); exact E. Qed.
Next Obligation. intros i w. simpl. unfold on_vm. pose proof (vms_Start (RT := vm_sim) i (nd_vm w)) as E.
  simpl in *. destruct (sim_start i (nd_vm w)); exact E. Qed.
Next Obligation. intros i t w. simpl. unfold on_vm. pose proof (vms_Stop (RT := vm_sim) i t (nd_vm w)) as E.
  simpl in *. destruct (sim_stop i t (nd_vm w)); exact E. Qed.
Next Obligation. intros i w. simpl. unfold on_vm. pose proof (vms_Status (RT := vm_sim) i (nd_vm w)) as E.
  simpl in *. destruct (sim_status i (nd_vm w)); exact E. Qed.
Next Obligation. done. Qed.
Next Obligation. intros s w w' r. simpl. unfold on_vm. intros E.
  destruct (sim_create s (nd_vm w)) as [v r'] eqn:Ec. simplify_eq. exact (vms_Create (RT := vm_sim) _ _ _ _ Ec). Qed.
Next Obligation. intros i w w' r. simpl. unfold on_vm. intros E.
  destruct (sim_destroy i (nd_vm w)) as [v r'] eqn:Ec. simplify_eq. exact (vms_Destroy (RT := vm_sim) _ _ _ _ Ec). Qed.
Next Obligation. intros i w w' st. simpl. unfold on_vm. intros E.
  destruct (sim_status i (nd_vm w)) as [v r'] eqn:Ec. simplify_eq. exact (vms_found (RT := vm_sim) _ _ _ _ Ec). Qed.
Next Obligation. intros i w w' e. simpl. unfold on_vm. intros E.
  destruct (sim_status i (nd_vm w)) as [v r'] eqn:Ec. simplify_eq. exact (vms_not_found (RT := vm_sim) _ _ _ _ Ec). Qed.
Next Obligation. intros w w' l. simpl. unfold on_vm. intros E.
  destruct (sim_list (nd_vm w)) as [v r'] eqn:Ec. simplify_eq. exact (vms_listed (RT := vm_sim) _ _ _ Ec). Qed.

#[local] Instance sim_range : MapRange := canonical_range.

(** The provider of the examples: a started router and the address pool of
    [cidr], default volume policy. *)
Definition pool (cidr : string) : option PodIPAM :=
  match NewPodIPAM cidr with Ok a => Some a | Err _ => None end.

Definition started_router : Router :=
  (Start pf_sim (PodNet.New (mkRouterConfig "bridge100" "utun7" "" true)) (∅, [])).1.1.

Definition sim_provider (cidr : string) : Provider :=
  NewProvider (pool cidr) (Some started_router) "10.0.0.1" (mkVolPolicy "/vol" []) (mkDNS [] "") None None None.

Definition sim_json : bool → string → option (gmap string dockerAuthEntry) := λ _ _, None.

Definition sim_exec (s : Provider * NodeSim) (c : call) : Provider * NodeSim :=
  exec_call node_rt node_run node_fs sim_json (λ _, false) s.1 c s.2.

Definition sim_calls (s : Provider * NodeSim) (l : list call) : Provider * NodeSim := foldl sim_exec s l.

(** Run the oldest restart in flight by one step. *)
Definition sim_restart (s : Provider * NodeSim) : Provider * NodeSim :=
  match pv_tasks s.1 with
  | [] => s
  | t :: l => restart_step node_rt node_run (λ _, false) s.1 [] t l s.2
  end.

Definition plain_pod (ns name container : string) : Pod :=
  mkPod ns name ("uid-" +:+ name) ∅ ∅ "node" ""
    [mkContainer container "nginx" [] [] [] [] ∅ ∅ None [] [] None None None]
    [] [] "Always" false false false None [] [] "" None None.

(** C1: Pod addresses are stable and never shared.  Whatever handlers run in
    whatever order, whatever restarts and probe outcomes interleave with them
    and whatever the host does, every Pod the node could run holds the address
    that the allocator recorded for its key, and no two tracked Pods have the
    same address. *)
Theorem pod_addresses_unique `{MapRange} {W} (RT : Runtime W) (R : Runner W) (FS : HostFS W) json_auths ctx_done
    cidr a0 pn hostIP vols dns cms secrets tokens w0 p w
    (Hpool : ipam_reach cidr a0) (Hplain : plain_net (ipnet a0))
    (Hreach : node_reach RT R FS json_auths ctx_done
                (NewProvider (Some a0) pn hostIP vols dns cms secrets tokens) w0 (p, w)) :
  (∃ a, pv_ipam p = Some a ∧ ∀ key st, pv_pods p !! key = Some st → ps_terminalStatus st = None →
     byKey a !! key = Some (pst_PodIP (ps_status st))) ∧
  (∀ k1 k2 st1 st2, pv_pods p !! k1 = Some st1 → pv_pods p !! k2 = Some st2 →
     pst_PodIP (ps_status st1) = pst_PodIP (ps_status st2) → pst_PodIP (ps_status st1) ≠ "" → k1 = k2).
Proof.
  apply (node_reach_inv RT R FS json_auths ctx_done cidr) in Hreach as [(a & Ha & Hr & Hp) Hpods].
  2: { split; simpl; [by exists a0|]. intros ? _. apply map_Forall_empty. }
  simpl in *. specialize (Hpods a Ha). pose proof (proj2 (ipam_reach_wf cidr a Hr) Hp) as Hinv. split.
  - exists a. split; [done|]. intros key st Hk Ht. destruct (Hpods key st Hk) as [_ H2 H3]. auto.
  - intros k1 k2 st1 st2 H1 H2 E Hne. pose proof (ao_held _ _ _ (Hpods k1 st1 H1) Hne) as G1.
    rewrite E in Hne. pose proof (ao_held _ _ _ (Hpods k2 st2 H2) Hne) as G2. rewrite <- E in G2.
    apply (inv_inverse a Hinv) in G1, G2. congruence.
Qed.

Lemma sim_calls_reach p0 w0 s l :
  node_reach node_rt node_run node_fs sim_json (λ _, false) p0 w0 s →
  node_reach node_rt node_run node_fs sim_json (λ _, false) p0 w0 (sim_calls s l).
Proof.
  revert s. induction l as [|c l IH]; intros s Hs; [done|]. apply IH.
  eapply reach_next; [exact Hs|]. destruct s as [p w]. apply step_call.
Qed.

Definition two_creates : Provider * NodeSim :=
  sim_calls (sim_provider "10.244.1.0/29", sim_node ∅ 2 [] [])
    [CallCreate (plain_pod "ns" "a" "web") zero_status 5; CallCreate (plain_pod "ns" "b" "web") zero_status 6; CallStatus "ns" "a"].

Lemma pod_addresses_unique_witness :
  (pst_PodIP ∘ ps_status <$> pv_pods two_creates.1 !! "ns/a") = Some "10.244.1.2" ∧
  (pst_PodIP ∘ ps_status <$> pv_pods two_creates.1 !! "ns/b") = Some "10.244.1.3" ∧
  ∃ a, pv_ipam two_creates.1 = Some a ∧ ∀ key st, pv_pods two_creates.1 !! key = Some st →
    ps_terminalStatus st = None → byKey a !! key = Some (pst_PodIP (ps_status st)).
Proof.
  split; [vm_compute; reflexivity|]. split; [vm_compute; reflexivity|].
  apply (pod_addresses_unique node_rt node_run node_fs sim_json (λ _, false) "10.244.1.0/29"
    (default ex_new (pool "10.244.1.0/29")) (Some started_router) "10.0.0.1" (mkVolPolicy "/vol" []) (mkDNS [] "")
    None None None (sim_node ∅ 2 [] []) two_creates.1 two_creates.2).
  - apply reach_new. vm_compute. reflexivity.
  - left. vm_compute. reflexivity.
  - rewrite <- surjective_pairing. apply sim_calls_reach. constructor.
Defined.
