(* ===== verification/Reclaim.v ===== *)
(** * What a Pod leaves behind

    Resource accounting for [CreatePod] and [DeletePod]: micro-VMs, addresses
    and tracked Pods.  A failed creation leaves nothing, and creating then
    deleting a Pod returns the node to where it was.  Both need that the
    runtime answers status queries and destroys what it is told to; the runs at
    the end show what the network path keeps when a step fails in between. *)

From S2P Require Import Prelude GoStrings GoNet Ipam Host PodNet WireGuard Filepath Sha256 PodSpec PodEnv Volumes.
From S2P Require Import Runtime Provider Lifecycle.

Open Scope Z_scope.

(** The network commands and file operations do not touch micro-VMs, a status
    query fails only for a micro-VM that does not exist, and destroying does
    not fail. *)
Class NodeHost {W} (RT : Runtime W) (R : Runner W) (FS : HostFS W) `{!VmHost RT} := {
  nh_run : ∀ c w, vms (run R c w).1 = vms w;
  nh_mkdir : ∀ d w, vms (fs_MkdirAll FS d w).1 = vms w;
  nh_write : ∀ f d m w, vms (fs_WriteFile FS f d m w).1 = vms w;
  nh_chmod : ∀ f m w, vms (fs_Chmod FS f m w).1 = vms w;
  nh_remove : ∀ d w, vms (fs_RemoveAll FS d w).1 = vms w;
  nh_status : ∀ i w w' e, rt_Status RT i w = (w', Err e) → re_kind e = ErrNotFound;
  nh_destroy : ∀ i w, hard_failure (rt_Destroy RT i w).2 = false;
}.

Section reclaim.
Context `{MapRange} {W : Type} (RT : Runtime W) (R : Runner W) (FS : HostFS W) `{!VmHost RT, !NodeHost RT R FS}.

Lemma destroy_vms i w : vms (rt_Destroy RT i w).1 = vms w ∖ {[i]}.
Proof.
  pose proof (nh_destroy (R := R) (FS := FS) i w) as Hh. destruct (rt_Destroy RT i w) as [w' r] eqn:E.
  pose proof (vms_Destroy _ _ _ _ E) as Hv. simpl in Hh. by rewrite Hh in Hv.
Qed.

Lemma status_exact i w w' r :
  rt_Status RT i w = (w', r) → vms w' = vms w ∧ match r with Ok st => st_ID st = i ∧ i ∈ vms w | Err _ => i ∉ vms w end.
Proof.
  intros E. split; [pose proof (vms_Status i w) as Hv; by rewrite E in Hv|].
  destruct r; [by eapply vms_found|].
  eapply vms_not_found; [done|]. by eapply (nh_status (R := R) (FS := FS)).
Qed.

Lemma tolerating_vms c b w : vms (runTolerating R c b w).1 = vms w.
Proof. rewrite runTolerating_world. apply nh_run. Qed.

Lemma remove_route_vms rt i w : vms (removeVMNetDefaultRouteOnInterface R rt i w).1 = vms w.
Proof.
  unfold removeVMNetDefaultRouteOnInterface.
  match goal with |- context [runTolerating R ?c ?b w] => pose proof (tolerating_vms c b w) as E;
    destruct (runTolerating R c b w) as [w1 [o e]] end. exact E.
Qed.

Lemma load_vms rt w : vms (loadAnchorLocked R rt w).1 = vms w.
Proof.
  unfold loadAnchorLocked. pose proof (nh_run (RT := RT) (FS := FS) (load_cmd rt) w) as E.
  destruct (run R (load_cmd rt) w) as [w1 [o e]]. exact E.
Qed.

Lemma attach_interface_vms rt ep w : vms (attach_interface R rt ep w).1 = vms w.
Proof.
  unfold attach_interface, resolveVMNetInterface. destruct (String.eqb (Interface ep) ""); [|done].
  match goal with |- context [run R ?c w] => pose proof (nh_run (RT := RT) (FS := FS) c w) as E;
    destruct (run R c w) as [w1 [o [e|]]] end; exact E.
Qed.

Lemma Attach_vms rt ep w : vms (Attach R rt ep w).1.2 = vms w.
Proof.
  unfold Attach. destruct (Endpoint_validate ep); [|done]. destruct (negb _); [done|].
  pose proof (remove_route_vms rt (cfg_Interface (cfg rt)) w) as E1. unfold removeVMNetDefaultRoute.
  destruct (removeVMNetDefaultRouteOnInterface R rt _ w) as [w1 [u|e]]; [|exact E1].
  pose proof (attach_interface_vms rt ep w1) as E2. destruct (attach_interface R rt ep w1) as [w2 i].
  pose proof (remove_route_vms rt i w2) as E3.
  destruct (removeVMNetDefaultRouteOnInterface R rt i w2) as [w3 [u'|e]]; simpl in *; [|congruence].
  match goal with |- context [loadAnchorLocked R ?r w3] => pose proof (load_vms r w3) as E4;
    destruct (loadAnchorLocked R r w3) end. simpl in *. congruence.
Qed.

Lemma Detach_vms rt k w : vms (Detach R rt k w).1.2 = vms w.
Proof.
  unfold Detach. destruct (endpoints rt !! k); [|done]. destruct (negb _); [done|].
  match goal with |- context [loadAnchorLocked R ?r w] => pose proof (load_vms r w) as E4;
    destruct (loadAnchorLocked R r w) end. exact E4.
Qed.

Lemma detach_vms p key w p' w' : detach R p key w = (p', w') → vms w' = vms w.
Proof.
  unfold detach. destruct (pv_podNet p) as [rt|]; [|intros; by simplify_eq].
  pose proof (Detach_vms rt key w) as E. destruct (Detach R rt key w) as [[? ?] ?]. intros; by simplify_eq.
Qed.

Lemma attach_vms p rt key ip vm w p' w' r : attach R p rt key ip vm w = (p', w', r) → vms w' = vms w.
Proof.
  unfold attach. pose proof (Attach_vms rt (mkEp key ip vm "") w) as E.
  destruct (Attach R rt _ w) as [[? ?] ?]. intros; by simplify_eq.
Qed.

Lemma poll_vms ctx_done n i w : vms (observeVMIPByID RT ctx_done n i w).1 = vms w.
Proof.
  revert w. induction n as [|n IH]; intros w; [done|]. cbn [observeVMIPByID].
  pose proof (vms_Status i w) as E. destruct (rt_Status RT i w) as [w1 [rs|e]]; simpl in E.
  - destruct (negb _); [done|]. destruct n; [done|]. destruct (ctx_done w1); [done|]. by rewrite IH.
  - destruct n; [done|]. destruct (ctx_done w1); [done|]. by rewrite IH.
Qed.

Lemma cleanup_vms p pod w : vms (cleanupVolumeDirs FS p pod w) = vms w.
Proof. unfold cleanupVolumeDirs. destruct (safePodRoot _ _); [|done]. apply (nh_remove (RT := RT) (R := R)). Qed.

Lemma dirs_vms l w : vms (ensureVolumeDirs FS l w).1 = vms w.
Proof.
  revert w. induction l as [|d l IH]; intros w; [done|]. cbn [ensureVolumeDirs].
  pose proof (nh_mkdir (RT := RT) (R := R) (FS := FS) d w) as E. destruct (fs_MkdirAll FS d w) as [w1 [u|e]]; [|done].
  by rewrite IH.
Qed.

Lemma write_vms f w : vms (writeFile FS f w).1 = vms w.
Proof.
  unfold writeFile. pose proof (nh_mkdir (RT := RT) (R := R) (FS := FS) (Dir (f_path f)) w) as E.
  destruct (fs_MkdirAll FS _ w) as [w1 [u|e]]; [|done]. simpl in E.
  pose proof (nh_write (RT := RT) (R := R) (FS := FS) (f_path f) (f_data f) (f_mode f) w1) as E2.
  destruct (fs_WriteFile FS _ _ _ w1) as [w2 [u2|e]]; simpl in *; [|congruence].
  rewrite (nh_chmod (RT := RT) (R := R) (FS := FS)). congruence.
Qed.

Lemma files_vms l w : vms (writeConfigFiles FS l w).1 = vms w.
Proof.
  revert w. induction l as [|f l IH]; intros w; [done|]. cbn [writeConfigFiles].
  pose proof (write_vms f w) as E. destruct (writeFile FS f w) as [w1 [u|e]]; [|done]. by rewrite IH.
Qed.

(** The names of a list of workloads. *)
Definition ids (l : list workload) : gset string := list_to_set (wl_id <$> l).

Lemma destroy_all_vms l w : vms (destroy_all RT l w) = vms w ∖ ids l.
Proof.
  revert w. induction l as [|wl l IH]; intros w; cbn [destroy_all]; [unfold ids; simpl; set_solver|].
  rewrite IH, destroy_vms. unfold ids. simpl. set_solver.
Qed.

Lemma teardown_vms t l w : vms (teardown RT t l w) = vms w ∖ ids l.
Proof.
  revert w. induction l as [|wl l IH]; intros w; cbn [teardown]; [unfold ids; simpl; set_solver|].
  rewrite IH, destroy_vms, vms_Stop. unfold ids. simpl. set_solver.
Qed.

Lemma rollback_vms p st w : vms (rollback RT FS p st w) = vms w ∖ ids (ps_workloads st).
Proof. unfold rollback. by rewrite cleanup_vms, destroy_all_vms. Qed.

Lemma reconcile_loop_vms base l a w : vms (reconcile_loop RT base a l w).2 = vms w.
Proof.
  revert a w. induction l as [|c l IH]; intros a w; [done|]. cbn [reconcile_loop]. unfold reconcile_one.
  destruct (workload_of _ _) as [wl|]; [|apply IH].
  pose proof (vms_Status (wl_id wl) w) as E. destruct (rt_Status RT (wl_id wl) w) as [w1 r]. by rewrite IH.
Qed.

Lemma reconcile_vms base h st w st' t s w' :
  reconcileStatus RT base h st w = (st', t, s, w') → vms w' = vms w.
Proof.
  unfold reconcileStatus. destruct (ps_terminalStatus st); [intros; by simplify_eq|].
  match goal with |- context [reconcile_loop RT base ?a ?l w] => pose proof (reconcile_loop_vms base l a w) as E;
    destruct (reconcile_loop RT base a l w) as [a1 w1] end.
  destruct (probeReadiness _ _). intros; by simplify_eq.
Qed.

Lemma maybeTrigger_workloads base st c id exit st' tasks b :
  maybeTriggerRestart base st c id exit = (st', tasks, b) → ps_workloads st' = ps_workloads st.
Proof. unfold maybeTriggerRestart. intros. repeat case_match; by simplify_eq. Qed.

Lemma reconcile_one_workloads base a c w :
  ps_workloads (rc_st (reconcile_one RT base a c w).1) = ps_workloads (rc_st a).
Proof.
  unfold reconcile_one. destruct (workload_of _ _) as [wl|]; [|done].
  destruct (rt_Status RT (wl_id wl) w) as [w1 [rs|e]]; simpl.
  - unfold observed, emit. destruct (_ || _); [|done].
    destruct (maybeTriggerRestart _ _ _ _ _) as [[st' tasks] b] eqn:E. apply maybeTrigger_workloads in E.
    by destruct b.
  - unfold unobserved, emit. destruct (bool_decide _); [|by destruct (previousContainerStatus _ _)].
    destruct (maybeTriggerRestart _ _ _ _ _) as [[st' tasks] b] eqn:E. apply maybeTrigger_workloads in E.
    by destruct b.
Qed.

Lemma reconcile_loop_workloads base l a w :
  ps_workloads (rc_st (reconcile_loop RT base a l w).1) = ps_workloads (rc_st a).
Proof.
  revert a w. induction l as [|c l IH]; intros a w; [done|]. cbn [reconcile_loop].
  pose proof (reconcile_one_workloads base a c w) as E. destruct (reconcile_one RT base a c w) as [a1 w1].
  by rewrite IH.
Qed.

Lemma reconcile_workloads base h st w st' t s w' :
  reconcileStatus RT base h st w = (st', t, s, w') → ps_workloads st' = ps_workloads st.
Proof.
  unfold reconcileStatus. destruct (ps_terminalStatus st); [intros; by simplify_eq|].
  match goal with |- context [reconcile_loop RT base ?a ?l w] =>
    pose proof (reconcile_loop_workloads base l a w) as E; destruct (reconcile_loop RT base a l w) as [a1 w1] end.
  destruct (probeReadiness _ _). intros; by simplify_eq.
Qed.

(** The micro-VMs after finding or building one. *)
Lemma build_vms json_auths p pod c spec st w w' b :
  ps_workloads st = [] → build RT FS json_auths p pod c spec st w = (w', b) →
  match b with
  | Built st' adopted =>
      ps_workloads st' = [mkWorkload (c_Name c) (s_Name spec)] ∧
      adopted = bool_decide (s_Name spec ∈ vms w) ∧ vms w' = {[s_Name spec]} ∪ vms w
  | _ => vms w' = vms w
  end.
Proof.
  intros Hst. unfold build, lookupWorkload.
  destruct (rt_Status RT (s_Name spec) w) as [w1 r] eqn:E. apply status_exact in E as [Hv He].
  destruct r as [rs|e]; simpl.
  - destruct He as [Hid Hin]. rewrite Hid.
    assert ({[s_Name spec]} ∪ vms w = vms w) as Hun by set_solver.
    destruct (bool_decide (st_Phase rs = PhaseCreated)).
    + pose proof (vms_Start (s_Name spec) w1) as Hs. destruct (rt_Start RT _ w1) as [w2 [u|e]]; simpl in Hs;
        intros; simplify_eq; [|congruence]. simpl. rewrite Hst, bool_decide_eq_true_2, Hun by done.
      split_and!; [done|done|congruence].
    + intros; simplify_eq. simpl. rewrite Hst, bool_decide_eq_true_2, Hun by done. done.
  - destruct (resolvePullAuth _ _ _ _) as [au|e']; [|intros; by simplify_eq].
    pose proof (vms_Pull (s_Image spec) au w1) as Hp. destruct (rt_Pull RT _ au w1) as [w2 [u|e']]; simpl in Hp.
    2: { intros; repeat case_match; simplify_eq; congruence. }
    destruct (rt_Create RT spec w2) as [w3 [id|e']] eqn:Ec; apply vms_Create in Ec.
    + destruct Ec as [-> Hc]. pose proof (vms_Start (s_Name spec) w3) as Hs.
      destruct (rt_Start RT _ w3) as [w4 [u'|e']]; simpl in Hs; intros; simplify_eq.
      * simpl. rewrite Hst, bool_decide_eq_false_2 by done. split_and!; [done|done|]. by rewrite Hs, Hc, Hp, Hv.
      * rewrite rollback_vms, Hs, Hc, Hp, Hv. simpl. rewrite Hst. unfold ids. simpl.
        clear - He. set_solver.
    + intros; simplify_eq. rewrite rollback_vms, Ec, Hp, Hv, Hst. unfold ids. simpl. clear. set_solver.
Qed.

Lemma connect_vms ctx_done p key ip st ad w p' w' r name c :
  ps_workloads st = [mkWorkload c name] → connect RT R FS ctx_done p key ip st ad w = (p', w', r) →
  match r with
  | Ok st' => ps_workloads st' = ps_workloads st ∧ vms w' = vms w
  | Err _ => vms w' = if ad then vms w else vms w ∖ {[name]}
  end.
Proof.
  intros Hst. unfold connect. destruct (pv_podNet p) as [rt|]; [|intros; by simplify_eq].
  destruct (String.eqb ip ""); [intros; by simplify_eq|]. unfold observeVMIP. rewrite Hst. simpl wl_id.
  pose proof (poll_vms ctx_done vmIPPollAttempts name w) as E1.
  destruct (observeVMIPByID _ _ _ _ _) as [w1 vm]. simpl in E1.
  assert (∀ q w0, vms w0 = vms w →
    vms (unwindCreate RT FS q st ad w0) = if ad then vms w else vms w ∖ {[name]}) as Hun.
  { intros q w0 E0. unfold unwindCreate. destruct ad; [done|]. rewrite rollback_vms, Hst, E0.
    unfold ids. simpl. clear. set_solver. }
  destruct (String.eqb vm ""); [intros; simplify_eq; by apply Hun|].
  destruct (attach _ _ _ _ _ _ _) as [[p2 w2] r2] eqn:Ea. apply attach_vms in Ea.
  destruct r2; intros; simplify_eq; [split; [done|congruence]|]. apply Hun. congruence.
Qed.
End reclaim.

(** The addresses currently held, by Pod key. *)
Definition held (p : Provider) : gmap string string :=
  match pv_ipam p with Some a => byKey a | None => ∅ end.

Definition pool_ok (p : Provider) : Prop := ∀ a, pv_ipam p = Some a → ipam_inv a.

(** Undoing an allocation restores the pool, and keeps a reservation that was
    there before. *)
Lemma undo_held p key p3 ip q :
  pool_ok p → allocateIP p key = (p3, Ok ip) → pv_ipam q = pv_ipam p3 →
  held (undo_ip q key ip (hasAllocatedIP p key)) = held p.
Proof.
  intros Hok Ha Hq. unfold held, undo_ip, releaseIP, allocateIP, hasAllocatedIP in *. rewrite Hq.
  destruct (pv_ipam p) as [a|] eqn:E; [|simplify_eq/=; by rewrite Hq, E].
  specialize (Hok a E). unfold IPOf. destruct (byKey a !! key) as [ip0|] eqn:Ek.
  - pose proof (held_ip_ne _ _ _ Hok Ek) as Hne. simpl.
    rewrite (proj2 (String.eqb_neq _ _) Hne), andb_false_r, Hq.
    unfold Allocate in Ha. rewrite Ek in Ha. by simplify_eq.
  - pose proof (Allocate_inv a key Hok) as Hok'. destruct (Allocate a key) as [a' r] eqn:EA. simplify_eq.
    apply Allocate_byKey in EA.
    assert (ip ≠ "") as Hne by (eapply (held_ip_ne a' key); [done|by rewrite EA, lookup_insert_eq]).
    simpl. rewrite (proj2 (String.eqb_neq _ _) Hne). simpl.
    rewrite Release_byKey, EA. by rewrite delete_insert_id.
Qed.

Lemma undo_fields p key ip had :
  pv_pods (undo_ip p key ip had) = pv_pods p ∧ pv_tasks (undo_ip p key ip had) = pv_tasks p.
Proof. unfold undo_ip, releaseIP. destruct (negb _ && negb _); [|done]. by destruct (pv_ipam p). Qed.

Lemma allocate_fields p key p' r :
  allocateIP p key = (p', r) →
  pv_pods p' = pv_pods p ∧ pv_tasks p' = pv_tasks p ∧ (∀ e, r = Err e → held p' = held p).
Proof.
  unfold allocateIP, held. destruct (pv_ipam p) as [a|] eqn:E; [|intros; by simplify_eq].
  destruct (Allocate a key) as [a' r'] eqn:EA. intros; simplify_eq. split_and!; [done|done|].
  intros e ->. simpl. by rewrite (Allocate_err _ _ _ _ EA).
Qed.

Lemma held_undo_terminal p key pod reason msg now : held (markTerminalFailure p key pod reason msg now) = held p.
Proof. done. Qed.

Section accounting.
Context `{MapRange} {W : Type} (RT : Runtime W) (R : Runner W) (FS : HostFS W) `{!VmHost RT, !NodeHost RT R FS}.
Context (json_auths : bool → string → option (gmap string dockerAuthEntry)) (ctx_done : W → bool).

Lemma connect_tasks p key ip st ad w p' w' r :
  connect RT R FS ctx_done p key ip st ad w = (p', w', r) → pv_tasks p' = pv_tasks p.
Proof.
  unfold connect. destruct (pv_podNet p) as [rt|]; [|intros; by simplify_eq].
  destruct (String.eqb ip ""); [intros; by simplify_eq|]. destruct (observeVMIP _ _ _ _) as [w1 vm].
  destruct (String.eqb vm ""); [intros; by simplify_eq|].
  unfold attach. destruct (Attach _ _ _ _) as [[rt' w2] [u|e]]; intros; by simplify_eq.
Qed.

(** Everything [CreatePod] can do to an untracked Pod. *)
Inductive created (p : Provider) (pod : Pod) (w : W) : Provider → W → result CreateError unit → Prop :=
  | created_error p' w' e :
      pv_pods p' = pv_pods p → pv_tasks p' = pv_tasks p → held p' = held p → vms w' = vms w →
      created p pod w p' w' (Err e)
  | created_terminal p' w' st :
      pv_pods p' = <[podKey (pod_Namespace pod) (pod_Name pod) := st]> (pv_pods p) →
      ps_workloads st = [] → held p' = held p → vms w' = vms w →
      created p pod w p' w' (Ok tt)
  | created_running p' w' st c ip id :
      pv_pods p' = <[podKey (pod_Namespace pod) (pod_Name pod) := st]> (pv_pods p) →
      pod_Containers pod !! 0%nat = Some c →
      id = WorkloadID (pod_Namespace pod) (pod_Name pod) (c_Name c) →
      ps_workloads st = [mkWorkload (c_Name c) id] → vms w' = {[id]} ∪ vms w →
      (pv_ipam p ≠ None → held p' = <[podKey (pod_Namespace pod) (pod_Name pod) := ip]> (held p)) →
      (pv_ipam p = None → held p' = held p) →
      created p pod w p' w' (Ok tt).

Lemma translate_name pod policy dns cms secrets tokens spec vols c cs :
  translatePod pod policy dns cms secrets tokens = Ok (spec, vols) → pod_Containers pod = c :: cs →
  s_Name spec = WorkloadID (pod_Namespace pod) (pod_Name pod) (c_Name c).
Proof.
  unfold translatePod. intros E Hc. destruct (unsupportedReasons pod); [|done].
  destruct (resolveVolumes _ _ _ _ _); [|by destruct (retryable _)]. rewrite Hc in E.
  destruct (resolveEnv _ _ _ _) as [env|]; [|done]. destruct (resolveDNS pod dns) as [[? ?] ?]. by simplify_eq/=.
Qed.

Lemma held_allocated p key p3 ip :
  allocateIP p key = (p3, Ok ip) →
  (pv_ipam p ≠ None → held p3 = <[key := ip]> (held p)) ∧ (pv_ipam p = None → held p3 = held p).
Proof.
  unfold allocateIP, held. destruct (pv_ipam p) as [a|] eqn:E.
  - destruct (Allocate a key) as [a' r] eqn:EA. intros; simplify_eq. split; [intros _|done].
    simpl. by apply Allocate_byKey in EA.
  - intros; simplify_eq. by rewrite E.
Qed.

Lemma held_fields p q : pv_ipam q = pv_ipam p → held q = held p.
Proof. unfold held. by intros ->. Qed.

Lemma CreatePod_created p pod prior now w p' w' r :
  pool_ok p → pv_pods p !! podKey (pod_Namespace pod) (pod_Name pod) = None →
  CreatePod RT R FS json_auths ctx_done p pod prior now w = (p', w', r) → created p pod w p' w' r.
Proof.
  intros Hok Hn. unfold CreatePod. set (key := podKey _ _) in *. rewrite Hn.
  destruct (translatePod _ _ _ _ _ _) as [[spec vols]|e] eqn:Et.
  2: { destruct (retryable e); intros; simplify_eq; [by constructor|]. by eapply created_terminal. }
  destruct (pod_Containers pod) as [|c cs] eqn:Ec.
  { unfold translatePod in Et. rewrite Ec in Et.
    destruct (unsupportedReasons pod); [|done]. by destruct (resolveVolumes _ _ _ _ _); [|destruct (retryable _)]. }
  pose proof (translate_name _ _ _ _ _ _ _ _ _ _ Et Ec) as Hname.
  pose proof (dirs_vms RT R FS (rv_ephemeralDirs vols) w) as V1.
  destruct (ensureVolumeDirs _ _ _) as [w1 [u1|e1]]; simpl in V1; [|intros; simplify_eq; by constructor].
  pose proof (files_vms RT R FS (rv_configFiles vols) w1) as V2. rewrite V1 in V2.
  destruct (writeConfigFiles _ _ _) as [w2 [u2|e2]]; simpl in V2; [|intros; simplify_eq; by constructor].
  destruct (allocateIP p key) as [p3 r3] eqn:Ea.
  destruct (allocate_fields _ _ _ _ Ea) as (Hpods & Htasks & Herr).
  destruct r3 as [ip|e3]; [|intros; simplify_eq; constructor; eauto].
  assert (∀ q, pv_ipam q = pv_ipam p3 → held (undo_ip q key ip (hasAllocatedIP p key)) = held p) as Hundo
    by (intros; by eapply undo_held).
  destruct (build _ _ _ _ _ _ _ _ _) as [w4 b] eqn:Eb0.
  pose proof (λ h, build_vms RT R FS json_auths _ _ _ _ _ _ _ _ h Eb0) as Eb. specialize (Eb eq_refl). clear Eb0.
  rewrite V2, Hname in Eb. destruct b as [st ad|e4|e4].
  - destruct Eb as (Hwl & Had & V4). destruct (connect _ _ _ _ _ _ _ _ _ _) as [[p5 w5] r5] eqn:En.
    pose proof (connect_tasks _ _ _ _ _ _ _ _ _ En) as Ht5.
    destruct (connect_same _ _ _ _ _ _ _ _ _ _ _ _ _ En) as (Hi5 & Hp5 & _).
    apply (connect_vms RT R FS ctx_done _ _ _ _ _ _ _ _ _ _ _ Hwl) in En. rewrite V4 in En.
    destruct r5 as [st'|e5].
    + destruct En as [Hwl' V5]. unfold commit.
      destruct (reconcileStatus _ _ _ _ _) as [[[st2 tasks] s] w6] eqn:Er.
      pose proof (reconcile_vms RT _ _ _ _ _ _ _ _ Er) as V6.
      pose proof (reconcile_workloads RT _ _ _ _ _ _ _ _ Er) as Hwl2.
      destruct (held_allocated _ _ _ _ Ea) as [Hh1 Hh2].
      intros; simplify_eq. eapply created_running; [by simpl; rewrite Hp5, Hpods|by rewrite Ec|done| |congruence| |].
      * transitivity (ps_workloads st2); [|by rewrite Hwl2, Hwl', Hwl, Hname].
        destruct (bool_decide _); [|done]. unfold startProbes. by repeat case_match.
      * intros Hni. transitivity (held p3); [by apply held_fields|by apply Hh1].
      * intros Hni. transitivity (held p3); [by apply held_fields|by apply Hh2].
    + destruct (undo_fields p5 key ip (hasAllocatedIP p key)) as [Hup Hut].
      intros; simplify_eq. constructor; [congruence|congruence|by apply Hundo|].
      rewrite En. case_bool_decide as Hin; clear - Hin; set_solver.
  - destruct (undo_fields p3 key ip (hasAllocatedIP p key)) as [Hup Hut].
    intros; simplify_eq. constructor; [congruence|congruence|by apply Hundo|done].
  - rewrite undo_terminal. intros; simplify_eq.
    eapply created_terminal; [simpl; by rewrite undo_pods, Hpods|done|by apply Hundo|done].
Qed.
End accounting.

(** C4: a failed creation leaves nothing behind.  On a host whose runtime
    answers status queries and destroys what it is told to, when [CreatePod]
    returns an error, at whatever step it failed, the tracked Pods, the restarts
    in flight, the addresses held and the micro-VMs of the host are what they
    were: a new address is given back, a reservation recovered from before the
    kubelet's restart survives, a micro-VM it built is destroyed and one it
    adopted is left running.  (The router's map is not among them: see
    [failed_attach_leaks_mapping].) *)
Theorem failed_create_leaves_nothing `{MapRange} {W} (RT : Runtime W) (R : Runner W) (FS : HostFS W)
    `{!VmHost RT, !NodeHost RT R FS} json_auths ctx_done p pod prior now w p' w' e
    (Hok : pool_ok p) (H' : CreatePod RT R FS json_auths ctx_done p pod prior now w = (p', w', Err e)) :
  pv_pods p' = pv_pods p ∧ pv_tasks p' = pv_tasks p ∧ held p' = held p ∧ vms w' = vms w.
Proof.
  destruct (pv_pods p !! podKey (pod_Namespace pod) (pod_Name pod)) eqn:Hn.
  { unfold CreatePod in H'. by rewrite Hn in H'. }
  apply (CreatePod_created RT R FS) in H'; [|done..]. inversion H'; subst. done.
Qed.

(** C5: take a Pod whose key the node does not track and holds no address
    for, and none of whose workload IDs names a micro-VM on the host, so that
    nothing is there for CreatePod to adopt, over a runtime that answers status
    queries and destroys what it is told to.  If CreatePod accepts the Pod,
    DeletePod succeeds and returns the node to its previous state: the same Pods
    tracked, the same addresses held, the same micro-VMs on the host, whether
    the Pod ran, could never run, or its image was built for another
    architecture. *)
Theorem create_delete_roundtrip `{MapRange} {W} (RT : Runtime W) (R : Runner W) (FS : HostFS W)
    `{!VmHost RT, !NodeHost RT R FS} json_auths ctx_done p pod prior now w p1 w1 p2 w2 r
    (Hok : pool_ok p) (Hnew : pv_pods p !! podKey (pod_Namespace pod) (pod_Name pod) = None)
    (Hip : held p !! podKey (pod_Namespace pod) (pod_Name pod) = None)
    (Hvm : Forall (λ c, WorkloadID (pod_Namespace pod) (pod_Name pod) (c_Name c) ∉ vms w) (pod_Containers pod))
    (H1 : CreatePod RT R FS json_auths ctx_done p pod prior now w = (p1, w1, Ok tt))
    (H2 : DeletePod RT R FS p1 pod w1 = (p2, w2, r)) :
  r = Ok tt ∧ pv_pods p2 = pv_pods p ∧ held p2 = held p ∧ vms w2 = vms w.
Proof.
  apply (CreatePod_created RT R FS) in H1; [|done..]. unfold DeletePod in H2. set (key := podKey _ _) in *.
  assert (∃ st, pv_pods p1 = <[key := st]> (pv_pods p) ∧ vms w1 ∖ ids (ps_workloads st) = vms w ∧
    delete key (held p1) = held p) as (st & Hpods & Hv & Hh).
  { inversion H1 as [|p' w' st Hp Hwl Hh Hv|p' w' st c ip id Hp Hc Hid Hwl Hv Hh1 Hh2]; subst p' w'.
    - exists st. rewrite Hwl, Hv, Hh. split_and!; [done|unfold ids; simpl; clear; set_solver|by apply delete_id].
    - exists st. rewrite Hwl, Hv. split_and!; [done| |].
      + rewrite Forall_forall in Hvm. specialize (Hvm c (list_elem_of_lookup_2 _ _ _ Hc)). rewrite <- Hid in Hvm.
        unfold ids. simpl. clear - Hvm. set_solver.
      + destruct (pv_ipam p) eqn:Ei; [rewrite (Hh1 ltac:(done))|rewrite (Hh2 eq_refl); by apply delete_id].
        by apply delete_insert_id. }
  rewrite Hpods, lookup_insert_eq in H2.
  destruct (detachPodNetwork _ _ _ _ _) as [p3 w3] eqn:Ed.
  assert (pv_ipam p3 = pv_ipam p1 ∧ pv_pods p3 = delete key (pv_pods p1) ∧ vms w3 = vms w1) as (Ei & Ep & Ev).
  { unfold detachPodNetwork in Ed. destruct (ps_attached st); [|by simplify_eq; rewrite Hpods].
    pose proof (detach_vms RT R FS _ _ _ _ _ Ed) as Ev. apply detach_same in Ed as [-> ->]. by rewrite Hpods. }
  simplify_eq. split; [done|]. split_and!.
  - unfold releaseIP. destruct (pv_ipam p3); simpl; rewrite Ep, Hpods; by rewrite delete_insert_id.
  - rewrite <- Hh. unfold releaseIP, held. rewrite Ei.
    destruct (pv_ipam p1); simpl; [by rewrite Release_byKey|by rewrite Ei, delete_empty].
  - rewrite (cleanup_vms RT R FS), (teardown_vms RT R FS). by rewrite Ev.
Qed.

Lemma reachable_pool_ok `{MapRange} {W} (RT : Runtime W) (R : Runner W) (FS : HostFS W) json_auths ctx_done
    cidr a0 pn hostIP vols dns cms secrets tokens w0 s :
  ipam_reach cidr a0 → plain_net (ipnet a0) →
  node_reach RT R FS json_auths ctx_done (NewProvider (Some a0) pn hostIP vols dns cms secrets tokens) w0 s →
  pool_ok s.1.
Proof.
  intros Hpool Hplain Hreach.
  apply (node_reach_inv RT R FS json_auths ctx_done cidr) in Hreach as [(a & Ha & Hr & Hp) _].
  - intros a' Ha'. simplify_eq. exact (proj2 (ipam_reach_wf cidr a Hr) Hp).
  - split; simpl; [by exists a0|]. intros ? _. apply map_Forall_empty.
Qed.

(** ** Runs of the simulated node *)

(** The simulated runtime with a Destroy that never fails. *)
Definition sure_rt : Runtime NodeSim :=
  mkRuntime NodeSim (rt_Pull node_rt) (rt_Create node_rt) (rt_Start node_rt) (rt_Stop node_rt)
    (λ i n, (mkNode (with_vms (nd_vm n) (delete i (sim_vms (nd_vm n)))) (nd_pf n) (nd_files n), Ok tt))
    (rt_Status node_rt) (rt_List node_rt).

#[export] Program Instance sure_rt_host : VmHost sure_rt := {| vms := vms (RT := node_rt) |}.
Next Obligation. exact (vms_Pull (RT := node_rt)). Qed.
Next Obligation. exact (vms_Start (RT := node_rt)). Qed.
Next Obligation. exact (vms_Stop (RT := node_rt)). Qed.
Next Obligation. exact (vms_Status (RT := node_rt)). Qed.
Next Obligation. exact (vms_List (RT := node_rt)). Qed.
Next Obligation. exact (vms_Create (RT := node_rt)). Qed.
Next Obligation. intros i w w' r E. simpl in E. simplify_eq. simpl. by rewrite dom_delete_L. Qed.
Next Obligation. exact (vms_found (RT := node_rt)). Qed.
Next Obligation. exact (vms_not_found (RT := node_rt)). Qed.
Next Obligation. exact (vms_listed (RT := node_rt)). Qed.

#[export] Instance sure_rt_node : NodeHost sure_rt node_run node_fs.
Proof.
  split; try done.
  - intros c w. unfold node_run. cbn [run]. destruct pf_sim as [f]. simpl. by destruct (f c (nd_pf w)).
  - intros i w w' e. simpl. unfold on_vm, sim_status, sim_fail. intros E.
    destruct (sim_vms (nd_vm w) !! i); by simplify_eq.
Qed.

#[local] Instance sim_range : MapRange := canonical_range.

Definition pod_a : Pod := plain_pod "ns" "a" "web".
Definition pod_b : Pod := plain_pod "ns" "b" "web".

Definition sure_create (s : Provider * NodeSim) (pod : Pod) :=
  CreatePod sure_rt node_run node_fs sim_json (λ _, false) s.1 pod zero_status 5 s.2.

Definition one_pod : Provider * NodeSim :=
  (sure_create (sim_provider "10.244.1.0/29", sim_node ∅ 2 [] []) pod_a).1.


Lemma fresh_ok : pool_ok (sim_provider "10.244.1.0/29").
Proof.
  apply (reachable_pool_ok sure_rt node_run node_fs sim_json (λ _, false) "10.244.1.0/29"
    (default ex_new (pool "10.244.1.0/29")) (Some started_router) "10.0.0.1" (mkVolPolicy "/vol" []) (mkDNS [] "")
    None None None (sim_node ∅ 2 [] []) (sim_provider "10.244.1.0/29", sim_node ∅ 2 [] [])).
  - apply reach_new. vm_compute. reflexivity.
  - left. vm_compute. reflexivity.
  - constructor.
Qed.

Lemma one_pod_ok : pool_ok one_pod.1.
Proof.
  apply (reachable_pool_ok sure_rt node_run node_fs sim_json (λ _, false) "10.244.1.0/29"
    (default ex_new (pool "10.244.1.0/29")) (Some started_router) "10.0.0.1" (mkVolPolicy "/vol" []) (mkDNS [] "")
    None None None (sim_node ∅ 2 [] []) one_pod).
  - apply reach_new. vm_compute. reflexivity.
  - left. vm_compute. reflexivity.
  - eapply reach_next; [constructor|]. apply (step_call _ _ _ _ _ _ _ (CallCreate pod_a zero_status 5)).
Qed.

(** The second Pod's anchor load fails after its micro-VM started. *)
Definition busy_node : NodeSim :=
  sim_node (sim_vms (nd_vm one_pod.2)) 9 [] [None; None; None; Some (mkCE 1 "pfctl: busy" "exit status 1")].

Definition failed_second := sure_create (one_pod.1, busy_node) pod_b.

Lemma failed_create_leaves_nothing_witness :
  is_Some (pv_pods one_pod.1 !! "ns/a") ∧ failed_second.2 ≠ Ok tt ∧
  pv_pods failed_second.1.1 = pv_pods one_pod.1 ∧ held failed_second.1.1 = held one_pod.1 ∧
  vms (RT := sure_rt) failed_second.1.2 = vms (RT := sure_rt) one_pod.2.
Proof.
  destruct (failed_second.2) as [u|e] eqn:E; [vm_compute in E; discriminate E|].
  pose proof (failed_create_leaves_nothing sure_rt node_run node_fs sim_json (λ _, false) one_pod.1 pod_b zero_status 5
    busy_node failed_second.1.1 failed_second.1.2 e one_pod_ok) as F.
  assert (CreatePod sure_rt node_run node_fs sim_json (λ _, false) one_pod.1 pod_b zero_status 5 busy_node =
    (failed_second.1.1, failed_second.1.2, Err e)) as Hc.
  { rewrite <- E. destruct failed_second as [[p w] r] eqn:E2. exact E2. }
  destruct (F Hc) as (F1 & _ & F3 & F4).
  split; [apply (bool_decide_unpack _); vm_compute; exact I|]. split; [discriminate|].
  split; [exact F1|]. split; [exact F3|exact F4].
Defined.

Definition one_deleted := DeletePod sure_rt node_run node_fs one_pod.1 pod_a one_pod.2.

Lemma create_delete_roundtrip_witness :
  is_Some (pv_pods one_pod.1 !! "ns/a") ∧ one_deleted.2 = Ok tt ∧
  pv_pods one_deleted.1.1 = pv_pods (sim_provider "10.244.1.0/29") ∧
  held one_deleted.1.1 = held (sim_provider "10.244.1.0/29") ∧
  vms (RT := sure_rt) one_deleted.1.2 = vms (RT := sure_rt) (sim_node ∅ 2 [] []).
Proof.
  split; [apply (bool_decide_unpack _); vm_compute; exact I|].
  apply (create_delete_roundtrip sure_rt node_run node_fs sim_json (λ _, false) (sim_provider "10.244.1.0/29") pod_a zero_status 5
    (sim_node ∅ 2 [] []) one_pod.1 one_pod.2 one_deleted.1.1 one_deleted.1.2 one_deleted.2).
  - exact fresh_ok.
  - vm_compute. reflexivity.
  - vm_compute. reflexivity.
  - constructor; [|constructor]. apply (bool_decide_unpack _). vm_compute. exact I.
  - vm_compute. reflexivity.
  - by rewrite <- !surjective_pairing.
Defined.

(** ** What the network path keeps *)

Definition endpoint_ips (p : Provider) : list (string * string) :=
  match pv_podNet p with Some rt => (λ kv, (kv.1, PodIP kv.2)) <$> map_to_list (endpoints rt) | None => [] end.

(** An anchor load that fails during [Attach] leaves the endpoint in the
    router, while the Pod's address goes back to the pool.  The next Pod gets
    that address, and its anchor carries two translations for it. *)
Definition failed_then_created : Provider * NodeSim :=
  let '(p1, w1, _) :=
    sure_create (sim_provider "10.244.1.0/30",
                 sim_node ∅ 2 [] [None; None; None; Some (mkCE 1 "pfctl: busy" "exit status 1")]) pod_a in
  (sure_create (p1, w1) pod_b).1.

Theorem failed_attach_leaks_mapping :
  endpoint_ips failed_then_created.1 = [("ns/a", "10.244.1.2"); ("ns/b", "10.244.1.2")] ∧
  map_to_list (held failed_then_created.1) = [("ns/b", "10.244.1.2")] ∧
  pv_pods failed_then_created.1 !! "ns/a" = None.
Proof. vm_compute. done. Qed.

(** Two Pods whose names concatenate to the same text share a micro-VM: the
    second adopts the first's, and deleting the first destroys it. *)
Definition colliding : Provider * NodeSim :=
  sim_calls (sim_provider "10.244.1.0/29", sim_node ∅ 2 [] [])
    [CallCreate (plain_pod "a" "b-c" "x") zero_status 5; CallCreate (plain_pod "a-b" "c" "x") zero_status 6].

Theorem colliding_pods_share_vm :
  let after := sim_calls colliding [CallDelete (plain_pod "a" "b-c" "x")] in
  elements (dom (pv_pods colliding.1)) = ["a/b-c"; "a-b/c"] ∧
  elements (vms (RT := node_rt) colliding.2) = ["macvz-a-b-c-x"] ∧
  elements (dom (pv_pods after.1)) = ["a-b/c"] ∧ elements (vms (RT := node_rt) after.2) = [].
Proof. vm_compute. done. Qed.

(** A Pod deleted while its restart is under way: the restart attaches the new
    micro-VM, finds the Pod gone and destroys the micro-VM, but the endpoint it
    attached stays. *)
Definition restarting_pod : Provider * NodeSim :=
  let '(p, w) := sim_exec (sim_provider "10.244.1.0/29", sim_node ∅ 2 [] []) (CallCreate pod_a zero_status 5) in
  let w' := (rt_Stop node_rt "macvz-ns-a-web" 0 w).1 in
  sim_restart (sim_exec (p, w') (CallStatus "ns" "a")).

Theorem restart_delete_race :
  let after := sim_restart (sim_restart (sim_exec restarting_pod (CallDelete pod_a))) in
  length (pv_tasks restarting_pod.1) = 1%nat ∧
  endpoint_ips (sim_exec restarting_pod (CallDelete pod_a)).1 = [] ∧
  pv_tasks after.1 = [] ∧ pv_pods after.1 !! "ns/a" = None ∧ map_to_list (held after.1) = [] ∧
  elements (vms (RT := node_rt) after.2) = [] ∧ endpoint_ips after.1 = [("ns/a", "10.244.1.2")].
Proof. vm_compute. done. Qed.
