(* ===== verification/Config.v ===== *)
(** * Node configuration: [pkg/config/config.go], [metadata.go]

    The configuration file layered over the built-in defaults, its validation,
    what the startup code reads from it, and the mesh metadata nodes exchange.
    The YAML decoder, [resource.ParseQuantity] and the Curve25519 base-point
    multiplication are third-party code and appear as parameters. *)

From S2P Require Import Prelude GoFloat GoStrings GoNet GoJson GoTime Ipam Host PodNet PrivPolicy PrivHelper PodNetPolicy WireGuard NetConfig Filepath.

Open Scope Z_scope.

(** ** The file's shape *)

Record TaintConfig := mkTaint { tc_Key : string; tc_Value : string; tc_Effect : string }.

Record VolumesConfig := mkVolumes { vc_Root : string; vc_HostPathAllowedPrefixes : list string }.

Record NodeConfig := mkNode {
  nc_CPU : string; nc_Memory : string; nc_Pods : string; nc_OS : string; nc_Arch : string;
  nc_InternalIP : string; nc_PodCIDR : string; nc_Labels : gmap string string; nc_Annotations : gmap string string;
  nc_Taints : list TaintConfig; nc_EnableLease : bool; nc_LeaseDurationSeconds : Z;
  nc_PingInterval : string; nc_StatusUpdateInterval : string; nc_KubeletPort : Z;
  nc_ServingTLSCertFile : string; nc_ServingTLSKeyFile : string; nc_ServingClientCAFile : string;
  nc_Volumes : VolumesConfig; nc_ClusterDNS : list string; nc_ClusterDomain : string;
}.

Record OrphanCleanupConfig := mkOrphan {
  oc_Enabled : bool; oc_Interval : string; oc_GracePeriod : string; oc_DryRun : bool;
}.

Record Config := mkConfig {
  cf_NodeName : string; cf_KubeconfigPath : string; cf_RuntimeSocket : string; cf_RuntimeBinary : string;
  cf_RuntimeDataRoot : string; cf_RuntimeRosetta : bool; cf_LogLevel : string; cf_Node : NodeConfig;
  cf_Mesh : MeshConfig; cf_PodNetwork : PodNetworkConfig; cf_PrivilegedHelperSocket : string;
  cf_OrphanCleanup : OrphanCleanupConfig;
}.

(** The stanzas the network setup reads. *)
Definition net_of (c : Config) : NetConfig := mkNetConfig (nc_PodCIDR (cf_Node c)) (cf_Mesh c) (cf_PodNetwork c).

Definition DefaultProviderTaintKey : string := "virtual-kubelet.io/provider".

(** [host] is [os.Hostname]'s result, empty when it failed. *)
Definition Default (host : string) : Config :=
  mkConfig host "" "/var/run/com.apple.container.sock" "container" "" false "info"
    (mkNode "2" "4Gi" "20" "linux" "arm64" "" "" ∅ ∅ [mkTaint DefaultProviderTaintKey "macvz" "NoSchedule"]
       true 40 "10s" "10s" 10250 "" "" "" (mkVolumes "/var/lib/macvz/volumes" []) [] "")
    (mkMeshCfg false "" "" "" 0 0 []) (mkPodNet false "" "" None []) ""
    (mkOrphan true "2m" "10m" false).

(** ** Errors, one constructor per message *)

Inductive CfgError : Type :=
  | FNodeName | FQuantity (name raw : string) | FTaintKey | FTaintEffect (key effect : string)
  | FDataRoot (path : string)
  | FDuration (field raw : string) | FNotPositive (field raw : string) | FGrace (grace interval : string)
  | FLease (n : Z) | FStatusLease (status lease : Z) | FKubeletPort (n : Z)
  | FTLSPair | FClientCA | FPodCIDR (cidr : string) | FNet (e : ConfigError) | FHelperCIDR
  | FVolumeRoot (path : string) | FHostPrefix (path : string)
  | FReadFile (path msg : string) | FParseYaml (path msg : string).

(** ** Derived settings *)

(** A duration that must be positive. *)
Definition positive_duration (field raw : string) : result CfgError Z :=
  match ParseDuration raw with
  | None => Err (FDuration field raw)
  | Some d => if d <=? 0 then Err (FNotPositive field raw) else Ok d
  end.

Definition OrphanCleanupIntervals (c : Config) : result CfgError (Z * Z) :=
  let o := cf_OrphanCleanup c in
  interval <-- positive_duration "orphanCleanup.interval" (oc_Interval o);
  match ParseDuration (oc_GracePeriod o) with
  | None => Err (FDuration "orphanCleanup.gracePeriod" (oc_GracePeriod o))
  | Some grace =>
      if grace <? interval then Err (FGrace (oc_GracePeriod o) (oc_Interval o)) else Ok (interval, grace)
  end.

Definition HeartbeatIntervals (c : Config) : result CfgError (Z * Z) :=
  ping <-- positive_duration "node.pingInterval" (nc_PingInterval (cf_Node c));
  status <-- positive_duration "node.statusUpdateInterval" (nc_StatusUpdateInterval (cf_Node c));
  Ok (ping, status).

Record Taint := mkNodeTaint { nt_Key : string; nt_Value : string; nt_Effect : string }.

Definition valid_effect (e : string) : bool :=
  String.eqb e "NoSchedule" || String.eqb e "PreferNoSchedule" || String.eqb e "NoExecute".

Definition taint_of (t : TaintConfig) : result CfgError Taint :=
  guard (negb (String.eqb (tc_Key t) "")) FTaintKey ;--
  guard (valid_effect (tc_Effect t)) (FTaintEffect (tc_Key t) (tc_Effect t)) ;--
  Ok (mkNodeTaint (tc_Key t) (tc_Value t) (tc_Effect t)).

Definition Taints (c : Config) : result CfgError (list Taint) := map_result taint_of (nc_Taints (cf_Node c)).

Section config.
(** [resource.ParseQuantity], and the order in which Go visits the three
    quantities, a map in the source. *)
Context {Quantity : Type} (ParseQuantity : string → option Quantity) (visit : list (string * string) → list (string * string)).

Definition quantities (c : Config) : list (string * string) :=
  [("cpu", nc_CPU (cf_Node c)); ("memory", nc_Memory (cf_Node c)); ("pods", nc_Pods (cf_Node c))].

Definition parse_quantity (kv : string * string) : result CfgError (string * Quantity) :=
  match ParseQuantity kv.2 with None => Err (FQuantity kv.1 kv.2) | Some q => Ok (kv.1, q) end.

Definition Capacity (c : Config) : result CfgError (gmap string Quantity) :=
  l <-- map_result parse_quantity (visit (quantities c)); Ok (list_to_map l).

Definition validateVolumes (c : Config) : result CfgError unit :=
  let v := nc_Volumes (cf_Node c) in
  guard (String.eqb (vc_Root v) "" || IsAbs (vc_Root v)) (FVolumeRoot (vc_Root v)) ;--
  for_each (λ p, guard (IsAbs p) (FHostPrefix p)) (vc_HostPathAllowedPrefixes v).

(** A check whose value is dropped. *)
Definition check {A} (r : result CfgError A) : result CfgError unit := _ <-- r; Ok tt.
Definition net_check (r : result ConfigError unit) : result CfgError unit :=
  match r with Ok _ => Ok tt | Err e => Err (FNet e) end.

Definition validate_lease (c : Config) : result CfgError unit :=
  let n := cf_Node c in
  if negb (nc_EnableLease n) then Ok tt else
  guard (0 <? nc_LeaseDurationSeconds n) (FLease (nc_LeaseDurationSeconds n)) ;--
  ps <-- HeartbeatIntervals c;
  let lease := nc_LeaseDurationSeconds n * Second in
  guard (ps.2 <? lease) (FStatusLease ps.2 lease).

Definition Validate (c : Config) : result CfgError unit :=
  let n := cf_Node c in
  guard (negb (String.eqb (cf_NodeName c) "")) FNodeName ;--
  check (Capacity c) ;--
  check (Taints c) ;--
  guard (String.eqb (cf_RuntimeDataRoot c) "" || IsAbs (cf_RuntimeDataRoot c)) (FDataRoot (cf_RuntimeDataRoot c)) ;--
  check (HeartbeatIntervals c) ;--
  (if oc_Enabled (cf_OrphanCleanup c) then check (OrphanCleanupIntervals c) else Ok tt) ;--
  validate_lease c ;--
  guard ((0 <? nc_KubeletPort n) && (nc_KubeletPort n <=? 65535)) (FKubeletPort (nc_KubeletPort n)) ;--
  guard (Bool.eqb (String.eqb (nc_ServingTLSCertFile n) "") (String.eqb (nc_ServingTLSKeyFile n) "")) FTLSPair ;--
  guard (String.eqb (nc_ServingClientCAFile n) "" || negb (String.eqb (nc_ServingTLSCertFile n) "")) FClientCA ;--
  guard (String.eqb (nc_PodCIDR n) "" || is_cidr (nc_PodCIDR n)) (FPodCIDR (nc_PodCIDR n)) ;--
  net_check (validateMesh (net_of c)) ;--
  net_check (validatePodNetwork (net_of c)) ;--
  guard (String.eqb (cf_PrivilegedHelperSocket c) "" || negb (pn_Enabled (cf_PodNetwork c)) ||
         negb (String.eqb (nc_PodCIDR n) "")) FHelperCIDR ;--
  validateVolumes c.

(** [Load]: [file] is what reading the path yields ([Ok None]: it does not
    exist), [yaml] decodes a document over a configuration. *)
Definition Load (host path : string) (file : result string (option string))
    (yaml : string → Config → result string Config) : result CfgError Config :=
  let cfg := Default host in
  if String.eqb path "" then Ok cfg
  else match file with
  | Ok None => Ok cfg
  | Err msg => Err (FReadFile path msg)
  | Ok (Some data) =>
      match yaml data cfg with
      | Err msg => Err (FParseYaml path msg)
      | Ok cfg' => Validate cfg' ;-- Ok cfg'
      end
  end.
End config.

(** ** What a validated configuration promises

    Everything the startup code parses again from a validated configuration
    parses, and lies in the ranges its consumers assume. *)

Record config_wf {Quantity} (ParseQuantity : string → option Quantity) visit (c : Config) : Prop := {
  wf_name : cf_NodeName c ≠ "";
  wf_capacity : ∃ m, Capacity ParseQuantity visit c = Ok m ∧ dom m = {["cpu"; "memory"; "pods"]};
  wf_taints : ∃ l, Taints c = Ok l ∧ Forall (λ t, nt_Key t ≠ "" ∧ valid_effect (nt_Effect t) = true) l;
  wf_heartbeat : ∃ ping status, HeartbeatIntervals c = Ok (ping, status) ∧ 0 < ping ∧ 0 < status ∧
    (nc_EnableLease (cf_Node c) = true → status < nc_LeaseDurationSeconds (cf_Node c) * Second);
  wf_orphans : oc_Enabled (cf_OrphanCleanup c) = true →
    ∃ interval grace, OrphanCleanupIntervals c = Ok (interval, grace) ∧ 0 < interval <= grace;
  wf_port : 0 < nc_KubeletPort (cf_Node c) <= 65535;
  wf_tls : nc_ServingClientCAFile (cf_Node c) ≠ "" →
    nc_ServingTLSCertFile (cf_Node c) ≠ "" ∧ nc_ServingTLSKeyFile (cf_Node c) ≠ "";
  wf_ipam : nc_PodCIDR (cf_Node c) ≠ "" → is_ok (NewPodIPAM (nc_PodCIDR (cf_Node c))) = true;
  wf_helper : cf_PrivilegedHelperSocket c ≠ "" → pn_Enabled (cf_PodNetwork c) = true → nc_PodCIDR (cf_Node c) ≠ "";
  wf_mesh : mc_Enabled (cf_Mesh c) = true → is_ok (MeshPeers (net_of c)) = true;
  wf_paths : Forall (λ p, IsAbs p = true) (vc_HostPathAllowedPrefixes (nc_Volumes (cf_Node c)));
}.

Lemma check_Ok {A} (r : result CfgError A) : check r = Ok tt ↔ ∃ x, r = Ok x.
Proof. destruct r; [split; [by eexists|done]|split; [done|by intros []]]. Qed.

Lemma net_check_Ok r : net_check r = Ok tt ↔ r = Ok tt.
Proof. by destruct r as [[]|]. Qed.

Lemma positive_duration_Ok f raw d : positive_duration f raw = Ok d → 0 < d.
Proof. unfold positive_duration. intros. chase. lia. Qed.

Lemma Heartbeat_positive c p s : HeartbeatIntervals c = Ok (p, s) → 0 < p ∧ 0 < s.
Proof.
  unfold HeartbeatIntervals. destruct (positive_duration _ _) as [x|] eqn:Ex; [|done].
  destruct (positive_duration "node.statusUpdateInterval" _) as [y|] eqn:Ey; [|done]. intros [= <- <-].
  by apply positive_duration_Ok in Ex, Ey.
Qed.

Lemma Orphan_ordered c i g : OrphanCleanupIntervals c = Ok (i, g) → 0 < i <= g.
Proof.
  unfold OrphanCleanupIntervals. destruct (positive_duration _ _) as [x|] eqn:Ex; [|done].
  apply positive_duration_Ok in Ex. intros. chase. lia.
Qed.

Lemma Taints_valid c l : Taints c = Ok l → Forall (λ t, nt_Key t ≠ "" ∧ valid_effect (nt_Effect t) = true) l.
Proof.
  unfold Taints. rewrite map_result_Ok. induction 1 as [|t y ts ys Ht _ IH]; constructor; [|done].
  unfold taint_of in Ht. destruct (String.eqb (tc_Key t) "") eqn:Ek; [done|]. cbn [negb guard] in Ht.
  destruct (valid_effect (tc_Effect t)) eqn:Ee; [|done]. injection Ht as <-. bools. done.
Qed.

Lemma resolve_validated i p : validate_mesh_peer i p = Ok tt → ∃ q, resolve_peer p = Ok q.
Proof. unfold validate_mesh_peer, resolve_peer. destruct (ParseKey _); [by eexists|done]. Qed.

Lemma validate_mesh_peers_Ok i ps :
  validate_mesh_peers i ps = Ok tt → Forall (λ p, ∃ j, validate_mesh_peer j p = Ok tt) ps.
Proof.
  revert i. induction ps as [|p ps IH]; intros i; cbn [validate_mesh_peers]; [constructor|].
  rewrite seq_Ok. intros [Hp Hps%IH]. constructor; [by eexists|done].
Qed.

Lemma validateMesh_peers c :
  validateMesh c = Ok tt → mc_Enabled (c_Mesh c) = true →
  Forall (λ p, ∃ j, validate_mesh_peer j p = Ok tt) (mc_Peers (c_Mesh c)).
Proof.
  unfold validateMesh. intros H He. rewrite He in H. cbn [negb] in H. rewrite !seq_Ok in H.
  destruct H as (_ & _ & _ & _ & H). by eapply validate_mesh_peers_Ok.
Qed.

Lemma resolvePeers_validated m :
  Forall (λ p, ∃ j, validate_mesh_peer j p = Ok tt) (mc_Peers m) → ∃ l, resolvePeers m = Ok l.
Proof.
  unfold resolvePeers. induction 1 as [|p ps [j Hp] _ [l IH]]; [by eexists|]. cbn [map_result].
  apply resolve_validated in Hp as [q ->]. rewrite IH. by eexists.
Qed.

Lemma NewPodIPAM_ok s : is_cidr s = true → is_ok (NewPodIPAM s) = true.
Proof. unfold is_cidr, NewPodIPAM. intros [[ip n] E]%bool_decide_eq_true. by rewrite E. Qed.

Section validated.
Context {Quantity : Type} (ParseQuantity : string → option Quantity) (visit : list (string * string) → list (string * string)).
Hypothesis visit_perm : ∀ l, visit l ≡ₚ l.

Lemma Capacity_dom c m : Capacity ParseQuantity visit c = Ok m → dom m = {["cpu"; "memory"; "pods"]}.
Proof.
  unfold Capacity. destruct (map_result _ _) as [l|] eqn:E; [|done]. intros [= <-]. apply map_result_Ok in E.
  assert (l.*1 = (visit (quantities c)).*1) as Hl.
  { clear -E. induction E as [|x y xs ys H _ IH]; [done|]. rewrite !fmap_cons, IH. f_equal.
    unfold parse_quantity in H. destruct (ParseQuantity x.2); [|done]. by injection H as <-. }
  rewrite dom_list_to_map_L, Hl. by rewrite (visit_perm (quantities c)).
Qed.

(** The checks of [Validate], one by one. *)
Lemma Validate_wf c : Validate ParseQuantity visit c = Ok tt → config_wf ParseQuantity visit c.
Proof.
  unfold Validate. rewrite !seq_Ok, !guard_Ok, !net_check_Ok.
  rewrite (check_Ok (Capacity _ _ _)), (check_Ok (Taints c)), (check_Ok (HeartbeatIntervals c)).
  intros (Hn & [m Hm] & [l Hl] & Hd & [[p s] Hh] & Ho & Hle & Hp & Ht & Hca & Hc & Hme & Hpn & Hs & Hv).
  split.
  - by bools.
  - exists m. split; [done|]. by eapply Capacity_dom.
  - exists l. split; [done|]. by eapply Taints_valid.
  - exists p, s. split; [done|]. destruct (Heartbeat_positive _ _ _ Hh). split; [done|]. split; [done|]. intros He.
    unfold validate_lease in Hle. rewrite He in Hle. cbn [negb] in Hle. rewrite seq_Ok, Hh, !guard_Ok in Hle.
    destruct Hle as [_ Hle]. by bools.
  - intros He. rewrite He in Ho. apply check_Ok in Ho as [[i g] Hi]. exists i, g. split; [done|]. by eapply Orphan_ordered.
  - bools. lia.
  - intros Hne. apply String.eqb_neq in Hne. rewrite Hne in Hca. cbn [orb] in Hca. apply negb_true_iff in Hca.
    rewrite Hca in Ht. destruct (String.eqb (nc_ServingTLSKeyFile _) "") eqn:E; [done|]. by bools.
  - intros Hne. apply String.eqb_neq in Hne. rewrite Hne in Hc. by apply NewPodIPAM_ok.
  - intros Hne He. apply String.eqb_neq in Hne. rewrite Hne, He in Hs. destruct (String.eqb (nc_PodCIDR (cf_Node c)) "") eqn:E; [done|by bools].
  - intros He. destruct (resolvePeers_validated (cf_Mesh c)) as [k Hk]; [by apply (validateMesh_peers (net_of c))|].
    unfold MeshPeers. cbn [c_Mesh net_of]. by rewrite Hk.
  - unfold validateVolumes in Hv. rewrite seq_Ok, for_each_Ok in Hv. destruct Hv as [_ Hv].
    eapply Forall_impl; [exact Hv|]. intros q Hq. by apply guard_Ok in Hq.
Qed.

(** C37: what [Load] has accepted.  A configuration read from a file is
    well-formed ([config_wf]): it names its node; the capacity of CPU, memory
    and Pods and the taints can be computed; the heartbeat intervals are
    positive, the status interval shorter than an enabled lease; an enabled
    orphan reaper has a positive period of at most its grace; the kubelet port
    is in range; a client CA comes with a key pair; a Pod CIDR makes an
    allocator, and the Pod network over a helper has one; the keys of an enabled
    mesh's peers parse; and the allowed host paths are absolute.  What
    [wireguard.New] checks besides, such as a negative MTU or keepalive and
    duplicate peer keys, is not checked ([validated_mesh_gap]).  Without a file
    the configuration is the built-in default. *)
Theorem loaded_config_wf host path file yaml c :
  Load ParseQuantity visit host path file yaml = Ok c →
  c = Default host ∧ (path = "" ∨ file = Ok None) ∨ config_wf ParseQuantity visit c.
Proof.
  unfold Load. destruct (String.eqb path "") eqn:Ep; [intros [= <-]; left; bools; auto|].
  destruct file as [[data|]|msg]; [|intros [= <-]; auto|done].
  destruct (yaml data _) as [c'|]; [|done]. destruct (Validate _ _ c') as [[]|] eqn:E; [|done].
  intros [= <-]. right. by apply Validate_wf.
Qed.
End validated.

(** ** Validation and the mesh

    What [wireguard.New] checks again, and what only it checks. *)

Lemma validate_peers_iff seen ps :
  validate_peers seen ps = Ok tt ↔
  NoDup (p_PublicKey <$> ps) ∧ Forall (λ p, seen !! p_PublicKey p = None) ps ∧ Forall (λ p, Peer_validate p = Ok tt) ps.
Proof.
  split; [apply validate_peers_Ok|]. revert seen.
  induction ps as [|p ps IH]; intros seen (Hn & Hs & Hv); [done|]. cbn [validate_peers].
  rewrite fmap_cons, NoDup_cons in Hn. destruct Hn as [Hp Hn]. apply Forall_cons in Hs as [H1 Hs], Hv as [H2 Hv].
  rewrite H2, H1. apply IH. split; [done|]. split; [|done]. rewrite Forall_forall in *. intros q Hq.
  rewrite lookup_insert_ne; [by apply Hs|]. intros E. apply Hp. rewrite E. by apply list_elem_of_fmap_2.
Qed.

(** A validated peer entry resolves to a peer only its key and keepalive can
    still make unacceptable. *)
Lemma resolved_peer_valid i p q :
  validate_mesh_peer i p = Ok tt → resolve_peer p = Ok q →
  Peer_validate q = Ok tt ↔ IsZero (p_PublicKey q) = false ∧ 0 <= p_Keepalive q.
Proof.
  unfold validate_mesh_peer, resolve_peer. destruct (ParseKey _) as [k|]; [|done]. rewrite !seq_Ok, !guard_Ok.
  intros (Hc & Ha & He) [= <-]. unfold Peer_validate.
  cbn [p_PublicKey p_Keepalive p_AllowedIPs p_Endpoint p_Name]. rewrite !seq_Ok, !guard_Ok, for_each_Ok, negb_true_iff, Z.leb_le.
  split; [by intros (? & _ & _ & _ & ?)|]. intros [? ?]. split_and!; try done.
  rewrite Forall_cons, guard_Ok. split; [done|].
  destruct (String.eqb (mp_Address p) ""); [done|]. by rewrite Forall_singleton, guard_Ok.
Qed.

(** The exact gap between validating a configuration and bringing its mesh
    up.  Once the mesh stanza is validated, the interface is refused only for a
    zero key, a negative MTU or keepalive, or two peers with one public key; in
    every other case it is accepted. *)
Theorem validated_mesh_gap c file rand ifc :
  validateMesh c = Ok tt → mc_Enabled (c_Mesh c) = true → MeshInterfaceConfig c file rand = Ok ifc →
  Interface_Validate ifc = Ok tt ↔
  IsZero (i_PrivateKey ifc) = false ∧ 0 <= mc_MTU (c_Mesh c) ∧ NoDup (p_PublicKey <$> i_Peers ifc) ∧
  Forall (λ q, IsZero (p_PublicKey q) = false ∧ 0 <= p_Keepalive q) (i_Peers ifc).
Proof.
  intros Hv He. pose proof (validateMesh_peers c Hv He) as Hps. unfold validateMesh in Hv. rewrite He in Hv. cbn [negb] in Hv.
  rewrite !seq_Ok, !guard_Ok in Hv. destruct Hv as (Hi & _ & Ha & Hport & _). unfold MeshInterfaceConfig.
  destruct (LoadOrCreateKey file rand) as [[priv t]|]; [|done].
  destruct (resolvePeers (c_Mesh c)) as [peers|] eqn:Er; [|done]. intros [= <-].
  assert (Forall (λ q, Peer_validate q = Ok tt ↔ IsZero (p_PublicKey q) = false ∧ 0 <= p_Keepalive q) peers) as Hq.
  { apply resolvePeers_spec in Er as [Hf _]. clear -Hf Hps. induction Hf as [|p q ps qs Hp _ IH]; [constructor|].
    apply Forall_cons in Hps as [[j Hj] Hps]. constructor; [by eapply resolved_peer_valid|by apply IH]. }
  unfold Interface_Validate. cbn [i_Name i_PrivateKey i_Address i_ListenPort i_MTU i_Peers].
  rewrite !seq_Ok, !guard_Ok, validate_peers_iff, !negb_true_iff, Z.leb_le. apply negb_true_iff in Hi.
  assert (String.eqb (mc_Address (c_Mesh c)) "" = false) as Hne.
  { apply String.eqb_neq. intros E. rewrite E in Ha. by vm_compute in Ha. }
  assert ((1 <=? (if mc_ListenPort (c_Mesh c) =? 0 then DefaultMeshListenPort else mc_ListenPort (c_Mesh c))) &&
          ((if mc_ListenPort (c_Mesh c) =? 0 then DefaultMeshListenPort else mc_ListenPort (c_Mesh c)) <=? 65535) = true) as Hp.
  { bools. destruct (Z.eqb_spec (mc_ListenPort (c_Mesh c)) 0); [done|]. apply andb_true_iff.
    rewrite !Z.leb_le. lia. }
  assert (Forall (λ q, Peer_validate q = Ok tt) peers ↔
          Forall (λ q, IsZero (p_PublicKey q) = false ∧ 0 <= p_Keepalive q) peers) as Hall.
  { clear -Hq. induction Hq as [|q qs Hq _ IH]; [by split; constructor|]. by rewrite !Forall_cons, Hq, IH. }
  rewrite Hall, Hne, Ha, Hi, Hp. split; [intros (_ & ? & _ & _ & _ & ? & ? & _ & ?); done|].
  intros (? & ? & ? & ?). split_and!; try done. apply Forall_true. intros q. apply lookup_empty.
Qed.

(** ** Mesh metadata ([metadata.go]) *)

Definition meshMetadataSchema : string := "macvz.dev/mesh-node-metadata/v1".
Definition DefaultPeerKeepalive : Z := 25.

Definition meshMetadataHeader : string :=
  "# macvz mesh node metadata — safe to share; contains NO private key." +:+ nl +:+
  "# Generated by `macvz-mesh export`. Hand it to other nodes; on each of them run" +:+ nl +:+
  "# `macvz-mesh peer` to turn it into a peer entry for their config." +:+ nl.
Definition meshPeersHeader : string :=
  "# macvz mesh peers — paste under `mesh:` in each OTHER node's config." +:+ nl +:+
  "# Rendered by `macvz-mesh peer`. Re-render and re-apply whenever a node's" +:+ nl +:+
  "# public key, endpoint, or Pod CIDR changes (see key rotation in docs)." +:+ nl.

Record MeshNodeMetadata := mkMeta {
  md_Schema : string; md_Name : string; md_PublicKey : string; md_Endpoint : string;
  md_Address : string; md_PodCIDR : string; md_ListenPort : Z;
}.

Inductive MetaError : Type :=
  | MMeshDisabled | MKeyFile (e : LoadError) | MNoPodCIDR | MNoName | MPublicKey (name : string) (e : KeyError)
  | MPodCIDR (name cidr : string) | MAddress (name addr : string) | MEndpoint (name ep : string)
  | MSchema (schema : string) | MYaml (msg : string) | MResolve (e : ConfigError).

Definition JoinHostPort (host port : string) : string :=
  if ContainsByte ":" host then "[" +:+ host +:+ "]:" +:+ port else host +:+ ":" +:+ port.

Definition Meta_Validate (m : MeshNodeMetadata) : result MetaError unit :=
  guard (negb (String.eqb (md_Name m) "")) MNoName ;--
  match ParseKey (md_PublicKey m) with
  | Err e => Err (MPublicKey (md_Name m) e)
  | Ok _ =>
      guard (is_cidr (md_PodCIDR m)) (MPodCIDR (md_Name m) (md_PodCIDR m)) ;--
      guard (String.eqb (md_Address m) "" || is_cidr (md_Address m)) (MAddress (md_Name m) (md_Address m)) ;--
      guard (String.eqb (md_Endpoint m) "" || bool_decide (is_Some (SplitHostPort (md_Endpoint m))))
        (MEndpoint (md_Name m) (md_Endpoint m))
  end.

Definition PeerConfig (m : MeshNodeMetadata) (keepalive : Z) : MeshPeerConfig :=
  mkPeerCfg (md_Name m) (md_PublicKey m) (md_Endpoint m) (md_PodCIDR m) (md_Address m) keepalive.

(** [Key.PublicKey]; [base] is the multiplication of the base point by a scalar. *)
Definition PublicKey (base : Key → Key) (k : Key) : Key := base k.

(** The metadata and the key file to write, if there was none. *)
Definition ExportMeshMetadata (base : Key → Key) (c : Config) (file : result string (option string)) (rand : Key)
    : result MetaError (MeshNodeMetadata * option string) :=
  guard (mc_Enabled (cf_Mesh c)) MMeshDisabled ;--
  match LoadOrCreateKey file rand with
  | Err e => Err (MKeyFile e)
  | Ok (priv, written) =>
      let port := if mc_ListenPort (cf_Mesh c) =? 0 then DefaultMeshListenPort else mc_ListenPort (cf_Mesh c) in
      let ip := nc_InternalIP (cf_Node c) in
      let endpoint := if String.eqb ip "" then "" else JoinHostPort ip (Itoa port) in
      let md := mkMeta meshMetadataSchema (cf_NodeName c) (Key_String (PublicKey base priv)) endpoint
        (mc_Address (cf_Mesh c)) (nc_PodCIDR (cf_Node c)) port in
      guard (negb (String.eqb (md_PodCIDR md) "")) MNoPodCIDR ;--
      Meta_Validate md ;--
      Ok (md, written)
  end.

Definition Meta_Marshal (encode : MeshNodeMetadata → result string string) (m : MeshNodeMetadata)
    : result MetaError string :=
  let m := if String.eqb (md_Schema m) ""
           then mkMeta meshMetadataSchema (md_Name m) (md_PublicKey m) (md_Endpoint m) (md_Address m) (md_PodCIDR m) (md_ListenPort m)
           else m in
  match encode m with Err e => Err (MYaml e) | Ok text => Ok (meshMetadataHeader +:+ text) end.

Definition ParseMeshNodeMetadata (decode : string → result string MeshNodeMetadata) (data : string)
    : result MetaError MeshNodeMetadata :=
  match decode data with
  | Err e => Err (MYaml e)
  | Ok m =>
      guard (String.eqb (md_Schema m) "" || String.eqb (md_Schema m) meshMetadataSchema) (MSchema (md_Schema m)) ;--
      Meta_Validate m ;--
      Ok m
  end.

(** The entries of [RenderMeshPeers]'s document, in input order. *)
Definition mesh_peer_entry (keepalive : Z) (n : MeshNodeMetadata) : result MetaError MeshPeerConfig :=
  Meta_Validate n ;-- Ok (PeerConfig n keepalive).

Definition RenderMeshPeers (encode : list MeshPeerConfig → result string string)
    (nodes : list MeshNodeMetadata) (keepalive : Z) : result MetaError string :=
  peers <-- map_result (mesh_peer_entry keepalive) nodes;
  match encode peers with Err e => Err (MYaml e) | Ok text => Ok (meshPeersHeader +:+ text) end.

Definition wireguard_peer (keepalive : Z) (n : MeshNodeMetadata) : result MetaError string :=
  Meta_Validate n ;--
  match resolve_peer (PeerConfig n keepalive) with Err e => Err (MResolve e) | Ok p => Ok (ConfigBlock p) end.

Definition RenderWireGuardPeers (nodes : list MeshNodeMetadata) (keepalive : Z) : result MetaError string :=
  blocks <-- map_result (wireguard_peer keepalive) nodes; Ok (Join blocks nl).

(** *** From one node's configuration to another's *)

Lemma Meta_Validate_entry m i k : Meta_Validate m = Ok tt → validate_mesh_peer i (PeerConfig m k) = Ok tt.
Proof.
  unfold Meta_Validate, validate_mesh_peer, PeerConfig. rewrite seq_Ok. intros [_ H]. cbn.
  destruct (ParseKey _); [|done]. rewrite !seq_Ok, !guard_Ok in *. done.
Qed.

Lemma Export_spec base c file rand md written :
  ExportMeshMetadata base c file rand = Ok (md, written) →
  ∃ priv, LoadOrCreateKey file rand = Ok (priv, written) ∧ mc_Enabled (cf_Mesh c) = true ∧ Meta_Validate md = Ok tt ∧
    md_Schema md = meshMetadataSchema ∧ md_PublicKey md = Key_String (PublicKey base priv) ∧
    md_Name md = cf_NodeName c ∧ md_PodCIDR md = nc_PodCIDR (cf_Node c) ∧ md_Address md = mc_Address (cf_Mesh c).
Proof.
  unfold ExportMeshMetadata. destruct (mc_Enabled (cf_Mesh c)); [|done]. cbn [guard].
  destruct (LoadOrCreateKey file rand) as [[priv t]|]; [|done]. cbv zeta.
  destruct (negb _); [|done]. cbn [guard]. destruct (Meta_Validate _) as [[]|] eqn:E; [|done].
  intros [= <- <-]. by exists priv.
Qed.

(** The peer another node makes of exported metadata. *)
Lemma Export_resolves base c file rand md written keepalive i :
  ExportMeshMetadata base c file rand = Ok (md, written) → (∀ k, key_wf (base k) ∧ IsZero (base k) = false) → 0 <= keepalive →
  ∃ priv q, LoadOrCreateKey file rand = Ok (priv, written) ∧ md_Schema md = meshMetadataSchema ∧ Meta_Validate md = Ok tt ∧
    validate_mesh_peer i (PeerConfig md keepalive) = Ok tt ∧
    resolve_peer (PeerConfig md keepalive) = Ok q ∧ Peer_validate q = Ok tt ∧
    p_PublicKey q = PublicKey base priv ∧
    p_AllowedIPs q = nc_PodCIDR (cf_Node c) ::
      (if String.eqb (mc_Address (cf_Mesh c)) "" then [] else [mc_Address (cf_Mesh c)]).
Proof.
  intros (priv & Hk & _ & Hv & Hs & Hpub & _ & Hcidr & Haddr)%Export_spec Hb Hka.
  destruct (Hb priv) as [Hwf Hz].
  assert (ParseKey (md_PublicKey md) = Ok (PublicKey base priv)) as Hp by (rewrite Hpub; by apply ParseKey_String).
  exists priv. eexists. split_and!; [done|done|done|by apply Meta_Validate_entry| | |..].
  - unfold resolve_peer. cbn. by rewrite Hp.
  - apply (resolved_peer_valid i (PeerConfig md keepalive) _ (Meta_Validate_entry md i keepalive Hv)); [|done].
    unfold resolve_peer. cbn. by rewrite Hp.
  - done.
  - by rewrite <- Hcidr, <- Haddr.
Qed.

(** What one node exports, every other node can use.  The metadata a node
    exports, written as the document and parsed on another node, gives a peer
    entry that node's validation accepts, which resolves to a peer with the
    exporter's public key, routed to the exporter's Pod range and mesh address,
    that the mesh accepts.  The YAML library must read back the one document it
    wrote, and the public key be a proper one. *)
Theorem mesh_exchange base c file rand md written encode decode text keepalive i :
  ExportMeshMetadata base c file rand = Ok (md, written) →
  encode md = Ok text → decode (meshMetadataHeader +:+ text) = Ok md →
  (∀ k, key_wf (base k) ∧ IsZero (base k) = false) → 0 <= keepalive →
  ∃ data priv q, Meta_Marshal encode md = Ok data ∧ ParseMeshNodeMetadata decode data = Ok md ∧
    LoadOrCreateKey file rand = Ok (priv, written) ∧
    validate_mesh_peer i (PeerConfig md keepalive) = Ok tt ∧
    resolve_peer (PeerConfig md keepalive) = Ok q ∧ Peer_validate q = Ok tt ∧
    p_PublicKey q = PublicKey base priv ∧
    p_AllowedIPs q = nc_PodCIDR (cf_Node c) ::
      (if String.eqb (mc_Address (cf_Mesh c)) "" then [] else [mc_Address (cf_Mesh c)]).
Proof.
  intros Hx He Hd Hb Hka. destruct (Export_resolves _ _ _ _ _ _ keepalive i Hx Hb Hka) as (priv & q & Hk & Hs & Hv & H).
  exists (meshMetadataHeader +:+ text), priv, q. split. { unfold Meta_Marshal. rewrite Hs. cbn -[meshMetadataHeader]. by rewrite He. }
  split; [|split; [done|exact H]]. unfold ParseMeshNodeMetadata. rewrite Hd, Hs. cbn -[Meta_Validate]. by rewrite Hv.
Qed.

(** ** A configured node *)

Definition toy_quantity (s : string) : option string := if String.eqb s "" then None else Some s.
Definition toy_visit (l : list (string * string)) : list (string * string) := rev l.

(** The demonstration node of [NetConfig] as a full configuration. *)
Definition demo_config (peers : list MeshPeerConfig) : Config :=
  let d := Default "mac-1" in
  let n := cf_Node d in
  mkConfig "mac-1" "" "" "container" "" false "info"
    (mkNode (nc_CPU n) (nc_Memory n) (nc_Pods n) "linux" "arm64" "192.168.1.10" "10.244.1.0/24" ∅ ∅ (nc_Taints n)
       true 40 "10s" "10s" 10250 "" "" "" (nc_Volumes n) [] "")
    (c_Mesh (demo_net true peers)) (c_PodNetwork (demo_net true peers)) "/var/run/macvz-netd.sock" (cf_OrphanCleanup d).

Lemma toy_visit_perm l : toy_visit l ≡ₚ l.
Proof. symmetry. apply Permutation_rev. Qed.

Lemma loaded_config_wf_witness : config_wf toy_quantity toy_visit (demo_config demo_peers).
Proof.
  destruct (loaded_config_wf toy_quantity toy_visit toy_visit_perm "mac-1" "/etc/macvz.yaml" (Ok (Some ""))
    (λ _ _, Ok (demo_config demo_peers)) (demo_config demo_peers)) as [[E _]|H]; [|done|exact H].
  vm_compute. reflexivity.
Defined.

Lemma validated_mesh_gap_witness :
  Interface_Validate (net_iface (demo_net true demo_peers)) = Ok tt ∧
  Interface_Validate (net_iface (demo_net true (demo_peers ++ demo_peers))) ≠ Ok tt.
Proof.
  split.
  - apply (validated_mesh_gap (demo_net true demo_peers) (Ok None) demo_rand); [vm_compute; reflexivity..|].
    split; [vm_compute; reflexivity|]. split; [vm_compute; congruence|].
    split; [refine (bool_decide_unpack (dec := NoDup_dec _) _ _); vm_compute; exact I|].
    refine (bool_decide_unpack _ _). vm_compute. exact I.
  - intros H. apply (validated_mesh_gap (demo_net true (demo_peers ++ demo_peers)) (Ok None) demo_rand) in H;
      [|vm_compute; reflexivity..].
    destruct H as (_ & _ & H & _). refine (bool_decide_eq_false_1 (Decision0 := NoDup_dec _) _ _ H). vm_compute. reflexivity.
Defined.

(** A stand-in for the scalar multiplication: any proper key. *)
Definition toy_base (k : Key) : Key := demo_key 40.

Definition demo_md : MeshNodeMetadata :=
  match ExportMeshMetadata toy_base (demo_config []) (Ok None) demo_rand with
  | Ok (md, _) => md
  | Err _ => mkMeta "" "" "" "" "" "" 0
  end.

Lemma mesh_exchange_witness :
  ∃ data q, Meta_Marshal (λ _, Ok "doc") demo_md = Ok data ∧ ParseMeshNodeMetadata (λ _, Ok demo_md) data = Ok demo_md ∧
    resolve_peer (PeerConfig demo_md DefaultPeerKeepalive) = Ok q ∧ Peer_validate q = Ok tt ∧
    p_AllowedIPs q = ["10.244.1.0/24"; "10.99.0.1/32"].
Proof.
  destruct (mesh_exchange toy_base (demo_config []) (Ok None) demo_rand demo_md
    (Some (Key_String (clamp demo_rand) +:+ nl)) (λ _, Ok "doc") (λ _, Ok demo_md) "doc" DefaultPeerKeepalive 0)
    as (data & priv & q & H1 & H2 & _ & _ & H3 & H4 & _ & H5).
  - vm_compute. reflexivity.
  - reflexivity.
  - reflexivity.
  - intros k. change (toy_base k) with (demo_key 40). split; [|vm_compute; reflexivity]. apply (bool_decide_unpack _). vm_compute. exact I.
  - vm_compute. congruence.
  - exists data, q. split; [exact H1|]. split; [exact H2|]. split; [exact H3|]. split; [exact H4|]. rewrite H5. vm_compute. reflexivity.
Defined.

(** Started without a configuration file on a host whose name lookup failed, the
    node runs with the empty name validation refuses. *)
Lemma default_not_validated {Q} (ParseQuantity : string → option Q) visit file yaml :
  Load ParseQuantity visit "" "" file yaml = Ok (Default "") ∧
  Validate ParseQuantity visit (Default "") = Err FNodeName.
Proof. done. Qed.
