(* ===== verification/Netd.v ===== *)
(** * The helper's program: [cmd/macvz-netd] and the listening socket of
      [pkg/network/privhelper/server.go]

    The command line of the root daemon, the construction of its server, the
    socket it listens on, and the commands that install it.  The theorem at the
    end closes the loop with [Launchd]: the daemon launchd starts from the
    installed plist is the one the operator asked for. *)

From S2P Require Import Prelude GoFloat GoStrings GoNet GoJson GoTime GoFlag OsFs Filepath Host PodNet PrivPolicy PrivHelper WireGuard NetConfig.
From S2P Require Import Config Launchd.

Open Scope Z_scope.

Definition defaultSocket : string := "/var/run/macvz-netd.sock".

Definition isFlag (s : string) : bool := starts_with_byte "-" s.

(** The subcommand and its arguments; [serve] is the default. *)
Definition netd_command (args : list string) : string * list string :=
  match args with
  | a :: rest => if isFlag a then ("serve", args) else (a, rest)
  | [] => ("serve", [])
  end.

Record cmdFlags := mkFlags { f_socket : string; f_owner : string; f_config : string; f_allowUnsafeNoConfig : bool }.

Definition socket_flags : FlagSet :=
  list_to_map [("socket", KString); ("config", KString); ("allow-unsafe-no-config", KBool)].
Definition owner_flags : FlagSet := {["owner" := KString]}.

Definition netd_flags (socket owner : bool) : FlagSet :=
  (if socket then socket_flags else ∅) ∪ (if owner then owner_flags else ∅).

Definition flags_of (socket : bool) (g : Given) : cmdFlags :=
  mkFlags (flag_string g "socket" (if socket then defaultSocket else "")) (flag_string g "owner" "")
    (flag_string g "config" "") (flag_bool g "allow-unsafe-no-config" false).

Definition parseFlags (args : list string) (socket owner : bool) : result FlagError cmdFlags :=
  r <-- parse_flags (netd_flags socket owner) args; Ok (flags_of socket r.1).

Inductive ListenError : Type := SRemove (msg : string) | SListen (msg : string) | SChmod (msg : string) | SChown (msg : string).

Inductive NetdError : Type :=
  | NFlags (e : FlagError) | NOwnerSpec (e : OwnerError) | NRequiresConfig | NPolicy (msg : string)
  | NListen (e : ListenError) | NServe (msg : string)
  | NNotRoot (action : string) | NNoOwner | NExecutable (msg : string) | NInstaller (e : InstallError).

(** What the process sees of its environment. *)
Record Env := mkEnvironment { env_euid : Z; env_sudo_uid : string; env_sudo_gid : string }.

Definition resolveOwner (env : Env) (ownerFlag : string) : result OwnerError (Z * Z) :=
  if String.eqb ownerFlag "" then Ok (ResolveOwner (env_sudo_uid env) (env_sudo_gid env))
  else ResolveOwnerSpec ownerFlag.

(** ** The listening socket *)

Record SockOs (W : Type) := mkSockOs {
  so_RemoveAll : string → W → W * option string;
  so_Listen : string → W → W * option string;
  so_Chmod : string → Z → W → W * option string;
  so_Chown : string → Z → Z → W → W * option string;
  so_Close : string → W → W;
}.
Arguments so_RemoveAll {W} _. Arguments so_Listen {W} _. Arguments so_Chmod {W} _. Arguments so_Chown {W} _.
Arguments so_Close {W} _.

Section listen.
Context {W : Type} (S : SockOs W).

(** The listener is closed again when the socket cannot be protected. *)
Definition Listen (path : string) (uid gid : Z) (w : W) : W * result ListenError unit :=
  match so_RemoveAll S path w with
  | (w, Some e) => (w, Err (SRemove e))
  | (w, None) =>
      match so_Listen S path w with
      | (w, Some e) => (w, Err (SListen e))
      | (w, None) =>
          match so_Chmod S path 432 w with
          | (w, Some e) => (so_Close S path w, Err (SChmod e))
          | (w, None) =>
              if 0 <=? uid then
                match so_Chown S path uid gid w with
                | (w, Some e) => (so_Close S path w, Err (SChown e))
                | (w, None) => (w, Ok tt)
                end
              else (w, Ok tt)
          end
      end
  end.

Definition Close (path : string) (w : W) : W := (so_RemoveAll S path (so_Close S path w)).1.
End listen.

(** ** Commands *)

Section netd.
Context `{MapRange} {W : Type} (exec : ExecFunc W) (S : SockOs W) (version : string).
(** The host's name and files, the YAML codec and the key generator behind
    [config.Load] and the mesh key. *)
Context {Quantity : Type} (ParseQuantity : string → option Quantity) (visit : list (string * string) → list (string * string)).
Context (host : string) (yaml : string → Config → result string Config) (rand : Key).
Context (readFile : string → W → result string (option string)).

Definition SetVersion (s : Server W) (v : string) : Server W :=
  mkServer (s_exec s) (s_policy s) (s_loader s) v (s_pid s) (s_startedAt s).

(** The policy of the configuration at a path, as the host has it now. *)
Definition policy_loader (configPath : string) (w : W) : result string Policy :=
  match Load ParseQuantity visit host configPath (readFile configPath w) yaml with
  | Err _ => Err ("load config " +:+ configPath)
  | Ok cfg =>
      match PrivilegedHelperPolicy (net_of cfg) (readFile (mc_PrivateKeyFile (cf_Mesh cfg)) w) rand with
      | Err _ => Err ("derive privileged helper policy from " +:+ configPath)
      | Ok p => Ok p
      end
  end.

Definition helperServer (configPath : string) (allowUnsafeNoConfig : bool) (w : W) : result NetdError (Server W) :=
  if String.eqb configPath "" then
    if negb allowUnsafeNoConfig then Err NRequiresConfig else Ok (SetVersion (NewServer exec) version)
  else
    match NewServerWithPolicyLoader exec (policy_loader configPath) w with
    | Err msg => Err (NPolicy msg)
    | Ok srv => Ok (SetVersion srv version)
    end.

(** [runServe] up to the loop: the server, listening for its owner. *)
Definition serve_setup (env : Env) (args : list string) (w : W) : W * result NetdError (cmdFlags * Server W) :=
  match parseFlags args true true with
  | Err e => (w, Err (NFlags e))
  | Ok f =>
      match resolveOwner env (f_owner f) with
      | Err e => (w, Err (NOwnerSpec e))
      | Ok (uid, gid) =>
          match helperServer (f_config f) (f_allowUnsafeNoConfig f) w with
          | Err e => (w, Err e)
          | Ok srv =>
              let '(w, r) := Listen S (f_socket f) uid gid w in
              (w, match r with Err e => Err (NListen e) | Ok _ => Ok (f, srv) end)
          end
      end
  end.

(** The loop serves the requests [rs] until it is told to stop, or until
    accepting fails with [broken]; the socket is closed either way. *)
Definition runServe (env : Env) (args : list string) (rs : list (option WireRequest)) (broken : option string) (w : W)
    : W * result NetdError unit :=
  match serve_setup env args w with
  | (w, Err e) => (w, Err e)
  | (w, Ok (f, srv)) =>
      let '(_, w, _) := serve srv rs w in
      (Close S (f_socket f) w, match broken with Some msg => Err (NServe msg) | None => Ok tt end)
  end.

Context (O : Os W) (cwd : result string string) (launchctl : list string → W → W * (string * option string)).

(** The LaunchDaemon [runInstall] asks for. *)
Definition install_config (f : cmdFlags) (uid gid : Z) : LaunchdConfig :=
  let c := DefaultLaunchdConfig (f_socket f) in
  mkLaunchd (ld_Label c) (ld_PlistDir c) (ld_BinaryPath c) (ld_SocketPath c) (f_config f) (f_allowUnsafeNoConfig f) uid gid
    (ld_StdoutPath c) (ld_StderrPath c) (ld_NewsyslogPath c) (ld_LogRotateCount c) (ld_LogRotateSizeKB c).

(** [self] is what [os.Executable] yields. *)
Definition runInstall (env : Env) (args : list string) (self : result string string) (w : W) : W * result NetdError unit :=
  match parseFlags args true true with
  | Err e => (w, Err (NFlags e))
  | Ok f =>
      if negb (env_euid env =? 0) then (w, Err (NNotRoot "install")) else
      match resolveOwner env (f_owner f) with
      | Err e => (w, Err (NOwnerSpec e))
      | Ok (uid, gid) =>
          if uid <? 0 then (w, Err NNoOwner) else
          match self with
          | Err msg => (w, Err (NExecutable msg))
          | Ok bin =>
              let '(w, r) := Install O cwd launchctl (install_config f uid gid) bin w in
              (w, match r with Err e => Err (NInstaller e) | Ok _ => Ok tt end)
          end
      end
  end.

Definition runInstaller (env : Env) (args : list string) (action : string) (w : W) : W * result NetdError unit :=
  match parseFlags args false false with
  | Err e => (w, Err (NFlags e))
  | Ok _ =>
      if negb (env_euid env =? 0) then (w, Err (NNotRoot action)) else
      let c := DefaultLaunchdConfig defaultSocket in
      let '(w, r) :=
        if String.eqb action "uninstall" then Uninstall O launchctl c w
        else if String.eqb action "load" then Load_ O launchctl c w
        else if String.eqb action "unload" then Unload launchctl c w
        else (w, Ok tt) in
      (w, match r with Err e => Err (NInstaller e) | Ok _ => Ok tt end)
  end.

Definition show_bool (b : bool) : string := if b then "true" else "false".

Definition runStatus (args : list string) (w : W) : W * result NetdError string :=
  match parseFlags args false false with
  | Err e => (w, Err (NFlags e))
  | Ok _ =>
      let c := DefaultLaunchdConfig defaultSocket in
      let '(w, st) := Installer_Status O launchctl c w in
      let row name b p := name +:+ show_bool b +:+ " (" +:+ p +:+ ")" in
      (w, Ok (text_of
         ([row "plist installed:  " (is_PlistInstalled st) (PlistPath c);
           row "binary installed: " (is_BinaryInstalled st) (ld_BinaryPath c);
           row "socket present:   " (is_SocketPresent st) (ld_SocketPath c);
           "launchd loaded:   " +:+ show_bool (is_Loaded st)] ++
          (if String.eqb (is_Detail st) "" then [] else ["detail:"; is_Detail st]))))
  end.
End netd.

(** ** Reading the plist back

    The part of the plist format the template uses: the array under a key, one
    string per line, without entities. *)

Definition xml_plain (s : string) : bool := no_char "<" s && no_char "&" s && no_char newline s.

Definition read_string (l : string) : option string :=
  let open := tab +:+ tab +:+ "<string>" in
  if HasPrefix l open && HasSuffix l "</string>" then
    let v := TrimSuffix (TrimPrefix l open) "</string>" in if xml_plain v then Some v else None
  else None.

Fixpoint read_array (ls : list string) : option (list string) :=
  match ls with
  | [] => None
  | l :: r =>
      if String.eqb l (tab +:+ "</array>") then Some []
      else match read_string l, read_array r with Some v, Some vs => Some (v :: vs) | _, _ => None end
  end.

Fixpoint find_array (key : string) (ls : list string) : option (list string) :=
  match ls with
  | [] => None
  | l :: r =>
      if String.eqb l (key_line tab key) then
        match r with a :: r' => if String.eqb a (tab +:+ "<array>") then read_array r' else None | [] => None end
      else find_array key r
  end.

Definition plist_array (key text : string) : option (list string) := find_array key (split_on newline text).

Lemma text_of_cons s l : text_of (s :: l) = s +:+ String newline (text_of l).
Proof. unfold text_of. cbn [fmap list_fmap Concat]. by rewrite sapp_assoc. Qed.

Lemma split_text_of l : Forall (λ s, no_char newline s = true) l → split_on newline (text_of l) = l ++ [""].
Proof. induction 1 as [|s l Hs Hl IH]; [done|]. by rewrite text_of_cons, split_on_app, IH. Qed.

Lemma read_string_line v : xml_plain v = true → read_string (string_line (tab +:+ tab) v) = Some v.
Proof.
  intros Hv. unfold read_string, string_line. rewrite !sapp_assoc.
  rewrite <- (sapp_assoc tab tab), <- (sapp_assoc (tab +:+ tab) "<string>").
  rewrite HasPrefix_app, TrimPrefix_app, TrimSuffix_app, Hv.
  rewrite <- (sapp_assoc _ v), HasSuffix_app. done.
Qed.

Lemma read_array_app vs rest :
  Forall (λ v, xml_plain v = true) vs →
  read_array ((string_line (tab +:+ tab) <$> vs) ++ (tab +:+ "</array>") :: rest) = Some vs.
Proof.
  induction 1 as [|v vs Hv Hvs IH]; [done|]. cbn [fmap list_fmap app read_array].
  replace (String.eqb (string_line (tab +:+ tab) v) (tab +:+ "</array>")) with false by done.
  by rewrite read_string_line, IH.
Qed.

(** The texts of a configuration that reach the plist are plain. *)
Record plist_plain (c : LaunchdConfig) : Prop := {
  pp_args : Forall (λ v, xml_plain v = true) [ld_BinaryPath c; ld_SocketPath c; ld_ConfigPath c];
  pp_lines : Forall (λ v, no_char newline v = true) [ld_Label c; ld_StdoutPath c; ld_StderrPath c];
}.

Lemma xml_plain_Itoa n : xml_plain (Itoa n) = true.
Proof. unfold xml_plain. by rewrite !Itoa_no_char by done. Qed.

Lemma xml_plain_app s t : xml_plain (s +:+ t) = xml_plain s && xml_plain t.
Proof. unfold xml_plain. rewrite !no_char_app. by destruct (no_char "<" s), (no_char "&" s), (no_char newline s), (no_char "<" t), (no_char "&" t). Qed.

Lemma program_args_plain c : plist_plain c → Forall (λ v, xml_plain v = true) (program_args c).
Proof.
  intros [Ha _]. rewrite !Forall_cons in Ha. destruct_and!. unfold program_args.
  rewrite !Forall_app, !Forall_cons. split_and!; try done.
  - by destruct (String.eqb _ ""); repeat constructor.
  - by destruct (ld_AllowUnsafeNoConfig c); repeat constructor.
  - destruct (String.eqb (ownerSpec c) ""); [done|]. rewrite !Forall_cons. split_and!; [done| |done].
    unfold ownerSpec. destruct (_ || _); [done|]. by rewrite !xml_plain_app, !xml_plain_Itoa.
Qed.

Lemma no_newline_line indent v :
  no_char newline indent = true → no_char newline v = true → no_char newline (string_line indent v) = true.
Proof. intros Hi Hv. unfold string_line. by rewrite !no_char_app, Hi, Hv. Qed.

Lemma plist_array_text c : plist_plain c → plist_array "ProgramArguments" (plist_text c) = Some (program_args c).
Proof.
  intros Hp. pose proof (program_args_plain _ Hp) as Ha. destruct Hp as [_ Hl]. rewrite !Forall_cons in Hl. destruct_and!.
  unfold plist_array, plist_text. rewrite split_text_of.
  - unfold plist_head. cbn [app find_array].
    repeat match goal with |- context [String.eqb ?l (key_line tab "ProgramArguments")] =>
      first [replace (String.eqb l (key_line tab "ProgramArguments")) with false by done
            |replace (String.eqb l (key_line tab "ProgramArguments")) with true by done] end.
    cbn match. rewrite String.eqb_refl, <- app_assoc. unfold plist_tail. cbn [app]. by apply read_array_app.
  - rewrite !Forall_app. split_and!.
    + unfold plist_head. repeat (apply Forall_cons; split); try done. by apply no_newline_line.
    + apply Forall_fmap. eapply Forall_impl; [exact Ha|]. intros v Hv. cbn. apply no_newline_line; [done|].
      unfold xml_plain in Hv. by bools.
    + unfold plist_tail. repeat (apply Forall_cons; split); try done; by apply no_newline_line.
Qed.

(** ** The installed daemon *)

Lemma serve_args_back c :
  parseFlags (list.drop 2 (program_args c)) true true =
  Ok (mkFlags (ld_SocketPath c) (ownerSpec c) (ld_ConfigPath c) (ld_AllowUnsafeNoConfig c)).
Proof.
  unfold parseFlags, parse_flags, program_args. cbn [app list.drop].
  set (fs := netd_flags true true).
  assert (∀ n v rest g, n ∈ ["socket"; "config"; "owner"] →
    Parse fs (("--" +:+ n) :: v :: rest) g = Parse fs rest (<[n := v]> g)) as Hstr.
  { intros n v rest g Hn. apply (Parse_string_args fs [(n, v)] rest g). apply Forall_singleton. cbn.
    repeat (apply elem_of_cons in Hn as [->|Hn]; [by vm_compute|]). by apply not_elem_of_nil in Hn. }
  assert (∀ rest g, Parse fs ("--allow-unsafe-no-config" :: rest) g = Parse fs rest (<["allow-unsafe-no-config" := "true"]> g)) as Hbool.
  { intros rest g. apply (Parse_bool_arg fs "allow-unsafe-no-config"); by vm_compute. }
  change "--socket" with ("--" +:+ "socket"). rewrite Hstr by set_solver.
  destruct (String.eqb_spec (ld_ConfigPath c) "") as [Ec|Ec], (ld_AllowUnsafeNoConfig c),
    (String.eqb_spec (ownerSpec c) "") as [Eo|Eo]; cbn [app];
    change "--config" with ("--" +:+ "config"); change "--owner" with ("--" +:+ "owner");
    rewrite ?Hstr by set_solver; rewrite ?Hbool; rewrite ?Hstr by set_solver;
    cbn [Parse]; unfold flags_of, flag_string, flag_bool; cbn [fst]; simplify_map_eq; by rewrite ?Ec, ?Eo.
Qed.

Lemma Atoi_range s z : Atoi s = Some z → in_int64 z = true.
Proof. unfold Atoi. intros Ha. repeat case_match; by simplify_eq. Qed.

Lemma resolveOwner_range env f u g : resolveOwner env f = Ok (u, g) → in_int64 u = true ∧ in_int64 g = true.
Proof.
  unfold resolveOwner, ResolveOwner, ResolveOwnerSpec. intros Hr.
  repeat case_match; simplify_eq; split; try done; by eapply Atoi_range.
Qed.

Lemma ownerSpec_back c :
  0 ≤ ld_OwnerUID c → 0 ≤ ld_OwnerGID c → in_int64 (ld_OwnerUID c) = true → in_int64 (ld_OwnerGID c) = true →
  ownerSpec c ≠ "" ∧ ResolveOwnerSpec (ownerSpec c) = Ok (ld_OwnerUID c, ld_OwnerGID c).
Proof.
  intros Hu Hg Iu Ig. unfold ownerSpec.
  rewrite !(proj2 (Z.ltb_ge _ _)) by done. cbn [orb].
  assert (Itoa (ld_OwnerUID c) +:+ ":" +:+ Itoa (ld_OwnerGID c) ≠ "") as Hne.
  { by intros [_ [? _]%sapp_eq_nil]%sapp_eq_nil. }
  split; [done|]. unfold ResolveOwnerSpec. rewrite (proj2 (String.eqb_neq _ _) Hne).
  change (":" +:+ Itoa (ld_OwnerGID c)) with (String (ch 58) (Itoa (ld_OwnerGID c))).
  rewrite cut_on_app by by apply Itoa_no_char. by rewrite !Atoi_Itoa.
Qed.

Section installed_daemon.
Context `{MapRange} {W : Type} (exec : ExecFunc W) (S : SockOs W) (version : string).
Context {Quantity : Type} (ParseQuantity : string → option Quantity) (visit : list (string * string) → list (string * string)).
Context (host : string) (yaml : string → Config → result string Config) (rand : Key).
Context (readFile : string → W → result string (option string)).

Abbreviation serve_setup := (serve_setup exec S version ParseQuantity visit host yaml rand readFile).
Abbreviation helperServer := (helperServer exec version ParseQuantity visit host yaml rand readFile).

(** C16: Take an [install] whose launchd configuration is valid, for an owner
    of non-negative uid, with a socket path and a configuration path that need
    no XML escaping (the plist is written without it, see
    [plist_values_unescaped]).  The daemon launchd starts from the plist then
    listens where the operator said, for the owner the operator was, with the
    operator's configuration; unless installed without one on purpose, every
    request it serves is checked against the policy of that configuration. *)
Theorem installed_daemon_enforces env args f uid gid :
  parseFlags args true true = Ok f → resolveOwner env (f_owner f) = Ok (uid, gid) → 0 ≤ uid →
  Launchd_Validate (install_config f uid gid) = Ok tt →
  xml_plain (f_socket f) = true → xml_plain (f_config f) = true →
  ∃ serve_args,
    plist_array "ProgramArguments" (plist_text (install_config f uid gid)) = Some (DefaultBinaryPath :: "serve" :: serve_args) ∧
    netd_command ("serve" :: serve_args) = ("serve", serve_args) ∧
    ∀ env' w w' r, serve_setup env' serve_args w = (w', r) →
      match helperServer (f_config f) (f_allowUnsafeNoConfig f) w with
      | Err e => w' = w ∧ r = Err e
      | Ok srv =>
          w' = (Listen S (f_socket f) uid gid w).1 ∧ (is_ok r = true → ∃ f', r = Ok (f', srv) ∧ f_socket f' = f_socket f) ∧
          (f_allowUnsafeNoConfig f = false →
             ∃ p, policy_loader ParseQuantity visit host yaml rand readFile (f_config f) w = Ok p ∧ s_policy srv = Some p)
      end.
Proof.
  intros Hf Ho Hu Hv Hs Hc. set (c := install_config f uid gid) in *.
  apply resolveOwner_range in Ho as [Iu Ig]. apply Launchd_Validate_exact in Hv as [_ _ _ _ _ _ Hown].
  assert (0 ≤ gid) as Hg by (cbn in Hown; lia).
  assert (plist_plain c) as Hp.
  { split; cbn; rewrite !Forall_cons, ?Forall_nil; split_and!; try done. }
  exists (list.drop 2 (program_args c)). split_and!; [by rewrite plist_array_text|done|].
  intros env' w w' r. unfold Netd.serve_setup. rewrite serve_args_back. cbn [f_owner f_config f_socket f_allowUnsafeNoConfig].
  destruct (ownerSpec_back c Hu Hg Iu Ig) as [Hne Hback]. unfold resolveOwner at 1.
  rewrite (proj2 (String.eqb_neq _ _) Hne), Hback. subst c. cbn [ld_ConfigPath ld_AllowUnsafeNoConfig ld_SocketPath ld_OwnerUID ld_OwnerGID install_config DefaultLaunchdConfig].
  destruct (helperServer (f_config f) (f_allowUnsafeNoConfig f) w) as [srv|e] eqn:Eh; [|by intros; simplify_eq].
  destruct (Listen S (f_socket f) uid gid w) as [w1 [u|e1]] eqn:El; intros; simplify_eq; cbn.
  all: split_and!; [done|naive_solver|]; intros Ha; unfold Netd.helperServer in Eh; rewrite Ha in Eh.
  all: destruct (String.eqb (f_config f) ""); [done|]; unfold NewServerWithPolicyLoader in Eh.
  all: destruct (policy_loader _ _ _ _ _ _ _ w) as [p|msg]; simplify_eq; by exists p.
Qed.
End installed_daemon.

(** ** The socket *)

(** Unix sockets as documented: listening creates the socket, owned by the
    process, closing a listener unlinks it. *)
Class SockHost {W} (S : SockOs W) := {
  sock : string → W → option (Z * Z * Z);      (* permission bits, owner, group *)
  sk_listen p w w' e : so_Listen S p w = (w', e) → if e is None then is_Some (sock p w') else sock p w' = sock p w;
  sk_remove p w w' e : so_RemoveAll S p w = (w', e) → if e is None then sock p w' = None else sock p w' = sock p w;
  sk_chmod p m w w' e : so_Chmod S p m w = (w', e) →
    sock p w' = (if e is None then (λ x, (m, x.1.2, x.2)) <$> sock p w else sock p w);
  sk_chown p u g w w' e : so_Chown S p u g w = (w', e) →
    sock p w' = (if e is None then (λ x, (x.1.1, u, g)) <$> sock p w else sock p w);
  sk_close p w : sock p (so_Close S p w) = None;
}.

(** After [Listen] the socket is there for its owner and group only, owned by the
    user asked for; when it cannot be set up that way, no socket of the daemon is
    left to connect to. *)
Theorem Listen_protects {W} (S : SockOs W) `{!SockHost S} path uid gid w w' r :
  Listen S path uid gid w = (w', r) →
  match r with
  | Ok _ => ∃ u g, sock path w' = Some (432, u, g) ∧ (0 ≤ uid → u = uid ∧ g = gid)
  | Err (SRemove _) => sock path w' = sock path w
  | Err _ => sock path w' = None
  end.
Proof.
  unfold Listen. destruct (so_RemoveAll S path w) as [w1 e1] eqn:E1. apply sk_remove in E1.
  destruct e1; [by intros; simplify_eq|].
  destruct (so_Listen S path w1) as [w2 e2] eqn:E2. apply sk_listen in E2.
  destruct e2; [intros; simplify_eq; congruence|]. destruct E2 as [[[m0 u0] g0] E2].
  destruct (so_Chmod S path 432 w2) as [w3 e3] eqn:E3. apply sk_chmod in E3.
  destruct e3; [intros; simplify_eq; apply sk_close|]. rewrite E2 in E3. cbn in E3.
  destruct (0 <=? uid) eqn:Eu; [|intros; simplify_eq; exists u0, g0; split; [done|]; bools; lia].
  destruct (so_Chown S path uid gid w3) as [w4 e4] eqn:E4. apply sk_chown in E4.
  destruct e4; intros; simplify_eq; [apply sk_close|].
  rewrite E3 in E4. cbn in E4. exists uid, gid. auto.
Qed.

(** ** What the plist does not protect against

    The template does not escape its values: a configuration path can close its
    own element and add an argument.  A configuration installed for policy
    enforcement then reads like one installed without. *)
Definition two_in_one : string :=
  "/c</string>" +:+ nl +:+ tab +:+ tab +:+ "<string>--allow-unsafe-no-config".

Theorem plist_values_unescaped :
  let asked := install_config (mkFlags "/s" "501:20" two_in_one false) 501 20 in
  let got := install_config (mkFlags "/s" "501:20" "/c" true) 501 20 in
  @Launchd_Render canonical_range asked = Ok (plist_text got) ∧ ld_AllowUnsafeNoConfig asked = false ∧
  ld_AllowUnsafeNoConfig got = true.
Proof. by vm_compute. Qed.

(** ** A run *)

Definition demo_env : Env := mkEnvironment 0 "501" "20".
Definition demo_flags : cmdFlags := mkFlags "/var/run/macvz-netd.sock" "" "/etc/macvz/config.yaml" false.

Definition quiet_socket : SockOs unit := mkSockOs _ (λ _ w, (w, None)) (λ _ w, (w, None)) (λ _ _ w, (w, None)) (λ _ _ _ w, (w, None)) (λ _ w, w).

Lemma installed_daemon_enforces_witness :
  parseFlags ["--config"; "/etc/macvz/config.yaml"] true true = Ok demo_flags ∧
  ∃ serve_args,
    plist_array "ProgramArguments" (plist_text (install_config demo_flags 501 20)) =
      Some (DefaultBinaryPath :: "serve" :: serve_args).
Proof.
  split; [by vm_compute|].
  edestruct (installed_daemon_enforces (H := canonical_range) null_exec quiet_socket "v1" toy_quantity toy_visit "mac-1"
    (λ _ c, Ok c) demo_rand (λ _ _, Ok None) demo_env ["--config"; "/etc/macvz/config.yaml"] demo_flags 501 20)
    as (serve_args & Hp & _).
  - by vm_compute.
  - by vm_compute.
  - lia.
  - by vm_compute.
  - by vm_compute.
  - by vm_compute.
  - by exists serve_args.
Defined.
