(* ===== verification/Metrics.v ===== *)
(** * Node and Pod metrics: [pkg/metrics], [pkg/provider/metrics.go]

    The collector samples host memory, disk and every workload once per scrape
    and builds the kubelet Summary and the Prometheus resource metrics.  Its only
    state is the cache of CPU counters it differences into rates.  Counters are
    uint64 and wrap around; rates are float64 divisions truncated to uint64.
    [W] is the host the samples are read from. *)

From S2P Require Import Prelude GoFloat GoStrings GoNet GoJson GoTime Sha256 PodSpec WireGuard PodEnv Runtime Driver DriverStats.

Open Scope Z_scope.

(** ** Inputs *)

Record ContainerInput := mkCI { ci_Name : string; ci_WorkloadID : string; ci_StartTime : Z }.
Record PodInput := mkPI {
  pi_Namespace : string; pi_Name : string; pi_UID : string; pi_StartTime : Z; pi_Containers : list ContainerInput;
}.

(** A sample of a surface is absent when the source's [ok] flag is false. *)
Record DiskSample := mkDS { ds_NodeFS : option FilesystemUsage; ds_Images : option ImageCacheUsage }.

Definition StatsFunc (W : Type) : Type := string → W → W * option ResourceStats.
Definition DiskFunc (W : Type) : Type := W → W * DiskSample.
(** [MemorySampler.HostMemory]: total and used bytes. *)
Definition MemorySampler (W : Type) : Type := W → W * option (Z * Z).

Definition nodeCPUKey : string := String (GoJson.byte 0) "node".

Record cpuSample := mkCpu { cs_at : Z; cs_coreNanoSeconds : Z }.

Record Collector := mkCollector { c_nodeName : string; c_prev : gmap string cpuSample }.

Definition NewCollector (nodeName : string) : Collector := mkCollector nodeName ∅.

(** ** One scrape *)

Record PodReference := mkRef { pr_Name : string; pr_Namespace : string; pr_UID : string }.

Record containerSnapshot := mkCS { cn_name : string; cn_start : Z; cn_stats : option ResourceStats }.
Record podSnapshot := mkPS {
  ps_ref : PodReference; ps_start : Z; ps_containers : list containerSnapshot; ps_cpuNs : Z; ps_memWS : Z;
}.
Record snapshot := mkSnap {
  sn_at : Z; sn_mem : option (Z * Z); sn_disk : DiskSample; sn_pods : list podSnapshot;
  sn_nodeCPUNs : Z; sn_nodeMemWS : Z;
}.

Section gather.
Context {W : Type} (statsFn : StatsFunc W).

Fixpoint gather_containers (l : list ContainerInput) (cpu mem : Z) (w : W)
    : W * (list containerSnapshot * Z * Z) :=
  match l with
  | [] => (w, ([], cpu, mem))
  | cn :: l' =>
      let '(w1, r) := statsFn (ci_WorkloadID cn) w in
      let '(cpu', mem') :=
        match r with
        | Some rs => (uint64 (cpu + rs_CPUUsageCoreNanoSeconds rs), uint64 (mem + rs_MemoryUsageBytes rs))
        | None => (cpu, mem)
        end in
      let '(w2, (cs, c, m)) := gather_containers l' cpu' mem' w1 in
      (w2, (mkCS (ci_Name cn) (ci_StartTime cn) r :: cs, c, m))
  end.

Definition gather_pod (p : PodInput) (w : W) : W * podSnapshot :=
  let '(w', (cs, cpu, mem)) := gather_containers (pi_Containers p) 0 0 w in
  (w', mkPS (mkRef (pi_Name p) (pi_Namespace p) (pi_UID p)) (pi_StartTime p) cs cpu mem).

Fixpoint gather_pods (l : list PodInput) (cpu mem : Z) (w : W) : W * (list podSnapshot * Z * Z) :=
  match l with
  | [] => (w, ([], cpu, mem))
  | p :: l' =>
      let '(w1, ps) := gather_pod p w in
      let '(w2, (rest, c, m)) := gather_pods l' (uint64 (cpu + ps_cpuNs ps)) (uint64 (mem + ps_memWS ps)) w1 in
      (w2, (ps :: rest, c, m))
  end.

Definition gather (mem : option (MemorySampler W)) (diskFn : option (DiskFunc W)) (at_ : Z) (pods : list PodInput)
    (w : W) : W * snapshot :=
  let '(w1, m) := match mem with Some f => f w | None => (w, None) end in
  let '(w2, disk) := match diskFn with Some f => f w1 | None => (w1, mkDS None None) end in
  let '(w3, (ps, cpu, ws)) := gather_pods pods 0 0 w2 in
  (w3, mkSnap at_ m disk ps cpu ws).
End gather.

(** ** Rates *)

(** [Duration.Seconds] *)
Definition Seconds (d : Z) : spec_float :=
  fadd (float64 (Z.quot d Second)) (fdiv (float64 (Z.rem d Second)) (float64 1000000000)).

Definition not_positive (f : spec_float) : bool :=
  match f with
  | S754_zero _ => true
  | S754_infinity s | S754_finite s _ _ => s
  | S754_nan => false
  end.

Definition rate_between (prev : cpuSample) (now ns : Z) : option Z :=
  if ns <? cs_coreNanoSeconds prev then None
  else
    let elapsed := Seconds (Sub now (cs_at prev)) in
    if not_positive elapsed then None
    else Some (trunc_uint64 (fdiv (float64 (uint64 (ns - cs_coreNanoSeconds prev))) elapsed)).

Definition rate (c : Collector) (key : string) (now ns : Z) : Collector * option Z :=
  (mkCollector (c_nodeName c) (<[key := mkCpu now ns]> (c_prev c)),
   match c_prev c !! key with Some prev => rate_between prev now ns | None => None end).

Definition forget (c : Collector) (live : gset string) : Collector :=
  mkCollector (c_nodeName c) (filter (λ kv, kv.1 = nodeCPUKey ∨ kv.1 ∈ live) (c_prev c)).

(** ** The Summary *)

Record CPUStats := mkCPU { cp_Time : Z; cp_UsageNanoCores : option Z; cp_UsageCoreNanoSeconds : Z }.
Record MemoryStats := mkMem { me_Time : Z; me_AvailableBytes : option Z; me_UsageBytes : Z; me_WorkingSetBytes : Z }.
Record FsStats := mkFs {
  fs_Time : Z; fs_CapacityBytes : option Z; fs_UsedBytes : option Z; fs_AvailableBytes : option Z;
  fs_Inodes : option Z; fs_InodesUsed : option Z; fs_InodesFree : option Z;
}.
Record ContainerStats := mkCStats {
  ct_Name : string; ct_StartTime : Z; ct_CPU : option CPUStats; ct_Memory : option MemoryStats;
}.
Record PodStats := mkPStats {
  pt_PodRef : PodReference; pt_StartTime : Z; pt_CPU : CPUStats; pt_Memory : MemoryStats;
  pt_Containers : list ContainerStats;
}.
Record NodeStats := mkNStats {
  nt_NodeName : string; nt_StartTime : Z; nt_CPU : CPUStats; nt_Memory : option MemoryStats;
  nt_Fs : option FsStats; nt_ImageFs : option FsStats;
}.
Record Summary := mkSummary { su_Node : NodeStats; su_Pods : list PodStats }.

Definition cpuKey (ref : PodReference) : string := pr_Namespace ref +:+ "/" +:+ pr_Name ref.

(** What is left of a total, never below 0. *)
Definition left_of (total used : Z) : Z := if used <? total then total - used else 0.

Definition cpuStats (c : Collector) (key : string) (at_ ns : Z) : Collector * CPUStats :=
  let '(c', r) := rate c key at_ ns in (c', mkCPU at_ r ns).

Definition memoryStats (rs : ResourceStats) : MemoryStats :=
  mkMem (rs_Timestamp rs)
    (if 0 <? rs_MemoryLimitBytes rs then Some (left_of (rs_MemoryLimitBytes rs) (rs_MemoryUsageBytes rs)) else None)
    (rs_MemoryUsageBytes rs) (rs_MemoryUsageBytes rs).

Definition workingSetMemory (at_ bytes : Z) : MemoryStats := mkMem at_ None bytes bytes.

Definition fsStats (fu : FilesystemUsage) (fallback : Z) : FsStats :=
  let at_ := if fu_Timestamp fu =? zeroTime then fallback else fu_Timestamp fu in
  let inodes := 0 <? fu_TotalInodes fu in
  mkFs at_ (Some (fu_TotalBytes fu)) (Some (fu_UsedBytes fu)) (Some (fu_AvailableBytes fu))
    (if inodes then Some (fu_TotalInodes fu) else None)
    (if inodes then Some (fu_UsedInodes fu) else None)
    (if inodes then Some (left_of (fu_TotalInodes fu) (fu_UsedInodes fu)) else None).

Definition imageFsStats (img : ImageCacheUsage) (node : option FilesystemUsage) (fallback : Z) : FsStats :=
  let at_ := if ic_Timestamp img =? zeroTime then fallback else ic_Timestamp img in
  match node with
  | Some fu =>
      let base := fsStats fu fallback in
      mkFs at_ (fs_CapacityBytes base) (Some (ic_TotalBytes img)) (fs_AvailableBytes base)
        (fs_Inodes base) (fs_InodesUsed base) (fs_InodesFree base)
  | None => mkFs at_ None (Some (ic_TotalBytes img)) None None None None
  end.

Definition nodeStats (c : Collector) (s : snapshot) : Collector * NodeStats :=
  let '(c', cpu) := cpuStats c nodeCPUKey (sn_at s) (sn_nodeCPUNs s) in
  (c', mkNStats (c_nodeName c) (sn_at s) cpu
    (match sn_mem s with
     | Some (total, used) => Some (mkMem (sn_at s) (Some (left_of total used)) used used)
     | None => None
     end)
    (match ds_NodeFS (sn_disk s) with Some fu => Some (fsStats fu (sn_at s)) | None => None end)
    (match ds_Images (sn_disk s) with
     | Some img => Some (imageFsStats img (ds_NodeFS (sn_disk s)) (sn_at s))
     | None => None
     end)).

Definition containerKey (ref : PodReference) (name : string) : string := cpuKey ref +:+ "/" +:+ name.

Definition containerStats (c : Collector) (ref : PodReference) (cs : containerSnapshot) : Collector * ContainerStats :=
  match cn_stats cs with
  | None => (c, mkCStats (cn_name cs) (cn_start cs) None None)
  | Some rs =>
      let '(c', cpu) := cpuStats c (containerKey ref (cn_name cs)) (rs_Timestamp rs) (rs_CPUUsageCoreNanoSeconds rs) in
      (c', mkCStats (cn_name cs) (cn_start cs) (Some cpu) (Some (memoryStats rs)))
  end.

(** A loop that threads the collector. *)
Fixpoint thread {A B} (f : Collector → A → Collector * B) (c : Collector) (l : list A) : Collector * list B :=
  match l with
  | [] => (c, [])
  | x :: l' => let '(c1, y) := f c x in let '(c2, ys) := thread f c1 l' in (c2, y :: ys)
  end.

Definition podStats (now : Z) (c : Collector) (ps : podSnapshot) : Collector * PodStats :=
  let '(c1, cpu) := cpuStats c (cpuKey (ps_ref ps)) now (ps_cpuNs ps) in
  let '(c2, cs) := thread (λ c x, containerStats c (ps_ref ps) x) c1 (ps_containers ps) in
  (c2, mkPStats (ps_ref ps) (ps_start ps) cpu (workingSetMemory now (ps_memWS ps)) cs).

Definition live_ids (pods : list PodInput) : gset string :=
  list_to_set (pods ≫= λ p, ci_WorkloadID <$> pi_Containers p).

(** The Summary of a snapshot taken at [now]. *)
Definition summarize (c : Collector) (now : Z) (pods : list PodInput) (s : snapshot) : Collector * Summary :=
  let c0 := forget c (live_ids pods) in
  let '(c1, node) := nodeStats c0 s in
  let '(c2, ps) := thread (podStats now) c1 (sn_pods s) in
  (c2, mkSummary node ps).

Definition SummaryOf {W} (statsFn : StatsFunc W) (mem : option (MemorySampler W)) (diskFn : option (DiskFunc W))
    (now : Z) (pods : list PodInput) (c : Collector) (w : W) : W * (Collector * Summary) :=
  let '(w', s) := gather statsFn mem diskFn now pods w in (w', summarize c now pods s).

(** ** The Prometheus families ([resource.go]) *)

Inductive MetricType : Type := COUNTER | GAUGE.
Record Metric := mkMetric { mt_Label : list (string * string); mt_Value : spec_float; mt_TimestampMs : Z }.
Record MetricFamily := mkFamily { mf_Name : string; mf_Type : MetricType; mf_Metric : list Metric }.

Definition coreSeconds (ns : Z) : spec_float := fdiv (float64 ns) (float64 1000000000).
Definition boolToFloat (b : bool) : spec_float := float64 (if b then 1 else 0).
Definition UnixMilli (t : Z) : Z := t / 1000000.

Definition pod_labels (ps : podSnapshot) : list (string * string) :=
  [("pod", pr_Name (ps_ref ps)); ("namespace", pr_Namespace (ps_ref ps))].
Definition container_labels (ps : podSnapshot) (cs : containerSnapshot) : list (string * string) :=
  [("container", cn_name cs); ("pod", pr_Name (ps_ref ps)); ("namespace", pr_Namespace (ps_ref ps))].

(** One series per sampled container. *)
Definition container_series (value : ResourceStats → spec_float) (ts : Z) (ps : podSnapshot) : list Metric :=
  omap (λ cs, match cn_stats cs with
              | Some rs => Some (mkMetric (container_labels ps cs) (value rs) ts)
              | None => None
              end) (ps_containers ps).

Definition families (s : snapshot) (ts : Z) (runtimeReady : bool) : list MetricFamily :=
  let of_disk (value : FilesystemUsage → Z) :=
    match ds_NodeFS (sn_disk s) with Some fu => [mkMetric [] (float64 (value fu)) ts] | None => [] end in
  let of_images (value : ImageCacheUsage → Z) :=
    match ds_Images (sn_disk s) with Some im => [mkMetric [] (float64 (value im)) ts] | None => [] end in
  [ mkFamily "node_cpu_usage_seconds_total" COUNTER [mkMetric [] (coreSeconds (sn_nodeCPUNs s)) ts];
    mkFamily "node_memory_working_set_bytes" GAUGE
      (match sn_mem s with Some (_, used) => [mkMetric [] (float64 used) ts] | None => [] end);
    mkFamily "pod_cpu_usage_seconds_total" COUNTER
      ((λ ps, mkMetric (pod_labels ps) (coreSeconds (ps_cpuNs ps)) ts) <$> sn_pods s);
    mkFamily "pod_memory_working_set_bytes" GAUGE
      ((λ ps, mkMetric (pod_labels ps) (float64 (ps_memWS ps)) ts) <$> sn_pods s);
    mkFamily "container_cpu_usage_seconds_total" COUNTER
      (sn_pods s ≫= container_series (λ rs, coreSeconds (rs_CPUUsageCoreNanoSeconds rs)) ts);
    mkFamily "container_memory_working_set_bytes" GAUGE
      (sn_pods s ≫= container_series (λ rs, float64 (rs_MemoryUsageBytes rs)) ts);
    mkFamily "macvz_node_pods" GAUGE [mkMetric [] (float64 (Z.of_nat (length (sn_pods s)))) ts];
    mkFamily "macvz_runtime_ready" GAUGE [mkMetric [] (boolToFloat runtimeReady) ts];
    mkFamily "macvz_node_filesystem_capacity_bytes" GAUGE (of_disk fu_TotalBytes);
    mkFamily "macvz_node_filesystem_used_bytes" GAUGE (of_disk fu_UsedBytes);
    mkFamily "macvz_node_filesystem_available_bytes" GAUGE (of_disk fu_AvailableBytes);
    mkFamily "macvz_image_cache_bytes" GAUGE (of_images ic_TotalBytes);
    mkFamily "macvz_image_cache_images" GAUGE (of_images ic_Count) ].

(** Empty families are dropped; the rate cache is not touched. *)
Definition ResourceMetrics {W} (statsFn : StatsFunc W) (mem : option (MemorySampler W)) (diskFn : option (DiskFunc W))
    (now : Z) (pods : list PodInput) (runtimeReady : bool) (w : W) : W * list MetricFamily :=
  let '(w', s) := gather statsFn mem diskFn now pods w in
  (w', filter (λ f, mf_Metric f ≠ []) (families s (UnixMilli now) runtimeReady)).

(** ** Host memory ([hostmem_darwin.go])

    [sysctl] and [vm_stat] are the outputs of the two commands, [None] when one
    fails.  [vm_stat] lines are far below the scanner's limit. *)

Definition splitVMStat (line : string) : option (string * Z) :=
  match cut_last ":" line with
  | None => None
  | Some (k, v) =>
      match ParseUint (TrimSuffix (TrimSpace v) ".") with Some n => Some (TrimSpace k, n) | None => None end
  end.

Record vmPages := mkVM { vm_pageSize : Z; vm_active : Z; vm_wired : Z; vm_compressed : Z }.

(** The text after the first occurrence of [p]. *)
Fixpoint after (p s : string) : option string :=
  if HasPrefix s p then Some (drop (String.length p) s)
  else match s with String _ r => after p r | EmptyString => None end.

(** One line; [None] is the panic of indexing an empty field list. *)
Definition vm_line (v : vmPages) (line : string) : option vmPages :=
  if HasPrefix line "Mach Virtual Memory Statistics" then
    match after "page size of " line with
    | None => Some v
    | Some rest =>
        match Fields rest with
        | [] => None
        | f :: _ =>
            Some (match ParseUint f with
                  | Some n => mkVM n (vm_active v) (vm_wired v) (vm_compressed v)
                  | None => v
                  end)
        end
    end
  else Some (match splitVMStat line with
  | None => v
  | Some (key, n) =>
      if HasPrefix key "Pages active" then mkVM (vm_pageSize v) n (vm_wired v) (vm_compressed v)
      else if HasPrefix key "Pages wired down" then mkVM (vm_pageSize v) (vm_active v) n (vm_compressed v)
      else if HasPrefix key "Pages occupied by compressor" then mkVM (vm_pageSize v) (vm_active v) (vm_wired v) n
      else v
  end).

Fixpoint vm_lines (v : vmPages) (lines : list string) : option vmPages :=
  match lines with
  | [] => Some v
  | l :: rest => match vm_line v l with Some v' => vm_lines v' rest | None => None end
  end.

(** [bufio.ScanLines]: a final empty line is not one, a trailing CR is dropped. *)
Definition scan_lines (s : string) : list string :=
  let l := split_on lf s in
  (λ x, TrimSuffix x (String (GoJson.byte 13) "")) <$> (match last l with Some "" => removelast l | _ => l end).

(** The used bytes, [None] when the parse panics. *)
Definition hostUsedRAM (vm_stat : string) : option Z :=
  match vm_lines (mkVM 16384 0 0 0) (scan_lines vm_stat) with
  | Some v => Some (uint64 (uint64 (uint64 (vm_active v + vm_wired v) + vm_compressed v) * vm_pageSize v))
  | None => None
  end.

Definition hostTotalRAM (sysctl : string) : option Z := ParseUint (TrimSpace sysctl).

(** The outer [None] is a panic, the inner one an error. *)
Definition HostMemory (sysctl vm_stat : option string) : option (option (Z * Z)) :=
  match sysctl with
  | None => Some None
  | Some s =>
      match hostTotalRAM s, vm_stat with
      | Some total, Some v =>
          match hostUsedRAM v with
          | Some used => Some (Some (total, if total <? used then total else used))
          | None => None
          end
      | _, _ => Some None
      end
  end.

(** ** What a scrape adds up *)

Definition sampled (ps : podSnapshot) : list ResourceStats := omap cn_stats (ps_containers ps).
Definition total (value : ResourceStats → Z) (l : list ResourceStats) : Z := foldr Z.add 0 (value <$> l).

Lemma total_app value l k : total value (l ++ k) = total value l + total value k.
Proof. unfold total. rewrite fmap_app. induction (value <$> l) as [|x r IH]; simpl; lia. Qed.

Lemma total_cons value x l : total value (x :: l) = value x + total value l.
Proof. done. Qed.

Lemma uint64_add_l a b : uint64 (uint64 a + b) = uint64 (a + b).
Proof. unfold uint64. by rewrite Zplus_mod_idemp_l. Qed.
Lemma uint64_add_r a b : uint64 (a + uint64 b) = uint64 (a + b).
Proof. unfold uint64. by rewrite Zplus_mod_idemp_r. Qed.
Lemma uint64_idemp a : uint64 (uint64 a) = uint64 a.
Proof. unfold uint64. by rewrite Z.mod_mod. Qed.
Create Rewrite HintDb uint64.
#[local] Hint Rewrite uint64_add_l uint64_add_r uint64_idemp : uint64.

Lemma gather_containers_spec {W} (statsFn : StatsFunc W) l cpu mem w w' cs c m :
  cpu = uint64 cpu → mem = uint64 mem →
  gather_containers statsFn l cpu mem w = (w', (cs, c, m)) →
  (λ x, (cn_name x, cn_start x)) <$> cs = (λ x, (ci_Name x, ci_StartTime x)) <$> l ∧
  c = uint64 (cpu + total rs_CPUUsageCoreNanoSeconds (omap cn_stats cs)) ∧
  m = uint64 (mem + total rs_MemoryUsageBytes (omap cn_stats cs)).
Proof.
  revert cpu mem w w' cs c m. induction l as [|x l IH]; intros cpu mem w w' cs c m Hc0 Hm0; simpl.
  - intros [= <- <- <- <-]. unfold total. simpl. by rewrite !Z.add_0_r.
  - destruct (statsFn (ci_WorkloadID x) w) as [w1 r].
    destruct (match r with Some rs => _ | None => _ end) as [cpu' mem'] eqn:Er.
    destruct (gather_containers statsFn l cpu' mem' w1) as [w2 [[cs2 c2] m2]] eqn:E. intros [= <- <- <- <-].
    assert (cpu' = uint64 cpu' ∧ mem' = uint64 mem') as [? ?].
    { destruct r; injection Er as <- <-; by autorewrite with uint64. }
    apply IH in E as (Hn & -> & ->); [|done..]. rewrite !fmap_cons. split; [by f_equal|].
    destruct r as [rs|]; injection Er as <- <-; [|done]. simpl omap. autorewrite with uint64.
    rewrite !total_cons, !Z.add_assoc. done.
Qed.

(** What a Pod's snapshot says about its input. *)
Definition pod_sampled (p : PodInput) (ps : podSnapshot) : Prop :=
  ps_ref ps = mkRef (pi_Name p) (pi_Namespace p) (pi_UID p) ∧
  (λ x, (cn_name x, cn_start x)) <$> ps_containers ps = (λ x, (ci_Name x, ci_StartTime x)) <$> pi_Containers p ∧
  ps_cpuNs ps = uint64 (total rs_CPUUsageCoreNanoSeconds (sampled ps)) ∧
  ps_memWS ps = uint64 (total rs_MemoryUsageBytes (sampled ps)).

Lemma gather_pod_spec {W} (statsFn : StatsFunc W) p w : pod_sampled p (gather_pod statsFn p w).2.
Proof.
  unfold gather_pod. destruct (gather_containers _ _ 0 0 w) as [w' [[cs c] m]] eqn:E.
  apply gather_containers_spec in E as (? & ? & ?); done.
Qed.

Lemma gather_pods_spec {W} (statsFn : StatsFunc W) l cpu mem w w' ps c m :
  cpu = uint64 cpu → mem = uint64 mem →
  gather_pods statsFn l cpu mem w = (w', (ps, c, m)) →
  Forall2 pod_sampled l ps ∧
  c = uint64 (cpu + total rs_CPUUsageCoreNanoSeconds (ps ≫= sampled)) ∧
  m = uint64 (mem + total rs_MemoryUsageBytes (ps ≫= sampled)).
Proof.
  revert cpu mem w w' ps c m. induction l as [|p l IH]; intros cpu mem w w' ps c m Hc0 Hm0; cbn [gather_pods].
  - intros [= <- <- <- <-]. unfold total. simpl. by rewrite !Z.add_0_r.
  - pose proof (gather_pod_spec statsFn p w) as Hp. destruct (gather_pod statsFn p w) as [w1 x]. simpl in Hp.
    destruct (gather_pods statsFn l _ _ w1) as [w2 [[rest c2] m2]] eqn:E. intros [= <- <- <- <-].
    apply IH in E as (Hf & -> & ->); [|by autorewrite with uint64..].
    split; [by constructor|]. destruct Hp as (_ & _ & -> & ->). rewrite bind_cons, !total_app.
    by rewrite !uint64_add_r, !uint64_add_l, !Z.add_assoc.
Qed.

(** A scrape reports every Pod and container it is given, in order, whether
    or not the runtime could sample them, and the CPU and memory of each Pod and
    of the node are the sums, modulo 2^64, of exactly the containers that were
    sampled: one that could not be sampled is left out and affects nothing else. *)
Theorem scrape_totals {W} (statsFn : StatsFunc W) mem diskFn now pods w :
  let s := (gather statsFn mem diskFn now pods w).2 in
  Forall2 pod_sampled pods (sn_pods s) ∧
  sn_nodeCPUNs s = uint64 (total rs_CPUUsageCoreNanoSeconds (sn_pods s ≫= sampled)) ∧
  sn_nodeMemWS s = uint64 (total rs_MemoryUsageBytes (sn_pods s ≫= sampled)).
Proof.
  unfold gather. destruct (match mem with Some f => f w | None => _ end) as [w1 m].
  destruct (match diskFn with Some f => f w1 | None => _ end) as [w2 d].
  destruct (gather_pods statsFn pods 0 0 w2) as [w3 [[ps c] ws]] eqn:E. by apply gather_pods_spec in E.
Qed.

(** ** The rate cache *)

Abbreviation Touched := (list (string * cpuSample)).

(** The cache after a run of samples. *)
Definition remember (m : gmap string cpuSample) (l : Touched) : gmap string cpuSample :=
  foldl (λ m kv, <[kv.1 := kv.2]> m) m l.

Lemma remember_app m l k : remember m (l ++ k) = remember (remember m l) k.
Proof. apply foldl_app. Qed.

Lemma dom_remember m (l : Touched) : dom (remember m l) = list_to_set l.*1 ∪ dom m.
Proof.
  revert m. induction l as [|kv l IH]; intros m; [set_solver|]. cbn [remember foldl]. fold (remember (<[kv.1:=kv.2]> m) l).
  rewrite IH, dom_insert_L, fmap_cons, list_to_set_cons. set_solver.
Qed.

Lemma remember_other m (l : Touched) k : k ∉ l.*1 → remember m l !! k = m !! k.
Proof.
  revert m. induction l as [|kv l IH]; intros m Hk; [done|]. rewrite fmap_cons, not_elem_of_cons in Hk. destruct Hk.
  cbn [remember foldl]. fold (remember (<[kv.1:=kv.2]> m) l). rewrite IH by done. by rewrite lookup_insert_ne.
Qed.

(** The samples a container and a Pod leave. *)
Definition container_touch (ref : PodReference) (cs : containerSnapshot) : Touched :=
  match cn_stats cs with
  | Some rs => [(containerKey ref (cn_name cs), mkCpu (rs_Timestamp rs) (rs_CPUUsageCoreNanoSeconds rs))]
  | None => []
  end.
Definition pod_touch (now : Z) (ps : podSnapshot) : Touched :=
  (cpuKey (ps_ref ps), mkCpu now (ps_cpuNs ps)) :: (ps_containers ps ≫= container_touch (ps_ref ps)).

Section threading.
Context {A B : Type} (f : Collector → A → Collector * B) (touch : A → Touched).
Hypothesis f_touch : ∀ c x, c_prev (f c x).1 = remember (c_prev c) (touch x).

Lemma thread_touch c l : c_prev (thread f c l).1 = remember (c_prev c) (l ≫= touch).
Proof.
  revert c. induction l as [|x l IH]; intros c; [done|]. cbn [thread].
  pose proof (f_touch c x) as Hf. destruct (f c x) as [c1 y]. specialize (IH c1). destruct (thread f c1 l) as [c2 ys].
  simpl in *. by rewrite remember_app, <- Hf.
Qed.

(** Elements that touch distinct fresh keys are each computed on fresh keys. *)
Lemma thread_fresh (P : B → Prop) c l :
  (∀ c x, x ∈ l → NoDup (touch x).*1 → (∀ k, k ∈ (touch x).*1 → c_prev c !! k = None) → P (f c x).2) →
  NoDup (l ≫= touch).*1 → (∀ k, k ∈ (l ≫= touch).*1 → c_prev c !! k = None) → Forall P (thread f c l).2.
Proof.
  revert c. induction l as [|x l IH]; intros c HP Hnd Hk; [constructor|]. cbn [thread].
  rewrite bind_cons, fmap_app, NoDup_app in Hnd. destruct Hnd as (Hn1 & Hdis & Hn2).
  setoid_rewrite bind_cons in Hk. setoid_rewrite fmap_app in Hk. setoid_rewrite elem_of_app in Hk.
  pose proof (f_touch c x) as Hf. pose proof (HP c x ltac:(set_solver) Hn1 ltac:(auto)) as Hx.
  destruct (f c x) as [c1 y]. specialize (IH c1). destruct (thread f c1 l) as [c2 ys] eqn:E. simpl in *.
  constructor; [done|]. apply IH; [set_solver|done|]. intros k Hkl. rewrite Hf, remember_other; [auto|].
  intros Hx'. by apply (Hdis k).
Qed.
End threading.

Lemma containerStats_touch ref c cs :
  c_prev (containerStats c ref cs).1 = remember (c_prev c) (container_touch ref cs).
Proof. unfold containerStats, container_touch. by destruct (cn_stats cs). Qed.

Lemma podStats_touch now c ps : c_prev (podStats now c ps).1 = remember (c_prev c) (pod_touch now ps).
Proof.
  unfold podStats, pod_touch, cpuStats, rate. cbn -[thread].
  match goal with |- context [thread ?f ?c1 ?l] =>
    pose proof (thread_touch f (container_touch (ps_ref ps)) (containerStats_touch (ps_ref ps)) c1 l) as H;
    destruct (thread f c1 l) as [c2 ys] end. done.
Qed.

(** The cache a Summary leaves: the entries forgetting kept, the node's, and
    those of the Pods it reports. *)
Definition kept (c : Collector) (pods : list PodInput) (s : snapshot) : gmap string cpuSample :=
  <[nodeCPUKey := mkCpu (sn_at s) (sn_nodeCPUNs s)]> (c_prev (forget c (live_ids pods))).

Definition touched (now : Z) (s : snapshot) : Touched := sn_pods s ≫= pod_touch now.

Lemma summarize_unfold c now pods s :
  summarize c now pods s =
    (let '(c1, node) := nodeStats (forget c (live_ids pods)) s in
     let r := thread (podStats now) c1 (sn_pods s) in (r.1, mkSummary node r.2)).
Proof. unfold summarize. destruct (nodeStats _ s) as [c1 node]. by destruct (thread _ c1 (sn_pods s)). Qed.

Lemma summarize_prev c now pods s : c_prev (summarize c now pods s).1 = remember (kept c pods s) (touched now s).
Proof. rewrite summarize_unfold. cbn -[thread]. by rewrite (thread_touch _ (pod_touch now) (podStats_touch now)). Qed.

Lemma summarize_pods c now pods s :
  ∃ c1, c_prev c1 = kept c pods s ∧ su_Pods (summarize c now pods s).2 = (thread (podStats now) c1 (sn_pods s)).2.
Proof. rewrite summarize_unfold. cbn -[thread]. eexists. split; [|reflexivity]. done. Qed.

Lemma slash_key a b : no_char "/" (a +:+ "/" +:+ b) = false.
Proof. rewrite !no_char_app. by rewrite andb_false_r. Qed.

Lemma touch_slash now s k : k ∈ (touched now s).*1 → no_char "/" k = false.
Proof.
  unfold touched. intros ([k' v] & -> & (ps & Hps & _)%list_elem_of_bind)%list_elem_of_fmap. simpl.
  apply elem_of_cons in Hps as [[= -> _]|Hc]; [apply slash_key|].
  apply list_elem_of_bind in Hc as (cs & Hc & _). unfold container_touch in Hc. destruct (cn_stats cs); [|set_solver].
  apply list_elem_of_singleton in Hc as [= -> _]. apply slash_key.
Qed.

(** The keys a collector ever caches: the node's, and Pod keys, which have a
    slash. *)
Definition cache_ok (c : Collector) : Prop := ∀ k, k ∈ dom (c_prev c) → k = nodeCPUKey ∨ no_char "/" k = false.

(** Workload IDs are DNS labels. *)
Definition slashless (pods : list PodInput) : Prop := ∀ i, i ∈ live_ids pods → no_char "/" i = true.

Lemma kept_keys c pods s : slashless pods → ∀ k, no_char "/" k = false → kept c pods s !! k = None.
Proof.
  intros Hl k Hk. unfold kept, forget. cbn [c_prev]. assert (k ≠ nodeCPUKey) by by intros ->.
  rewrite lookup_insert_ne by done. apply map_lookup_filter_None_2. right. intros v _ [?|Hin]; [done|].
  simpl in Hin. apply Hl in Hin. congruence.
Qed.

Lemma dom_kept c pods s : cache_ok c → slashless pods → dom (kept c pods s) = {[nodeCPUKey]}.
Proof.
  intros Hc Hl. apply set_eq. intros k. rewrite elem_of_singleton, elem_of_dom. split.
  - intros [v Hv]. destruct (no_char "/" k) eqn:E; [|rewrite kept_keys in Hv; done].
    unfold kept in Hv. apply lookup_insert_Some in Hv as [[-> _]|[_ Hv]]; [done|].
    apply map_lookup_filter_Some in Hv as [Hv _]. destruct (Hc k) as [?|?]; [by eapply elem_of_dom_2|done|congruence].
  - intros ->. unfold kept. rewrite lookup_insert_eq. by eexists.
Qed.

Lemma cache_ok_summarize c now pods s : cache_ok c → cache_ok (summarize c now pods s).1.
Proof.
  intros Hc k. rewrite summarize_prev, dom_remember, elem_of_union. intros [Hk|Hk].
  - right. apply elem_of_list_to_set in Hk. by eapply touch_slash.
  - unfold kept in Hk. rewrite dom_insert_L, elem_of_union, elem_of_singleton in Hk. destruct Hk as [?|Hk]; [by left|].
    apply elem_of_dom in Hk as [v [Hv _]%map_lookup_filter_Some]. apply Hc. by eapply elem_of_dom_2.
Qed.

(** The rate cache stays as small as the node: after any sequence of
    Summaries it holds one entry for the node and one for each Pod and sampled
    container of the last one, and nothing of the Pods that have gone. *)
Theorem rate_cache_exact nodeName (history : list (Z * list PodInput * snapshot)) now pods s :
  slashless pods →
  let c := foldl (λ c '(t, ps, sn), (summarize c t ps sn).1) (NewCollector nodeName) history in
  dom (c_prev (summarize c now pods s).1) = {[nodeCPUKey]} ∪ list_to_set (touched now s).*1.
Proof.
  intros Hl. cbv zeta. set (c := foldl _ _ _).
  assert (cache_ok c) as Hc.
  { unfold c. assert (cache_ok (NewCollector nodeName)) as H0 by done. revert H0. generalize (NewCollector nodeName).
    induction history as [|[[t ps] sn] hist IH]; intros c0 H0; simpl; [done|]. by apply IH, cache_ok_summarize. }
  rewrite summarize_prev, dom_remember, dom_kept by done. apply union_comm_L.
Qed.

(** The node's CPU rate in a Summary is the difference of its counter with
    that of the Summary before, over the time between them, whatever happened to
    the Pods; none is reported when the counter went down or no time passed. *)
Theorem node_rate_exact c now1 pods1 s1 now2 pods2 s2 :
  nt_CPU (su_Node (summarize (summarize c now1 pods1 s1).1 now2 pods2 s2).2) =
  mkCPU (sn_at s2)
    (rate_between (mkCpu (sn_at s1) (sn_nodeCPUNs s1)) (sn_at s2) (sn_nodeCPUNs s2)) (sn_nodeCPUNs s2).
Proof.
  rewrite (summarize_unfold (summarize c now1 pods1 s1).1). cbn -[thread rate_between summarize].
  assert (c_prev (forget (summarize c now1 pods1 s1).1 (live_ids pods2)) !! nodeCPUKey =
          Some (mkCpu (sn_at s1) (sn_nodeCPUNs s1))) as H.
  { apply map_lookup_filter_Some. split; [|by left]. rewrite summarize_prev, remember_other.
    - unfold kept. by rewrite lookup_insert_eq.
    - intros Hk%touch_slash. by vm_compute in Hk. }
  cbn [forget c_prev] in H. by rewrite H.
Qed.

(** No rate for a Pod or for any of its containers. *)
Definition no_rates (p : PodStats) : Prop :=
  cp_UsageNanoCores (pt_CPU p) = None ∧
  Forall (λ ct, match ct_CPU ct with Some cpu => cp_UsageNanoCores cpu = None | None => True end) (pt_Containers p).

Lemma containerStats_fresh ref c cs :
  (∀ k, k ∈ (container_touch ref cs).*1 → c_prev c !! k = None) →
  match ct_CPU (containerStats c ref cs).2 with Some cpu => cp_UsageNanoCores cpu = None | None => True end.
Proof.
  unfold containerStats, container_touch. destruct (cn_stats cs); [|done]. intros H. simpl. by rewrite H by by left.
Qed.

Lemma podStats_fresh now c ps :
  NoDup (pod_touch now ps).*1 → (∀ k, k ∈ (pod_touch now ps).*1 → c_prev c !! k = None) →
  no_rates (podStats now c ps).2.
Proof.
  intros Hnd Hk. unfold podStats, cpuStats, rate. cbn -[thread cpuKey]. rewrite (Hk (cpuKey (ps_ref ps))) by by left.
  unfold pod_touch in *. rewrite fmap_cons in *. apply NoDup_cons in Hnd as [Hnin Hnd].
  match goal with |- context [thread ?f ?c1 ?l] =>
    pose proof (thread_fresh f (container_touch (ps_ref ps)) (containerStats_touch (ps_ref ps))
      (λ ct, match ct_CPU ct with Some cpu => cp_UsageNanoCores cpu = None | None => True end) c1 l) as H;
    destruct (thread f c1 l) as [c2 ys] end.
  split; [done|]. apply H; [intros; by apply containerStats_fresh|done|]. intros k Hkc. cbn [c_prev].
  rewrite lookup_insert_ne; [apply Hk; by right|]. intros <-. done.
Qed.

(** No Summary ever reports the CPU rate of a Pod or of a container, whatever
    was sampled before.  Forgetting runs before the rates are taken and drops
    every entry that is not a live workload ID, but the entries of Pods and
    containers are filed under namespace and name, which no workload ID is. *)
Theorem pod_rates_never_reported c now pods s :
  slashless pods → NoDup (touched now s).*1 → Forall no_rates (su_Pods (summarize c now pods s).2).
Proof.
  intros Hl Hnd. destruct (summarize_pods c now pods s) as (c1 & Hc1 & ->).
  apply (thread_fresh _ (pod_touch now) (podStats_touch now)); [intros; by apply podStats_fresh|done|].
  intros k Hk. rewrite Hc1. apply kept_keys; [done|]. by eapply touch_slash.
Qed.

(** ** A node with one Pod *)

Definition web_input : PodInput := mkPI "default" "web" "u1" 0 [mkCI "app" "macvz-web" 0].
Definition web_stats (t : Z) : StatsFunc unit := λ i w, (w, Some (mkRS t (2 * t) 1000 4096 0 0)).
Definition web_scrape (t : Z) : snapshot := (gather (web_stats t) None None t [web_input] tt).2.

Lemma slashless_web : slashless [web_input].
Proof. intros i Hi. change (live_ids [web_input]) with ({["macvz-web"]} ∪ ∅ : gset string) in Hi. by assert (i = "macvz-web") as -> by set_solver. Qed.

Lemma slashless_nil : slashless [].
Proof. intros i Hi. unfold live_ids in Hi. rewrite elem_of_list_to_set in Hi. by apply elem_of_nil in Hi. Qed.

(** Two Summaries ten seconds apart, two cores busy: the node's rate is two
    cores, the Pod's is missing. *)
Lemma pod_rates_never_reported_witness :
  let c := (summarize (NewCollector "mac") (5 * Second) [web_input] (web_scrape (5 * Second))).1 in
  let r := (summarize c (15 * Second) [web_input] (web_scrape (15 * Second))).2 in
  Forall no_rates (su_Pods r) ∧ length (su_Pods r) = 1%nat ∧
  cp_UsageNanoCores (nt_CPU (su_Node r)) = Some 2000000000.
Proof.
  cbv zeta. split; [apply pod_rates_never_reported; [apply slashless_web|]|split; vm_compute; reflexivity].
  refine (bool_decide_unpack (dec := NoDup_dec _) _ _). vm_compute. exact I.
Defined.

Lemma rate_cache_exact_witness :
  let c := (summarize (NewCollector "mac") (5 * Second) [web_input] (web_scrape (5 * Second))).1 in
  dom (c_prev (summarize c (15 * Second) [] (mkSnap (15 * Second) None (mkDS None None) [] 0 0)).1) = {[nodeCPUKey]}.
Proof.
  pose proof (rate_cache_exact "mac" [(5 * Second, [web_input], web_scrape (5 * Second))] (15 * Second) []
    (mkSnap (15 * Second) None (mkDS None None) [] 0 0)) as H. cbv zeta in *. cbn [foldl] in H.
  rewrite H; [vm_compute; reflexivity|]. exact slashless_nil.
Defined.
