(* ===== verification/Bench.v ===== *)
(** * The density benchmark: [cmd/mvz-bench]

    Order statistics ([stats.go]), the memory samples ([mem_darwin.go]) and the
    harness ([main.go]): how many micro-VMs it may boot, its two ways of booting
    them, and the teardown.  The parallel launch is a transition system at the grain
    of the calls of the runtime and of the shared lists; the sequential one and the
    rest are functions.  The clock, polling times and the operator's interrupt are
    the environment's. *)

From S2P Require Import Prelude GoFloat GoStrings GoTime Driver PodSpec WireGuard PodEnv Runtime Metrics.

Open Scope Z_scope.

(** ** Statistics *)

Definition fzero : spec_float := S754_zero false.

Definition is_nan (f : spec_float) : bool := match f with S754_nan => true | _ => false end.

(** The order of [sort.Float64s]: NaN first. *)
Definition float_less (a b : spec_float) : bool := SFltb a b || (is_nan a && negb (is_nan b)).
Definition float_le (a b : spec_float) : bool := negb (float_less b a).

Definition Float64s (l : list spec_float) : list spec_float := sort_by float_le l.

Record Distribution := mkDist {
  d_N : Z; d_Min : spec_float; d_P50 : spec_float; d_P90 : spec_float; d_P99 : spec_float; d_Max : spec_float; d_Mean : spec_float;
}.

(** The index of the nearest rank, before and after it is brought into range. *)
Definition raw_rank (p n : Z) : Z := ceil_int64 (fmul (fdiv (float64 p) (float64 100)) (float64 n)) - 1.

Definition rank (p n : Z) : Z :=
  let r := raw_rank p n in
  let r := if r <? 0 then 0 else r in
  if n <=? r then n - 1 else r.

Definition percentile (sorted : list spec_float) (p : Z) : spec_float :=
  match sorted with
  | [] => fzero
  | _ => default fzero (sorted !! Z.to_nat (rank p (Z.of_nat (length sorted))))
  end.

Definition summarize (samples : list spec_float) : Distribution :=
  match samples with
  | [] => mkDist 0 fzero fzero fzero fzero fzero fzero
  | _ =>
      let sorted := Float64s samples in
      let n := Z.of_nat (length sorted) in
      let sum := foldl fadd fzero sorted in
      mkDist n (default fzero (sorted !! 0%nat)) (percentile sorted 50) (percentile sorted 90) (percentile sorted 99)
        (default fzero (last sorted)) (fdiv sum (float64 n))
  end.

Definition toFloats (d : list Z) : list spec_float := float64 <$> d.

(** *** The order *)

(** Floats ordered by class, exponent and mantissa. *)
Definition fkey (f : spec_float) : Z * Z * Z :=
  match f with
  | S754_nan => (-3, 0, 0)
  | S754_infinity true => (-2, 0, 0)
  | S754_finite true m e => (-1, - e, Z.neg m)
  | S754_zero _ => (0, 0, 0)
  | S754_finite false m e => (1, e, Z.pos m)
  | S754_infinity false => (2, 0, 0)
  end.

Definition key_lt (x y : Z * Z * Z) : Prop :=
  x.1.1 < y.1.1 ∨ x.1.1 = y.1.1 ∧ (x.1.2 < y.1.2 ∨ x.1.2 = y.1.2 ∧ x.2 < y.2).

Lemma float_less_key a b : float_less a b = true ↔ key_lt (fkey a) (fkey b).
Proof.
  unfold float_less, SFltb, key_lt. destruct a as [[]|[]| |[] m e], b as [[]|[]| |[] m' e']; cbn; try (split; (done || lia)).
  all: change (PosDef.Pos.compare_cont Eq m m') with (m ?= m')%positive; rewrite orb_false_r;
    destruct (Z.compare_spec e e'); cbn; [destruct (Pos.compare_spec m m'); cbn|..]; split; (done || lia).
Qed.

Lemma float_le_key a b : float_le a b = true ↔ ¬ key_lt (fkey b) (fkey a).
Proof. unfold float_le. rewrite negb_true_iff, <- not_true_iff_false, float_less_key. done. Qed.

Lemma float_le_total a b : float_le a b = true ∨ float_le b a = true.
Proof. rewrite !float_le_key. unfold key_lt. lia. Qed.

Lemma float_le_trans a b c : float_le a b = true → float_le b c = true → float_le a c = true.
Proof. rewrite !float_le_key. unfold key_lt. lia. Qed.

(** *** Nearest rank *)

(** The ranks of a run of at most 4096 samples, computed one by one: floating point
    gives the exact ceiling. *)
Definition rank_exact (p n : Z) : bool := rank p n =? (p * n + 99) / 100 - 1.

Lemma ranks_exact : forallb (λ p, forallb (rank_exact p) (seqZ 1 4096)) [50; 90; 99] = true.
Proof. vm_compute. reflexivity. Qed.

Lemma rank_spec p n : p ∈ [50; 90; 99] → 1 ≤ n ≤ 4096 → rank p n = (p * n + 99) / 100 - 1.
Proof.
  intros Hp Hn. pose proof ranks_exact as H. rewrite forallb_forall in H. specialize (H p).
  rewrite <- list_elem_of_In in H. specialize (H Hp). cbv beta in H. rewrite forallb_forall in H. apply Z.eqb_eq, H.
  rewrite <- list_elem_of_In. apply elem_of_seqZ. lia.
Qed.

(** How many samples satisfy a test. *)
Definition count (f : spec_float → bool) (l : list spec_float) : Z := Z.of_nat (length (List.filter f l)).

Lemma count_perm f l k : l ≡ₚ k → count f l = count f k.
Proof. intros Hp. unfold count. f_equal. induction Hp; cbn; repeat case_match; cbn; congruence. Qed.

Lemma count_app f l k : count f (l ++ k) = count f l + count f k.
Proof. unfold count. rewrite List.filter_app, length_app. lia. Qed.

Lemma count_bounds f l : 0 ≤ count f l ≤ Z.of_nat (length l).
Proof. unfold count. pose proof (List.filter_length_le f l). lia. Qed.

Lemma count_all f l : Forall (λ x, f x = true) l → count f l = Z.of_nat (length l).
Proof. unfold count. induction 1 as [|x l Hx _ IH]; [done|]. cbn. rewrite Hx. cbn. lia. Qed.

Lemma count_none f l : Forall (λ x, f x = false) l → count f l = 0.
Proof. unfold count. induction 1 as [|x l Hx _ IH]; [done|]. cbn. by rewrite Hx. Qed.

Abbreviation sorted := (StronglySorted (λ a b, float_le a b = true)).

(** In a sorted list, the element at an index bounds those before it and is bounded
    by those from it on. *)
Lemma sorted_split l i x :
  sorted l → l !! i = Some x → Forall (λ y, float_le y x = true) (list.take (S i) l) ∧ Forall (λ y, float_le x y = true) (list.drop i l).
Proof.
  intros Hs. revert i. induction Hs as [|a l Hs IH Ha]; intros [|i] Hi; [done|done| |].
  - injection Hi as ->. assert (float_le x x = true) by (destruct (float_le_total x x); done). split; by repeat constructor.
  - cbn in Hi. destruct (IH i Hi) as [H1 H2]. split; [|done]. constructor; [|done].
    rewrite Forall_forall in Ha. apply Ha. by eapply list_elem_of_lookup_2.
Qed.

Lemma sorted_le l i j x y : sorted l → (i ≤ j)%nat → l !! i = Some x → l !! j = Some y → float_le x y = true.
Proof.
  intros Hs Hij Hx Hy. destruct (sorted_split l i x Hs Hx) as [_ H]. rewrite Forall_forall in H. apply H.
  apply (list_elem_of_lookup_2 _ (j - i)). rewrite lookup_drop. by replace (i + (j - i))%nat with j by lia.
Qed.

(** Elements picked at growing indices are in order. *)
Lemma picked_sorted l ks xs : sorted l → StronglySorted le ks → Forall2 (λ i x, l !! i = Some x) ks xs → sorted xs.
Proof.
  intros Hs Hi Hx. induction Hx as [|i x ks xs Hix Hx IH]; [constructor|]. apply StronglySorted_cons in Hi as [Hle Hi].
  apply StronglySorted_cons. split; [|by apply IH]. clear IH Hi. induction Hx as [|j y js ys Hjy _ IH]; [constructor|].
  apply Forall_cons in Hle as [Hij Hle]. constructor; [by eapply sorted_le|by apply IH].
Qed.

(** The index a percentile is read at. *)
Definition nearest (p : Z) (l : list spec_float) : nat := Z.to_nat ((p * Z.of_nat (length l) + 99) / 100 - 1).

Lemma nonempty_length (l : list spec_float) : l ≠ [] → 1 ≤ Z.of_nat (length l).
Proof. destruct l; [done|]. cbn [length]. lia. Qed.

Lemma nearest_in p l : 1 ≤ p ≤ 99 → l ≠ [] → (nearest p l < length l)%nat.
Proof.
  intros Hp Hl. pose proof (nonempty_length l Hl). unfold nearest.
  assert ((p * Z.of_nat (length l) + 99) / 100 < Z.of_nat (length l) + 1) by (apply Z.div_lt_upper_bound; nia).
  assert (1 ≤ (p * Z.of_nat (length l) + 99) / 100) by (apply Z.div_le_lower_bound; nia). lia.
Qed.

Lemma nearest_mono p q l : p ≤ q → (nearest p l ≤ nearest q l)%nat.
Proof.
  intros Hpq. unfold nearest. assert ((p * Z.of_nat (length l) + 99) / 100 ≤ (q * Z.of_nat (length l) + 99) / 100); [|lia].
  apply Z.div_le_mono; nia.
Qed.

Lemma percents p : p ∈ [50; 90; 99] → 1 ≤ p ≤ 99.
Proof. rewrite !elem_of_cons, elem_of_nil. lia. Qed.

Lemma percentile_at p l : p ∈ [50; 90; 99] → l ≠ [] → (length l ≤ 4096)%nat → l !! nearest p l = Some (percentile l p).
Proof.
  intros Hp Hl Hn. pose proof (percents p Hp) as Hr. destruct (lookup_lt_is_Some_2 l (nearest p l)) as [x Hx]; [by apply nearest_in|].
  pose proof (nonempty_length l Hl).
  rewrite Hx. f_equal. unfold percentile. destruct l as [|a l]; [done|]. rewrite rank_spec by (done || lia).
  fold (nearest p (a :: l)). by rewrite Hx.
Qed.

Lemma percentile_counts p l : p ∈ [50; 90; 99] → sorted l → l ≠ [] → (length l ≤ 4096)%nat →
  p * Z.of_nat (length l) ≤ 100 * count (λ y, float_le y (percentile l p)) l ∧
  100 * count (λ y, float_less y (percentile l p)) l < p * Z.of_nat (length l).
Proof.
  intros Hp Hs Hl Hn. pose proof (percentile_at p l Hp Hl Hn) as Hx. set (x := percentile l p) in *.
  pose proof (percents p Hp) as Hr. pose proof (nearest_in p l Hr Hl) as Hlt.
  destruct (sorted_split l _ x Hs Hx) as [H1 H2].
  pose proof (nonempty_length l Hl).
  assert (1 ≤ (p * Z.of_nat (length l) + 99) / 100) as Hq by (apply Z.div_le_lower_bound; nia).
  assert (p * Z.of_nat (length l) + 99 < 100 * ((p * Z.of_nat (length l) + 99) / 100) + 100) by (pose proof (Z.mul_succ_div_gt (p * Z.of_nat (length l) + 99) 100); lia).
  pose proof (Z.mul_div_le (p * Z.of_nat (length l) + 99) 100).
  split.
  - rewrite <- (take_drop (S (nearest p l)) l) at 2. rewrite count_app, (count_all _ _ H1), length_take.
    pose proof (count_bounds (λ y, float_le y x) (list.drop (S (nearest p l)) l)). unfold nearest in *. lia.
  - rewrite <- (take_drop (nearest p l) l) at 1. rewrite count_app, (count_none _ (list.drop _ _)).
    + pose proof (count_bounds (λ y, float_less y x) (list.take (nearest p l) l)) as Hc. rewrite length_take in Hc. unfold nearest in *. lia.
    + eapply Forall_impl; [exact H2|]. intros y Hy. by apply negb_true_iff.
Qed.

(** What the benchmark prints of a run of up to 4096 samples.  The five order
    statistics are samples, in order; and each percentile is the nearest-rank one: at
    least [p] percent of the samples do not exceed it, fewer than [p] percent are below
    it.  Dividing by a hundred in floating point costs no rank. *)
Theorem summary_nearest_rank samples :
  samples ≠ [] → (length samples ≤ 4096)%nat →
  let d := summarize samples in
  d_N d = Z.of_nat (length samples) ∧ Forall (λ x, x ∈ samples) [d_Min d; d_P50 d; d_P90 d; d_P99 d; d_Max d] ∧
  sorted [d_Min d; d_P50 d; d_P90 d; d_P99 d; d_Max d] ∧
  Forall (λ px, px.1 * d_N d ≤ 100 * count (λ y, float_le y px.2) samples ∧ 100 * count (λ y, float_less y px.2) samples < px.1 * d_N d)
    [(50, d_P50 d); (90, d_P90 d); (99, d_P99 d)].
Proof.
  intros Hne Hn. cbn zeta. assert (summarize samples = mkDist (Z.of_nat (length (Float64s samples))) (default fzero (Float64s samples !! 0%nat))
    (percentile (Float64s samples) 50) (percentile (Float64s samples) 90) (percentile (Float64s samples) 99) (default fzero (last (Float64s samples)))
    (fdiv (foldl fadd fzero (Float64s samples)) (float64 (Z.of_nat (length (Float64s samples)))))) as -> by (by destruct samples).
  cbn [d_N d_Min d_P50 d_P90 d_P99 d_Max]. pose proof (sort_by_perm float_le samples) as Hp. fold (Float64s samples) in Hp.
  pose proof (sort_by_sorted _ float_le_total float_le_trans samples) as Hs. fold (Float64s samples) in Hs.
  set (l := Float64s samples) in *. assert (l ≠ []) as Hl by (intros E; rewrite E in Hp; by apply Permutation_nil_l in Hp).
  rewrite <- (Permutation_length Hp) in Hn |- *.
  destruct (lookup_lt_is_Some_2 l 0) as [lo Hlo]; [destruct l; [done|cbn; lia]|].
  destruct (lookup_lt_is_Some_2 l (pred (length l))) as [hi Hhi]; [destruct l; [done|cbn; lia]|].
  pose proof (λ p Hp, percentile_at p l Hp Hl Hn) as Hat. pose proof (Hat 50 ltac:(set_solver)) as H50.
  pose proof (Hat 90 ltac:(set_solver)) as H90. pose proof (Hat 99 ltac:(set_solver)) as H99.
  rewrite last_lookup, Hlo, Hhi. cbn [default].
  assert (nearest 50 l ≤ nearest 90 l ∧ nearest 90 l ≤ nearest 99 l ∧ nearest 99 l ≤ pred (length l))%nat as (M1 & M2 & M3).
  { pose proof (nearest_in 99 l ltac:(lia) Hl). split_and!; [apply nearest_mono; lia..|lia]. }
  split_and!; [done| | |].
  - repeat apply Forall_cons_2; [..|constructor]; rewrite <- Hp; by eapply list_elem_of_lookup_2.
  - assert (sorted ([lo; percentile l 50; percentile l 90; percentile l 99; hi])) as Hso; [|exact Hso].
    apply (picked_sorted l [0; nearest 50 l; nearest 90 l; nearest 99 l; pred (length l)]%nat _ Hs).
    + repeat constructor; done || lia.
    + by repeat apply Forall2_cons_2.
  - repeat apply Forall_cons_2; [..|constructor]; cbn [fst snd]; rewrite <- !(count_perm _ _ _ Hp); apply percentile_counts; set_solver.
Qed.

(** ** Memory samples *)

Definition vmmProcessComm : string := "container-runtime-linux".

(** One line of [ps -axo rss,comm]. *)
Definition rss_line (line : string) : option Z :=
  let fields := Fields line in
  if (length fields <? 2)%nat then None else
  if negb (Contains (default "" (last fields)) vmmProcessComm) then None else
  match fields with f :: _ => (λ kb, int64 (kb * 1024)) <$> Atoi f | [] => None end.

Definition vmmResidentSizes (ps : string) : list Z := omap rss_line (scan_lines ps).

(** ** The harness *)

Record benchParams := mkBench {
  bp_image : string; bp_count : Z; bp_memBytes : Z; bp_cpuMillis : Z; bp_concurrency : nat; bp_keep : bool; bp_findCeiling : bool;
  bp_safetyFrac : spec_float;
}.

Inductive BenchError : Type :=
  | BNotReady (e : RtError) | BBudget (mem : Z) | BPull (e : RtError) | BNone | BSample (msg : string)
  | BCreate (name : string) (e : RtError) | BStart (id : string) (e : RtError) | BTimeout (id : string) | BInterrupted.

(** The conversion of a float to [int], which truncates and saturates. *)
Definition trunc_int64 (f : spec_float) : Z :=
  match f with
  | S754_finite s m e =>
      let v := if 0 <=? e then Z.pos m * 2 ^ e else Z.pos m / 2 ^ (- e) in
      Z.max (- 2 ^ 63) (Z.min (2 ^ 63 - 1) (if s then - v else v))
  | S754_infinity s => if s then - 2 ^ 63 else 2 ^ 63 - 1
  | _ => 0
  end.

Definition maxByBudget (p : benchParams) (totalRAM : Z) : Z :=
  trunc_int64 (fdiv (fmul (float64 totalRAM) (bp_safetyFrac p)) (float64 (bp_memBytes p))).

(** The target of a fixed launch and the cap of a probe for the ceiling. *)
Definition budget (p : benchParams) (totalRAM : Z) : result BenchError (Z * Z) :=
  let most := maxByBudget p totalRAM in
  if most <? 1 then Err (BBudget (bp_memBytes p)) else
  let hardCap := if bp_findCeiling p then most else bp_count p in
  Ok (if most <? hardCap then (if most <? bp_count p then most else bp_count p, most) else (bp_count p, hardCap)).

Definition bench_name (idx : Z) : string := "mvz-bench-" +:+ Itoa idx.

Definition boot_spec (p : benchParams) (idx : Z) : ContainerSpec :=
  mkSpec (bench_name idx) (bp_image p) ["sleep"; "3600"] [] ∅ (bp_cpuMillis p) (bp_memBytes p) [] [] [] [] "" false [] [].

Section harness.
Context {W : Type} (RT : Runtime W).

Definition is_running (r : result RtError Status) : bool :=
  match r with Ok st => bool_decide (st_Phase st = PhaseRunning) && negb (String.eqb (st_IP st) "") | Err _ => false end.

(** What one boot meets: the number of polls before its deadline, or before the
    interrupt if [interrupted], and the latency it would measure. *)
Record BootEnv := mkBootEnv { be_polls : nat; be_interrupted : bool; be_latency : spec_float }.

Fixpoint poll (n : nat) (id : string) (w : W) : W * bool :=
  match n with
  | O => (w, false)
  | S n' => let '(w, r) := rt_Status RT id w in if is_running r then (w, true) else poll n' id w
  end.

(** The identifiers added to the created set, the world, and the latency. *)
Definition bootOne (p : benchParams) (idx : Z) (e : BootEnv) (created : list string) (w : W)
    : W * list string * result BenchError spec_float :=
  match rt_Create RT (boot_spec p idx) w with
  | (w, Err x) => (w, created, Err (BCreate (bench_name idx) x))
  | (w, Ok id) =>
      let created := created ++ [id] in
      match rt_Start RT id w with
      | (w, Err x) => (w, created, Err (BStart id x))
      | (w, Ok _) =>
          let '(w, up) := poll (be_polls e) id w in
          (w, created, if up then Ok (be_latency e) else Err (if be_interrupted e then BInterrupted else BTimeout id))
      end
  end.

(** What a launch leaves: the created set, the latencies in order, whether the
    ceiling was reached and the first or last reason. *)
Record Launch := mkLaunch {
  la_w : W; la_created : list string; la_latencies : list spec_float; la_reached : bool; la_reason : option BenchError;
}.

(** [n] boots are left; [None] of the environment is an interrupt seen before a boot. *)
Fixpoint launchToCeiling (p : benchParams) (n : nat) (idx : Z) (env : Z → option BootEnv) (l : Launch) : Launch :=
  match n with
  | O => l
  | S n' =>
      match env idx with
      | None => mkLaunch (la_w l) (la_created l) (la_latencies l) (la_reached l) (Some BInterrupted)
      | Some e =>
          match bootOne p idx e (la_created l) (la_w l) with
          | (w, created, Err x) => mkLaunch w created (la_latencies l) true (Some x)
          | (w, created, Ok lat) =>
              launchToCeiling p n' (idx + 1) env (mkLaunch w created (la_latencies l ++ [lat]) (la_reached l) (la_reason l))
          end
      end
  end.

(** *** The parallel launch *)

(** A booting goroutine before its next call: creating, recording the identifier,
    starting, polling. *)
Inductive Thread : Type := TCreate (idx : Z) | TAdd (id : string) | TStart (id : string) | TPoll (id : string).

(** The launching loop: at its head, waiting for a slot, or ended. *)
Inductive LoopPC : Type := LoopTop | LoopSem | LoopDone.

Record Fixed := mkFixed {
  fx_w : W; fx_created : list string; fx_latencies : list spec_float; fx_reason : option BenchError;
  fx_next : Z; fx_threads : list Thread; fx_loop : LoopPC; fx_cancelled : bool;
}.

(** How a poll that found no running micro-VM goes on. *)
Inductive Poll : Type := PollAgain | PollTimeout | PollInterrupted.

Inductive BenchEvent : Type := EvLoop | EvCancel | EvThread (k : nat) (lat : spec_float) (poll : Poll).

Definition fx_thread (s : Fixed) (w : W) (created : list string) (ts : list Thread) : Fixed :=
  mkFixed w created (fx_latencies s) (fx_reason s) (fx_next s) ts (fx_loop s) (fx_cancelled s).

(** A goroutine that ends: the first failure is the reason kept. *)
Definition fx_end (s : Fixed) (w : W) (k : nat) (r : result BenchError spec_float) : Fixed :=
  let ts := list.take k (fx_threads s) ++ list.drop (S k) (fx_threads s) in
  match r with
  | Ok lat => mkFixed w (fx_created s) (fx_latencies s ++ [lat]) (fx_reason s) (fx_next s) ts (fx_loop s) (fx_cancelled s)
  | Err x =>
      mkFixed w (fx_created s) (fx_latencies s) (match fx_reason s with Some y => Some y | None => Some x end) (fx_next s) ts
        (fx_loop s) (fx_cancelled s)
  end.

Definition fx_set_loop (s : Fixed) (pc : LoopPC) : Fixed :=
  mkFixed (fx_w s) (fx_created s) (fx_latencies s) (fx_reason s) (fx_next s) (fx_threads s) pc (fx_cancelled s).

Definition loop_step (p : benchParams) (target : Z) (s : Fixed) : option Fixed :=
  match fx_loop s with
  | LoopTop => Some (fx_set_loop s (if target <=? fx_next s then LoopDone else if fx_cancelled s then LoopDone else LoopSem))
  | LoopSem =>
      if (length (fx_threads s) <? bp_concurrency p)%nat then
        Some (mkFixed (fx_w s) (fx_created s) (fx_latencies s) (fx_reason s) (fx_next s + 1) (fx_threads s ++ [TCreate (fx_next s)])
                LoopTop (fx_cancelled s))
      else None
  | LoopDone => None
  end.

Definition thread_step (p : benchParams) (s : Fixed) (k : nat) (t : Thread) (lat : spec_float) (pl : Poll) : Fixed :=
  match t with
  | TCreate idx =>
      match rt_Create RT (boot_spec p idx) (fx_w s) with
      | (w, Err x) => fx_end s w k (Err (BCreate (bench_name idx) x))
      | (w, Ok id) => fx_thread s w (fx_created s) (<[k := TAdd id]> (fx_threads s))
      end
  | TAdd id => fx_thread s (fx_w s) (fx_created s ++ [id]) (<[k := TStart id]> (fx_threads s))
  | TStart id =>
      match rt_Start RT id (fx_w s) with
      | (w, Err x) => fx_end s w k (Err (BStart id x))
      | (w, Ok _) => fx_thread s w (fx_created s) (<[k := TPoll id]> (fx_threads s))
      end
  | TPoll id =>
      let '(w, r) := rt_Status RT id (fx_w s) in
      if is_running r then fx_end s w k (Ok lat) else
      match pl with
      | PollAgain => fx_thread s w (fx_created s) (fx_threads s)
      | PollTimeout => fx_end s w k (Err (BTimeout id))
      | PollInterrupted => fx_end s w k (Err BInterrupted)
      end
  end.

Definition fixed_step (p : benchParams) (target : Z) (s : Fixed) (ev : BenchEvent) : option Fixed :=
  match ev with
  | EvLoop => loop_step p target s
  | EvCancel => Some (mkFixed (fx_w s) (fx_created s) (fx_latencies s) (fx_reason s) (fx_next s) (fx_threads s) (fx_loop s) true)
  | EvThread k lat pl => match fx_threads s !! k with Some t => Some (thread_step p s k t lat pl) | None => None end
  end.

Fixpoint launchFixed (p : benchParams) (target : Z) (s : Fixed) (evs : list BenchEvent) : option Fixed :=
  match evs with
  | [] => Some s
  | ev :: evs' => match fixed_step p target s ev with Some s' => launchFixed p target s' evs' | None => None end
  end.

Definition fixed_init (w : W) : Fixed := mkFixed w [] [] None 0 [] LoopTop false.

(** The wait for the goroutines is over. *)
Definition fixed_final (s : Fixed) : Prop := fx_loop s = LoopDone ∧ fx_threads s = [].

(** *** The run *)

Fixpoint destroy_all (ids : list string) (w : W) : W * list (string * RtError) :=
  match ids with
  | [] => (w, [])
  | id :: ids' =>
      let '(w, r) := rt_Destroy RT id w in
      let '(w, failed) := destroy_all ids' w in
      (w, match r with Err x => if hard_failure r then (id, x) :: failed else failed | Ok _ => failed end)
  end.

(** [order] is the order in which the goroutines of the teardown come to act. *)
Definition bench_cleanup (order : list string → list string) (created : list string) (keep : bool) (w : W) : W * list (string * RtError) :=
  if keep then (w, []) else destroy_all (order created) w.

Record Results := mkResults {
  rs_Launched : Z; rs_CeilingReached : bool; rs_CeilingReason : option BenchError; rs_BootLatencyMs : Distribution;
  rs_PerVMRSSBytes : Distribution; rs_SysUsedDelta : Z; rs_SysPerVMBytes : Z; rs_OverheadPerVMRSS : Z;
}.

(** The measurements after a launch. *)
Definition measure (l : Launch) (before : Z) (after : result string Z) (rss : result string (list Z)) : result BenchError Results :=
  let n := Z.of_nat (length (la_created l)) in
  if n =? 0 then Err BNone else
  match after with
  | Err m => Err (BSample m)
  | Ok after =>
      match rss with
      | Err m => Err (BSample m)
      | Ok sizes =>
          let d := summarize (toFloats sizes) in
          let delta := int64 (after - before) in
          Ok (mkResults n (la_reached l) (la_reason l) (summarize (la_latencies l)) d delta (Z.quot delta n) (trunc_int64 (d_Mean d)))
      end
  end.

Definition bench_run (p : benchParams) (ready : result RtError unit) (totalRAM before after : result string Z) (rss : result string (list Z))
    (launch : Z → Z → W → Launch) (order : list string → list string) (w : W) : W * list (string * RtError) * result BenchError Results :=
  match ready with
  | Err x => (w, [], Err (BNotReady x))
  | Ok _ =>
  match totalRAM with
  | Err m => (w, [], Err (BSample m))
  | Ok total =>
  match budget p total with
  | Err x => (w, [], Err x)
  | Ok (target, hardCap) =>
  match rt_Pull RT (bp_image p) None w with
  | (w, Err x) => (w, [], Err (BPull x))
  | (w, Ok _) =>
  match before with
  | Err m => (w, [], Err (BSample m))
  | Ok before =>
      let l := launch target hardCap w in
      let r := measure l before after rss in
      let '(w, failed) := bench_cleanup order (la_created l) (bp_keep p) (la_w l) in (w, failed, r)
  end end end end end.

(** The launches the code can make. *)
Inductive launches (p : benchParams) (target hardCap : Z) (w : W) : Launch → Prop :=
  | launches_ceiling env : bp_findCeiling p = true →
      launches p target hardCap w (launchToCeiling p (Z.to_nat hardCap) 0 env (mkLaunch w [] [] false None))
  | launches_fixed evs s : bp_findCeiling p = false → launchFixed p target (fixed_init w) evs = Some s → fixed_final s →
      launches p target hardCap w (mkLaunch (fx_w s) (fx_created s) (fx_latencies s) false (fx_reason s)).
End harness.

(** ** What a run leaves behind *)

Section host.
Context {W : Type} (RT : Runtime W) `{!VmHost RT} (p : benchParams).

Lemma is_running_found id w w' r : rt_Status RT id w = (w', r) → vms w' = vms w.
Proof. intros E. pose proof (vms_Status id w) as H. by rewrite E in H. Qed.

Lemma start_vms id w w' r : rt_Start RT id w = (w', r) → vms w' = vms w.
Proof. intros E. pose proof (vms_Start id w) as H. by rewrite E in H. Qed.

Lemma create_vms idx w w' r : rt_Create RT (boot_spec p idx) w = (w', r) →
  match r with Ok id => id = bench_name idx ∧ vms w' = {[id]} ∪ vms w | Err _ => vms w' = vms w end.
Proof. apply (vms_Create (boot_spec p idx)). Qed.

Lemma boot_poll_vms n id w : vms (poll RT n id w).1 = vms w.
Proof.
  revert w. induction n as [|n IH]; intros w; cbn; [done|]. destruct (rt_Status RT id w) as [w' r] eqn:E.
  apply is_running_found in E. destruct (is_running r); cbn; [done|]. by rewrite IH.
Qed.

(** The names a run may take when it numbers micro-VMs below [n]. *)
Definition bench_names (n : Z) (id : string) : Prop := ∃ i, 0 ≤ i < n ∧ id = bench_name i.

Lemma bench_names_mono n m id : n ≤ m → bench_names n id → bench_names m id.
Proof. intros H (i & Hi & ->). exists i. split; [lia|done]. Qed.

(** The account of a launch that has taken [n] numbers: what exists is what was there
    before and what is recorded or about to be; those are numbered below [n], and
    with the [left] numbers not yet used they are no more than [n]. *)
Record accounted (n : Z) (w0 w : W) (created owed : list string) (left : nat) : Prop := {
  acc_vms : ∀ id, id ∈ vms w ↔ id ∈ vms w0 ∨ id ∈ created ++ owed;
  acc_names : Forall (bench_names n) (created ++ owed);
  acc_count : Z.of_nat (length created + length owed + left) ≤ n;
}.

Lemma accounted_weaken n w0 w created owed left left' :
  accounted n w0 w created owed left → (left' ≤ left)%nat → accounted n w0 w created owed left'.
Proof. intros [H1 H2 H3] Hl. constructor; [done..|lia]. Qed.

Lemma accounted_vms n w0 w w' created owed left : accounted n w0 w created owed left → vms w' = vms w → accounted n w0 w' created owed left.
Proof. intros [H1 H2 H3] E. constructor; [|done..]. intros id. by rewrite E. Qed.

Lemma accounted_perm n w0 w created owed left created' owed' :
  accounted n w0 w created owed left → created ++ owed ≡ₚ created' ++ owed' → accounted n w0 w created' owed' left.
Proof.
  intros [H1 H2 H3] E. constructor.
  - intros id. by rewrite H1, E.
  - by rewrite <- E.
  - apply Permutation_length in E. rewrite !length_app in E. lia.
Qed.

(** A number is taken, and is then used or wasted. *)
Lemma accounted_next n w0 w created owed left : accounted n w0 w created owed left → accounted (n + 1) w0 w created owed (S left).
Proof.
  intros [H1 H2 H3]. constructor; [done| |lia]. eapply Forall_impl; [exact H2|]. intros id. apply bench_names_mono. lia.
Qed.

Lemma accounted_create n w0 w w' created owed left idx :
  accounted n w0 w created owed (S left) → 0 ≤ idx < n → vms w' = {[bench_name idx]} ∪ vms w →
  accounted n w0 w' created (owed ++ [bench_name idx]) left.
Proof.
  intros [H1 H2 H3] Hi E. constructor.
  - intros id. rewrite E, elem_of_union, elem_of_singleton, H1, !elem_of_app, list_elem_of_singleton. naive_solver.
  - rewrite app_assoc. apply Forall_app. split; [done|]. constructor; [|done]. by exists idx.
  - rewrite length_app. cbn. lia.
Qed.

(** *** The sequential launch *)

Lemma bootOne_accounted idx e n w0 w created w' created' r :
  accounted n w0 w created [] 0 → idx = n → 0 ≤ n → bootOne RT p idx e created w = (w', created', r) →
  accounted (n + 1) w0 w' created' [] 0.
Proof.
  intros Ha -> Hn. unfold bootOne. destruct (rt_Create RT (boot_spec p n) w) as [w1 c] eqn:Ec. apply create_vms in Ec.
  apply accounted_next in Ha. destruct c as [id|x].
  - destruct Ec as [-> Ev]. apply (accounted_create _ _ _ w1 _ _ _ n) in Ha; [|lia|done].
    assert (accounted (n + 1) w0 w1 (created ++ [bench_name n]) [] 0) as Hb by (eapply accounted_perm; [exact Ha|by rewrite app_nil_r]).
    destruct (rt_Start RT (bench_name n) w1) as [w2 s] eqn:Es. apply start_vms in Es. destruct s as [u|x].
    + pose proof (boot_poll_vms (be_polls e) (bench_name n) w2) as Hp. destruct (poll _ _ _ _) as [w3 up]. intros [= <- <- <-].
      eapply accounted_vms; [exact Hb|]. cbn in Hp. congruence.
    + intros [= <- <- <-]. by eapply accounted_vms.
  - intros [= <- <- <-]. eapply accounted_weaken; [by eapply accounted_vms|lia].
Qed.

Lemma ceiling_accounted n idx env l w0 :
  0 ≤ idx → accounted idx w0 (la_w l) (la_created l) [] 0 →
  ∃ m, idx ≤ m ≤ idx + Z.of_nat n ∧ accounted m w0 (la_w (launchToCeiling RT p n idx env l)) (la_created (launchToCeiling RT p n idx env l)) [] 0.
Proof.
  revert idx l. induction n as [|n IH]; intros idx l Hi Ha; cbn; [exists idx; split; [lia|done]|].
  destruct (env idx) as [e|]; [|exists idx; split; [lia|done]].
  destruct (bootOne RT p idx e (la_created l) (la_w l)) as [[w c] r] eqn:Eb.
  pose proof (bootOne_accounted _ _ _ _ _ _ _ _ _ Ha eq_refl Hi Eb) as Hb. destruct r as [lat|x].
  - destruct (IH (idx + 1) (mkLaunch w c (la_latencies l ++ [lat]) (la_reached l) (la_reason l))) as (m & Hm & H); [lia|done|].
    exists m. split; [lia|done].
  - exists (idx + 1). split; [lia|done].
Qed.

(** *** The parallel launch *)

(** The identifiers created and not yet recorded, and the numbers not yet used. *)
Definition owed (ts : list Thread) : list string := omap (λ t, match t with TAdd id => Some id | _ => None end) ts.
Definition unborn (ts : list Thread) : list Z := omap (λ t, match t with TCreate i => Some i | _ => None end) ts.

Record fixed_inv (target : Z) (w0 : W) (s : Fixed) : Prop := {
  fi_slots : (length (fx_threads s) ≤ bp_concurrency p)%nat;
  fi_next : 0 ≤ fx_next s ≤ Z.max 0 target;
  fi_loop : fx_loop s = LoopSem → fx_next s < target;
  fi_unborn : Forall (λ i, 0 ≤ i < fx_next s) (unborn (fx_threads s));
  fi_acc : accounted (fx_next s) w0 (fx_w s) (fx_created s) (owed (fx_threads s)) (length (unborn (fx_threads s)));
}.

Lemma split_at {A} (l : list A) k t : l !! k = Some t → ∃ a b, l = a ++ t :: b ∧ length a = k.
Proof. intros H. exists (list.take k l), (list.drop (S k) l). split; [by rewrite take_drop_middle|]. rewrite length_take. apply lookup_lt_Some in H. lia. Qed.

Lemma insert_at {A} (a b : list A) t t' : <[length a := t']> (a ++ t :: b) = a ++ t' :: b.
Proof. by rewrite insert_app_r_alt, Nat.sub_diag by lia. Qed.

Lemma delete_at {A} (a b : list A) t : list.take (length a) (a ++ t :: b) ++ list.drop (S (length a)) (a ++ t :: b) = a ++ b.
Proof. rewrite take_app_length. f_equal. by rewrite drop_app_ge, Nat.sub_succ_l, Nat.sub_diag by lia. Qed.

(** A goroutine's step, with the others on its two sides. *)
Lemma thread_inv target w0 s k t lat pl :
  fixed_inv target w0 s → fx_threads s !! k = Some t → fixed_inv target w0 (thread_step RT p s k t lat pl).
Proof.
  intros [H1 H2 H3 H4 H5] Hk. destruct (split_at _ _ _ Hk) as (a & b & E & <-). destruct s as [w created lats reason next ts pc canc].
  cbn [fx_w fx_created fx_next fx_threads fx_loop] in *. subst ts. unfold owed, unborn in H4, H5.
  rewrite !omap_app in H4. rewrite !omap_app in H5. rewrite length_app in H1. cbn [length] in H1.
  destruct t as [i|id|id|id]; cbn in H4, H5; cbn [thread_step fx_w].
  - apply Forall_app in H4 as [H4a H4b]. apply Forall_cons in H4b as [Hi H4b].
    rewrite length_app in H5. cbn [length] in H5.
    destruct (rt_Create RT (boot_spec p i) w) as [w' r] eqn:Ec. apply create_vms in Ec. destruct r as [id|x].
    + destruct Ec as [-> Ev]. constructor; cbn; unfold owed, unborn; rewrite ?insert_at, ?omap_app; cbn; [|done|done|by apply Forall_app|].
      * rewrite length_app. cbn. lia.
      * rewrite length_app. rewrite Nat.add_succ_r in H5. pose proof (accounted_create _ _ _ _ _ _ _ _ H5 Hi Ev) as Hc.
        eapply accounted_perm; [exact Hc|]. rewrite <- app_assoc. do 2 f_equiv. symmetry. apply Permutation_cons_append.
    + constructor; cbn; unfold owed, unborn; rewrite ?delete_at, ?omap_app; cbn; [|done|done|by apply Forall_app|].
      * rewrite length_app. lia.
      * eapply accounted_weaken; [by eapply accounted_vms|]. rewrite length_app. lia.
  - constructor; cbn; unfold owed, unborn; rewrite ?insert_at, ?omap_app; cbn; [|done..|].
    + rewrite length_app. cbn. lia.
    + eapply accounted_perm; [exact H5|]. rewrite <- (app_assoc created). apply Permutation_app_head. cbn. symmetry. apply Permutation_middle.
  - destruct (rt_Start RT id w) as [w' r] eqn:Es. apply start_vms in Es. destruct r as [u|x].
    + constructor; cbn; unfold owed, unborn; rewrite ?insert_at, ?omap_app; cbn; [|done..|by eapply accounted_vms].
      rewrite length_app. cbn. lia.
    + constructor; cbn; unfold owed, unborn; rewrite ?delete_at, ?omap_app; cbn; [|done..|by eapply accounted_vms].
      rewrite length_app. lia.
  - destruct (rt_Status RT id w) as [w' r] eqn:Es. apply is_running_found in Es. destruct (is_running r); [|destruct pl].
    all: constructor; cbn; unfold owed, unborn; rewrite ?delete_at, ?omap_app; cbn; [|done..|by eapply accounted_vms].
    all: rewrite length_app; cbn; lia.
Qed.

Lemma fixed_step_inv target w0 s ev s' : fixed_inv target w0 s → fixed_step RT p target s ev = Some s' → fixed_inv target w0 s'.
Proof.
  intros Hi. destruct ev as [| |k lat pl]; cbn.
  - unfold loop_step. destruct Hi as [H1 H2 H3 H4 H5]. destruct (fx_loop s) eqn:El; [| |done].
    + intros [= <-]. constructor; cbn; [done..| |done|done]. destruct (target <=? fx_next s) eqn:E; [done|]. intros _. lia.
    + destruct (length (fx_threads s) <? bp_concurrency p)%nat eqn:E; [|done]. intros [= <-]. specialize (H3 eq_refl).
      apply Nat.ltb_lt in E. constructor; cbn; [rewrite length_app; cbn; lia|lia|done| |].
      * unfold unborn. rewrite omap_app. apply Forall_app. split; [|by repeat constructor; lia].
        eapply Forall_impl; [exact H4|]. cbn. lia.
      * unfold owed, unborn. rewrite !omap_app, length_app. cbn. rewrite app_nil_r, Nat.add_1_r. by apply accounted_next.
  - intros [= <-]. by destruct Hi.
  - destruct (fx_threads s !! k) eqn:E; [|done]. intros [= <-]. by apply thread_inv.
Qed.

Lemma launchFixed_inv target w0 evs s s' : fixed_inv target w0 s → launchFixed RT p target s evs = Some s' → fixed_inv target w0 s'.
Proof.
  revert s. induction evs as [|ev evs IH]; intros s Hi; cbn; [by intros [= <-]|]. destruct (fixed_step RT p target s ev) eqn:E; [|done].
  apply IH. by eapply fixed_step_inv.
Qed.

Lemma accounted_init n w : 0 ≤ n → accounted n w w [] [] 0.
Proof. intros Hn. constructor; [|constructor|cbn; lia]. intros id. rewrite elem_of_app, !elem_of_nil. tauto. Qed.

Lemma fixed_init_inv target w : fixed_inv target w (fixed_init w).
Proof. constructor; cbn; [lia|lia|done|constructor|]. by apply accounted_init. Qed.

(** Either launch keeps its account within the numbers it may take. *)
Lemma launches_accounted target hardCap w l :
  launches RT p target hardCap w l →
  ∃ n, 0 ≤ n ≤ Z.max 0 (if bp_findCeiling p then hardCap else target) ∧ accounted n w (la_w l) (la_created l) [] 0.
Proof.
  intros [env ->|evs s -> Hr [_ Ht]].
  - destruct (ceiling_accounted (Z.to_nat hardCap) 0 env (mkLaunch w [] [] false None) w) as (m & Hm & Ha); [done|by apply accounted_init|].
    exists m. split; [lia|done].
  - pose proof (launchFixed_inv _ _ _ _ _ (fixed_init_inv target w) Hr) as [H1 H2 H3 H4 H5]. rewrite Ht in H5.
    exists (fx_next s). split; [lia|exact H5].
Qed.

(** *** The teardown *)

Lemma destroy_all_spec ids w w' failed :
  destroy_all RT ids w = (w', failed) →
  (∀ id, id ∈ vms w' → id ∈ vms w ∧ (id ∈ ids → id ∈ failed.*1)) ∧ (∀ id, id ∈ vms w → id ∉ ids → id ∈ vms w').
Proof.
  revert w w' failed. induction ids as [|i ids IH]; intros w w' failed; cbn.
  - intros [= <- <-]. split; [|done]. intros id Hid. split; [done|]. by rewrite elem_of_nil.
  - destruct (rt_Destroy RT i w) as [w1 r] eqn:Ed. apply vms_Destroy in Ed. destruct (destroy_all RT ids w1) as [w2 f] eqn:Er.
    destruct (IH _ _ _ Er) as [Ha Hb]. intros [= <- <-].
    assert (vms w1 ⊆ vms w) as Hs by (destruct (hard_failure r); [destruct Ed as [-> | ->]|rewrite Ed]; set_solver).
    assert (vms w ∖ {[i]} ⊆ vms w1) as Hk by (destruct (hard_failure r); [destruct Ed as [-> | ->]|rewrite Ed]; set_solver).
    split.
    + intros id Hid. destruct (Ha id Hid) as [Hin Hf]. split; [set_solver|]. rewrite elem_of_cons. intros [->|Hin'].
      * destruct (hard_failure r) eqn:Eh; [|rewrite Ed in Hin; set_solver]. destruct r as [u|x]; [done|]. cbn. left.
      * specialize (Hf Hin'). destruct r as [u|x]; [done|]. destruct (hard_failure (Err x)); [by right|done].
    + intros id Hid. rewrite not_elem_of_cons. intros [Hn Hin]. apply Hb; [|done]. set_solver.
Qed.

Lemma budget_spec total target hardCap :
  budget p total = Ok (target, hardCap) →
  1 ≤ maxByBudget p total ∧ (if bp_findCeiling p then hardCap else target) ≤ maxByBudget p total.
Proof.
  unfold budget. destruct (maxByBudget p total <? 1) eqn:E1; [done|]. destruct (bp_findCeiling p); cbn.
  - destruct (maxByBudget p total <? maxByBudget p total) eqn:E2; intros [= <- <-]; lia.
  - destruct (maxByBudget p total <? bp_count p) eqn:E2; intros [= <- <-]; lia.
Qed.

(** *** Progress *)

Definition thread_work (t : Thread) : nat := match t with TCreate _ => 4 | TAdd _ => 3 | TStart _ => 2 | TPoll _ => 1 end.
Definition loop_work (pc : LoopPC) : nat := match pc with LoopTop => 2 | LoopSem => 1 | LoopDone => 0 end.

(** The steps a state has left, polls that find nothing and interrupts apart. *)
Definition work_left (target : Z) (s : Fixed (W := W)) : nat :=
  6 * Z.to_nat (target - fx_next s) + loop_work (fx_loop s) + sum_list_with thread_work (fx_threads s).

Definition advances (ev : BenchEvent) : bool :=
  match ev with EvLoop => true | EvCancel => false | EvThread _ _ PollAgain => false | EvThread _ _ _ => true end.

Lemma work_split a t b : sum_list_with thread_work (a ++ t :: b) = (thread_work t + sum_list_with thread_work (a ++ b))%nat.
Proof. rewrite !sum_list_with_app. cbn. lia. Qed.

Lemma thread_work_left target s k t lat pl :
  fx_threads s !! k = Some t →
  (Nat.b2n (advances (EvThread k lat pl)) + work_left target (thread_step RT p s k t lat pl) ≤ work_left target s)%nat.
Proof.
  intros Hk. destruct (split_at _ _ _ Hk) as (a & b & E & <-). unfold work_left. rewrite E, work_split.
  destruct s as [w created lats reason next ts pc canc]. cbn [fx_threads] in E. subst ts.
  assert (Nat.b2n (advances (EvThread (length a) lat pl)) ≤ 1)%nat as Hb by (destruct (advances _); cbn; lia).
  destruct t as [i|id|id|id]; cbn [thread_step fx_w].
  - destruct (rt_Create _ _ _) as [w' [id|x]]; cbn; rewrite ?insert_at, ?delete_at, ?work_split; cbn in *; lia.
  - cbn; rewrite ?insert_at, ?work_split; cbn in *; lia.
  - destruct (rt_Start _ _ _) as [w' [u|x]]; cbn; rewrite ?insert_at, ?delete_at, ?work_split; cbn in *; lia.
  - destruct (rt_Status _ _ _) as [w' r]. destruct (is_running r); [|destruct pl]; cbn; rewrite ?delete_at, ?work_split; cbn in *; lia.
Qed.

Lemma step_work target w0 s ev s' :
  fixed_inv target w0 s → fixed_step RT p target s ev = Some s' → (Nat.b2n (advances ev) + work_left target s' ≤ work_left target s)%nat.
Proof.
  intros Hi. destruct ev as [| |k lat pl]; cbn [fixed_step].
  - pose proof (fi_loop _ _ _ Hi) as Hl. unfold loop_step, work_left. destruct (fx_loop s); [| |done].
    + intros [= <-]. cbn. destruct (target <=? fx_next s); [|destruct (fx_cancelled s)]; cbn; lia.
    + destruct (_ <? _)%nat; [|done]. intros [= <-]. specialize (Hl eq_refl). cbn. rewrite sum_list_with_app. cbn. lia.
  - intros [= <-]. done.
  - destruct (fx_threads s !! k) eqn:E; [|done]. intros [= <-]. by apply thread_work_left.
Qed.

Lemma run_work target w0 evs s s' :
  fixed_inv target w0 s → launchFixed RT p target s evs = Some s' →
  (length (List.filter advances evs) + work_left target s' ≤ work_left target s)%nat.
Proof.
  revert s. induction evs as [|ev evs IH]; intros s Hi; cbn; [intros [= <-]; lia|]. destruct (fixed_step RT p target s ev) as [s1|] eqn:E; [|done].
  intros Hr. pose proof (step_work _ _ _ _ _ Hi E). pose proof (IH _ (fixed_step_inv _ _ _ _ _ Hi E) Hr).
  destruct (advances ev); cbn in *; lia.
Qed.

(** With a slot to boot in, a launch that has not ended can move on. *)
Lemma fixed_progress target w0 s :
  (1 ≤ bp_concurrency p)%nat → fixed_inv target w0 s → fixed_final s ∨ ∃ ev s', advances ev = true ∧ fixed_step RT p target s ev = Some s'.
Proof.
  intros Hc Hi. assert (fx_threads s ≠ [] → ∃ ev s', advances ev = true ∧ fixed_step RT p target s ev = Some s') as Ht.
  { destruct (fx_threads s) as [|t ts] eqn:E; [done|]. intros _. exists (EvThread 0 fzero PollTimeout). eexists. split; [done|]. cbn. by rewrite E. }
  destruct (fx_loop s) eqn:El.
  - right. exists EvLoop. eexists. split; [done|]. cbn. unfold loop_step. by rewrite El.
  - right. destruct (fx_threads s) as [|t ts] eqn:E; [|by apply Ht]. exists EvLoop. eexists. split; [done|]. cbn. unfold loop_step.
    rewrite El, E. destruct (bp_concurrency p); [lia|done].
  - destruct (fx_threads s) as [|t ts] eqn:E; [by left|]. right. by apply Ht.
Qed.

Lemma fixed_ends target w0 n s :
  (1 ≤ bp_concurrency p)%nat → fixed_inv target w0 s → (work_left target s ≤ n)%nat →
  ∃ evs s', launchFixed RT p target s evs = Some s' ∧ fixed_final s'.
Proof.
  intros Hc. revert s. induction n as [|n IH]; intros s Hi Hn; (destruct (fixed_progress target w0 s Hc Hi) as [Hf|(ev & s' & Ha & Es)]; [by exists [], s|]);
    pose proof (step_work _ _ _ _ _ Hi Es) as Hw; rewrite Ha in Hw; cbn [Nat.b2n] in Hw; [lia|].
  destruct (IH s' (fixed_step_inv _ _ _ _ _ Hi Es)) as (evs & s2 & Hr & Hf); [lia|]. exists (ev :: evs), s2. cbn. by rewrite Es.
Qed.
End host.

(** C26: the parallel launch at every moment of every schedule, interrupts included.
    No more micro-VMs boot at once than [-concurrency] allows; what exists is what was
    there before, what is recorded for the teardown, or what a goroutine is about to
    record; and no more than the target was created.  With one slot or more the launch
    cannot hang: apart from idle polls and interrupts it takes at most [6 * target + 2]
    steps, and from wherever it is it can end. *)
Theorem launch_bounded {W} (RT : Runtime W) `{!VmHost RT} p target w evs s :
  launchFixed RT p target (fixed_init w) evs = Some s →
  (length (fx_threads s) ≤ bp_concurrency p)%nat ∧
  (∀ id, id ∈ vms (fx_w s) ↔ id ∈ vms w ∨ id ∈ fx_created s ∨ TAdd id ∈ fx_threads s) ∧
  Z.of_nat (length (fx_created s)) ≤ Z.max 0 target ∧
  (length (List.filter advances evs) ≤ 6 * Z.to_nat target + 2)%nat ∧
  ((1 ≤ bp_concurrency p)%nat → ∃ evs' s', launchFixed RT p target s evs' = Some s' ∧ fixed_final s').
Proof.
  intros Hr. pose proof (launchFixed_inv RT p _ _ _ _ _ (fixed_init_inv RT p target w) Hr) as Hi. pose proof (run_work RT p _ _ _ _ _ (fixed_init_inv RT p target w) Hr) as Hw.
  pose proof Hi as [H1 H2 H3 H4 [A1 A2 A3]]. split_and!; [done| |lia| |].
  - intros id. rewrite A1, elem_of_app. unfold owed. rewrite list_elem_of_omap.
    assert ((∃ t, t ∈ fx_threads s ∧ match t with TAdd id => Some id | _ => None end = Some id) ↔ TAdd id ∈ fx_threads s) as ->; [|done].
    split; [|by exists (TAdd id)]. intros ([] & Ht & E); simplify_eq; done.
  - unfold work_left in Hw at 2. cbn in Hw. rewrite Z.sub_0_r in Hw. lia.
  - intros Hc. by eapply fixed_ends.
Qed.

Lemma pull_vms {W} (RT : Runtime W) `{!VmHost RT} i a w w' r : rt_Pull RT i a w = (w', r) → vms w' = vms w.
Proof. intros E. pose proof (vms_Pull i a w) as H. by rewrite E in H. Qed.

(** The worlds of a run that launches by [launch] and tears down in [order]. *)
Lemma bench_run_vms {W} (RT : Runtime W) `{!VmHost RT} p ready total before after rss launch order w w' failed r :
  bp_keep p = false → (∀ t c, budget p total = Ok (t, c) → let w1 := (rt_Pull RT (bp_image p) None w).1 in launches RT p t c w1 (launch t c w1)) →
  bench_run RT p ready (Ok total) before after rss launch order w = (w', failed, r) →
  vms w' = vms w ∧ (∀ x, r ≠ Ok x) ∨
  ∃ l n b, 0 ≤ n ≤ maxByBudget p total ∧ accounted RT n w (la_w l) (la_created l) [] 0 ∧
    destroy_all RT (order (la_created l)) (la_w l) = (w', failed) ∧ r = measure l b after rss.
Proof.
  intros Hk Hl. unfold bench_run. destruct ready; [|intros [= <- <- <-]; by left].
  destruct (budget p total) as [[target hardCap]|] eqn:Eb; [|intros [= <- <- <-]; by left]. specialize (Hl _ _ eq_refl). apply budget_spec in Eb as [Hm Hb].
  destruct (rt_Pull RT (bp_image p) None w) as [w1 rp] eqn:Ep. cbn in Hl. apply (pull_vms RT) in Ep. intros H.
  destruct rp; [|injection H as <- <- <-; by left]. destruct before as [b|]; [|injection H as <- <- <-; by left]. right.
  destruct (launches_accounted RT p _ _ _ _ Hl) as (n & Hn & Ha). unfold bench_cleanup in H. rewrite Hk in H.
  destruct (destroy_all _ _ _) as [w2 f] eqn:Ed. injection H as <- <- <-. exists (launch target hardCap w1), n, b.
  split_and!; [lia|lia| |done|done]. destruct Ha as [A1 A2 A3]. constructor; [|done..]. intros id. by rewrite A1, Ep.
Qed.

(** C38: a benchmark cleans up after itself.  However the goroutines of the launch and
    of the teardown interleave, and whether it succeeds, fails or is interrupted, a run
    without [-keep] leaves no micro-VM that was not there before, except ones whose
    destruction it reported as failed; it removes none but those named
    [mvz-bench-<i>], [i] below what the memory budget allows; and it reports no more
    launched than that. *)
Theorem bench_cleans {W} (RT : Runtime W) `{!VmHost RT} p ready total before after rss launch order w w' failed r :
  bp_keep p = false → (∀ ids, order ids ≡ₚ ids) → (∀ t c, budget p total = Ok (t, c) → let w1 := (rt_Pull RT (bp_image p) None w).1 in launches RT p t c w1 (launch t c w1)) →
  bench_run RT p ready (Ok total) before after rss launch order w = (w', failed, r) →
  (∀ id, id ∈ vms w' → id ∈ vms w ∨ id ∈ failed.*1) ∧
  (∀ id, id ∈ vms w → id ∈ vms w' ∨ bench_names (maxByBudget p total) id) ∧
  (∀ res, r = Ok res → 1 ≤ rs_Launched res ≤ maxByBudget p total).
Proof.
  intros Hk Ho Hl Hr.
  apply (bench_run_vms RT _ _ _ _ _ _ _ _ _ _ _ _ Hk Hl) in Hr as [[E Hn]|(l & n & b & Hn & [A1 A2 A3] & Hd & ->)].
  - rewrite E. split_and!; [by left|by left|]. intros res ->. by destruct (Hn res).
  - destruct (destroy_all_spec RT _ _ _ _ Hd) as [D1 D2]. rewrite app_nil_r in A1, A2. split_and!.
    + intros id Hid. destruct (D1 id Hid) as [Hin Hf]. apply A1 in Hin as [?|Hin]; [by left|]. right. apply Hf. by rewrite Ho.
    + intros id Hid. destruct (decide (id ∈ la_created l)) as [Hin|Hin].
      * right. rewrite Forall_forall in A2. eapply bench_names_mono; [|by apply A2]. lia.
      * left. apply D2; [apply A1; by left|by rewrite Ho].
    + intros res. unfold measure. destruct (Z.of_nat (length (la_created l)) =? 0) eqn:E; [done|].
      destruct after; [|done]. destruct rss; [|done]. intros [= <-]. cbn. cbn in A3. lia.
Qed.

(** ** Where the report and the parameters mislead *)

(** A probe whose very first micro-VM is created but does not start counts it as
    launched: the run succeeds with a density ceiling of one and no boot measured. *)
Theorem failed_boot_counted {W} (RT : Runtime W) p n env e w id w1 w2 x before after sizes :
  env 0 = Some e → rt_Create RT (boot_spec p 0) w = (w1, Ok id) → rt_Start RT id w1 = (w2, Err x) →
  ∃ res, measure (launchToCeiling RT p (S n) 0 env (mkLaunch w [] [] false None)) before (Ok after) (Ok sizes) = Ok res ∧
    rs_Launched res = 1 ∧ rs_CeilingReached res = true ∧ d_N (rs_BootLatencyMs res) = 0.
Proof.
  intros He Hc Hs. cbn [launchToCeiling]. rewrite He. unfold bootOne. cbn [la_w la_created]. rewrite Hc, Hs. eexists. split; [reflexivity|]. done.
Qed.

(** An interrupt during a boot is reported as the density ceiling. *)
Theorem interrupt_taken_for_ceiling {W} (RT : Runtime W) p n env e w id w1 w2 w3 :
  env 0 = Some e → be_interrupted e = true → rt_Create RT (boot_spec p 0) w = (w1, Ok id) → rt_Start RT id w1 = (w2, Ok tt) →
  poll RT (be_polls e) id w2 = (w3, false) →
  let l := launchToCeiling RT p (S n) 0 env (mkLaunch w [] [] false None) in la_reached l = true ∧ la_reason l = Some BInterrupted.
Proof. intros He Hi Hc Hs Hp. cbn [launchToCeiling]. rewrite He. unfold bootOne. cbn [la_w la_created]. by rewrite Hc, Hs, Hp, Hi. Qed.

(** With [-concurrency 0] a launch of one micro-VM or more that has begun never ends,
    whatever happens, an interrupt included. *)
Theorem no_slots_hangs {W} (RT : Runtime W) p target w evs s :
  bp_concurrency p = 0%nat → 1 ≤ target → launchFixed RT p target (fixed_init w) (EvLoop :: evs) = Some s → fx_loop s = LoopSem ∧ ¬ fixed_final s.
Proof.
  intros Hc Ht. cbn [launchFixed fixed_step fixed_init loop_step fx_loop fx_next fx_cancelled]. rewrite (proj2 (Z.leb_gt target 0)) by lia.
  assert (∀ s0 : Fixed, fx_loop s0 = LoopSem → fx_threads s0 = [] → launchFixed RT p target s0 evs = Some s → fx_loop s = LoopSem) as H.
  { induction evs as [|ev evs' IH]; intros s0 Hl He; cbn; [by intros [= <-]|]. destruct ev as [| |k lat pl]; cbn.
    - unfold loop_step. by rewrite Hl, He, Hc.
    - by apply IH.
    - by rewrite He. }
  intros Hr. apply H in Hr; [|done..]. split; [done|]. intros [Hf _]. congruence.
Qed.

(** ** Concrete runs *)

Module BenchDemo.
(** Two micro-VMs of 256 MiB on a host of one GiB, half of which may be used. *)
Definition two_of_ten (ceiling : bool) : benchParams :=
  mkBench "alpine:3.20" 10 268435456 0 2 false ceiling (fdiv (float64 1) (float64 2)).
Definition one_gib : Z := 1073741824.

(** A host with one micro-VM of its own, on which the second Start fails and so does
    the second Destroy. *)
Definition busy : VmSim :=
  mkSim {["other" := mkStatus "other" PhaseRunning 0 "" 1 "192.168.64.9"]} 2 [None; None; None; None; Some ErrOther; None; Some ErrOther].

(** Both goroutines create before either starts; an interrupt comes before the last
    of them has started. *)
Definition schedule : list BenchEvent :=
  let t k := EvThread k (float64 700) PollAgain in
  [EvLoop; EvLoop; EvLoop; EvLoop; t 0%nat; t 1%nat; t 1%nat; t 0%nat; t 0%nat; EvCancel; t 1%nat; t 0%nat; EvLoop].

Definition launch (t c : Z) (w : VmSim) : Launch :=
  match launchFixed vm_sim (two_of_ten false) t (fixed_init w) schedule with
  | Some s => mkLaunch (fx_w s) (fx_created s) (fx_latencies s) false (fx_reason s)
  | None => mkLaunch w [] [] false None
  end.
End BenchDemo.

Lemma demo_launches t c :
  budget (BenchDemo.two_of_ten false) BenchDemo.one_gib = Ok (t, c) →
  let w1 := (rt_Pull vm_sim (bp_image (BenchDemo.two_of_ten false)) None BenchDemo.busy).1 in
  launches vm_sim (BenchDemo.two_of_ten false) t c w1 (BenchDemo.launch t c w1).
Proof.
  assert (budget (BenchDemo.two_of_ten false) BenchDemo.one_gib = Ok (2, 2)) as -> by (vm_compute; reflexivity). intros [= <- <-]. cbn zeta.
  set (w1 := (rt_Pull _ _ _ _).1).
  assert (match launchFixed vm_sim (BenchDemo.two_of_ten false) 2 (fixed_init w1) BenchDemo.schedule with
          | Some s => match fx_loop s, fx_threads s with LoopDone, [] => true | _, _ => false end
          | None => false
          end = true) as Hr by (vm_compute; reflexivity).
  unfold BenchDemo.launch. destruct (launchFixed _ _ _ _ _) as [s|] eqn:Es; [|discriminate Hr].
  apply (launches_fixed vm_sim _ _ _ _ BenchDemo.schedule); [reflexivity|exact Es|]. revert Hr. unfold fixed_final.
  destruct (fx_loop s), (fx_threads s); intros Hr; try discriminate Hr. split; reflexivity.
Qed.

(** A run that is interrupted, and that fails to destroy one of the two micro-VMs it
    created: what is left is the host's own and the one reported. *)
Lemma bench_cleans_witness :
  let '(w', failed, _) :=
    bench_run vm_sim (BenchDemo.two_of_ten false) (Ok tt) (Ok BenchDemo.one_gib) (Ok 100) (Ok 300) (Ok [10; 20]) BenchDemo.launch (@rev string)
      BenchDemo.busy in
  failed.*1 = ["mvz-bench-1"] ∧ bool_decide ("mvz-bench-1" ∈ vms w') = true ∧ bool_decide ("other" ∈ vms w') = true ∧
  (∀ id, id ∈ vms w' → id ∈ vms BenchDemo.busy ∨ id ∈ failed.*1).
Proof.
  match goal with |- match ?x with _ => _ end =>
    assert ((x.1.2.*1, bool_decide ("mvz-bench-1" ∈ vms x.1.1), bool_decide ("other" ∈ vms x.1.1)) = (["mvz-bench-1"], true, true)) as H
      by (vm_compute; reflexivity);
    destruct x as [[w' failed] r] eqn:E
  end.
  cbn [fst snd] in H. injection H as H1 H2 H3.
  split; [exact H1|]. split; [exact H2|]. split; [exact H3|].
  apply (bench_cleans vm_sim (BenchDemo.two_of_ten false) _ BenchDemo.one_gib _ _ _ _ _ _ _ _ _ eq_refl
    (λ ids, Permutation_sym (Permutation_rev ids)) demo_launches E).
Defined.

(** Six steps into that schedule both micro-VMs exist and neither is recorded. *)
Lemma launch_bounded_witness :
  ∃ s, launchFixed vm_sim (BenchDemo.two_of_ten false) 2 (fixed_init BenchDemo.busy) (list.take 6 BenchDemo.schedule) = Some s ∧
    fx_created s = [] ∧ (∀ id, id ∈ vms (fx_w s) ↔ id ∈ vms BenchDemo.busy ∨ id ∈ fx_created s ∨ TAdd id ∈ fx_threads s) ∧
    ∃ evs' s', launchFixed vm_sim (BenchDemo.two_of_ten false) 2 s evs' = Some s' ∧ fixed_final s'.
Proof.
  assert (fx_created <$> launchFixed vm_sim (BenchDemo.two_of_ten false) 2 (fixed_init BenchDemo.busy) (list.take 6 BenchDemo.schedule) = Some [])
    as Hc by (vm_compute; reflexivity).
  destruct (launchFixed _ _ _ _ _) as [s|] eqn:E; [|discriminate Hc]. exists s. split; [reflexivity|].
  destruct (launch_bounded vm_sim _ _ _ _ _ E) as (_ & Hv & _ & _ & Hp). injection Hc as Hc. split; [exact Hc|]. split; [exact Hv|].
  apply Hp. cbn. lia.
Defined.

(** Of the samples 1 to 10, the ninetieth percentile is 9. *)
Lemma summary_nearest_rank_witness :
  let d := summarize (toFloats [4; 8; 1; 10; 3; 6; 9; 2; 7; 5]) in
  d_P90 d = float64 9 ∧ sorted [d_Min d; d_P50 d; d_P90 d; d_P99 d; d_Max d].
Proof.
  split; [vm_compute; reflexivity|]. apply (summary_nearest_rank (toFloats [4; 8; 1; 10; 3; 6; 9; 2; 7; 5])); [done|]. cbn. lia.
Defined.
