(* ===== verification/NodeStatus.v ===== *)
(** * The node object and its readiness: [pkg/provider/node.go], [node_status.go]

    The node the provider registers, and the loop that re-probes the runtime and
    pushes a refreshed node when its readiness changes.  [W] is the host; the
    runtime's optional capabilities are functions on it.  Resource quantities and
    [resource.NewQuantity] are third-party and stay abstract. *)

From S2P Require Import Prelude GoFloat GoStrings GoNet GoJson GoTime WireGuard NetConfig Sha256 PodSpec PodEnv Runtime Driver DriverStats Config.

Open Scope Z_scope.

Section node.
Context {Q : Type} (NewQuantity : Z → Q).

Record NodeSpec := mkNodeSpec {
  ns_KubeletVersion : string; ns_OS : string; ns_Arch : string; ns_InternalIP : string;
  ns_Capacity : gmap string Q; ns_Labels : gmap string string; ns_Annotations : gmap string string;
  ns_Taints : list Taint; ns_KubeletPort : Z;
}.

Record NodeCondition := mkCond { nd_Type : string; nd_Status : bool; nd_Reason : string; nd_Message : string; nd_Time : Z }.

Inductive NodeAddress : Type := NodeInternalIP (a : string) | NodeHostName (a : string).

Record Node := mkNodeObj {
  no_Name : string; no_Labels : gmap string string; no_Annotations : gmap string string; no_Taints : list Taint;
  no_Capacity : gmap string Q; no_Allocatable : gmap string Q;
  no_OS : string; no_Arch : string; no_KubeletVersion : string; no_Conditions : list NodeCondition;
  no_KubeletEndpoint : option Z; no_Addresses : list NodeAddress;
}.

(** ** Conditions *)

(** [True] is [true]. *)
Definition nodeConditions (now : Z) (ready : bool) (readyMsg : string) : list NodeCondition :=
  [ mkCond "Ready" ready (if ready then "KubeletReady" else "RuntimeNotReady") readyMsg now;
    mkCond "MemoryPressure" false "KubeletHasSufficientMemory" "kubelet has sufficient memory available" now;
    mkCond "DiskPressure" false "KubeletHasNoDiskPressure" "kubelet has no disk pressure" now;
    mkCond "PIDPressure" false "KubeletHasSufficientPID" "kubelet has sufficient PID available" now;
    mkCond "NetworkUnavailable" false "RouteCreated" "node network is configured" now ].

(** [nodeReady] *)
Definition nodeReady (n : Node) : bool :=
  match List.find (λ c, String.eqb (nd_Type c) "Ready") (no_Conditions n) with Some c => nd_Status c | None => false end.

(** ** The runtime's optional capabilities *)

Context {W : Type}.
Record Capabilities := mkCaps {
  (** [runtime.Pinger.Ready] *)
  cap_Ready : option (W → W * result RtError unit);
  (** [runtime.DiskReporter.NodeFilesystem] *)
  cap_NodeFilesystem : option (W → W * result string FilesystemUsage);
}.

Definition runtimeReady (rt : Capabilities) (w : W) : W * (bool * string) :=
  match cap_Ready rt with
  | None => (w, (true, "runtime readiness probe unavailable; assuming ready"))
  | Some f =>
      let '(w', r) := f w in
      (w', match r with
           | Err e => (false, re_text e)
           | Ok _ => (true, "macvz-kubelet and apple/container runtime are ready")
           end)
  end.

Definition EphemeralStorage : string := "ephemeral-storage".

Definition with_resources (n : Node) (cap alloc : gmap string Q) : Node :=
  mkNodeObj (no_Name n) (no_Labels n) (no_Annotations n) (no_Taints n) cap alloc (no_OS n) (no_Arch n)
    (no_KubeletVersion n) (no_Conditions n) (no_KubeletEndpoint n) (no_Addresses n).

Definition applyEphemeralStorage (rt : Capabilities) (spec : NodeSpec) (n : Node) (w : W) : W * Node :=
  match ns_Capacity spec !! EphemeralStorage with
  | Some _ => (w, n)
  | None =>
      match cap_NodeFilesystem rt with
      | None => (w, n)
      | Some f =>
          let '(w', r) := f w in
          (w', match r with
               | Err _ => n
               | Ok fs =>
                   if fu_TotalBytes fs =? 0 then n
                   else with_resources n
                     (<[EphemeralStorage := NewQuantity (int64 (fu_TotalBytes fs))]> (no_Capacity n))
                     (<[EphemeralStorage := NewQuantity (int64 (fu_AvailableBytes fs))]> (no_Allocatable n))
               end)
      end
  end.

Definition builtin_labels (nodeName : string) (spec : NodeSpec) : gmap string string :=
  list_to_map [("type", "virtual-kubelet"); ("kubernetes.io/role", "agent"); ("kubernetes.io/hostname", nodeName);
    ("kubernetes.io/os", ns_OS spec); ("kubernetes.io/arch", ns_Arch spec)].

Definition BuildNode (rt : Capabilities) (nodeName : string) (spec : NodeSpec) (now : Z) (w : W) : W * Node :=
  let '(w1, (ready, msg)) := runtimeReady rt w in
  let n := mkNodeObj nodeName (ns_Labels spec ∪ builtin_labels nodeName spec) (ns_Annotations spec) (ns_Taints spec)
    (ns_Capacity spec) (ns_Capacity spec) (ns_OS spec) (ns_Arch spec) (ns_KubeletVersion spec)
    (nodeConditions now ready msg)
    (if 0 <? ns_KubeletPort spec then Some (ns_KubeletPort spec) else None)
    (if String.eqb (ns_InternalIP spec) "" then [NodeHostName nodeName]
     else [NodeInternalIP (ns_InternalIP spec); NodeHostName nodeName]) in
  applyEphemeralStorage rt spec n w1.

(** The shape [main.go] registers: [ip] is the detected address. *)
Definition node_spec_of (c : Config) (version ip : string) (capacity : gmap string Q) (taints : list Taint) : NodeSpec :=
  let n := cf_Node c in
  mkNodeSpec version (nc_OS n) (nc_Arch n) (if String.eqb (nc_InternalIP n) "" then ip else nc_InternalIP n)
    capacity (nc_Labels n) (nc_Annotations n) taints
    (if negb (String.eqb (nc_ServingTLSCertFile n) "") && negb (String.eqb (nc_ServingTLSKeyFile n) "")
     then nc_KubeletPort n else 0).

(** ** The readiness loop *)

(** One tick at [now]: the node to push, if readiness changed. *)
Definition watch_tick (rt : Capabilities) (nodeName : string) (spec : NodeSpec) (now : Z) (last : bool) (w : W)
    : W * (bool * option Node) :=
  let '(w', n) := BuildNode rt nodeName spec now w in
  let ready := nodeReady n in
  (w', if Bool.eqb ready last then (last, None) else (ready, Some n)).

(** The loop: before each tick the host moves on by itself ([env]). *)
Fixpoint watch_ticks (rt : Capabilities) (nodeName : string) (spec : NodeSpec) (ticks : list (Z * (W → W)))
    (last : bool) (w : W) : W * (bool * list Node) :=
  match ticks with
  | [] => (w, (last, []))
  | (now, env) :: rest =>
      let '(w1, (last1, out)) := watch_tick rt nodeName spec now last (env w) in
      let '(w2, (last2, more)) := watch_ticks rt nodeName spec rest last1 w1 in
      (w2, (last2, match out with Some n => n :: more | None => more end))
  end.

(** [watch]: the readiness pushes are compared with is probed when the loop
    starts. *)
Definition watch (rt : Capabilities) (nodeName : string) (spec : NodeSpec) (start : Z) (ticks : list (Z * (W → W))) (w : W)
    : W * (bool * list Node) :=
  let '(w1, n) := BuildNode rt nodeName spec start w in
  watch_ticks rt nodeName spec ticks (nodeReady n) w1.
End node.

Arguments NodeSpec : clear implicits.
Arguments Node : clear implicits.
Arguments Capabilities : clear implicits.

(** ** The node object *)

Section build.
Context {Q W : Type} (NewQuantity : Z → Q) (rt : Capabilities W) (nodeName : string) (spec : NodeSpec Q).

Lemma applyEphemeralStorage_other n w :
  let n' := (applyEphemeralStorage NewQuantity rt spec n w).2 in
  no_Labels n' = no_Labels n ∧ no_Conditions n' = no_Conditions n ∧
  ∀ r, r ≠ EphemeralStorage → no_Capacity n' !! r = no_Capacity n !! r ∧ no_Allocatable n' !! r = no_Allocatable n !! r.
Proof.
  unfold applyEphemeralStorage. destruct (ns_Capacity spec !! EphemeralStorage); [done|].
  destruct (cap_NodeFilesystem rt) as [f|]; [|done]. destruct (f w) as [w' [fs|]]; [|done]. simpl.
  destruct (fu_TotalBytes fs =? 0); [done|]. simpl. split; [done|]. split; [done|]. intros r Hr.
  by rewrite !lookup_insert_ne.
Qed.

Lemma BuildNode_ready now w :
  nodeReady (BuildNode NewQuantity rt nodeName spec now w).2 = (runtimeReady rt w).2.1.
Proof.
  unfold BuildNode. destruct (runtimeReady rt w) as [w1 [ready msg]]. unfold nodeReady.
  match goal with |- context [applyEphemeralStorage _ rt spec ?n w1] =>
    pose proof (applyEphemeralStorage_other n w1) as (_ & -> & _) end. done.
Qed.

(** The node Kubernetes sees is the configured one over the live runtime: its
    Ready condition is the runtime's own answer, the operator's labels win over
    the built-in ones and add to them, capacity and allocatable are the configured
    quantities, and disk is added from the runtime only when the operator did not
    pin it. *)
Theorem node_as_configured now w :
  let n := (BuildNode NewQuantity rt nodeName spec now w).2 in
  nodeReady n = (runtimeReady rt w).2.1 ∧
  no_Labels n = ns_Labels spec ∪ builtin_labels nodeName spec ∧
  (∀ r, r ≠ EphemeralStorage → no_Capacity n !! r = ns_Capacity spec !! r ∧ no_Allocatable n !! r = ns_Capacity spec !! r) ∧
  (∀ q, ns_Capacity spec !! EphemeralStorage = Some q →
     no_Capacity n !! EphemeralStorage = Some q ∧ no_Allocatable n !! EphemeralStorage = Some q).
Proof.
  cbv zeta. rewrite BuildNode_ready. split; [done|]. unfold BuildNode.
  destruct (runtimeReady rt w) as [w1 [ready msg]].
  match goal with |- context [applyEphemeralStorage _ rt spec ?n w1] => set (n0 := n) end.
  pose proof (applyEphemeralStorage_other n0 w1) as (-> & _ & Hr). split; [done|]. split; [done|].
  intros q Hq. unfold applyEphemeralStorage. by rewrite Hq.
Qed.

(** ** The loop pushes exactly the changes *)

(** What each tick probes. *)
Fixpoint observed (ticks : list (Z * (W → W))) (w : W) : list bool :=
  match ticks with
  | [] => []
  | (now, env) :: rest =>
      let '(w', n) := BuildNode NewQuantity rt nodeName spec now (env w) in nodeReady n :: observed rest w'
  end.

(** The values that differ from the one before. *)
Fixpoint changes (prev : bool) (l : list bool) : list bool :=
  match l with
  | [] => []
  | x :: l' => if Bool.eqb x prev then changes prev l' else x :: changes x l'
  end.

Lemma watch_ticks_spec ticks last0 w :
  let '(w', (l, pushed)) := watch_ticks NewQuantity rt nodeName spec ticks last0 w in
  nodeReady <$> pushed = changes last0 (observed ticks w) ∧ l = default last0 (last (observed ticks w)).
Proof.
  revert last0 w. induction ticks as [|[now env] ticks IH]; intros last0 w; cbn [watch_ticks observed]; [done|].
  unfold watch_tick. destruct (BuildNode NewQuantity rt nodeName spec now (env w)) as [w1 n]. cbn [changes].
  destruct (Bool.eqb (nodeReady n) last0) eqn:E.
  - apply eqb_prop in E. specialize (IH last0 w1). destruct (watch_ticks _ _ _ _ ticks last0 w1) as [w2 [l more]].
    destruct IH as [H1 ->]. split; [done|]. rewrite last_cons. rewrite E. by destruct (last _).
  - specialize (IH (nodeReady n) w1). destruct (watch_ticks _ _ _ _ ticks (nodeReady n) w1) as [w2 [l more]].
    destruct IH as [H1 ->]. split; [by rewrite fmap_cons, H1|]. rewrite last_cons. by destruct (last (observed ticks w1)).
Qed.

Lemma last_change prev l : default prev (last (changes prev l)) = default prev (last l).
Proof.
  revert prev. induction l as [|x l IH]; intros prev; cbn [changes]; [done|].
  destruct (Bool.eqb x prev) eqn:E.
  - apply eqb_prop in E as ->. rewrite IH, last_cons. by destruct (last l).
  - rewrite !last_cons. specialize (IH x). destruct (last (changes x l)), (last l); simpl in *; congruence.
Qed.

(** The readiness the cluster sees: that of the last node pushed, or of the one
    registered. *)
Definition cluster_view (registered : Node Q) (pushed : list (Node Q)) : bool :=
  nodeReady (default registered (last pushed)).

(** As long as the node was registered with the readiness the loop starts
    from, what the cluster sees after any number of ticks is what the last tick
    observed, and the loop pushes a node exactly when an observation differs from
    the one before: no change is missed and none is repeated. *)
Theorem watch_tracks_readiness start ticks registered w :
  let '(w1, n0) := BuildNode NewQuantity rt nodeName spec start w in
  let '(_, (_, pushed)) := watch NewQuantity rt nodeName spec start ticks w in
  nodeReady <$> pushed = changes (nodeReady n0) (observed ticks w1) ∧
  (nodeReady registered = nodeReady n0 →
   cluster_view registered pushed = default (nodeReady n0) (last (observed ticks w1))).
Proof.
  unfold watch. destruct (BuildNode NewQuantity rt nodeName spec start w) as [w1 n0].
  pose proof (watch_ticks_spec ticks (nodeReady n0) w1) as H.
  destruct (watch_ticks _ _ _ _ ticks (nodeReady n0) w1) as [w2 [l pushed]]. destruct H as [Hp _].
  split; [done|]. intros Hr. rewrite <- last_change, <- Hp. unfold cluster_view.
  rewrite fmap_last. by destruct (last pushed).
Qed.

(** Readiness that changes between the registration of the node and the start
    of the loop is never reported while it lasts: with every observation equal to
    the loop's first one, nothing is pushed, and the cluster keeps the readiness of
    the registered node, which is the opposite one. *)
Theorem startup_change_missed start ticks registered w :
  let '(w1, n0) := BuildNode NewQuantity rt nodeName spec start w in
  nodeReady registered = negb (nodeReady n0) → Forall (λ r, r = nodeReady n0) (observed ticks w1) →
  let '(_, (_, pushed)) := watch NewQuantity rt nodeName spec start ticks w in
  pushed = [] ∧ Forall (λ r, cluster_view registered pushed = negb r) (observed ticks w1).
Proof.
  unfold watch. destruct (BuildNode NewQuantity rt nodeName spec start w) as [w1 n0]. intros Hr Hall.
  pose proof (watch_ticks_spec ticks (nodeReady n0) w1) as H.
  destruct (watch_ticks _ _ _ _ ticks (nodeReady n0) w1) as [w2 [l pushed]]. destruct H as [Hp _].
  assert (changes (nodeReady n0) (observed ticks w1) = []) as Hc.
  { clear -Hall. induction Hall as [|x l -> _ IH]; [done|]. cbn [changes]. by rewrite eqb_reflx. }
  rewrite Hc in Hp. apply fmap_nil_inv in Hp as ->. split; [done|].
  eapply Forall_impl; [exact Hall|]. intros r ->. exact Hr.
Qed.
End build.

(** A runtime whose service starts at some point: the host is that flag. *)
Definition flag_runtime : Capabilities bool :=
  mkCaps (Some (λ up : bool, (up, if up then Ok tt else Err (mkRtErr ErrNotReady "runtime: not ready")))) None.
Definition bare_spec : NodeSpec Z := mkNodeSpec "v1" "linux" "arm64" "" {["cpu" := 2]} ∅ ∅ [] 0.

(** The runtime is down when the node is registered and up when the loop starts:
    the node stays not ready through ten ticks with the runtime up. *)
Lemma startup_change_missed_witness :
  let registered := (BuildNode Z.succ flag_runtime "mac" bare_spec 0 false).2 in
  nodeReady registered = false ∧
  let '(_, (_, pushed)) := watch Z.succ flag_runtime "mac" bare_spec 1 (replicate 10 (2, λ up : bool, up)) true in
  pushed = [] ∧ Forall (λ r, cluster_view registered pushed = negb r)
    (observed Z.succ flag_runtime "mac" bare_spec (replicate 10 (2, λ up : bool, up)) true).
Proof.
  split; [vm_compute; reflexivity|].
  pose proof (startup_change_missed Z.succ flag_runtime "mac" bare_spec 1 (replicate 10 (2, λ up : bool, up))
    (BuildNode Z.succ flag_runtime "mac" bare_spec 0 false).2 true) as H.
  vm_compute in H |- *. apply H; [reflexivity|repeat constructor].
Defined.

(** A runtime that fails and recovers: two pushes, and the cluster is up to date. *)
Lemma watch_tracks_readiness_witness :
  let registered := (BuildNode Z.succ flag_runtime "mac" bare_spec 0 true).2 in
  let ticks := [(1, λ up : bool, up); (2, λ _ : bool, false); (3, λ up : bool, up); (4, λ _ : bool, true)] in
  let '(_, (_, pushed)) := watch Z.succ flag_runtime "mac" bare_spec 0 ticks true in
  nodeReady <$> pushed = [false; true] ∧ cluster_view registered pushed = true.
Proof.
  pose proof (watch_tracks_readiness Z.succ flag_runtime "mac" bare_spec 0
    [(1, λ up : bool, up); (2, λ _ : bool, false); (3, λ up : bool, up); (4, λ _ : bool, true)]
    (BuildNode Z.succ flag_runtime "mac" bare_spec 0 true).2 true) as H.
  vm_compute in H |- *. destruct H as [_ H]. split; [reflexivity|]. by apply H.
Defined.
