(* ===== verification/Health.v ===== *)
(** * Node health: [pkg/health], [cmd/macvz-kubelet/diagnostics.go]

    The checkers turn what they observe into checks; the report sorts the checks
    and derives a verdict.  What each probe observed is an argument, so a report
    is a function of the observations.  [JSON] rendering belongs to
    [encoding/json]. *)

From S2P Require Import Prelude GoFloat GoStrings GoNet GoJson GoTime Host PodNet PrivPolicy PrivHelper PodNetPolicy WireGuard NetConfig Config NodeStatus.

Open Scope Z_scope.

(** ** Checks and reports ([report.go]) *)

Inductive Class : Type := ClassControlPlane | ClassRuntime | ClassDataPlane.
Inductive CheckStatus : Type := StatusPass | StatusWarn | StatusFail | StatusSkipped.

#[export] Instance Class_eq_dec : EqDecision Class.
Proof. solve_decision. Defined.
#[export] Instance CheckStatus_eq_dec : EqDecision CheckStatus.
Proof. solve_decision. Defined.

Definition class_name (c : Class) : string :=
  match c with ClassControlPlane => "control-plane" | ClassRuntime => "runtime" | ClassDataPlane => "data-plane" end.
Definition classOrder (c : Class) : Z :=
  match c with ClassControlPlane => 0 | ClassRuntime => 1 | ClassDataPlane => 2 end.

Record Check_ := mkCheck {
  ck_Name : string; ck_Class : Class; ck_Status : CheckStatus; ck_Summary : string; ck_Detail : string; ck_Hint : string;
}.

Record Report := mkReport { r_Node : string; r_Ready : bool; r_Reason : string; r_Checks : list Check_ }.

(** Less-or-equal of the source's ordering: class, then name. *)
Definition check_le (a b : Check_) : bool :=
  if classOrder (ck_Class a) =? classOrder (ck_Class b) then String.leb (ck_Name a) (ck_Name b)
  else classOrder (ck_Class a) <? classOrder (ck_Class b).
Definition class_le (a b : Class) : bool := classOrder a <=? classOrder b.

(** The values in order of first appearance, sorted by class. *)
Fixpoint first_seen (l : list Class) (seen : list Class) : list Class :=
  match l with
  | [] => []
  | c :: l' => if bool_decide (c ∈ seen) then first_seen l' seen else c :: first_seen l' (c :: seen)
  end.

Definition class_groups (checks : list Check_) : list (Class * list Check_) :=
  (λ c, (c, filter (λ x, ck_Class x = c) checks)) <$> sort_by class_le (first_seen (ck_Class <$> checks) []).

Definition describe (checks : list Check_) : string :=
  Join ((λ g, class_name g.1 +:+ "[" +:+ Join (ck_Name <$> g.2) ", " +:+ "]") <$> class_groups checks) ", ".

Definition with_status (s : CheckStatus) (checks : list Check_) : list Check_ := filter (λ c, ck_Status c = s) checks.

Definition verdict (checks : list Check_) : bool * string :=
  match with_status StatusFail checks, with_status StatusWarn checks with
  | (_ :: _) as failures, _ => (false, "not ready for workloads: " +:+ describe failures)
  | [], ((_ :: _) as warnings) => (true, "ready for workloads (with warnings: " +:+ describe warnings +:+ ")")
  | [], [] => (true, "ready for workloads")
  end.

Definition newReport (node : string) (checks : list Check_) : Report :=
  let sorted := sort_by check_le checks in
  let '(ready, reason) := verdict sorted in
  mkReport node ready reason sorted.

Definition ByClass (r : Report) : list (Class * list Check_) := class_groups (r_Checks r).

Definition glyph (s : CheckStatus) : string :=
  match s with
  | StatusPass => "[ok]  " | StatusWarn => "[warn]" | StatusFail => "[fail]" | StatusSkipped => "[skip]"
  end.

Definition check_lines (c : Check_) : list string :=
  ["  " +:+ glyph (ck_Status c) +:+ " " +:+ ck_Name c +:+ ": " +:+ ck_Summary c] ++
  (if String.eqb (ck_Detail c) "" then [] else ["      " +:+ ck_Detail c]) ++
  (if bool_decide (ck_Status c = StatusFail) && negb (String.eqb (ck_Hint c) "")
   then ["      hint: " +:+ ck_Hint c] else []).

Definition Text (r : Report) : string :=
  text_of (["Node " +:+ r_Node r +:+ ": " +:+ (if r_Ready r then "READY" else "NOT READY"); "  " +:+ r_Reason r] ++
           (ByClass r ≫= λ g, [""; "[" +:+ class_name g.1 +:+ "]"] ++ (g.2 ≫= check_lines))).

(** ** Checkers ([checks.go])

    A nil probe is [None]; a probe that fails returns its error text. *)

Definition runtimeCheck (probe : option (result string unit)) : Check_ :=
  let mk := mkCheck "container-runtime" ClassRuntime in
  match probe with
  | None => mk StatusSkipped "runtime readiness probe unavailable; assuming ready" "" ""
  | Some (Err e) => mk StatusFail "apple/container runtime is not ready" e
      "ensure the `container` CLI is installed and run `container system start`"
  | Some (Ok _) => mk StatusPass "apple/container runtime is reachable and healthy" "" ""
  end.

Record NodeState := mkNS { nst_Registered : bool; nst_Ready : bool; nst_Reason : string }.
Record LeaseState := mkLS { ls_Enabled : bool; ls_Found : bool; ls_Age : Z; ls_Stale : Z }.

Definition nodeRegistrationCheck (probe : option (result string NodeState)) : Check_ :=
  let mk := mkCheck "kubelet-registration" ClassControlPlane in
  match probe with
  | None => mk StatusFail "control plane not inspected; API client unavailable" ""
      "verify kubeconfig and API server reachability"
  | Some (Err e) => mk StatusFail "could not query node registration from the API server" e
      "verify kubeconfig and API server reachability"
  | Some (Ok st) =>
      if negb (nst_Registered st) then mk StatusFail "node is not registered with the API server" ""
        "check that the node controller started and the kubeconfig is valid"
      else if negb (nst_Ready st) then
        mk StatusFail "node is registered but its Ready condition is not True" (nst_Reason st) ""
      else mk StatusPass "node is registered and Ready" "" ""
  end.

Definition nodeLeaseCheck (probe : option (result string LeaseState)) : Check_ :=
  let mk := mkCheck "node-lease" ClassControlPlane in
  match probe with
  | None => mk StatusFail "control plane not inspected; API client unavailable" "" ""
  | Some (Err e) => mk StatusFail "could not query the node lease from the API server" e ""
  | Some (Ok st) =>
      let age := Duration_String (Round (ls_Age st) Second) in
      if negb (ls_Enabled st) then mk StatusSkipped "node-lease heartbeat is disabled" "" ""
      else if negb (ls_Found st) then
        mk StatusFail "node-lease heartbeat is enabled but no Lease object was found" ""
          "the node may not have completed registration"
      else if (0 <? ls_Stale st) && (ls_Stale st <? ls_Age st) then
        mk StatusFail "node lease is stale; the heartbeat has stopped"
          ("last renewed " +:+ age +:+ " ago (lease duration " +:+ Duration_String (ls_Stale st) +:+ ")")
          "the kubelet cannot reach the API server, or its status loop is wedged"
      else mk StatusPass "node lease heartbeat is fresh" ("last renewed " +:+ age +:+ " ago") ""
  end.

Record HelperInfo := mkHI { hi_Version : string; hi_Protocol : Z; hi_PolicyEnforced : bool; hi_AllowedCommands : list string }.

Definition helperCheck (enabled : bool) (probe : option (result string HelperInfo * result string unit)) : Check_ :=
  let mk := mkCheck "privileged-helper" ClassDataPlane in
  if negb enabled then mk StatusSkipped "privileged helper not required (mesh and pod network disabled)" "" ""
  else match probe with
  | None => mk StatusFail "privileged helper is required but not configured" ""
      "set privilegedHelperSocket and run macvz-netd as root"
  | Some (Err e, _) => mk StatusFail "privileged helper is not reachable" e
      "start macvz-netd as root and check the socket path"
  | Some (Ok st, ping) =>
      if negb (hi_PolicyEnforced st) then
        mk StatusFail "privileged helper is running without per-request policy validation" ""
          "start macvz-netd with --config so it enforces a policy"
      else match ping with
      | Err e => mk StatusFail "privileged helper answered status but cannot run commands" e
          "ensure macvz-netd is running as root with the required privileges"
      | Ok _ => mk StatusPass "privileged helper is reachable and enforcing policy"
          ("version " +:+ hi_Version st +:+ ", protocol " +:+ Itoa (hi_Protocol st) +:+ ", " +:+
           Itoa (Z.of_nat (length (hi_AllowedCommands st))) +:+ " allowed commands") ""
      end
  end.

Record MeshView := mkMV { mv_InterfaceName : string; mv_Peers : list string; mv_Routes : list string }.

Definition meshCheck (enabled : bool) (probe : option MeshView) : Check_ :=
  let mk := mkCheck "wireguard-mesh" ClassDataPlane in
  match enabled, probe with
  | true, Some v =>
      let detail := "interface " +:+ mv_InterfaceName v +:+ ", " +:+ Itoa (Z.of_nat (length (mv_Peers v))) +:+
        " peers, " +:+ Itoa (Z.of_nat (length (mv_Routes v))) +:+ " routes" in
      if bool_decide (mv_Peers v = []) then
        mk StatusWarn "WireGuard mesh is up but has no peers" detail
          "add peers to the config and `kill -HUP` the kubelet, or ignore on a single node"
      else if bool_decide (mv_Routes v = []) then
        mk StatusFail "WireGuard mesh has peers but installed no host routes" detail
          "check peer AllowedIPs and that the privileged helper can add routes"
      else mk StatusPass "WireGuard mesh is up with peers and routes" detail ""
  | _, _ => mk StatusSkipped "WireGuard mesh disabled; Pods are reachable only on their local node" "" ""
  end.

Definition forwardingCheck (enabled : bool) (probe : option (result string bool)) : Check_ :=
  let mk := mkCheck "ip-forwarding" ClassDataPlane in
  match enabled, probe with
  | true, Some (Err e) => mk StatusFail "could not read IP forwarding state" e ""
  | true, Some (Ok on) =>
      if negb on then mk StatusFail "host IPv4 forwarding is disabled; Pod traffic will not route" ""
        "the pod network path enables net.inet.ip.forwarding via the helper; check macvz-netd"
      else mk StatusPass "host IPv4 forwarding is enabled" "" ""
  | _, _ => mk StatusSkipped "IP forwarding not required (pod network path disabled)" "" ""
  end.

Definition podNetworkCheck (enabled : bool) (iface anchor : string) (lister : option Z) : Check_ :=
  let mk := mkCheck "pod-network" ClassDataPlane in
  match enabled, lister with
  | true, Some count => mk StatusPass "pod network path is configured"
      ("interface " +:+ iface +:+ ", anchor " +:+ anchor +:+ ", " +:+ Itoa count +:+ " pod attachment(s)") ""
  | _, _ => mk StatusSkipped "pod network path disabled; Pods keep the runtime host-only address" "" ""
  end.

(** ** The node's checkers ([diagnostics.go]) *)

(** A read from the API server. *)
Inductive ApiGet (A : Type) : Type := ApiFound (a : A) | ApiNotFound | ApiError (msg : string).
Arguments ApiFound {A}. Arguments ApiNotFound {A}. Arguments ApiError {A}.

(** The node's Ready condition as the API server has it. *)
Definition node_state (get : ApiGet (list NodeCondition)) : result string NodeState :=
  match get with
  | ApiNotFound => Ok (mkNS false false "")
  | ApiError msg => Err msg
  | ApiFound conds =>
      Ok (match List.find (λ c, String.eqb (nd_Type c) "Ready") conds with
          | Some c => mkNS true (nd_Status c)
              (if String.eqb (nd_Message c) "" then nd_Reason c else nd_Reason c +:+ ": " +:+ nd_Message c)
          | None => mkNS true false "node has no Ready condition"
          end)
  end.

(** [get] is the lease's renewal time, if it has one. *)
Definition lease_state (enabled : bool) (duration now : Z) (get : ApiGet (option Z)) : result string LeaseState :=
  if negb enabled then Ok (mkLS false false 0 0)
  else match get with
  | ApiNotFound => Ok (mkLS true false 0 duration)
  | ApiError msg => Err msg
  | ApiFound renew => Ok (mkLS true true (match renew with Some t => Sub now t | None => 0 end) duration)
  end.

Definition IPForwardingEnabled (sysctl : result string string) : result string bool :=
  match sysctl with
  | Err e => Err ("read net.inet.ip.forwarding: " +:+ e)
  | Ok out => Ok (String.eqb (TrimSpace out) "1")
  end.

(** What the probes observe during one report. *)
Record Observations := mkObs {
  ob_runtime : result string unit; ob_status : result string HelperInfo; ob_ping : result string unit;
  ob_sysctl : result string string; ob_node : ApiGet (list NodeCondition); ob_lease : ApiGet (option Z); ob_now : Z;
}.

(** [mesh] and [router] are nil when their subsystem is off; the router's
    endpoints are counted. *)
Definition diagnostics_checks (cfg : Config) (mesh : option MeshView) (router : option Z) (ob : Observations) : list Check_ :=
  let helperEnabled := negb (String.eqb (cf_PrivilegedHelperSocket cfg) "") &&
    (mc_Enabled (cf_Mesh cfg) || pn_Enabled (cf_PodNetwork cfg)) in
  let helperProbe := if String.eqb (cf_PrivilegedHelperSocket cfg) "" then None else Some (ob_status ob, ob_ping ob) in
  [ runtimeCheck (Some (ob_runtime ob));
    helperCheck helperEnabled helperProbe;
    meshCheck (mc_Enabled (cf_Mesh cfg)) mesh;
    forwardingCheck (pn_Enabled (cf_PodNetwork cfg)) (Some (IPForwardingEnabled (ob_sysctl ob)));
    podNetworkCheck (pn_Enabled (cf_PodNetwork cfg)) (pn_Interface (cf_PodNetwork cfg)) (pn_Anchor (cf_PodNetwork cfg)) router;
    nodeRegistrationCheck (Some (node_state (ob_node ob)));
    nodeLeaseCheck (Some (lease_state (nc_EnableLease (cf_Node cfg)) (nc_LeaseDurationSeconds (cf_Node cfg) * Second)
      (ob_now ob) (ob_lease ob))) ].

Definition Diagnostics (cfg : Config) (mesh : option MeshView) (router : option Z) (ob : Observations) : Report :=
  newReport (cf_NodeName cfg) (diagnostics_checks cfg mesh router ob).

(** [ServeHTTP], text form: the status code and the body. *)
Definition ServeHTTP (cfg : Config) (mesh : option MeshView) (router : option Z) (ob : Observations) : Z * string :=
  let r := Diagnostics cfg mesh router ob in (if r_Ready r then 200 else 503, Text r).

(** ** The report *)

Lemma check_le_total a b : check_le a b = true ∨ check_le b a = true.
Proof.
  unfold check_le. rewrite (Z.eqb_sym (classOrder (ck_Class b))).
  destruct (Z.eqb_spec (classOrder (ck_Class a)) (classOrder (ck_Class b))); [apply String.leb_total|].
  rewrite !Z.ltb_lt. lia.
Qed.

Lemma leb_trans x y z : String.leb x y = true → String.leb y z = true → String.leb x z = true.
Proof. apply (le_key_trans id). Qed.

Lemma check_le_trans a b c : check_le a b = true → check_le b c = true → check_le a c = true.
Proof.
  unfold check_le. destruct (Z.eqb_spec (classOrder (ck_Class a)) (classOrder (ck_Class b))) as [E1|E1];
    destruct (Z.eqb_spec (classOrder (ck_Class b)) (classOrder (ck_Class c))) as [E2|E2]; rewrite ?Z.ltb_lt; intros H1 H2.
  - rewrite E1, E2, Z.eqb_refl. by eapply leb_trans.
  - rewrite E1. destruct (Z.eqb_spec (classOrder (ck_Class b)) (classOrder (ck_Class c))); [done|]. by apply Z.ltb_lt.
  - rewrite <- E2. destruct (Z.eqb_spec (classOrder (ck_Class a)) (classOrder (ck_Class b))); [done|]. by apply Z.ltb_lt.
  - destruct (Z.eqb_spec (classOrder (ck_Class a)) (classOrder (ck_Class c))); [lia|]. apply Z.ltb_lt. lia.
Qed.

Lemma with_status_nil s l : with_status s l = [] ↔ Forall (λ c, ck_Status c ≠ s) l.
Proof. unfold with_status. induction l as [|c l IH]; [by split|]. rewrite filter_cons, Forall_cons, <- IH. destruct (decide _); naive_solver. Qed.

Lemma verdict_ready l : (verdict l).1 = true ↔ Forall (λ c, ck_Status c ≠ StatusFail) l.
Proof. rewrite <- with_status_nil. unfold verdict. by destruct (with_status StatusFail l), (with_status StatusWarn l). Qed.

Lemma newReport_checks node l : r_Checks (newReport node l) = sort_by check_le l.
Proof. unfold newReport. by destruct (verdict _). Qed.

Lemma newReport_ready node l : r_Ready (newReport node l) = true ↔ Forall (λ c, ck_Status c ≠ StatusFail) l.
Proof.
  unfold newReport. pose proof (verdict_ready (sort_by check_le l)) as H. destruct (verdict _) as [ready reason]. simpl in *.
  by rewrite H, sort_by_perm.
Qed.

Lemma check_le_antisym a b :
  check_le a b = true → check_le b a = true → ck_Class a = ck_Class b ∧ ck_Name a = ck_Name b.
Proof.
  unfold check_le. rewrite (Z.eqb_sym (classOrder (ck_Class b))).
  destruct (Z.eqb_spec (classOrder (ck_Class a)) (classOrder (ck_Class b))) as [E|E]; rewrite ?Z.ltb_lt; [|lia].
  intros H1 H2. split; [by destruct (ck_Class a), (ck_Class b)|]. by apply String.leb_antisym.
Qed.

(** The verdict of a report and its stability: the node is ready exactly when
    no check failed, whatever warnings and skips there are; the report lists every
    check exactly once; and the order in which the concurrent checkers finished
    changes nothing, since no two checks share class and name. *)
Theorem report_verdict_stable node checks checks' :
  NoDup ((λ c, (ck_Class c, ck_Name c)) <$> checks) → checks ≡ₚ checks' →
  newReport node checks = newReport node checks' ∧
  (r_Ready (newReport node checks) = true ↔ Forall (λ c, ck_Status c ≠ StatusFail) checks) ∧
  r_Checks (newReport node checks) ≡ₚ checks.
Proof.
  intros Hnd Hp. split; [|split; [apply newReport_ready|rewrite newReport_checks; apply sort_by_perm]].
  unfold newReport. rewrite (sort_by_canonical check_le check_le_total check_le_trans checks checks'); [done| |done].
  intros x y Hx Hy H1 H2. destruct (check_le_antisym _ _ H1 H2).
  apply list_elem_of_lookup in Hx as [i Hi], Hy as [j Hj].
  assert (i = j) as ->; [|congruence].
  eapply NoDup_lookup; [exact Hnd|by rewrite list_lookup_fmap, Hi|]. rewrite list_lookup_fmap, Hj. simpl. congruence.
Qed.

(** ** Grouping loses nothing *)

Lemma elem_of_first_seen c l seen : c ∈ first_seen l seen ↔ c ∈ l ∧ c ∉ seen.
Proof.
  revert seen. induction l as [|x l IH]; intros seen; cbn [first_seen]; [set_solver|].
  case_bool_decide as Hx; [rewrite IH; set_solver|]. rewrite !elem_of_cons, IH.
  destruct (decide (c = x)); set_solver.
Qed.

Lemma first_seen_NoDup l seen : NoDup (first_seen l seen).
Proof.
  revert seen. induction l as [|x l IH]; intros seen; cbn [first_seen]; [constructor|].
  case_bool_decide; [apply IH|]. constructor; [|apply IH]. rewrite elem_of_first_seen. set_solver.
Qed.

Lemma groups_perm (l : list Check_) (order : list Class) :
  NoDup order → (∀ c, c ∈ l → ck_Class c ∈ order) →
  (order ≫= λ k, filter (λ x, ck_Class x = k) l) ≡ₚ l.
Proof.
  intros Hnd Hin. induction l as [|x l IH].
  { clear. induction order as [|k o IHo]; [done|]. by rewrite bind_cons, IHo. }
  assert (ck_Class x ∈ order) as Hx by (apply Hin; by left).
  apply list_elem_of_split in Hx as (o1 & o2 & ->). specialize (IH ltac:(intros c Hc; apply Hin; by right)).
  rewrite !bind_app, !bind_cons in *.
  apply NoDup_app in Hnd as (_ & Hd1 & Hnd2). apply NoDup_cons in Hnd2 as [Hd2 _].
  assert (∀ o, ck_Class x ∉ o → (o ≫= λ k, filter (λ y, ck_Class y = k) (x :: l)) = (o ≫= λ k, filter (λ y, ck_Class y = k) l)) as Hsk.
  { intros o Ho. induction o as [|k o IHo]; [done|]. rewrite !bind_cons, IHo by set_solver.
    rewrite filter_cons_False; [done|]. set_solver. }
  rewrite !Hsk by (set_solver || done). rewrite filter_cons_True by done. simpl. rewrite <- Permutation_middle. by rewrite IH.
Qed.

(** The report rendered by failure domain shows every check exactly once:
    the groups, in display order, hold together the checks of the report, each
    under its own class, and no class comes twice. *)
Theorem grouping_complete r :
  (ByClass r ≫= snd) ≡ₚ r_Checks r ∧ NoDup (ByClass r).*1 ∧
  StronglySorted (λ a b, class_le a b = true) (ByClass r).*1 ∧
  Forall (λ g, Forall (λ c, ck_Class c = g.1) g.2 ∧ g.2 ≠ []) (ByClass r).
Proof.
  unfold ByClass, class_groups. set (order := sort_by class_le _).
  assert (order ≡ₚ first_seen (ck_Class <$> r_Checks r) []) as Ho by apply sort_by_perm.
  assert (NoDup order) as Hnd by (rewrite Ho; apply first_seen_NoDup).
  assert (∀ k, k ∈ order ↔ k ∈ ck_Class <$> r_Checks r) as Hin by (intros k; rewrite Ho, elem_of_first_seen; set_solver).
  assert (((λ c, (c, filter (λ x, ck_Class x = c) (r_Checks r))) <$> order).*1 = order) as Hfst.
  { rewrite <- list_fmap_compose. by apply list_fmap_id. }
  rewrite Hfst. split; [|split; [done|split]].
  - assert (((λ c, (c, filter (λ x, ck_Class x = c) (r_Checks r))) <$> order) ≫= snd =
            order ≫= λ c, filter (λ x, ck_Class x = c) (r_Checks r)) as ->.
    { clear. induction order as [|k o IHo]; [done|]. by rewrite fmap_cons, !bind_cons, IHo. }
    apply groups_perm; [done|]. intros c Hc. apply Hin. by apply list_elem_of_fmap_2.
  - apply sort_by_sorted; intros; unfold class_le in *; rewrite ?Z.leb_le in *; lia.
  - apply Forall_fmap, Forall_forall. intros k Hk. simpl. split.
    + apply Forall_forall. by intros c [? _]%list_elem_of_filter.
    + apply Hin, list_elem_of_fmap in Hk as (c & -> & Hc). intros E.
      assert (c ∈ filter (λ x, ck_Class x = ck_Class c) (r_Checks r)) as H by by apply list_elem_of_filter.
      rewrite E in H. by apply elem_of_nil in H.
Qed.

(** ** Which observations make a node ready *)

Definition no_fail (c : Check_) : Prop := ck_Status c ≠ StatusFail.

Lemma runtime_ok r : no_fail (runtimeCheck (Some r)) ↔ r = Ok tt.
Proof. unfold no_fail. destruct r as [[]|]; simpl; split; done. Qed.

Lemma registration_ok get :
  no_fail (nodeRegistrationCheck (Some (node_state get))) ↔
  ∃ conds c, get = ApiFound conds ∧ List.find (λ c, String.eqb (nd_Type c) "Ready") conds = Some c ∧ nd_Status c = true.
Proof.
  unfold no_fail. destruct get as [conds| |e]; simpl; [|split; [by intros []|by intros (? & ? & ? & _)]..].
  destruct (List.find _ conds) as [c|] eqn:E; simpl.
  2: { split; [by intros []|]. intros (? & ? & [= <-] & Hf & _). congruence. }
  destruct (nd_Status c) eqn:Es; simpl.
  - split; [|done]. intros _. by exists conds, c.
  - split; [by intros []|]. intros (? & ? & [= <-] & Hf & ?). congruence.
Qed.

Lemma lease_ok enabled d now get :
  no_fail (nodeLeaseCheck (Some (lease_state enabled d now get))) ↔
  (enabled = true → ∃ renew, get = ApiFound renew ∧ ∀ t, renew = Some t → 0 < d → Sub now t <= d).
Proof.
  unfold no_fail, lease_state. destruct enabled; simpl; [|by split].
  destruct get as [renew| |e]; simpl; [|split; [by intros []|intros H; by destruct (H eq_refl) as (? & ? & _)]..].
  destruct renew as [t|]; simpl.
  - destruct ((0 <? d) && (d <? Sub now t)) eqn:E; simpl.
    + split; [by intros []|]. intros H. destruct (H eq_refl) as (? & [= <-] & Ht). bools. specialize (Ht t eq_refl). lia.
    + split; [|done]. intros _ _. exists (Some t). split; [done|]. intros ? [= <-] Hd. apply andb_false_iff in E as [E|E]; bools; lia.
  - destruct ((0 <? d) && (d <? 0)) eqn:E; simpl; [bools; lia|]. split; [|done]. intros _ _. by exists None.
Qed.

Lemma helper_ok enabled st ping :
  no_fail (helperCheck enabled (Some (st, ping))) ↔
  (enabled = true → (∃ x, st = Ok x ∧ hi_PolicyEnforced x = true) ∧ ping = Ok tt).
Proof.
  unfold no_fail, helperCheck. destruct enabled; cbn [negb]; [|by split].
  destruct st as [x|]; [|split; [by intros []|intros H; by destruct (H eq_refl) as [(? & ? & _) _]]].
  destruct (hi_PolicyEnforced x) eqn:E; cbn [negb].
  - destruct ping as [[]|]; (split; [intros Hs|intros H]).
    + intros _. split; [by exists x|done].
    + discriminate.
    + by destruct Hs.
    + by destruct (H eq_refl).
  - split; [by intros []|]. intros H. destruct (H eq_refl) as [(? & [= <-] & ?) _]. congruence.
Qed.

Lemma mesh_ok enabled mesh :
  no_fail (meshCheck enabled mesh) ↔ ∀ v, enabled = true → mesh = Some v → mv_Peers v ≠ [] → mv_Routes v ≠ [].
Proof.
  unfold no_fail, meshCheck. destruct enabled, mesh as [v|]; [|by split..].
  case_bool_decide as Hp; simpl; [split; [|done]; by intros _ ? _ [= <-]|].
  case_bool_decide as Hr; simpl; split; try done.
  - intros H. exfalso. by apply (H v).
  - by intros _ ? _ [= <-].
Qed.

Lemma forwarding_ok enabled r : no_fail (forwardingCheck enabled (Some r)) ↔ (enabled = true → r = Ok true).
Proof.
  unfold no_fail, forwardingCheck. destruct enabled; [|by split].
  destruct r as [[]|]; split; intros H; try done; by specialize (H eq_refl).
Qed.

Lemma podNetwork_ok enabled i a l : no_fail (podNetworkCheck enabled i a l).
Proof. by destruct enabled, l. Qed.

(** The diagnostics answer 200 exactly when the runtime answers, the API
    server has the node registered and Ready and, with leases on, a lease that is
    no older than its duration; a configured helper that is needed answers with
    its policy enforced and can run commands; a mesh with peers has routes; and
    with the Pod network on, the host forwards packets. *)
Theorem diagnostics_ready_iff cfg mesh router ob :
  let n := cf_Node cfg in
  (ServeHTTP cfg mesh router ob).1 = 200 ↔
  ob_runtime ob = Ok tt ∧
  (∃ conds c, ob_node ob = ApiFound conds ∧
     List.find (λ c, String.eqb (nd_Type c) "Ready") conds = Some c ∧ nd_Status c = true) ∧
  (nc_EnableLease n = true → ∃ renew, ob_lease ob = ApiFound renew ∧
     (∀ t, renew = Some t → 0 < nc_LeaseDurationSeconds n * Second → Sub (ob_now ob) t <= nc_LeaseDurationSeconds n * Second)) ∧
  (cf_PrivilegedHelperSocket cfg ≠ "" → mc_Enabled (cf_Mesh cfg) || pn_Enabled (cf_PodNetwork cfg) = true →
     (∃ st, ob_status ob = Ok st ∧ hi_PolicyEnforced st = true) ∧ ob_ping ob = Ok tt) ∧
  (∀ v, mc_Enabled (cf_Mesh cfg) = true → mesh = Some v → mv_Peers v ≠ [] → mv_Routes v ≠ []) ∧
  (pn_Enabled (cf_PodNetwork cfg) = true → IPForwardingEnabled (ob_sysctl ob) = Ok true).
Proof.
  cbv zeta. unfold ServeHTTP, Diagnostics. set (r := newReport _ _).
  assert ((if r_Ready r then 200 else 503) = 200 ↔ r_Ready r = true) as Hc by by destruct (r_Ready r).
  cbn [fst]. rewrite Hc. unfold r. rewrite newReport_ready. unfold diagnostics_checks. rewrite !Forall_cons, Forall_nil.
  change (ck_Status (?c) ≠ StatusFail) with (no_fail c).
  rewrite runtime_ok, mesh_ok, forwarding_ok, registration_ok, lease_ok.
  pose proof (podNetwork_ok (pn_Enabled (cf_PodNetwork cfg)) (pn_Interface (cf_PodNetwork cfg)) (pn_Anchor (cf_PodNetwork cfg)) router) as Hpn.
  set (helper := no_fail (helperCheck _ _)).
  assert (helper ↔ (cf_PrivilegedHelperSocket cfg ≠ "" → mc_Enabled (cf_Mesh cfg) || pn_Enabled (cf_PodNetwork cfg) = true →
     (∃ st, ob_status ob = Ok st ∧ hi_PolicyEnforced st = true) ∧ ob_ping ob = Ok tt)) as ->.
  { unfold helper. destruct (String.eqb_spec (cf_PrivilegedHelperSocket cfg) "") as [E|E]; cbn [negb andb].
    - split; [by intros|]. by intros _.
    - rewrite helper_ok. tauto. }
  tauto.
Qed.

(** The checks of one node never share class and name. *)
Lemma diagnostics_keys cfg mesh router ob :
  (λ c, (ck_Class c, ck_Name c)) <$> diagnostics_checks cfg mesh router ob =
  [(ClassRuntime, "container-runtime"); (ClassDataPlane, "privileged-helper"); (ClassDataPlane, "wireguard-mesh");
   (ClassDataPlane, "ip-forwarding"); (ClassDataPlane, "pod-network"); (ClassControlPlane, "kubelet-registration");
   (ClassControlPlane, "node-lease")].
Proof.
  unfold diagnostics_checks. rewrite !fmap_cons, fmap_nil.
  unfold runtimeCheck, helperCheck, meshCheck, forwardingCheck, podNetworkCheck, nodeRegistrationCheck, nodeLeaseCheck.
  repeat f_equal; by repeat case_match.
Qed.

(** ** What the diagnostics say of a helper nobody configured, and of a lease
    nobody renewed *)

(** A node whose mesh or Pod network is on but which has no helper socket is
    told that the helper is not required because both are disabled: the failure
    that says a required helper is not configured is never produced. *)
Theorem helper_gap_never_reported cfg mesh router ob :
  Forall (λ c, ck_Summary c ≠ "privileged helper is required but not configured") (diagnostics_checks cfg mesh router ob) ∧
  (cf_PrivilegedHelperSocket cfg = "" →
   mkCheck "privileged-helper" ClassDataPlane StatusSkipped
     "privileged helper not required (mesh and pod network disabled)" "" "" ∈ diagnostics_checks cfg mesh router ob).
Proof.
  split.
  - unfold diagnostics_checks. repeat constructor;
      unfold runtimeCheck, helperCheck, meshCheck, forwardingCheck, podNetworkCheck, nodeRegistrationCheck, nodeLeaseCheck;
      destruct (String.eqb (cf_PrivilegedHelperSocket cfg) ""); simpl; by repeat case_match.
  - intros E. unfold diagnostics_checks. rewrite E. right. by left.
Qed.

Definition healthy : Observations :=
  mkObs (Ok tt) (Ok (mkHI "v1" 1 true ["pfctl"])) (Ok tt) (Ok "1")
    (ApiFound [mkCond "Ready" true "KubeletReady" "ok" 0]) (ApiFound (Some 0)) (10 * Second).

Lemma helper_gap_never_reported_witness :
  let cfg := demo_config demo_peers in
  let bare := mkConfig "mac-1" "" "" "container" "" false "info" (cf_Node cfg) (cf_Mesh cfg) (cf_PodNetwork cfg) "" (cf_OrphanCleanup cfg) in
  mc_Enabled (cf_Mesh bare) = true ∧
  mkCheck "privileged-helper" ClassDataPlane StatusSkipped
    "privileged helper not required (mesh and pod network disabled)" "" "" ∈ diagnostics_checks bare None None healthy.
Proof. split; [reflexivity|]. apply helper_gap_never_reported. reflexivity. Defined.

(** A lease that exists but was never renewed counts as renewed now. *)
Lemma unrenewed_lease_is_fresh d now :
  ck_Status (nodeLeaseCheck (Some (lease_state true d now (ApiFound None)))) = StatusPass.
Proof.
  unfold nodeLeaseCheck, lease_state. cbn [negb ls_Enabled ls_Found ls_Stale ls_Age].
  destruct (0 <? d) eqn:E1, (d <? 0) eqn:E2; simpl; try done. bools. lia.
Qed.

Lemma report_verdict_stable_witness :
  let checks := diagnostics_checks (demo_config demo_peers) (Some (mkMV "utun7" ["mac-2"] ["10.244.2.0/24"])) (Some 3) healthy in
  newReport "mac-1" checks = newReport "mac-1" (reverse checks) ∧ r_Ready (newReport "mac-1" checks) = true ∧
  r_Reason (newReport "mac-1" checks) = "ready for workloads".
Proof.
  cbv zeta. split; [|split; vm_compute; reflexivity].
  apply report_verdict_stable.
  - rewrite diagnostics_keys. refine (bool_decide_unpack (dec := NoDup_dec _) _ _). vm_compute. exact I.
  - symmetry. apply reverse_Permutation.
Defined.
