(* ===== verification/LocalHealth.v ===== *)
(** * The health report as a program: [cmd/macvz-kubelet/diagnostics.go]

    [Health] says what a report makes of observations; here the checkers are
    operations on the host that make them: the runtime driver's readiness
    command, the helper's status and ping over its socket, [sysctl], reads from
    the API server.  [Collect] runs them concurrently: the order in which they
    are done is arbitrary.  The last part says which commands a report runs. *)

From S2P Require Import Prelude GoFloat GoStrings GoNet GoJson GoTime Runtime Driver Host PodNet PrivPolicy PrivHelper PodNetPolicy WireGuard NetConfig Config NodeStatus Health.

Open Scope Z_scope.

Section checkers.
Context {W : Type} `{!Link W} (cli : Runner W).
(** The runtime's command by the name of its binary; who listens on the helper
    socket, if anyone; what the API server has for the node, and the clock. *)
Context (tool : string → Cli W) (daemon : W → option (Server W)).
Context (node_get : string → W → ApiGet (list NodeCondition)) (lease_get : string → W → ApiGet (option Z)) (clock : W → Z).

Definition Checker : Type := W → W * Check_.

Definition runtimeChecker (bin : string) : Checker := λ w,
  let '(w, r) := Ready (tool bin) w in
  (w, runtimeCheck (Some (match r with Ok u => Ok u | Err e => Err (re_text e) end))).

(** [helperProbeAdapter]; neither call changes the server, see [client_status_same]
    and [Ping_effect]. *)
Definition helper_Status (w : W) : W * result string HelperInfo :=
  let '(_, w, r) := client_status (daemon w) w in
  (w, match r with
      | Ok st => Ok (mkHI (st_version st) (st_protocol st) (st_enforced st) (st_allowed st))
      | Err e => Err (client_error_text e)
      end).

Definition helper_Ping (w : W) : W * result string unit :=
  let '(_, w, e) := Ping (daemon w) w in
  (w, match e with None => Ok tt | Some e => Err (client_error_text e) end).

(** The ping is sent only to a helper that answers and enforces its policy. *)
Definition helperChecker (enabled configured : bool) : Checker := λ w,
  if negb (enabled && configured) then (w, helperCheck enabled None) else
  match helper_Status w with
  | (w, Err e) => (w, helperCheck true (Some (Err e, Ok tt)))
  | (w, Ok st) =>
      if negb (hi_PolicyEnforced st) then (w, helperCheck true (Some (Ok st, Ok tt))) else
      let '(w, ping) := helper_Ping w in (w, helperCheck true (Some (Ok st, ping)))
  end.

Definition read_forwarding : Command := mkCmd "sysctl" ["-n"; "net.inet.ip.forwarding"] "".

(** [forwardingProbe.IPForwardingEnabled]. *)
Definition forwardingChecker (enabled : bool) : Checker := λ w,
  if negb enabled then (w, forwardingCheck false None) else
  let '(w, (out, err)) := run cli read_forwarding w in
  (w, forwardingCheck true (Some (IPForwardingEnabled (match err with None => Ok out | Some e => Err (ce_err e) end)))).

(** A checker that only looks. *)
Definition looking (f : W → Check_) : Checker := λ w, (w, f w).

Definition newDiagnosticsCollector (cfg : Config) (mesh : option MeshView) (router : option Z) : list Checker :=
  let configured := negb (String.eqb (cf_PrivilegedHelperSocket cfg) "") in
  [ runtimeChecker (if String.eqb (cf_RuntimeBinary cfg) "" then "container" else cf_RuntimeBinary cfg);
    helperChecker (configured && (mc_Enabled (cf_Mesh cfg) || pn_Enabled (cf_PodNetwork cfg))) configured;
    looking (λ _, meshCheck (mc_Enabled (cf_Mesh cfg)) mesh);
    forwardingChecker (pn_Enabled (cf_PodNetwork cfg));
    looking (λ _, podNetworkCheck (pn_Enabled (cf_PodNetwork cfg)) (pn_Interface (cf_PodNetwork cfg)) (pn_Anchor (cf_PodNetwork cfg)) router);
    looking (λ w, nodeRegistrationCheck (Some (node_state (node_get (cf_NodeName cfg) w))));
    looking (λ w, nodeLeaseCheck (Some (lease_state (nc_EnableLease (cf_Node cfg)) (nc_LeaseDurationSeconds (cf_Node cfg) * Second)
      (clock w) (lease_get (cf_NodeName cfg) w)))) ].

Fixpoint run_checkers (cs : list Checker) (w : W) : W * list Check_ :=
  match cs with
  | [] => (w, [])
  | c :: cs' => let '(w, r) := c w in let '(w, rs) := run_checkers cs' w in (w, r :: rs)
  end.

(** The goroutines of a report, in the order they are done.  The report does not
    depend on the order of its checks ([report_verdict_stable]). *)
Definition Collect (order : list Checker → list Checker) (node : string) (cs : list Checker) (w : W) : W * Report :=
  let '(w, checks) := run_checkers (order cs) w in (w, newReport node checks).

(** The report of a process that is not the running kubelet: it has no mesh and
    no router. *)
Definition fallbackDiagnostics (order : list Checker → list Checker) (cfg : Config) (w : W) : W * string :=
  let '(w, r) := Collect order (cf_NodeName cfg) (newDiagnosticsCollector cfg None None) w in (w, Text r).
End checkers.
Arguments Checker : clear implicits.

(** ** What a report does to the host *)

Definition helper_probe : Request := mkReq "sysctl" ["-n"; "kern.ostype"] "".

Section helper.
Context {W : Type} `{!Link W}.

Lemma client_status_same (s : option (Server W)) w : ∃ r, client_status s w = (s, w, r).
Proof.
  destruct s as [s|]; [|by eexists]. unfold client_status, roundTrip.
  assert (decoded (mkWire Protocol OpStatus (mkReq "" [] "")) = Some (mkWire Protocol OpStatus (mkReq "" [] ""))) as -> by (vm_compute; reflexivity).
  destruct (delivery _ w); by eexists.
Qed.

(** A ping does nothing, or runs its probe once. *)
Lemma Ping_effect (s : option (Server W)) w :
  ∃ w' e, Ping s w = (s, w', e) ∧ (w' = w ∨ ∃ srv, s = Some srv ∧ w' = (s_exec srv helper_probe w).1).
Proof.
  destruct s as [s|]; [|by do 2 eexists; split; [reflexivity|left]]. unfold Ping, client_run, roundTrip.
  change (mkReq "sysctl" ["-n"; "kern.ostype"] "") with helper_probe.
  assert (decoded (mkWire Protocol OpExec helper_probe) = Some (mkWire Protocol OpExec helper_probe)) as -> by (vm_compute; reflexivity).
  assert (∃ w' resp, handle s (Some (mkWire Protocol OpExec helper_probe)) w = (s, w', resp) ∧ (w' = w ∨ w' = (s_exec s helper_probe w).1))
    as (w' & resp & -> & Hw).
  { unfold handle, handleExec. cbn -[helper_probe]. destruct (negb _); [by do 2 eexists; split; [reflexivity|left]|].
    destruct (match s_policy s with Some _ => _ | None => _ end) as [u|e]; [|by do 2 eexists; split; [reflexivity|left]].
    destruct (s_exec s helper_probe w) as [w1 [[[o eo] c] er]]. by do 2 eexists; split; [reflexivity|right]. }
  destruct (delivery _ w); do 2 eexists; (split; [reflexivity|]); naive_solver.
Qed.
End helper.

(** From [w] to [w'] only commands of [l] were run; [trace] lists those run so far. *)
Definition only {W} (trace : W → list Command) (l : list (string * list string)) (w w' : W) : Prop :=
  ∃ cs, trace w' = trace w ++ cs ∧ Forall (λ c, (c_name c, c_args c) ∈ l) cs.

Lemma only_same {W} (trace : W → list Command) l w w' : trace w' = trace w → only trace l w w'.
Proof. intros E. exists []. by rewrite app_nil_r. Qed.

Lemma only_one {W} (trace : W → list Command) l w w' c :
  trace w' = trace w ++ [c] → (c_name c, c_args c) ∈ l → only trace l w w'.
Proof. intros E Hc. exists [c]. split; [done|]. by constructor. Qed.

Lemma only_trans {W} (trace : W → list Command) l w1 w2 w3 : only trace l w1 w2 → only trace l w2 w3 → only trace l w1 w3.
Proof. intros (c1 & E1 & F1) (c2 & E2 & F2). exists (c1 ++ c2). rewrite E2, E1, app_assoc. split; [done|]. by apply Forall_app. Qed.

(** Running a command, the runtime's or the daemon's, records it. *)
Class Traced {W} (cli : Runner W) (tool : string → Cli W) (daemon : W → option (Server W)) (trace : W → list Command) : Prop := {
  run_traced c w : trace (run cli c w).1 = trace w ++ [c];
  tool_traced bin args w : trace (cli_exec (tool bin) args None w).1 = trace w ++ [mkCmd bin args ""];
  daemon_traced w0 s req w : daemon w0 = Some s → trace (s_exec s req w).1 = trace w ++ [mkCmd (Name req) (Args req) (Stdin req)];
}.

(** The commands of a report, the helper's probe included. *)
Definition report_commands (cfg : Config) : list (string * list string) :=
  [(if String.eqb (cf_RuntimeBinary cfg) "" then "container" else cf_RuntimeBinary cfg, ["system"; "status"]);
   ("sysctl", ["-n"; "net.inet.ip.forwarding"]); ("sysctl", ["-n"; "kern.ostype"])].

Section trace.
Context {W : Type} `{!Link W} (cli : Runner W) (tool : string → Cli W) (daemon : W → option (Server W)) (trace : W → list Command).
Context `{!Traced cli tool daemon trace}.
Context (node_get : string → W → ApiGet (list NodeCondition)) (lease_get : string → W → ApiGet (option Z)) (clock : W → Z).

Lemma Ready_only l bin w : (bin, ["system"; "status"]) ∈ l → only trace l w (Ready (tool bin) w).1.
Proof.
  intros Hin. unfold Ready, cli_output. pose proof (tool_traced bin ["system"; "status"] w) as Ht.
  destruct (cli_exec _ _ _ w) as [w1 [[out eo] e]]. cbn in *. by eapply only_one.
Qed.

Lemma helper_Status_same w : trace (helper_Status daemon w).1 = trace w.
Proof. unfold helper_Status. by destruct (client_status_same (daemon w) w) as [r ->]. Qed.

Lemma helper_Ping_only l w : ("sysctl", ["-n"; "kern.ostype"]) ∈ l → only trace l w (helper_Ping daemon w).1.
Proof.
  intros Hin. unfold helper_Ping. destruct (Ping_effect (daemon w) w) as (w' & e & -> & [->|(s & Hs & ->)]); cbn [fst]; [by apply only_same|].
  eapply only_one; [by apply (daemon_traced w)|done].
Qed.

Lemma run_checkers_only l cs w : Forall (λ c : Checker W, ∀ w, only trace l w (c w).1) cs → only trace l w (run_checkers cs w).1.
Proof.
  intros Hc. revert w. induction Hc as [|c cs Hc _ IH]; intros w; [by apply only_same|]. cbn [run_checkers]. specialize (Hc w).
  destruct (c w) as [w1 r]. specialize (IH w1). destruct (run_checkers cs w1) as [w2 rs]. by eapply only_trans.
Qed.

Lemma checkers_only cfg mesh router :
  Forall (λ c : Checker W, ∀ w, only trace (report_commands cfg) w (c w).1)
    (newDiagnosticsCollector cli tool daemon node_get lease_get clock cfg mesh router).
Proof.
  unfold newDiagnosticsCollector. cbv zeta. rewrite !Forall_cons, Forall_nil. split_and!; try done; intros w; try by apply only_same.
  - unfold runtimeChecker. pose proof (Ready_only (report_commands cfg) _ w ltac:(unfold report_commands; by left)) as H.
    destruct (Ready _ w). exact H.
  - unfold helperChecker. destruct (negb _); [by apply only_same|]. pose proof (helper_Status_same w) as Hs.
    destruct (helper_Status daemon w) as [w1 [st|e]]; cbn [fst] in Hs; [|by apply only_same].
    destruct (negb _); [by apply only_same|].
    pose proof (helper_Ping_only (report_commands cfg) w1 ltac:(unfold report_commands; set_solver)) as H.
    destruct (helper_Ping daemon w1). eapply only_trans; [by apply only_same|exact H].
  - unfold forwardingChecker. destruct (negb _); [by apply only_same|]. pose proof (run_traced read_forwarding w) as H.
    destruct (run cli _ w) as [w1 [out err]]. cbn in *. eapply only_one; [exact H|]. unfold report_commands. set_solver.
Qed.

(** Whatever the order its checkers are done in, a report runs the commands above and no other. *)
Lemma Collect_only order cfg mesh router w : (∀ l : list (Checker W), order l ≡ₚ l) →
  only trace (report_commands cfg) w
    (Collect order (cf_NodeName cfg) (newDiagnosticsCollector cli tool daemon node_get lease_get clock cfg mesh router) w).1.
Proof.
  intros Ho. unfold Collect. pose proof (run_checkers_only (report_commands cfg)
    (order (newDiagnosticsCollector cli tool daemon node_get lease_get clock cfg mesh router)) w) as H.
  destruct (run_checkers _ w). apply H. rewrite Ho. apply checkers_only.
Qed.

Lemma fallbackDiagnostics_only order cfg w : (∀ l : list (Checker W), order l ≡ₚ l) →
  only trace (report_commands cfg) w (fallbackDiagnostics cli tool daemon node_get lease_get clock order cfg w).1.
Proof.
  intros Ho. unfold fallbackDiagnostics. pose proof (Collect_only order cfg None None w Ho) as H. by destruct (Collect _ _ _ w).
Qed.
End trace.

(** ** A report is that of what its checkers observed *)

Section observed.
Context {W : Type} `{!Link W} (cli : Runner W) (tool : string → Cli W) (daemon : W → option (Server W)).
Context (node_get : string → W → ApiGet (list NodeCondition)) (lease_get : string → W → ApiGet (option Z)) (clock : W → Z).

(** A check the checker can yield. *)
Definition yields (c : Checker W) (r : Check_) : Prop := ∃ w, (c w).2 = r.

Lemma run_checkers_yield cs w : Forall2 yields cs (run_checkers cs w).2.
Proof.
  revert w. induction cs as [|c cs IH]; intros w; cbn [run_checkers]; [constructor|].
  destruct (c w) as [w1 r] eqn:E. specialize (IH w1). destruct (run_checkers cs w1) as [w2 rs]. constructor; [|exact IH].
  exists w. by rewrite E.
Qed.

Lemma helper_yields enabled configured r : yields (helperChecker daemon (configured && enabled) configured) r →
  ∃ st pg, r = helperCheck (configured && enabled) (if configured then Some (st, pg) else None).
Proof.
  intros [w <-]. unfold helperChecker. destruct configured; cbn [andb negb]; [|by exists (Err ""), (Ok tt)].
  destruct enabled; cbn [andb negb]; [|by exists (Err ""), (Ok tt)].
  destruct (helper_Status daemon w) as [w1 [st|e]]; [|by exists (Err e), (Ok tt)].
  destruct (negb _); [by exists (Ok st), (Ok tt)|]. destruct (helper_Ping daemon w1) as [w2 pg]. by exists (Ok st), pg.
Qed.

Lemma forwarding_yields enabled r : yields (forwardingChecker cli enabled) r →
  ∃ out, r = forwardingCheck enabled (Some (IPForwardingEnabled out)).
Proof.
  intros [w <-]. unfold forwardingChecker. destruct enabled; cbn [negb]; [|by exists (Err "")].
  destruct (run cli _ w) as [w1 [out err]]. by eexists.
Qed.

Lemma runtime_yields bin r : yields (runtimeChecker tool bin) r → ∃ x, r = runtimeCheck (Some x).
Proof. intros [w <-]. unfold runtimeChecker. destruct (Ready _ w). by eexists. Qed.

(** Whatever the order in which the checkers are done, the report is the one [Diagnostics]
    makes of observations some of them made. *)
Theorem Collect_observes order cfg mesh router w : (∀ l : list (Checker W), order l ≡ₚ l) →
  ∃ ob, (Collect order (cf_NodeName cfg) (newDiagnosticsCollector cli tool daemon node_get lease_get clock cfg mesh router) w).2 =
    Diagnostics cfg mesh router ob.
Proof.
  intros Ho. unfold Collect. set (cs := newDiagnosticsCollector _ _ _ _ _ _ _ _ _).
  pose proof (run_checkers_yield (order cs) w) as Hy. destruct (run_checkers (order cs) w) as [w' checks]. cbn [fst snd] in *.
  destruct (Permutation_Forall2 (Ho cs) Hy) as (rs & Hp & Hf). unfold cs, newDiagnosticsCollector in Hf. cbv zeta in Hf.
  repeat (apply Forall2_cons_inv_l in Hf as (? & ? & ? & Hf & ->)). apply Forall2_nil_inv_l in Hf as ->.
  repeat match goal with
  | H : yields (runtimeChecker _ _) _ |- _ => apply runtime_yields in H as (ready & ->)
  | H : yields (helperChecker _ _ _) _ |- _ => apply helper_yields in H as (st & pg & ->)
  | H : yields (forwardingChecker _ _) _ |- _ => apply forwarding_yields in H as (out & ->)
  | H : yields (looking (λ _, meshCheck _ _)) _ |- _ => destruct H as [? <-]
  | H : yields (looking (λ _, podNetworkCheck _ _ _ _)) _ |- _ => destruct H as [? <-]
  | H : yields (looking (λ _, nodeRegistrationCheck _)) _ |- _ => destruct H as [wn <-]
  | H : yields (looking (λ _, nodeLeaseCheck _)) _ |- _ => destruct H as [wl <-]
  end.
  exists (mkObs ready st pg out (node_get (cf_NodeName cfg) wn) (lease_get (cf_NodeName cfg) wl) (clock wl)).
  unfold Diagnostics. symmetry. apply report_verdict_stable; [rewrite diagnostics_keys; refine (bool_decide_unpack (dec := NoDup_dec _) _ _); vm_compute; exact I|].
  rewrite Hp. unfold diagnostics_checks, looking. cbn -[helperCheck forwardingCheck].
  by destruct (String.eqb (cf_PrivilegedHelperSocket cfg) "").
Qed.
End observed.
