(* ===== verification/Access.v ===== *)
(** * Reaching into Pods: [pkg/provider] logs_exec.go, portforward.go, metrics.go

    How the kubelet API finds the micro-VM behind a container, the outcome of
    logs, exec and port-forward, the copying of a forwarded stream as a system of
    goroutines, and the inputs of the metrics collector. *)

From S2P Require Import Prelude GoFloat GoStrings GoNet GoJson GoTime Ipam Host PodNet WireGuard NetConfig Filepath Sha256 PodSpec PodEnv Volumes.
From S2P Require Import Runtime Driver DriverStats Provider Config Metrics.

Open Scope Z_scope.

(** ** Logs and exec *)

(** [errdefs.NotFoundf], another error, or a command's exit status. *)
Inductive AccessError : Type := ANotFound (text : string) | AFailed (text : string) | AExit (code : Z).

Definition workloadID (p : Provider) (ns name container : string) : result AccessError string :=
  let key := podKey ns name in
  match pv_pods p !! key with
  | None => Err (ANotFound ("pod " +:+ Quote key +:+ " is not known to this node"))
  | Some st =>
      match List.find (λ w, String.eqb (wl_container w) container) (ps_workloads st) with
      | Some w => Ok (wl_id w)
      | None => Err (ANotFound ("container " +:+ Quote container +:+ " has no running workload in pod " +:+ Quote key))
      end
  end.

Definition mapExecLogError (ns name container : string) (e : RtError) : AccessError :=
  let key := podKey ns name in
  match re_kind e with
  | ErrNotFound => ANotFound ("container " +:+ Quote container +:+ " workload not found for pod " +:+ Quote key)
  | ErrNotRunning => AFailed ("container " +:+ Quote container +:+ " in pod " +:+ Quote key +:+ " is not running")
  | _ => AFailed (re_text e)
  end.

Section access.
Context {W : Type}.

(** [logs] is the driver's [Logs], [exec] its [Exec]. *)
Definition GetContainerLogs (logs : bool → Z → string → W → W * result RtError string) (p : Provider)
    (ns name container : string) (follow : bool) (tail : Z) (w : W) : W * result AccessError string :=
  match workloadID p ns name container with
  | Err e => (w, Err e)
  | Ok id =>
      let '(w', r) := logs follow tail id w in
      (w', match r with Ok out => Ok out | Err e => Err (mapExecLogError ns name container e) end)
  end.

Definition RunInContainer (exec : string → list string → option string → bool → W → W * ExecResult) (p : Provider)
    (ns name container : string) (cmd : list string) (stdin : option string) (tty : bool) (w : W)
    : W * result AccessError unit :=
  match workloadID p ns name container with
  | Err e => (w, Err e)
  | Ok id =>
      let '(w', r) := exec id cmd stdin tty w in
      (w', match r with
           | ExecOk => Ok tt
           | ExecExit _ code => Err (AExit code)
           | ExecFailed e => Err (mapExecLogError ns name container e)
           end)
  end.

(** ** Port-forward *)

Definition phase_text (p : Phase) : string :=
  match p with
  | PhaseUnknown => "Unknown" | PhaseCreated => "Created" | PhaseRunning => "Running"
  | PhaseStopped => "Stopped" | PhaseFailed => "Failed"
  end.

Definition portForwardTarget (RT : Runtime W) (st : podState) (key : string) (w : W) : W * result AccessError string :=
  let fail (t : string) := Err (AFailed ("port-forward to pod " +:+ Quote key +:+ ": " +:+ t)) in
  match ps_workloads st with
  | [] => (w, fail "pod has no running container")
  | wl :: _ =>
      let '(w', r) := rt_Status RT (wl_id wl) w in
      (w', match r with
           | Err e => if negb (String.eqb (ps_vmIP st) "") then Ok (ps_vmIP st) else fail (re_text e)
           | Ok rs =>
               if negb (bool_decide (st_Phase rs = PhaseRunning)) then
                 fail ("container is not running (" +:+ phase_text (st_Phase rs) +:+ ")")
               else if negb (String.eqb (st_IP rs) "") then Ok (st_IP rs)
               else if negb (String.eqb (ps_vmIP st) "") then Ok (ps_vmIP st)
               else fail "micro-VM has no address yet"
           end)
  end.

(** Up to the dial: the address to connect to. *)
Definition PortForward_address (RT : Runtime W) (p : Provider) (ns name : string) (port : Z) (w : W)
    : W * result AccessError string :=
  let key := podKey ns name in
  if (port <? 1) || (65535 <? port) then
    (w, Err (AFailed ("port-forward to pod " +:+ Quote key +:+ ": port " +:+ Itoa port +:+ " is out of range")))
  else match pv_pods p !! key with
  | None => (w, Err (ANotFound ("pod " +:+ Quote key +:+ " is not known to this node")))
  | Some st =>
      let '(w', r) := portForwardTarget RT st key w in
      (w', match r with Ok host => Ok (JoinHostPort host (Itoa port)) | Err e => Err e end)
  end.
End access.

(** ** Copying a forwarded stream

    [proxyStream] and its two copy goroutines.  A copy ends by itself, by an
    error, or because an endpoint was closed, and then sends on a channel of
    capacity 2. *)

Inductive First : Type := ByContext | ByCopy.
Inductive Main : Type := Selecting | Closing (f : First) | Draining (f : First) | Returned (f : First).

Record Proxy := mkProxy { px_up : bool; px_down : bool; px_done : nat; px_closed : bool; px_main : Main }.

(** Both copies running, the caller in its [select]. *)
Definition proxy_start : Proxy := mkProxy true true 0 false Selecting.

Inductive proxy_step : Proxy → Proxy → Prop :=
  | px_up_ends d n c m : (n < 2)%nat → proxy_step (mkProxy true d n c m) (mkProxy false d (S n) c m)
  | px_down_ends u n c m : (n < 2)%nat → proxy_step (mkProxy u true n c m) (mkProxy u false (S n) c m)
  | px_cancelled u d n c : proxy_step (mkProxy u d n c Selecting) (mkProxy u d n c (Closing ByContext))
  | px_first u d n c : proxy_step (mkProxy u d (S n) c Selecting) (mkProxy u d n c (Closing ByCopy))
  | px_close u d n c f : proxy_step (mkProxy u d n c (Closing f)) (mkProxy u d n true (Draining f))
  | px_drain u d n c f : proxy_step (mkProxy u d (S n) c (Draining f)) (mkProxy u d n c (Returned f)).

Definition proxy_steps : relation Proxy := rtc proxy_step.

(** ** Metrics inputs *)

Definition is_None_status (o : option PodStatus) : bool := match o with None => true | Some _ => false end.

(** [start] is a Pod's start time: its status's, or its creation's. *)
Definition pod_input (start : Pod → Z) (st : podState) : PodInput :=
  let pod := ps_pod st in
  mkPI (pod_Namespace pod) (pod_Name pod) (pod_UID pod) (start pod)
    ((λ w, mkCI (wl_container w) (wl_id w) (start pod)) <$> ps_workloads st).

(** Pods that can never run here are left out; [order] is the order in which Go
    visits the map. *)
Definition metricsPodInputs (start : Pod → Z) (order : list podState) : list PodInput :=
  pod_input start <$> filter (λ st, is_None_status (ps_terminalStatus st) = true) order.

(** [None] is a runtime without the capability. *)
Definition statsFunc {W} (stats : option (string → W → W * result StatsError ResourceStats)) : StatsFunc W := λ id w,
  match stats with
  | None => (w, None)
  | Some f => let '(w', r) := f id w in (w', match r with Ok rs => Some rs | Err _ => None end)
  end.

Definition diskFunc {W} (disk : option ((W → W * result string FilesystemUsage) * (W → W * result string ImageCacheUsage)))
    : option (DiskFunc W) :=
  match disk with
  | None => None
  | Some (fs, img) => Some (λ w,
      let '(w1, r1) := fs w in
      let '(w2, r2) := img w1 in
      (w2, mkDS (match r1 with Ok f => Some f | Err _ => None end) (match r2 with Ok i => Some i | Err _ => None end)))
  end.

(** [StatsSummary] over the provider's Pods. *)
Definition StatsSummary {W} stats mem disk (start : Pod → Z) (order : list podState) (now : Z) (c : Collector) (w : W)
    : W * (Collector * Summary) :=
  SummaryOf (statsFunc stats) mem (diskFunc disk) now (metricsPodInputs start order) c w.

Definition MetricsResource {W} (ready : W → W * (bool * string)) stats mem disk (start : Pod → Z) (order : list podState)
    (now : Z) (w : W) : W * list MetricFamily :=
  let pods := metricsPodInputs start order in
  let '(w1, (ok, _)) := ready w in
  ResourceMetrics (statsFunc stats) mem (diskFunc disk) now pods ok w1.

(** ** The copy goroutines are reaped *)

Definition px_received (m : Main) : nat :=
  match m with
  | Selecting | Closing ByContext | Draining ByContext => 0
  | Closing ByCopy | Draining ByCopy | Returned ByContext => 1
  | Returned ByCopy => 2
  end.
Definition px_ended (p : Proxy) : nat := (if px_up p then 0 else 1) + (if px_down p then 0 else 1).
Definition px_rank (p : Proxy) : nat :=
  (if px_up p then 1 else 0) + (if px_down p then 1 else 0) +
  match px_main p with Selecting => 3 | Closing _ => 2 | Draining _ => 1 | Returned _ => 0 end.

(** Messages in the channel and received are the copies that ended; past the
    closing both endpoints are closed. *)
Definition px_inv (p : Proxy) : Prop :=
  (px_done p + px_received (px_main p) = px_ended p)%nat ∧
  match px_main p with Draining _ | Returned _ => px_closed p = true | _ => True end.

Lemma px_step_inv p p' : proxy_step p p' → px_inv p → px_inv p' ∧ px_rank p = S (px_rank p').
Proof.
  destruct 1 as [d n c m|u n c m| | |u d n c []|u d n c []]; unfold px_inv, px_ended, px_rank; simpl; intros [H1 H2];
    split; try (split; [lia|done]); try lia; destruct m; lia.
Qed.

Lemma px_reach_inv n p : nsteps proxy_step n proxy_start p → px_inv p ∧ (n + px_rank p = 5)%nat.
Proof.
  intros H. assert (px_inv proxy_start) as Hs by done.
  assert (∀ q, nsteps proxy_step n q p → px_inv q → px_inv p ∧ (n + px_rank p = px_rank q)%nat) as Hn; [|by apply (Hn proxy_start)].
  clear H Hs. induction n as [|n IH]; intros q Hq Hi; inversion Hq as [|? ? y ? Hy Hr]; subst; [done|].
  destruct (px_step_inv _ _ Hy Hi) as [Hi' ->]. destruct (IH y Hr Hi') as [? ?]. split; [done|lia].
Qed.

Lemma px_running_sends p : px_inv p → px_up p || px_down p = true → (px_done p < 2)%nat.
Proof. unfold px_inv, px_ended. destruct p as [[] [] n c m]; simpl; try done; intros [? _] _; lia. Qed.

Lemma px_can_step p : px_inv p → (∀ p', ¬ proxy_step p p') → px_up p = false ∧ px_down p = false ∧ ∃ f, px_main p = Returned f.
Proof.
  intros Hi Hstuck. pose proof (px_running_sends p Hi) as Hs. destruct p as [[] d n c m]; simpl in *.
  { exfalso. eapply Hstuck. constructor. by apply Hs. }
  destruct d; [exfalso; eapply Hstuck; apply px_down_ends; by apply Hs|].
  split; [done|]. split; [done|]. destruct Hi as [Hi _]. unfold px_ended in Hi. simpl in Hi.
  destruct m as [|f|f|f]; [| | |by eexists]; exfalso.
  - eapply Hstuck. constructor.
  - eapply Hstuck. constructor.
  - destruct n; [destruct f; simpl in Hi; lia|]. eapply Hstuck. constructor.
Qed.

(** A run of a forwarded stream, taking as its steps the caller's and the end of each
    copy (a copy ends in its own time, at the latest when its endpoints are closed):
    every run has at most five steps, a copy that ends never blocks on the channel, and
    a run that can go no further has returned with both copies ended and both endpoints
    closed.  When the caller returns because a copy ended, the other has ended too;
    when it returns because it was cancelled, a copy may still be running
    ([cancelled_forward_leaves_copy]). *)
Theorem port_forward_winds_up n p :
  nsteps proxy_step n proxy_start p →
  (n ≤ 5)%nat ∧ (px_up p || px_down p = true → (px_done p < 2)%nat) ∧
  ((∀ p', ¬ proxy_step p p') → px_up p = false ∧ px_down p = false ∧ px_closed p = true ∧ ∃ f, px_main p = Returned f) ∧
  (px_main p = Returned ByCopy → px_up p = false ∧ px_down p = false).
Proof.
  intros [Hi Hr]%px_reach_inv. split; [lia|]. split; [by apply px_running_sends|]. split.
  - intros Hs. destruct (px_can_step p Hi Hs) as (? & ? & f & Hf). split_and!; try done; [|by exists f].
    destruct Hi as [_ Hc]. by rewrite Hf in Hc.
  - intros Hm. destruct Hi as [Hi _]. rewrite Hm in Hi. unfold px_ended in Hi. destruct p as [[] [] ? ? ?]; simpl in *; try done; lia.
Qed.

(** Cancelled while both copies run; one ends and the caller returns. *)
Definition cancelled : Proxy := mkProxy false true 0 true (Returned ByContext).

Lemma cancelled_run : nsteps proxy_step 4 proxy_start cancelled.
Proof. eapply nsteps_l; [apply px_cancelled|]. eapply nsteps_l; [apply px_close|]. eapply nsteps_l; [apply px_up_ends; lia|].
  eapply nsteps_l; [apply px_drain|]. constructor. Qed.

(** A cancelled forward returns after waiting for one copy only: the other can
    still be running, though both endpoints are closed. *)
Theorem cancelled_forward_leaves_copy :
  nsteps proxy_step 4 proxy_start cancelled ∧ px_main cancelled = Returned ByContext ∧ px_down cancelled = true.
Proof. split; [exact cancelled_run|done]. Qed.

Lemma port_forward_winds_up_witness : (4 ≤ 5)%nat ∧ (px_up cancelled || px_down cancelled = true → (px_done cancelled < 2)%nat).
Proof. destruct (port_forward_winds_up 4 cancelled cancelled_run) as (H1 & H2 & _). split; [exact H1|exact H2]. Defined.

(** ** Where a forward connects *)

(** A port-forward connects only for a port in range of a Pod this node has,
    to the address the runtime reports for its running micro-VM, or to the last
    one observed when the runtime cannot be asked or reports none; never to a
    micro-VM the runtime reports as not running. *)
Theorem port_forward_target {W} (RT : Runtime W) p ns name port w addr :
  (PortForward_address RT p ns name port w).2 = Ok addr →
  1 <= port <= 65535 ∧
  ∃ st wl host, pv_pods p !! podKey ns name = Some st ∧ head (ps_workloads st) = Some wl ∧
    addr = JoinHostPort host (Itoa port) ∧ host ≠ "" ∧
    match (rt_Status RT (wl_id wl) w).2 with
    | Ok rs => st_Phase rs = PhaseRunning ∧ host = (if String.eqb (st_IP rs) "" then ps_vmIP st else st_IP rs)
    | Err _ => host = ps_vmIP st
    end.
Proof.
  unfold PortForward_address. destruct ((port <? 1) || (65535 <? port)) eqn:Ep; [done|].
  destruct (pv_pods p !! podKey ns name) as [st|]; [|done]. unfold portForwardTarget.
  destruct (ps_workloads st) as [|wl wls] eqn:Ew; [done|].
  destruct (rt_Status RT (wl_id wl) w) as [w' [rs|e]] eqn:Es; simpl; intros H; (split; [bools; lia|]); exists st, wl.
  - case_bool_decide as Hph; simpl in H; [|done].
    destruct (String.eqb (st_IP rs) "") eqn:E1; simpl in H.
    + destruct (String.eqb (ps_vmIP st) "") eqn:E2; simpl in H; [done|]. injection H as <-. bools.
      exists (ps_vmIP st). rewrite Ew, Es. simpl. by rewrite E1.
    + injection H as <-. exists (st_IP rs). rewrite Ew, Es. simpl. rewrite E1. bools. done.
  - destruct (String.eqb (ps_vmIP st) "") eqn:E2; simpl in H; [done|]. injection H as <-. bools.
    exists (ps_vmIP st). by rewrite Ew, Es.
Qed.

(** ** Exit codes *)

(** The exit code [kubectl exec] reports is the guest command's, for every
    command of a known container: success exactly when the [container] command
    succeeded, and exit code [c] exactly when it exited with [c] and its standard
    error holds none of the phrases the driver takes for its own errors. *)
Theorem exec_exit_code {W} (C : Cli W) p ns name container id cmd stdin tty w w' out err e :
  workloadID p ns name container = Ok id → cmd ≠ [] →
  cli_exec C (exec_args tty (is_some stdin) id cmd) stdin w = (w', (out, err, e)) →
  let r := (RunInContainer (Exec C) p ns name container cmd stdin tty w).2 in
  (r = Ok tt ↔ e = None) ∧
  (∀ c, r = Err (AExit c) ↔ 0 <= c ∧ classify_stderr err = ErrOther ∧ ∃ x, e = Some x ∧ cli_ExitCode (newCommandError [] err x) = c).
Proof.
  intros Hid Hc He. unfold RunInContainer. rewrite Hid. unfold Exec, cli_run. destruct cmd as [|c0 cmd]; [done|]. rewrite He.
  destruct e as [x|]; simpl; [|split; [done|]; intros c; split; [done|]; intros (_ & _ & x & ? & _); done].
  rewrite mapErr_kind, newCommandError_stderr.
  assert (∀ a, cli_ExitCode (newCommandError a err x) = cli_ExitCode (newCommandError [] err x)) as Hx by by destruct x.
  rewrite Hx. set (code := cli_ExitCode (newCommandError [] err x)).
  case_bool_decide as Hk; [destruct (0 <=? code) eqn:E0|]; cbn [andb]; bools.
  - split; [done|]. intros c. split; [intros [= <-]; split_and!; [done..|by exists x]|].
    intros (_ & _ & ? & [= <-] & <-). done.
  - split; [done|]. intros c. split; [|intros (? & _ & ? & [= <-] & <-); fold code in H; lia].
    unfold mapExecLogError. destruct (re_kind _); done.
  - split; [done|]. intros c. split; [|intros (_ & ? & _); done].
    unfold mapExecLogError. destruct (re_kind _); done.
Qed.

(** ** A node with one Pod *)

Definition one_pod : Provider :=
  with_pods (NewProvider None None "" (mkVolPolicy "" []) (mkDNS [] "") None None None)
    {[podKey "ns" "a" := web_state None]}.

(** The driver over the simulated command, the Pod's micro-VM running. *)
Definition one_vm : ToolSim := {["macvz-ns-a-web" := mkSC "running" "2024-05-01T10:00:00Z" "192.168.64.7/24"]}.

Lemma port_forward_target_witness :
  ∃ st wl host, pv_pods one_pod !! podKey "ns" "a" = Some st ∧ head (ps_workloads st) = Some wl ∧
    "192.168.64.7:8080" = JoinHostPort host "8080".
Proof.
  destruct (port_forward_target (driver_runtime tool_sim (mkDriver false "")) one_pod "ns" "a" 8080 one_vm "192.168.64.7:8080")
    as (_ & st & wl & host & H1 & H2 & H3 & _); [vm_compute; reflexivity|].
  exists st, wl, host. split; [exact H1|]. split; [exact H2|exact H3].
Defined.

Lemma exec_exit_code_witness :
  (RunInContainer (Exec (shell_tool "")) one_pod "ns" "a" "web" ["sh"; "-c"; "frob"] None false tt).2 = Err (AExit 127).
Proof.
  apply (exec_exit_code (shell_tool "") one_pod "ns" "a" "web" "macvz-ns-a-web" ["sh"; "-c"; "frob"] None false tt tt "" ""
    (Some (Exited 127 "exit status 127"))); [vm_compute; reflexivity|done|reflexivity|].
  split; [lia|]. split; [vm_compute; reflexivity|]. by eexists.
Defined.
