(* ===== verification/Retry.v ===== *)
(** * Waiting at startup: the retry loops of [cmd/macvz-kubelet/serve.go]

    Three loops try something until it succeeds or a deadline passes: waiting for
    the API server, for the node's Pod CIDR, and for the kubelet's port.  Time is
    explicit, in nanoseconds since the loop began.  A [select] takes the branch that
    is ready first; where several are ready at the same time Go may take any of
    them, which [coin] decides.  A cancelled parent context is a deadline that
    passes early. *)

From S2P Require Import Prelude GoStrings GoTime.

Open Scope Z_scope.

(** What one attempt leads to: an end of the loop, or another attempt. *)
Inductive Attempt (A : Type) : Type := Done (a : A) | Fatal (msg : string) | Again (msg : string) | Expired.
Arguments Done {A} _. Arguments Fatal {A} _. Arguments Again {A} _. Arguments Expired {A}.

Inductive RetryError : Type := RFatal (msg : string) | RDeadline (last : string).

(** Of two events, the one that is ready first. *)
Definition first {E} (coin : bool) (x y : Z * E) : Z * E :=
  if x.1 <? y.1 then x else if y.1 <? x.1 then y else if coin then x else y.

Section retry.
Context {A : Type} (deadline : Z) (coin : nat → bool).
Context (attempt : nat → Z → Z * Attempt A) (wake : Z → Z → Z).

(** The [n]-th attempt begins at [t]; after one that ended at [t'], the timer
    fires at [wake t t'] and the deadline is seen at once if it has passed. *)
Fixpoint retry (fuel n : nat) (t : Z) (lastErr : string) : option (Z * result RetryError A) :=
  match fuel with
  | O => None
  | S fuel' =>
      match attempt n t with
      | (t', Done a) => Some (t', Ok a)
      | (t', Fatal msg) => Some (t', Err (RFatal msg))
      | (t', Expired) => Some (t', Err (RDeadline lastErr))
      | (t', Again msg) =>
          match first (coin n) (Z.max t' deadline, false) (wake t t', true) with
          | (t2, false) => Some (t2, Err (RDeadline msg))
          | (t2, true) => retry fuel' (S n) t2 msg
          end
      end
  end.

(** ** Termination, a time limit and success *)

Context (step : Z).
Hypothesis step_pos : 0 < step.
Hypothesis attempt_after : ∀ n t t' r, attempt n t = (t', r) → t ≤ t'.
Hypothesis wake_after : ∀ t t', t ≤ t' → step * (t / step + 1) ≤ wake t t'.
Hypothesis in_time : ∀ n t t' r, t ≤ deadline → attempt n t = (t', r) → wake t t' ≤ Z.max t' deadline → wake t t' ≤ deadline.

(** The attempts that begin by the deadline are numbered by [t / step]. *)
Definition attempts_left (t : Z) : nat := Z.to_nat (deadline / step - t / step + 1).

Lemma first_true c (d w : Z) t2 : first c (d, false) (w, true) = (t2, true) → t2 = w ∧ w ≤ d.
Proof. unfold first. cbn [fst]. repeat case_match; intros; simplify_eq; bools; lia. Qed.
Lemma first_false c (d w : Z) t2 : first c (d, false) (w, true) = (t2, false) → t2 = d ∧ d ≤ w.
Proof. unfold first. cbn [fst]. repeat case_match; intros; simplify_eq; bools; lia. Qed.

Lemma next_attempt n t t' m t2 : t ≤ deadline → attempt n t = (t', Again m) →
  first (coin n) (Z.max t' deadline, false) (wake t t', true) = (t2, true) →
  t ≤ t2 ≤ deadline ∧ (attempts_left t2 < attempts_left t)%nat.
Proof.
  intros Ht Ha [-> Hw]%first_true. pose proof (attempt_after _ _ _ _ Ha) as Hle.
  pose proof (in_time _ _ _ _ Ht Ha Hw) as Hd. pose proof (wake_after _ _ Hle) as Hs.
  assert (t / step + 1 ≤ wake t t' / step) as Hr by (apply Z.div_le_lower_bound; lia).
  pose proof (Z.div_le_mono _ _ step step_pos Hd) as Hq. split; [|unfold attempts_left; lia].
  split; [|done]. pose proof (Z.mul_succ_div_gt t step step_pos). lia.
Qed.

Lemma retry_total fuel n t e : t ≤ deadline → (attempts_left t ≤ fuel)%nat → is_Some (retry fuel n t e).
Proof.
  revert n t e. induction fuel as [|fuel IH]; intros n t e Ht Hf.
  { pose proof (Z.div_le_mono _ _ step step_pos Ht). unfold attempts_left in Hf. lia. }
  cbn [retry]. destruct (attempt n t) as [t' [a|m|m|]] eqn:Ea; [by eexists..| |by eexists].
  destruct (first _ _ _) as [t2 []] eqn:Ef; [|by eexists].
  destruct (next_attempt _ _ _ _ _ Ht Ea Ef) as [? ?]. apply IH; lia.
Qed.

(** An end of the loop, and the attempt it came from. *)
Lemma retry_end fuel n t e t1 r : t ≤ deadline → retry fuel n t e = Some (t1, r) →
  ∃ k s s' x, t ≤ s ≤ deadline ∧ attempt k s = (s', x) ∧ (s' ≤ t1 ≤ Z.max s' deadline) ∧
    match r with
    | Ok a => x = Done a ∧ t1 = s'
    | Err (RFatal m) => x = Fatal m
    | Err (RDeadline m) => x = Again m ∨ x = Expired
    end.
Proof.
  revert n t e. induction fuel as [|fuel IH]; intros n t e Ht; [done|]. cbn [retry].
  destruct (attempt n t) as [t' x] eqn:Ea. destruct x as [a|m|m|].
  1, 2, 4: intros [= <- <-]; exists n, t, t'; eexists; (split_and!; [lia|lia|exact Ea|lia|lia|..]; auto).
  destruct (first _ _ _) as [t2 []] eqn:Ef.
  - destruct (next_attempt _ _ _ _ _ Ht Ea Ef) as [Ht2 _]. intros (k & s & s' & x & Hs & Hrest)%IH; [|lia].
    exists k, s, s', x. split; [lia|done].
  - intros [= <- <-]. apply first_false in Ef as [-> _]. exists n, t, t', (Again m). split_and!; auto; lia.
Qed.

(** From [T] on every attempt succeeds, and none is more than [gap] after the one
    before: then the loop succeeds if it gets to an attempt after [T] in time. *)
Lemma retry_succeeds T gap fuel n t e : t ≤ T + gap → T + gap < deadline → (attempts_left t ≤ fuel)%nat → 0 ≤ gap →
  (∀ n t, T ≤ t ≤ T + gap → ∃ t' a, attempt n t = (t', Done a)) →
  (∀ n t, t < T → ∃ t' x, attempt n t = (t', x) ∧ ((∃ a, x = Done a) ∨ ∃ m, x = Again m ∧ wake t t' ≤ t + gap)) →
  ∃ t1 a, retry fuel n t e = Some (t1, Ok a).
Proof.
  intros Ht Hd Hf Hgap Hgood Hbad. revert n t e Ht Hf. induction fuel as [|fuel IH]; intros n t e Ht Hf.
  { assert (t ≤ deadline) as Htd by lia. pose proof (Z.div_le_mono _ _ step step_pos Htd). unfold attempts_left in Hf. lia. }
  cbn [retry]. destruct (Z_lt_le_dec t T) as [Hlt|Hge].
  - destruct (Hbad n t Hlt) as (t' & x & Ea & [[a ->]|(m & -> & Hw)]); rewrite Ea; [by eexists _, _|].
    destruct (first _ _ _) as [t2 []] eqn:Ef.
    + assert (t ≤ deadline) as Htd by lia. destruct (next_attempt _ _ _ _ _ Htd Ea Ef) as [? ?]. pose proof (first_true _ _ _ _ Ef) as [-> _]. apply IH; lia.
    + apply first_false in Ef as [_ Hf2]. pose proof (attempt_after _ _ _ _ Ea). lia.
  - destruct (Hgood n t) as (t' & a & ->); [lia|]. by eexists _, _.
Qed.
End retry.

(** ** Waiting for the API server *)

Definition apiReachabilityTimeout : Z := 30 * Second.
Definition apiReachabilityProbe : Z := 5 * Second.
Definition apiReachabilityRetry : Z := Second.

Section api.
(** The answer of the [n]-th probe, begun at a time: after how long, if ever, and
    what; [coins] decides the ties of the [n]-th round. *)
Context (deadline probeTimeout retryDelay : Z) (ctxErr : string) (coins : nat → nat → bool).
Context (answers : nat → Z → option (Z * result string unit)).

Definition probe_outcome (r : result string unit) : Attempt unit := match r with Ok _ => Done tt | Err m => Again m end.

Definition api_attempt (n : nat) (t : Z) : Z * Attempt unit :=
  let timeout := (t + probeTimeout, Again ("API probe timed out after " +:+ Duration_String probeTimeout)) in
  let expired := (Z.max t deadline, Expired) in
  match answers n t with
  | Some (lat, r) => first (coins n 1%nat) (first (coins n 0%nat) (t + lat, probe_outcome r) timeout) expired
  | None => first (coins n 1%nat) timeout expired
  end.

Definition waitForAPIServerWithTimeout (fuel : nat) : option (Z * result RetryError unit) :=
  retry deadline (λ n, coins n 2%nat) api_attempt (λ _ t', t' + retryDelay) fuel 0 0 ctxErr.

Lemma first_time {E} c (x y : Z * E) : (first c x y).1 = Z.min x.1 y.1.
Proof. unfold first. repeat case_match; bools; lia. Qed.

Hypothesis latency : ∀ n t lat r, answers n t = Some (lat, r) → 0 ≤ lat.
Hypothesis timing : 0 ≤ probeTimeout ∧ 0 < retryDelay ∧ 0 ≤ deadline.

Lemma api_attempt_times n t t' x : api_attempt n t = (t', x) → t ≤ t' ≤ Z.max t deadline ∧ t' ≤ t + probeTimeout.
Proof.
  intros H%(f_equal fst). unfold api_attempt in H. destruct (answers n t) as [[lat r]|] eqn:Ea; [apply latency in Ea|];
    rewrite !first_time in H; cbn [fst] in H; lia.
Qed.

Lemma api_done n t t' : api_attempt n t = (t', Done tt) → ∃ lat, answers n t = Some (lat, Ok tt) ∧ t' = t + lat.
Proof.
  unfold api_attempt, first. destruct (answers n t) as [[lat [[]|m]]|]; cbn [fst probe_outcome];
    repeat case_match; intros; simplify_eq; eauto.
Qed.

(** The fuel covers every probe that can begin by the deadline. *)
Context (fuel : nat).
Hypothesis enough : (attempts_left deadline retryDelay 0 ≤ fuel)%nat.

Lemma api_wake t t' : t ≤ t' → retryDelay * (t / retryDelay + 1) ≤ t' + retryDelay.
Proof. intros Ht. pose proof (Z.mul_div_le t retryDelay). lia. Qed.

Lemma api_begins n t t' r : api_attempt n t = (t', r) → t ≤ t'.
Proof. intros [? _]%api_attempt_times. lia. Qed.

Lemma api_in_time n t t' r :
  t ≤ deadline → api_attempt n t = (t', r) → t' + retryDelay ≤ Z.max t' deadline → t' + retryDelay ≤ deadline.
Proof. intros ? [? _]%api_attempt_times ?. lia. Qed.

Lemma retry_pos : 0 < retryDelay.
Proof. tauto. Qed.

Lemma api_wait_ends : ∃ t r, waitForAPIServerWithTimeout fuel = Some (t, r) ∧ 0 ≤ t ≤ deadline ∧
  (r = Ok tt → ∃ n s lat, 0 ≤ s ∧ answers n s = Some (lat, Ok tt) ∧ t = s + lat).
Proof.
  unfold waitForAPIServerWithTimeout. assert (0 ≤ deadline) as Hd by tauto.
  destruct (retry_total deadline (λ n, coins n 2%nat) api_attempt (λ _ t', t' + retryDelay) retryDelay retry_pos api_begins api_wake
    api_in_time fuel 0 0 ctxErr) as [[t r] Hr]; [lia|done|]. exists t, r. split; [done|].
  destruct (retry_end deadline (λ n, coins n 2%nat) api_attempt (λ _ t', t' + retryDelay) retryDelay retry_pos api_begins api_wake
    api_in_time _ _ _ _ _ _ Hd Hr) as (k & s & s' & x & Hs & Hx & Ht & Hm).
  pose proof (api_attempt_times _ _ _ _ Hx) as [Hs' _]. split; [lia|]. intros ->. destruct Hm as [-> ->].
  apply api_done in Hx as (lat & Hl & ->). exists k, s, lat. split_and!; [lia|done|done].
Qed.

(** An API server that answers every probe begun from [T] on within [L] is seen. *)
Lemma api_wait_succeeds T L : 0 ≤ T → L < probeTimeout → T + probeTimeout + retryDelay + L < deadline →
  (∀ n t, T ≤ t → ∃ lat, answers n t = Some (lat, Ok tt) ∧ lat ≤ L) →
  ∃ t, waitForAPIServerWithTimeout fuel = Some (t, Ok tt).
Proof.
  intros HT HL Hd Hgood. assert (0 ≤ L) by (destruct (Hgood O T) as (lat & Ea%latency & ?); lia).
  destruct (retry_succeeds deadline (λ n, coins n 2%nat) api_attempt (λ _ t', t' + retryDelay) retryDelay retry_pos api_begins api_wake
    api_in_time T (probeTimeout + retryDelay) fuel 0 0 ctxErr) as (t1 & [] & Hr); [lia|lia|done|lia|..|by exists t1].
  - intros n t Ht. destruct (Hgood n t) as (lat & Ha & Hl); [lia|]. exists (t + lat), tt. unfold api_attempt. rewrite Ha.
    unfold first. cbn [fst probe_outcome]. repeat (case_match; bools; cbn [fst] in *; try lia); done.
  - intros n t Ht. destruct (api_attempt n t) as [t' x] eqn:Ea. exists t', x. split; [done|].
    pose proof (api_attempt_times _ _ _ _ Ea) as [Ht' Hp]. destruct x as [a|m|m|]; [by left; eauto|..|right; exists m; split; [done|lia]|].
    + exfalso. clear -Ea. unfold api_attempt, first in Ea. repeat (case_match; simplify_eq/=); unfold probe_outcome in *; by repeat case_match.
    + exfalso. apply (f_equal fst) in Ea as Et. unfold api_attempt in Ea, Et. destruct (answers n t) as [[lat r]|] eqn:El; rewrite ?first_time in Et;
        cbn [fst] in Et; unfold first in Ea; cbn [fst] in Ea; repeat (case_match; bools; simplify_eq/=; try lia);
        unfold probe_outcome in *; repeat case_match; simplify_eq; lia.
Qed.
End api.

Definition waitForAPIServer (deadline : Z) :=
  waitForAPIServerWithTimeout deadline apiReachabilityProbe apiReachabilityRetry.

(** C40: The startup wait for the API server, for a deadline of at most the thirty
    seconds the source gives it (less when the parent context ends first), with time
    passing only while the loop waits.  Whatever a probe answers, after whatever delay
    or never, and however ties between ready branches fall, the wait returns after at
    most 31 probes and by its deadline; it returns success only at the moment a probe
    is answered with success; and it does return success when every probe begun from
    some moment [T] on is answered with success within a time [L] below the probe
    timeout, provided that [T], six seconds and [L] together are within the deadline. *)
Theorem api_wait_bounded deadline ctxErr coins answers
    (Hd : 0 ≤ deadline ≤ apiReachabilityTimeout) (Hlat : ∀ n t lat r, answers n t = Some (lat, r) → 0 ≤ lat) :
  let wait := waitForAPIServer deadline ctxErr coins answers 31 in
  (∃ t r, wait = Some (t, r) ∧ 0 ≤ t ≤ deadline ∧
     (r = Ok tt → ∃ n s lat, 0 ≤ s ∧ answers n s = Some (lat, Ok tt) ∧ t = s + lat)) ∧
  (∀ T L, 0 ≤ T → L < apiReachabilityProbe → T + 6 * Second + L < deadline →
     (∀ n t, T ≤ t → ∃ lat, answers n t = Some (lat, Ok tt) ∧ lat ≤ L) → ∃ t, wait = Some (t, Ok tt)).
Proof.
  cbn zeta. assert (0 ≤ apiReachabilityProbe ∧ 0 < apiReachabilityRetry ∧ 0 ≤ deadline) as Ht by (split_and!; [done|done|lia]).
  assert (attempts_left deadline apiReachabilityRetry 0 ≤ 31)%nat as Hf.
  { unfold attempts_left. pose proof (Z.div_le_mono deadline _ Second ltac:(done) (proj2 Hd)) as Hq.
    change (apiReachabilityTimeout / Second) with 30 in Hq. unfold apiReachabilityRetry. rewrite Z.div_0_l by done. lia. }
  split; [by apply api_wait_ends|]. intros T L HT HL Hlim Hgood. apply (api_wait_succeeds _ _ _ _ _ _ Hlat Ht 31 Hf T L); [done|done| |done].
  unfold apiReachabilityProbe, apiReachabilityRetry. lia.
Qed.

(** A server that is down for ten seconds and then answers at once. *)
Definition slow_api (n : nat) (t : Z) : option (Z * result string unit) :=
  if t <? 10 * Second then Some (0, Err "connection refused") else Some (0, Ok tt).

Lemma api_wait_bounded_witness : ∃ t, waitForAPIServer apiReachabilityTimeout "" (λ _ _, true) slow_api 31 = Some (t, Ok tt).
Proof.
  assert (∀ n t lat r, slow_api n t = Some (lat, r) → 0 ≤ lat) as Hlat.
  { unfold slow_api. intros n t lat r. case_match; intros; simplify_eq; done. }
  assert (0 ≤ apiReachabilityTimeout ≤ apiReachabilityTimeout) as Hd by done.
  apply (api_wait_bounded apiReachabilityTimeout "" (λ _ _, true) slow_api Hd Hlat) with (T := 10 * Second) (L := 0); [done..|].
  intros n t Ht. exists 0. unfold slow_api. by rewrite (proj2 (Z.ltb_ge _ _) Ht).
Defined.

(** ** Waiting for the Pod CIDR *)

Definition podCIDRWaitTimeout : Z := 30 * Second.

Section podcidr.
(** How long the [n]-th [Get] takes and the node's Pod CIDR, if it was read. *)
Context (deadline : Z) (coin : nat → bool) (gets : nat → Z → Z * option string).

Definition cidr_attempt (n : nat) (t : Z) : Z * Attempt string :=
  let '(lat, r) := gets n t in
  (t + lat, match r with Some c => if String.eqb c "" then Again "" else Done c | None => Again "" end).

(** A ticker keeps one tick: after an attempt that took longer than its period the
    tick is there already. *)
Definition tick (t t' : Z) : Z := Z.max t' (Second * (t / Second + 1)).

Definition waitForPodCIDR (fuel : nat) : option (Z * result RetryError string) := retry deadline coin cidr_attempt tick fuel 0 0 "".

Hypothesis deadline_pos : 0 ≤ deadline.
(** A request ends with its context. *)
Hypothesis bounded_get : ∀ n t, 0 ≤ (gets n t).1 ∧ t + (gets n t).1 ≤ Z.max t deadline.

Lemma cidr_times n t t' r : cidr_attempt n t = (t', r) → t ≤ t' ≤ Z.max t deadline.
Proof. unfold cidr_attempt. pose proof (bounded_get n t). destruct (gets n t) as [lat o]. intros [= <- _]. cbn in *. lia. Qed.

Lemma podcidr_wait_ends fuel : (attempts_left deadline Second 0 ≤ fuel)%nat →
  ∃ t r, waitForPodCIDR fuel = Some (t, r) ∧ 0 ≤ t ≤ deadline ∧
    (∀ c, r = Ok c → c ≠ "" ∧ ∃ n s lat, gets n s = (lat, Some c)).
Proof.
  intros Hf. unfold waitForPodCIDR.
  assert (∀ n t t' r, cidr_attempt n t = (t', r) → t ≤ t') as Hb by (intros ???? ?%cidr_times; lia).
  assert (∀ t t', t ≤ t' → Second * (t / Second + 1) ≤ tick t t') as Hw by (unfold tick; lia).
  assert (∀ n t t' r, t ≤ deadline → cidr_attempt n t = (t', r) → tick t t' ≤ Z.max t' deadline → tick t t' ≤ deadline) as Hi
    by (intros ????? ?%cidr_times; lia).
  assert (0 < Second) as Hs0 by done.
  destruct (retry_total deadline coin cidr_attempt tick Second Hs0 Hb Hw Hi fuel 0 0 "") as [[t r] Hr]; [lia|done|].
  exists t, r. split; [done|].
  destruct (retry_end deadline coin cidr_attempt tick Second Hs0 Hb Hw Hi _ _ _ _ _ _ deadline_pos Hr)
    as (k & s & s' & x & Hs & Hx & Ht & Hm).
  pose proof (cidr_times _ _ _ _ Hx). split; [lia|]. intros c ->. destruct Hm as [-> ->].
  unfold cidr_attempt in Hx. destruct (gets k s) as [lat [c'|]] eqn:Eg; [|by simplify_eq].
  destruct (String.eqb_spec c' ""); simplify_eq. eauto.
Qed.
End podcidr.

(** ** Waiting for the kubelet's port *)

Definition kubeletListenTimeout : Z := 10 * Second.
Definition kubeletListenRetry : Z := Second / 4.

(** What [Listen] yields; only a port in use is worth another attempt. *)
Inductive Listened : Type := Bound | AddrInUse (msg : string) | ListenFailed (msg : string).

Definition isAddrInUse (r : Listened) : bool := match r with AddrInUse _ => true | _ => false end.

Section listen.
Context (deadline retryDelay : Z) (coin : nat → bool) (listen : nat → Z → Z * Listened).

Definition listen_attempt (n : nat) (t : Z) : Z * Attempt unit :=
  let '(lat, r) := listen n t in
  (t + lat, match r with Bound => Done tt | AddrInUse m | ListenFailed m => if isAddrInUse r then Again m else Fatal m end).

Definition listenWithRetry (fuel : nat) : option (Z * result RetryError unit) :=
  retry deadline coin listen_attempt (λ _ t', t' + retryDelay) fuel 0 0 "".

Hypothesis timing : 0 < retryDelay ∧ 0 ≤ deadline.
Hypothesis latency : ∀ n t, 0 ≤ (listen n t).1.

Lemma listen_begins n t t' r : listen_attempt n t = (t', r) → t ≤ t'.
Proof. unfold listen_attempt. pose proof (latency n t). destruct (listen n t) as [lat x]. intros [= <- _]. cbn in *. lia. Qed.

Lemma listen_ends fuel : (attempts_left deadline retryDelay 0 ≤ fuel)%nat →
  ∃ t r, listenWithRetry fuel = Some (t, r) ∧ ∃ k s, 0 ≤ s ≤ deadline ∧
    match r with
    | Ok _ => (listen k s).2 = Bound
    | Err (RFatal m) => (listen k s).2 = ListenFailed m
    | Err (RDeadline m) => (listen k s).2 = AddrInUse m
    end.
Proof.
  intros Hf. unfold listenWithRetry. destruct timing as [Hr0 Hd].
  assert (∀ t t', t ≤ t' → retryDelay * (t / retryDelay + 1) ≤ t' + retryDelay) as Hw
    by (intros t t' ?; pose proof (Z.mul_div_le t retryDelay); lia).
  assert (∀ n t t' r, t ≤ deadline → listen_attempt n t = (t', r) → t' + retryDelay ≤ Z.max t' deadline → t' + retryDelay ≤ deadline)
    as Hi by (intros; lia).
  destruct (retry_total deadline coin listen_attempt (λ _ t', t' + retryDelay) retryDelay Hr0 listen_begins Hw Hi fuel 0 0 "")
    as [[t r] Hr]; [lia|done|]. exists t, r. split; [done|].
  destruct (retry_end deadline coin listen_attempt (λ _ t', t' + retryDelay) retryDelay Hr0 listen_begins Hw Hi _ _ _ _ _ _ Hd Hr)
    as (k & s & s' & x & Hs & Hx & Ht & Hm). exists k, s. split; [done|].
  unfold listen_attempt in Hx. destruct (listen k s) as [lat [|m|m]]; simplify_eq; destruct r as [[]|[e|e]]; cbn in *; naive_solver.
Qed.
End listen.
