(* ===== verification/Startup.v ===== *)
(** * Starting the kubelet: [cmd/macvz-kubelet/main.go] and [serve.go]

    The order in which [run] brings the node up, the gate in front of the data
    plane, and the clean-up that unwinds it.  The
    Kubernetes client, the Virtual Kubelet controllers and what [Serving] models
    are parameters: operations on the kubelet's state. *)

From S2P Require Import Prelude GoStrings GoNet GoTime Ipam Host PodNet PrivPolicy PrivHelper PodNetPolicy WireGuard NetConfig PodSpec Volumes PodEnv Runtime Cleanup Provider Lifecycle Config NodeStatus Retry.

Open Scope Z_scope.

Inductive StartError : Type :=
  | SRestConfig (msg : string)
  | SCapacity (e : CfgError)
  | STaints (e : CfgError)
  | SHeartbeat (e : CfgError)
  | SHelperDown (socket : string) (e : ClientError)
  | SHelperExec (socket : string) (e : ClientError)
  | SHelperUnsafe (socket : string)
  | SMeshConfig (e : ConfigError)
  | SMeshUp (iface : string) (e : MeshError)
  | SPodNet (e : NetError)
  | SClient (msg : string)
  | SApi (msg : string)
  | SNodeController (msg : string)
  | SNodeExited (msg : string)
  | SIpam (msg : string)
  | SPods (msg : string)
  | SReaper (msg : string)
  | SServer (msg : string)
  | SShutdown (msg : string).

(** The kubelet's own state: the helper it talks to (none answers), the host, and
    the mesh and the router once they are up. *)
Record Kubelet (W : Type) := mkKubelet {
  kb_host : option (Server W) * W; kb_mesh : option Mesh; kb_router : option Router;
}.
Arguments mkKubelet {W} _ _ _. Arguments kb_host {W} _. Arguments kb_mesh {W} _. Arguments kb_router {W} _.

(** ** The data plane *)

Section plane.
Context `{MapRange} {W : Type} `{!Link W} (cli : Runner W).

(** [WithHelperSocket]: through the helper when a socket is configured, else the
    command-line runner. *)
Definition plane_runner (c : Config) : Runner (option (Server W) * W) :=
  if String.eqb (cf_PrivilegedHelperSocket c) "" then
    mkRunner (λ cmd h, let '(w, r) := run cli cmd h.2 in ((h.1, w), r))
  else helperRunner.

Definition plane_wanted (c : Config) : bool :=
  negb (String.eqb (cf_PrivilegedHelperSocket c) "") && (mc_Enabled (cf_Mesh c) || pn_Enabled (cf_PodNetwork c)).

(** The check [run] makes before it touches the host's network. *)
Definition helper_gate (c : Config) (h : option (Server W) * W) : (option (Server W) * W) * result StartError unit :=
  if plane_wanted c then
    let socket := cf_PrivilegedHelperSocket c in
    match client_status h.1 h.2 with
    | (s, w, Err e) => ((s, w), Err (SHelperDown socket e))
    | (s, w, Ok st) =>
        match Ping s w with
        | (s, w, Some e) => ((s, w), Err (SHelperExec socket e))
        | (s, w, None) => ((s, w), if st_enforced st then Ok tt else Err (SHelperUnsafe socket))
        end
    end
  else (h, Ok tt).

(** [file] and [rand]: the mesh key as it is read or made. *)
Definition setupMesh (c : Config) (file : result string (option string)) (rand : Key) (k : Kubelet W)
    : Kubelet W * result StartError unit :=
  if negb (mc_Enabled (cf_Mesh c)) then (k, Ok tt) else
  match MeshInterfaceConfig (net_of c) file rand with
  | Err e => (k, Err (SMeshConfig e))
  | Ok ifc =>
      match Up (plane_runner c) (Mesh_New ifc) (kb_host k) with
      | (_, h, Err e) => (mkKubelet h (kb_mesh k) (kb_router k), Err (SMeshUp (i_Name ifc) e))
      | (m, h, Ok _) => (mkKubelet h (Some m) (kb_router k), Ok tt)
      end
  end.

Definition stopMesh (c : Config) (k : Kubelet W) : Kubelet W :=
  match kb_mesh k with
  | None => k
  | Some m => let '(m, h) := Down (plane_runner c) m (kb_host k) in mkKubelet h (Some m) (kb_router k)
  end.

Definition setupPodNetwork (c : Config) (k : Kubelet W) : Kubelet W * result StartError unit :=
  if negb (pn_Enabled (cf_PodNetwork c)) then (k, Ok tt) else
  match Start (plane_runner c) (New (PodNetworkRouterConfig (net_of c))) (kb_host k) with
  | (_, h, Err e) => (mkKubelet h (kb_mesh k) (kb_router k), Err (SPodNet e))
  | (rt, h, Ok _) => (mkKubelet h (kb_mesh k) (Some rt), Ok tt)
  end.

Definition stopPodNet (c : Config) (k : Kubelet W) : Kubelet W :=
  match kb_router k with
  | None => k
  | Some rt => let '(rt, h, _) := Stop (plane_runner c) rt (kb_host k) in mkKubelet h (kb_mesh k) (Some rt)
  end.

(** The control plane around it, as operations on the kubelet. *)
Inductive NodeOutcome : Type := NodeReady | NodeDone (msg : string) | NodeShutdown.

Record Control := mkControl {
  ct_BuildNode : Kubelet W → Kubelet W;
  ct_NewForConfig : Kubelet W → Kubelet W * result string unit;
  ct_WaitForAPIServer : Kubelet W → Kubelet W * result string unit;
  ct_NewNodeController : Kubelet W → Kubelet W * result string unit;
  ct_NodeReady : Kubelet W → Kubelet W * NodeOutcome;
  ct_SetupIPAM : Kubelet W → Kubelet W * result string unit;
  ct_StartServices : Kubelet W → Kubelet W;
  ct_StopServices : Kubelet W → Kubelet W;
  ct_StartPods : Kubelet W → Kubelet W * result string unit;
  ct_StopPods : Kubelet W → Kubelet W;
  ct_StartReaper : Kubelet W → Kubelet W * result string unit;
  ct_StartServer : Kubelet W → Kubelet W * result string unit;
  ct_StopServer : Kubelet W → Kubelet W;
  ct_UntilShutdown : Kubelet W → Kubelet W * result string unit;
}.

(** [defer]: [stop] runs however the rest ends. *)
Definition defer {A} (stop : Kubelet W → Kubelet W) (r : Kubelet W * A) : Kubelet W * A := (stop r.1, r.2).

Definition and_then {A} (wrap : string → StartError) (r : Kubelet W * result string A)
    (f : A → Kubelet W → Kubelet W * result StartError unit) : Kubelet W * result StartError unit :=
  match r with (k, Err msg) => (k, Err (wrap msg)) | (k, Ok a) => f a k end.

(** From the registered node on. *)
Definition run_node (ct : Control) (k : Kubelet W) : Kubelet W * result StartError unit :=
  and_then SIpam (ct_SetupIPAM ct k) (λ _ k,
  defer (ct_StopServices ct) (
    and_then SPods (ct_StartPods ct (ct_StartServices ct k)) (λ _ k,
    defer (ct_StopPods ct) (
      and_then SReaper (ct_StartReaper ct k) (λ _ k,
      and_then SServer (ct_StartServer ct k) (λ _ k,
      defer (ct_StopServer ct) (
        and_then SShutdown (ct_UntilShutdown ct k) (λ _ k, (k, Ok tt))))))))).

(** From the data plane on. *)
Definition run_control (ct : Control) (k : Kubelet W) : Kubelet W * result StartError unit :=
  and_then SClient (ct_NewForConfig ct k) (λ _ k,
  and_then SApi (ct_WaitForAPIServer ct k) (λ _ k,
  and_then SNodeController (ct_NewNodeController ct k) (λ _ k,
    match ct_NodeReady ct k with
    | (k, NodeReady) => run_node ct k
    | (k, NodeDone msg) => (k, Err (SNodeExited msg))
    | (k, NodeShutdown) => (k, Ok tt)
    end))).

(** The data plane: the gate, the mesh, the Pod network, and what runs on it. *)
Definition run_plane (c : Config) file rand (rest : Kubelet W → Kubelet W * result StartError unit) (k : Kubelet W)
    : Kubelet W * result StartError unit :=
  let '(h, r) := helper_gate c (kb_host k) in
  let k := mkKubelet h (kb_mesh k) (kb_router k) in
  match r with
  | Err e => (k, Err e)
  | Ok _ =>
      match setupMesh c file rand k with
      | (k, Err e) => (k, Err e)
      | (k, Ok _) =>
          defer (stopMesh c) (
            match setupPodNetwork c k with
            | (k, Err e) => (k, Err e)
            | (k, Ok _) => defer (stopPodNet c) (rest k)
            end)
      end
  end.

(** [run], the configuration loaded.  [rest] is what [RestConfig] yields. *)
Definition run_kubelet {Quantity} (ParseQuantity : string → option Quantity) visit (c : Config) (rest : result string unit)
    file rand (ct : Control) (k : Kubelet W) : Kubelet W * result StartError unit :=
  match rest with
  | Err msg => (k, Err (SRestConfig msg))
  | Ok _ =>
      match Capacity ParseQuantity visit c, Taints c with
      | Err e, _ => (k, Err (SCapacity e))
      | Ok _, Err e => (k, Err (STaints e))
      | Ok _, Ok _ =>
          let k := ct_BuildNode ct k in
          match HeartbeatIntervals c with
          | Err e => (k, Err (SHeartbeat e))
          | Ok _ => run_plane c file rand (run_control ct) k
          end
      end
  end.
End plane.
Arguments Control : clear implicits.

(** ** What every command keeps

    An invariant of the host that each command keeps is kept by the whole
    operation. *)
Section keeps.
Context `{MapRange} {X : Type} (R : Runner X) (Inv : X → Prop).
Hypothesis run_keeps : ∀ c x, Inv x → Inv (run R c x).1.

Lemma tolerating_keeps c benign x : Inv x → Inv (runTolerating R c benign x).1.
Proof.
  intros Hx%(run_keeps c). unfold runTolerating. destruct (run R c x) as [x' [o [e|]]]; [|done]. by destruct (is_benign e benign).
Qed.

(** One command of a sequence. *)
Ltac command :=
  match goal with
  | Hx : Inv ?x |- context [run R ?c ?x] =>
      let E := fresh in pose proof (run_keeps c x Hx) as E; destruct (run R c x) as [? [? [?|]]]; cbn [fst] in E
  | Hx : Inv ?x |- context [runTolerating R ?c ?b ?x] =>
      let E := fresh in pose proof (tolerating_keeps c b x Hx) as E; destruct (runTolerating R c b x) as [? [? [?|]]]; cbn [fst] in E
  end; try done.

Lemma up_link_keeps c ip x : Inv x → Inv (up_link R c ip x).1.
Proof.
  intros Hx. unfold up_link. do 3 command. destruct (0 <? i_MTU c); repeat command.
Qed.

Lemma delete_stale_keeps iface want ts routes x : Inv x → Inv (delete_stale R iface want ts routes x).1.2.
Proof.
  revert routes x. induction ts as [|t ts IH]; intros routes x Hx; cbn [delete_stale]; [done|].
  destruct (bool_decide (t ∈ want)); [by apply IH|]. command. by apply IH.
Qed.

Lemma add_missing_keeps iface ts routes x : Inv x → Inv (add_missing R iface ts routes x).1.2.
Proof.
  revert routes x. induction ts as [|t ts IH]; intros routes x Hx; cbn [add_missing]; [done|].
  destruct (routes !! t); [by apply IH|]. command. by apply IH.
Qed.

Lemma reconcileRoutesLocked_keeps m desired x : Inv x → Inv (reconcileRoutesLocked R m desired x).1.2.
Proof.
  intros Hx. unfold reconcileRoutesLocked, reconcileRoutes.
  pose proof (delete_stale_keeps (i_Name (m_cfg m)) (list_to_set desired) (range (m_routes m)).*1 (m_routes m) x Hx) as Hd.
  destruct (delete_stale _ _ _ _ _ x) as [[routes x1] [[]|e]]; cbn in *; [|done].
  pose proof (add_missing_keeps (i_Name (m_cfg m)) desired routes x1 Hd) as Ha.
  by destruct (add_missing _ _ _ _ x1) as [[routes2 x2] r].
Qed.

Lemma Up_keeps m x : Inv x → Inv (Up R m x).1.2.
Proof.
  intros Hx. unfold Up. destruct (Interface_Validate _); [|done]. destruct (addressIP _) as [ip|]; [|done].
  pose proof (up_link_keeps (m_cfg m) ip x Hx) as Hu. destruct (up_link R _ ip x) as [x1 [[]|e]]; [|done].
  by apply reconcileRoutesLocked_keeps.
Qed.

Lemma delete_all_keeps iface ts x : Inv x → Inv (delete_all R iface ts x).
Proof. revert x. induction ts as [|t ts IH]; intros x Hx; cbn [delete_all]; [done|]. by apply IH, tolerating_keeps. Qed.

Lemma Down_keeps m x : Inv x → Inv (Down R m x).2.
Proof. intros Hx. unfold Down, teardownLocked. cbn [snd]. by do 3 apply tolerating_keeps; apply delete_all_keeps. Qed.

Lemma Start_keeps rt x : Inv x → Inv (Start R rt x).1.2.
Proof.
  intros Hx. unfold Start. destruct (String.eqb _ ""); [done|].
  assert (Inv (enableForwarding R rt x).1) as He by (unfold enableForwarding; destruct (cfg_EnableForwarding _); [command|done]).
  destruct (enableForwarding R rt x) as [x1 [[]|e]]; cbn in He; [|done]. command.
  unfold removeVMNetDefaultRoute, removeVMNetDefaultRouteOnInterface. command. unfold loadAnchorLocked. command.
Qed.

Lemma Stop_keeps rt x : Inv x → Inv (Stop R rt x).1.2.
Proof. intros Hx. unfold Stop. cbn [set_services set_endpoints started]. destruct (started rt); cbn [negb]; [command|done]. Qed.
End keeps.

(** The data plane keeps what its commands keep, if the rest of the kubelet does. *)
Section plane_keeps.
Context `{MapRange} {W : Type} `{!Link W} (cli : Runner W) (c : Config) (Inv : option (Server W) * W → Prop).
Hypothesis run_keeps : ∀ cm h, Inv h → Inv (run (plane_runner cli c) cm h).1.

Lemma setupMesh_keeps file rand k : Inv (kb_host k) → Inv (kb_host (setupMesh cli c file rand k).1).
Proof.
  intros Hk. unfold setupMesh. destruct (negb _); [done|]. destruct (MeshInterfaceConfig _ _ _) as [ifc|]; [|done].
  pose proof (Up_keeps _ Inv run_keeps (Mesh_New ifc) _ Hk) as Hu. by destruct (Up _ _ _) as [[m h] [[]|]].
Qed.

Lemma stopMesh_keeps k : Inv (kb_host k) → Inv (kb_host (stopMesh cli c k)).
Proof.
  intros Hk. unfold stopMesh. destruct (kb_mesh k) as [m|]; [|done].
  pose proof (Down_keeps _ Inv run_keeps m _ Hk) as Hd. by destruct (Down _ m _) as [m' h].
Qed.

Lemma setupPodNetwork_keeps k : Inv (kb_host k) → Inv (kb_host (setupPodNetwork cli c k).1).
Proof.
  intros Hk. unfold setupPodNetwork. destruct (negb _); [done|].
  pose proof (Start_keeps _ Inv run_keeps (New (PodNetworkRouterConfig (net_of c))) _ Hk) as Hs. by destruct (Start _ _ _) as [[rt h] [[]|]].
Qed.

Lemma stopPodNet_keeps k : Inv (kb_host k) → Inv (kb_host (stopPodNet cli c k)).
Proof.
  intros Hk. unfold stopPodNet. destruct (kb_router k) as [rt|]; [|done].
  pose proof (Stop_keeps _ Inv run_keeps rt _ Hk) as Hs. by destruct (Stop _ rt _) as [[rt' h] r].
Qed.

(** Past the gate. *)
Definition plane_body file rand (rest : Kubelet W → Kubelet W * result StartError unit) (k : Kubelet W) :=
  match setupMesh cli c file rand k with
  | (k, Err e) => (k, Err e)
  | (k, Ok _) =>
      defer (stopMesh cli c) (
        match setupPodNetwork cli c k with
        | (k, Err e) => (k, Err e)
        | (k, Ok _) => defer (stopPodNet cli c) (rest k)
        end)
  end.

Lemma plane_body_keeps file rand rest k :
  (∀ k, Inv (kb_host k) → Inv (kb_host (rest k).1)) → Inv (kb_host k) → Inv (kb_host (plane_body file rand rest k).1).
Proof.
  intros Hrest Hk. unfold plane_body. apply (setupMesh_keeps file rand) in Hk. destruct (setupMesh cli c file rand k) as [k1 [[]|]]; [|done].
  cbn [fst] in Hk. apply stopMesh_keeps. apply setupPodNetwork_keeps in Hk. destruct (setupPodNetwork cli c k1) as [k2 [[]|]]; [|done].
  by apply stopPodNet_keeps, Hrest.
Qed.
End plane_keeps.

(** ** The gate *)

Section gate.
Context `{MapRange} {W : Type} `{!Link (list Request * W)} (cli : Runner (list Request * W)) (exec : ExecFunc W).

Definition ping : Request := mkReq "sysctl" ["-n"; "kern.ostype"] "".

(** The helper [s] enforces a policy, and what ran so far it permits. *)
Definition confined_host (s : Server (list Request * W)) (h : option (Server (list Request * W)) * (list Request * W)) : Prop :=
  ∃ p log w, s_policy s = Some p ∧ h = (Some s, (log, w)) ∧ Forall (permits p) log.

Definition confined s (k : Kubelet (list Request * W)) : Prop := confined_host s (kb_host k).

Lemma handleExec_log s req log w :
  s_exec s = logged exec →
  ∃ ran w', (handleExec s req (log, w)).1 = (log ++ ran, w') ∧ (ran = [] ∨ ran = [req]) ∧
    ∀ p, s_policy s = Some p → Forall (permits p) ran.
Proof.
  intros He. unfold handleExec. destruct (negb _); [exists [], w; rewrite app_nil_r; auto|].
  destruct (match s_policy s with Some p => PrivPolicy.Validate p req | None => Ok tt end) as [[]|e] eqn:Ev;
    [|exists [], w; rewrite app_nil_r; auto].
  rewrite He. cbn [logged]. destruct (exec req w) as [w1 [[[o eo] c] er]]. exists [req], w1. split_and!; [done|by right|].
  intros p Hp. rewrite Hp in Ev. constructor; [by apply Validate_permits|constructor].
Qed.

Lemma helperRunner_keeps s c h : s_exec s = logged exec → confined_host s h → confined_host s (run helperRunner c h).1.
Proof.
  intros He (p & log & w & Hp & -> & Hl). rewrite helperRunner_run.
  assert (confined_host s (Some s, (match decoded (wire_of c) with
                                    | Some r => handleExec s (w_cmd r) (log, w)
                                    | None => ((log, w), writeError CodeMalformed "decode request")
                                    end).1)) as Hh.
  { destruct (decoded (wire_of c)) as [r|]; [|by exists p, log, w]. destruct (handleExec_log s (w_cmd r) log w He) as (ran & w' & -> & _ & Hr).
    exists p, (log ++ ran), w'. split_and!; [done..|]. apply Forall_app. auto. }
  destruct (match decoded (wire_of c) with Some _ => _ | None => _ end) as [lw resp].
  destruct (delivery (wire_of c) (log, w)); [exact Hh|by exists p, log, w|exact Hh].
Qed.

(** The status is the server's own word. *)
Lemma client_status_reads s x : ∃ r, client_status (Some s) x = (Some s, x, r) ∧
  ∀ st, r = Ok st → st_enforced st = bool_decide (is_Some (s_policy s)).
Proof.
  unfold client_status, roundTrip.
  assert (decoded (mkWire Protocol OpStatus (mkReq "" [] "")) = Some (mkWire Protocol OpStatus (mkReq "" [] ""))) as -> by (vm_compute; reflexivity).
  destruct (delivery _ x); cbn; eexists; (split; [reflexivity|]); intros st Hst; by simplify_eq/=.
Qed.

(** The ping runs its probe at most once. *)
Lemma Ping_reads s w : s_exec s = logged exec →
  ∃ ran w' r, Ping (Some s) ([], w) = (Some s, (ran, w'), r) ∧ (ran = [] ∨ ran = [ping]) ∧ ∀ p, s_policy s = Some p → Forall (permits p) ran.
Proof.
  intros He. unfold Ping, client_run, roundTrip.
  change (mkReq "sysctl" ["-n"; "kern.ostype"] "") with ping.
  assert (decoded (mkWire Protocol OpExec ping) = Some (mkWire Protocol OpExec ping)) as -> by (vm_compute; reflexivity).
  destruct (handleExec_log s ping [] w He) as (ran & w' & Hx & Hran & Hp).
  unfold handle. cbn -[handleExec ping]. destruct (handleExec s ping ([], w)) as [lw resp]. cbn in Hx. subst lw.
  destruct (delivery _ _); [|by exists [], w; eexists; split_and!; [reflexivity|by left|constructor]|];
    exists ran, w'; eexists; (split; [reflexivity|done]).
Qed.

(** What the gate does to a host whose helper answers. *)
Lemma gate_reads s c w h r : s_exec s = logged exec → plane_wanted c = true →
  helper_gate c (Some s, ([], w)) = (h, r) →
  ∃ ran w', h = (Some s, (ran, w')) ∧ (ran = [] ∨ ran = [ping]) ∧ (∀ p, s_policy s = Some p → Forall (permits p) ran) ∧
    (r = Ok tt → is_Some (s_policy s)).
Proof.
  intros He Hw. unfold helper_gate. rewrite Hw. cbn [fst snd]. destruct (client_status_reads s ([], w)) as (st & -> & Hst).
  destruct st as [st|e]; [|intros [= <- <-]; exists [], w; split_and!; [done|by left|constructor|done]].
  destruct (Ping_reads s w He) as (ran & w' & pg & -> & Hran & Hp). specialize (Hst _ eq_refl).
  destruct pg; intros [= <- <-]; exists ran, w'; split_and!; try done. rewrite Hst. by case_bool_decide.
Qed.

(** C12: when a helper socket is configured for a data plane, the kubelet sends no
    network command past a helper that enforces no policy: it asks for its status,
    pings it, and gives up.  Past a helper that does, every command of bringing the
    mesh and the Pod network up and of taking them down again is one the policy
    permits.  When the helper cannot be reached nothing is run at all. *)
Theorem startup_gated c s w file rand rest :
  s_exec s = logged exec → plane_wanted c = true → (∀ k, confined s k → confined s (rest k).1) →
  let '(k', r) := run_plane cli c file rand rest (mkKubelet (Some s, ([], w)) None None) in
  (∃ log w', kb_host k' = (Some s, (log, w')) ∧
    match s_policy s with
    | None => (log = [] ∨ log = [ping]) ∧ ∃ e, r = Err e
    | Some p => Forall (permits p) log
    end) ∧
  ∃ e, run_plane cli c file rand rest (mkKubelet (None, ([], w)) None None) = (mkKubelet (None, ([], w)) None None, Err e).
Proof.
  intros He Hw Hrest. destruct (run_plane _ _ _ _ _ _) as [k' r] eqn:Hr. split.
  2:{ unfold run_plane, helper_gate. rewrite Hw. cbn. by eexists. }
  unfold run_plane in Hr. destruct (helper_gate c _) as [h g] eqn:Hg.
  destruct (gate_reads s c w h g He Hw Hg) as (ran & w' & -> & Hran & Hperm & Hok).
  destruct g as [[]|e]; [|simplify_eq/=; exists ran, w'; split; [done|]; destruct (s_policy s); naive_solver].
  destruct (Hok eq_refl) as [p Hp]. rewrite Hp.
  assert (confined s k') as (p' & log & w2 & Hp' & Hh & Hl); [|exists log, w2; split; [done|]; congruence].
  assert (plane_runner cli c = helperRunner) as HR.
  { unfold plane_runner, plane_wanted in *. apply andb_true_iff in Hw as [Hs _]. by destruct (String.eqb _ ""). }
  pose proof (λ cm h, helperRunner_keeps s cm h He) as Hkeep.
  assert (confined_host s (Some s, (ran, w'))) as Hc by (exists p, ran, w'; auto).
  change (plane_body cli c file rand rest (mkKubelet (Some s, (ran, w')) None None) = (k', r)) in Hr.
  rewrite <- (f_equal fst Hr : _ = k'). apply (plane_body_keeps cli c (confined_host s)); [by rewrite HR|done|done].
Qed.
End gate.

Definition noop_runner {W} : Runner W := mkRunner (λ _ w, (w, ("", None))).

Definition gate_server (p : option Policy) : Server (list Request * unit) :=
  mkServer (logged null_exec) p None "" 0 0.

Definition gate_run (p : option Policy) :=
  @run_plane canonical_range _ reliable noop_runner (demo_config demo_peers) (Ok None) demo_rand (λ k, (k, Ok tt))
    (mkKubelet (Some (gate_server p), ([], tt)) None None).

(** Both sides of the gate: without a policy only the ping ran; with the policy of the
    configuration the mesh came up and went down. *)
Lemma startup_gated_witness :
  (gate_run None).2 = Err (SHelperUnsafe "/var/run/macvz-netd.sock") ∧
  (∃ log, (kb_host (gate_run (Some (net_policy (net_of (demo_config demo_peers))))).1).2 = (log, tt) ∧
     length log = 22%nat ∧ Forall (permits (net_policy (net_of (demo_config demo_peers)))) log).
Proof.
  split; [by vm_compute|].
  set (s := gate_server (Some (net_policy (net_of (demo_config demo_peers))))).
  pose proof (@startup_gated canonical_range unit reliable noop_runner null_exec (demo_config demo_peers) s tt (Ok None) demo_rand
    (λ k, (k, Ok tt)) eq_refl eq_refl (λ k Hk, Hk)) as H.
  unfold gate_run. fold s. destruct (run_plane _ _ _ _ _ _) as [k' r] eqn:E. destruct H as [(log & [] & Hh & Hl) _]. cbn [fst].
  exists log. rewrite Hh. split_and!; [done| |exact Hl].
  apply (f_equal (λ x, length (kb_host x.1).2.1)) in E. cbn [fst] in E. rewrite Hh in E. cbn [fst snd] in E. rewrite <- E. vm_compute. reflexivity.
Defined.

(** ** Unwinding *)

Definition mesh_down (k : option Mesh) : Prop := ∀ m, k = Some m → m_up m = false ∧ m_routes m = ∅.
Definition router_down (k : option Router) : Prop :=
  ∀ rt, k = Some rt → started rt = false ∧ endpoints rt = ∅ ∧ services rt = ∅.

Section unwind.
Context `{MapRange} {W : Type} `{!Link W} (cli : Runner W).

Lemma stopMesh_down c k : mesh_down (kb_mesh (stopMesh cli c k)) ∧ kb_router (stopMesh cli c k) = kb_router k.
Proof.
  unfold stopMesh. destruct (kb_mesh k) as [m|] eqn:E; [|by rewrite E].
  unfold Down, teardownLocked. cbn. split; [|done]. by intros ? [= <-].
Qed.

Lemma stopPodNet_down c k : router_down (kb_router (stopPodNet cli c k)) ∧ kb_mesh (stopPodNet cli c k) = kb_mesh k.
Proof.
  unfold stopPodNet. destruct (kb_router k) as [rt|] eqn:E; [|by rewrite E].
  unfold Stop. cbn [set_services set_endpoints started]. destruct (started rt) eqn:Es; cbn [negb].
  - destruct (run _ _ _) as [h [o e]]. split; [|done]. by intros ? [= <-].
  - split; [|done]. by intros ? [= <-].
Qed.

Lemma setupMesh_router c file rand k : kb_router (setupMesh cli c file rand k).1 = kb_router k.
Proof.
  unfold setupMesh. destruct (negb _); [done|]. destruct (MeshInterfaceConfig _ _ _) as [ifc|]; [|done]. by destruct (Up _ _ _) as [[m h] [[]|]].
Qed.

Lemma setupMesh_failed c file rand k k' e : setupMesh cli c file rand k = (k', Err e) → kb_mesh k' = kb_mesh k.
Proof.
  unfold setupMesh. destruct (negb _); [done|]. destruct (MeshInterfaceConfig _ _ _) as [ifc|]; [|by intros [= <- _]].
  destruct (Up _ _ _) as [[m h] [[]|]]; [done|]. by intros [= <- _].
Qed.

Lemma setupPodNetwork_failed c k k' e : setupPodNetwork cli c k = (k', Err e) → kb_router k' = kb_router k.
Proof. unfold setupPodNetwork. destruct (negb _); [done|]. destruct (Start _ _ _) as [[rt h] [[]|]]; [done|]. by intros [= <- _]. Qed.

(** C18: however [run] ends, by a shutdown or by an error of any step, the mesh and the
    Pod network it had brought up are down when it returns: no tracked route, no
    endpoint and no Service rule is left, whatever the controllers that ran in
    between made of them. *)
Theorem run_unwinds {Quantity} (ParseQuantity : string → option Quantity) visit c rest file rand ct (k k' : Kubelet W) r :
  kb_mesh k = None → kb_router k = None →
  kb_mesh (ct_BuildNode ct k) = None → kb_router (ct_BuildNode ct k) = None →
  run_kubelet cli ParseQuantity visit c rest file rand ct k = (k', r) →
  mesh_down (kb_mesh k') ∧ router_down (kb_router k').
Proof.
  intros Hm Hr Hm' Hr'. unfold run_kubelet.
  assert (∀ k : Kubelet W, kb_mesh k = None → kb_router k = None → mesh_down (kb_mesh k) ∧ router_down (kb_router k)) as Hnone by (intros ? -> ->; done).
  destruct rest as [[]|]; [|intros [= <- _]; by apply Hnone]. destruct (Capacity _ _ c); [|intros [= <- _]; by apply Hnone].
  destruct (Taints c); [|intros [= <- _]; by apply Hnone]. destruct (HeartbeatIntervals c); [|intros [= <- _]; by apply Hnone].
  unfold run_plane. destruct (helper_gate c _) as [h [[]|]]; [|intros [= <- _]; by apply Hnone].
  set (k0 := mkKubelet h _ _ : Kubelet W). assert (kb_mesh k0 = None) as M0 by done. assert (kb_router k0 = None) as R0 by done. clearbody k0.
  pose proof (setupMesh_router c file rand k0) as R1. destruct (setupMesh cli c file rand k0) as [k1 [[]|]] eqn:Es; cbn [fst] in R1.
  2:{ intros [= <- _]. apply Hnone; [|congruence]. rewrite (setupMesh_failed _ _ _ _ _ _ Es). done. }
  intros [= <- _]. destruct (stopMesh_down c (match setupPodNetwork cli c k1 with (k2, Ok _) => defer (stopPodNet cli c) (run_control ct k2)
    | (k2, Err e) => (k2, Err e) end).1) as [Hd ->]. split; [exact Hd|].
  destruct (setupPodNetwork cli c k1) as [k2 [[]|]] eqn:Ep; cbn [fst defer].
  - by apply stopPodNet_down.
  - rewrite (setupPodNetwork_failed _ _ _ _ Ep), R1, R0. done.
Qed.
End unwind.

(** The witness: a kubelet whose API server never answers still takes its mesh and
    its Pod network down. *)
Definition quiet_control {W} (api : result string unit) : Control W :=
  mkControl (λ k, k) (λ k, (k, Ok tt)) (λ k, (k, api)) (λ k, (k, Ok tt)) (λ k, (k, NodeReady)) (λ k, (k, Ok tt)) (λ k, k) (λ k, k)
    (λ k, (k, Ok tt)) (λ k, k) (λ k, (k, Ok tt)) (λ k, (k, Ok tt)) (λ k, k) (λ k, (k, Ok tt)).

Definition demo_kubelet : Kubelet (list Request * unit) :=
  mkKubelet (Some (gate_server (Some (net_policy (net_of (demo_config demo_peers))))), ([], tt)) None None.

Definition unreachable_run :=
  @run_kubelet canonical_range _ reliable noop_runner string toy_quantity toy_visit (demo_config demo_peers) (Ok tt) (Ok None) demo_rand
    (quiet_control (Err "no route to host")) demo_kubelet.

Lemma run_unwinds_witness :
  unreachable_run.2 = Err (SApi "no route to host") ∧
  match kb_mesh unreachable_run.1, kb_router unreachable_run.1 with
  | Some m, Some rt => m_up m = false ∧ m_routes m = ∅ ∧ started rt = false
  | _, _ => False
  end.
Proof.
  split; [vm_compute; reflexivity|].
  destruct (@run_unwinds canonical_range _ reliable noop_runner string toy_quantity toy_visit (demo_config demo_peers) (Ok tt) (Ok None) demo_rand
    (quiet_control (Err "no route to host")) demo_kubelet unreachable_run.1 unreachable_run.2) as [Hm Hr]; [done..| |].
  - unfold unreachable_run. by destruct (run_kubelet _ _ _ _ _ _ _ _ _).
  - destruct (kb_mesh unreachable_run.1) as [m|] eqn:Em.
    + destruct (kb_router unreachable_run.1) as [rt|] eqn:Er.
      * destruct (Hm m eq_refl), (Hr rt eq_refl) as (? & ? & ?). auto.
      * apply (f_equal (λ o, match o with Some _ => true | None => false end)) in Er. vm_compute in Er. discriminate Er.
    + apply (f_equal (λ o, match o with Some _ => true | None => false end)) in Em. vm_compute in Em. discriminate Em.
Defined.

(** A runner that records its commands and refuses the route additions. *)
Definition no_routes : Runner (list string) :=
  mkRunner (λ c log, (log ++ [c_name c],
    ("", if String.eqb (c_name c) "route" then Some (mkCE 1 "network is unreachable" "exit status 1") else None))).

Definition direct_config : Config :=
  let c := demo_config demo_peers in
  mkConfig (cf_NodeName c) (cf_KubeconfigPath c) (cf_RuntimeSocket c) (cf_RuntimeBinary c) (cf_RuntimeDataRoot c) (cf_RuntimeRosetta c)
    (cf_LogLevel c) (cf_Node c) (cf_Mesh c) (cf_PodNetwork c) "" (cf_OrphanCleanup c).

Definition half_up :=
  @run_plane canonical_range _ reliable no_routes direct_config (Ok None) demo_rand (λ k, (k, Ok tt)) (mkKubelet (None, []) None None).

(** A mesh that fails on its way up is left as it is: the interface was made, and no
    command takes it down, since the clean-up is installed only after [Up] succeeded. *)
Theorem failed_mesh_left_up :
  is_ok half_up.2 = false ∧
  (kb_host half_up.1).2 = ["wireguard-go"; "wg"; "ifconfig"; "ifconfig"; "ifconfig"; "route"].
Proof. by vm_compute. Qed.
