(* ===== verification/Serving.v ===== *)
(** * What the running kubelet offers: the rest of [cmd/macvz-kubelet/serve.go]
      and the diagnostics client of [bundle.go]

    The Pod address pool a started node uses, the Pods its orphan reaper spares,
    and the addresses it serves logs, exec and diagnostics on.  Kubernetes, the
    certificate library and the listener are parameters. *)

From S2P Require Import Prelude GoStrings GoNet GoTime Ipam Host PodNet NetConfig PodSpec PodEnv Volumes Runtime Cleanup Provider Lifecycle Config NodeStatus Retry.

Open Scope Z_scope.

(** ** Pod addresses *)

Inductive IpamSetup : Type := IpamOff | IpamOn (cidr : string) (a : PodIPAM).

(** [waited]: what waiting for the Pod CIDR yields; [listed]: the keys and addresses
    of the node's Pods, or the failure to list them. *)
Definition setupIPAM (c : Config) (waited : result RetryError string) (listed : result string (list (string * string)))
    : result IpamError IpamSetup :=
  let start cidr :=
    match NewPodIPAM cidr with
    | Err e => Err e
    | Ok a => Ok (IpamOn cidr (match listed with Err _ => a | Ok pods => RecoverAllocations a pods end))
    end in
  let cidr := nc_PodCIDR (cf_Node c) in
  if String.eqb cidr "" then match waited with Err _ => Ok IpamOff | Ok cidr => start cidr end else start cidr.

(** The configuration the Service controller gets: the assigned CIDR in place. *)
Definition with_pod_cidr (c : Config) (s : IpamSetup) : Config :=
  match s with
  | IpamOff => c
  | IpamOn cidr _ =>
      let n := cf_Node c in
      mkConfig (cf_NodeName c) (cf_KubeconfigPath c) (cf_RuntimeSocket c) (cf_RuntimeBinary c) (cf_RuntimeDataRoot c) (cf_RuntimeRosetta c)
        (cf_LogLevel c)
        (mkNode (nc_CPU n) (nc_Memory n) (nc_Pods n) (nc_OS n) (nc_Arch n) (nc_InternalIP n) cidr (nc_Labels n) (nc_Annotations n)
          (nc_Taints n) (nc_EnableLease n) (nc_LeaseDurationSeconds n) (nc_PingInterval n) (nc_StatusUpdateInterval n)
          (nc_KubeletPort n) (nc_ServingTLSCertFile n) (nc_ServingTLSKeyFile n) (nc_ServingClientCAFile n) (nc_Volumes n)
          (nc_ClusterDNS n) (nc_ClusterDomain n))
        (cf_Mesh c) (cf_PodNetwork c) (cf_PrivilegedHelperSocket c) (cf_OrphanCleanup c)
  end.

(** ** The orphan reaper's view of the Pods *)

(** A Pod of the lister, and whether it is being deleted. *)
Definition expectedWorkloadIDs (pod : Pod) (deleting : bool) : list string :=
  if deleting then [] else
  match pod_Containers pod, pod_InitContainers pod, pod_EphemeralContainers pod with
  | [c], [], [] => [WorkloadID (pod_Namespace pod) (pod_Name pod) (c_Name c)]
  | _, _, _ => []
  end.

Definition expected_of (listed : result string (list (Pod * bool))) : result string (gset string) :=
  match listed with
  | Err e => Err e
  | Ok ps => Ok (list_to_set (ps ≫= λ p, expectedWorkloadIDs p.1 p.2))
  end.

Definition orphanStopTimeout : Z := 10 * Second.

(** The reaper a configuration asks for; the anchor is not flushed on a live node. *)
Definition startOrphanReaper {W} (c : Config) : result CfgError (option (Cleaner W * ReapPolicy)) :=
  if negb (oc_Enabled (cf_OrphanCleanup c)) then Ok None else
  match OrphanCleanupIntervals c with
  | Err e => Err e
  | Ok (interval, grace) =>
      Ok (Some (mkCleaner None orphanStopTimeout, mkReapPolicy interval grace (oc_DryRun (cf_OrphanCleanup c))))
  end.

(** The micro-VM a Pod runs in is expected exactly when translation accepts its shape. *)
Lemma expected_translated pod policy dns cms secrets tokens spec vols :
  translatePod pod policy dns cms secrets tokens = Ok (spec, vols) → expectedWorkloadIDs pod false = [s_Name spec].
Proof.
  unfold translatePod, expectedWorkloadIDs, unsupportedReasons. intros Ht.
  destruct (pod_Containers pod) as [|ct [|? ?]] eqn:Ec; [done| |done].
  destruct (pod_InitContainers pod); [|done]. destruct (pod_EphemeralContainers pod); [|done]. cbn [app] in Ht.
  case_match; [|done]. destruct (resolveVolumes _ _ _ _ _) as [v|e]; [|by case_match].
  destruct (resolveEnv _ _ _ _) as [env|]; cbn in Ht; [|done].
  unfold with_name_mounts_dns in Ht. destruct (resolveDNS pod dns) as [[? ?] ?]. by injection Ht as <- _.
Qed.

(** A pass of the reaper destroys no expected micro-VM. *)
Lemma reapOnce_expected {W} (RT : Runtime W) `{!VmHost RT} (c : Cleaner W) r now live w r' w' id :
  cl_Flusher c = None → reapOnce RT c r now (Ok live) w = (r', w') → id ∈ live → id ∈ vms w → id ∈ vms w'.
Proof.
  intros Hf H Hl Hin. unfold reapOnce in H. pose proof (Scan_vms RT live w) as Hv.
  destruct (Scan RT live w) as [w1 [orphans|e]] eqn:Es; cbn in Hv; [|by simplify_eq; rewrite Hv].
  destruct (partition _ _ _ _) as [[seen matured] pending] eqn:Ep.
  destruct matured as [|m ms]; [by simplify_eq; rewrite Hv|].
  destruct (Reap _ _ _ _ w1) as [w2 [reaped errs]] eqn:Er. simplify_eq.
  apply (Reap_vms RT c) in Er as (_ & _ & Hgone & _); [|done]. rewrite Hv in *.
  destruct (decide (id ∈ vms w')) as [|Hout]; [done|]. specialize (Hgone id Hin Hout). rewrite sort_by_perm in Hgone.
  apply list_elem_of_fmap in Hgone as (o & -> & Ho). apply partition_spec in Ep as [_ Hm]. rewrite Forall_forall in Hm.
  destruct (Hm o Ho) as (Hoin & _). by apply (Scan_exact RT live w w1 orphans _ Es) in Hoin as (_ & _ & Hex).
Qed.

(** C17: the reaper the kubelet starts destroys no micro-VM of a Pod it runs: at every
    pass, whatever the reaper has seen before, the workload of a listed Pod that is not
    being deleted and that translation accepts survives; and a pass whose listing fails
    destroys nothing.  The name the reaper spares is the name translation gives. *)
Theorem live_pod_never_reaped {W} (RT : Runtime W) `{!VmHost RT} cfg (c : Cleaner W) p r now listed w r' w'
    pod policy dns cms secrets tokens spec vols :
  startOrphanReaper cfg = Ok (Some (c, p)) →
  reapOnce RT c r now (expected_of listed) w = (r', w') →
  translatePod pod policy dns cms secrets tokens = Ok (spec, vols) →
  match listed with Err _ => True | Ok ps => (pod, false) ∈ ps end →
  s_Name spec ∈ vms w → s_Name spec ∈ vms w'.
Proof.
  intros Hs Hr Ht Hl Hin. assert (cl_Flusher c = None) as Hf.
  { unfold startOrphanReaper in Hs. destruct (negb _); [done|]. destruct (OrphanCleanupIntervals cfg) as [[i g]|]; by simplify_eq. }
  destruct listed as [ps|e]; [|cbn in Hr; by simplify_eq].
  eapply reapOnce_expected; [done|exact Hr| |done]. apply elem_of_list_to_set, list_elem_of_bind. exists (pod, false).
  split; [|done]. cbn [fst snd]. rewrite (expected_translated _ _ _ _ _ _ _ _ Ht). by left.
Qed.

(** ** Serving *)

Inductive ServeError : Type :=
  | VKeyPair (msg : string)
  | VReadCA (path msg : string)
  | VNoCerts (path : string)
  | VListen (addr : string) (e : RetryError).

Definition VersionTLS12 : Z := 771.

Record TLSConfig := mkTLS { tls_MinVersion : Z; tls_ClientCAs : option string; tls_RequireAndVerify : bool }.

(** What is mounted where: the Pod handler is logs, exec, port forwarding and stats. *)
Inductive Serving : Type :=
  | NotServing
  | LocalDiagnostics (addr : string)
  | KubeletAPI (addr : string) (tls : TLSConfig) (diagnostics : bool).

Section serving.
(** Reading a file, whether a text holds a certificate, loading a key pair, and
    binding an address. *)
Context (readFile : string → result string string) (hasCerts : string → bool).
Context (loadKeyPair : string → string → result string unit) (listen : string → result RetryError unit).

Definition buildServingTLSConfig (clientCAFile : string) : result ServeError TLSConfig :=
  if String.eqb clientCAFile "" then Ok (mkTLS VersionTLS12 None false) else
  match readFile clientCAFile with
  | Err msg => Err (VReadCA clientCAFile msg)
  | Ok pem => if hasCerts pem then Ok (mkTLS VersionTLS12 (Some pem) true) else Err (VNoCerts clientCAFile)
  end.

Definition listen_or {A} (addr : string) (a : A) : result ServeError A :=
  match listen addr with Err e => Err (VListen addr e) | Ok _ => Ok a end.

Definition startLocalDiagnosticsServer (c : Config) : result ServeError Serving :=
  let addr := JoinHostPort "127.0.0.1" (Itoa (nc_KubeletPort (cf_Node c))) in
  listen_or addr (LocalDiagnostics addr).

Definition startKubeletServer (c : Config) (listenIP : string) (diagnostics : bool) : result ServeError Serving :=
  let n := cf_Node c in
  if String.eqb (nc_ServingTLSCertFile n) "" || String.eqb (nc_ServingTLSKeyFile n) "" then
    if diagnostics then startLocalDiagnosticsServer c else Ok NotServing
  else
    match loadKeyPair (nc_ServingTLSCertFile n) (nc_ServingTLSKeyFile n) with
    | Err msg => Err (VKeyPair msg)
    | Ok _ =>
        match buildServingTLSConfig (nc_ServingClientCAFile n) with
        | Err e => Err e
        | Ok tls =>
            let addr := JoinHostPort listenIP (Itoa (nc_KubeletPort n)) in
            listen_or addr (KubeletAPI addr tls diagnostics)
        end
    end.
End serving.

(** The address a client of the diagnostics endpoint uses ([fetchLiveDiagnostics]). *)
Definition netJoinHostPort (host port : string) : string :=
  if Contains host ":" && negb (HasPrefix host "[") then "[" +:+ host +:+ "]:" +:+ port else host +:+ ":" +:+ port.

Definition diagnostics_url (c : Config) (internalIP : string) : string :=
  let n := cf_Node c in
  let port := Itoa (nc_KubeletPort n) in
  let tls := negb (String.eqb (nc_ServingTLSCertFile n) "") && negb (String.eqb (nc_ServingTLSKeyFile n) "") in
  let host := if tls && negb (String.eqb internalIP "") then internalIP else "127.0.0.1" in
  (if tls then "https" else "http") +:+ "://" +:+ netJoinHostPort host port +:+ "/healthz/diagnostics".

Inductive FetchError : Type := FRequest (msg : string) | FStatus (url : string) (code : Z).

(** [http]: the response to a GET, its status code and body. *)
Definition fetchLiveDiagnostics (http : string → result string (Z * string)) (c : Config) (internalIP : string)
    : string * option FetchError :=
  let url := diagnostics_url c internalIP in
  match http url with
  | Err msg => ("", Some (FRequest msg))
  | Ok (code, body) => if (code =? 200) || (code =? 503) then (body, None) else (body, Some (FStatus url code))
  end.

Lemma Contains_byte a s : Contains s (String a "") = ContainsByte a s.
Proof.
  induction s as [|b s IH]; [done|]. cbn [Contains ContainsByte HasPrefix]. rewrite IH. f_equal.
  replace (HasPrefix s "") with true by (by destruct s). rewrite andb_true_r.
  by destruct (Ascii.eqb_spec b a), (Ascii.eqb_spec a b); subst.
Qed.

Lemma netJoinHostPort_std host port : HasPrefix host "[" = false → netJoinHostPort host port = JoinHostPort host port.
Proof. intros Hb. unfold netJoinHostPort, JoinHostPort. rewrite Hb, Contains_byte, andb_true_r. done. Qed.

(** C20: what a started kubelet exposes, for a configured port of at least 1 and a listen
    address that does not begin with a bracket.  Logs, exec and port forwarding are
    served over TLS only, at version 1.2 or later, on the listen address, which is that
    of every interface when it is empty; with a client CA only to clients whose
    certificate that CA signed.  Without a key pair nothing but the diagnostics is
    served, on the loopback address.  The node object advertises a kubelet port exactly
    when the API is served, and the bundle asks for the diagnostics at the address they
    are served on, by the loopback address when that is every interface. *)
Theorem serving_exposure {Q} readFile hasCerts loadKeyPair listen c listenIP diagnostics sv version capacity taints :
  startKubeletServer readFile hasCerts loadKeyPair listen c listenIP diagnostics = Ok sv →
  1 ≤ nc_KubeletPort (cf_Node c) → HasPrefix listenIP "[" = false →
  let port := Itoa (nc_KubeletPort (cf_Node c)) in
  let advertised := ns_KubeletPort (node_spec_of (Q := Q) c version listenIP capacity taints) in
  match sv with
  | NotServing => diagnostics = false ∧ advertised = 0
  | LocalDiagnostics addr =>
      addr = "127.0.0.1:" +:+ port ∧ advertised = 0 ∧
      diagnostics_url c listenIP = "http://" +:+ addr +:+ "/healthz/diagnostics"
  | KubeletAPI addr tls _ =>
      addr = (if String.eqb listenIP "" then ":" +:+ port else JoinHostPort listenIP port) ∧
      advertised = nc_KubeletPort (cf_Node c) ∧ advertised ≠ 0 ∧
      tls_MinVersion tls = VersionTLS12 ∧
      (tls_RequireAndVerify tls = true ↔ nc_ServingClientCAFile (cf_Node c) ≠ "") ∧
      (tls_RequireAndVerify tls = true → ∃ pem, readFile (nc_ServingClientCAFile (cf_Node c)) = Ok pem ∧
         hasCerts pem = true ∧ tls_ClientCAs tls = Some pem) ∧
      diagnostics_url c listenIP =
        "https://" +:+ (if String.eqb listenIP "" then "127.0.0.1:" +:+ port else addr) +:+ "/healthz/diagnostics"
  end.
Proof.
  intros Hs Hport Hb. cbn zeta. unfold startKubeletServer, node_spec_of in *. cbn [ns_KubeletPort]. unfold diagnostics_url.
  destruct (String.eqb (nc_ServingTLSCertFile (cf_Node c)) "") eqn:E1;
    [|destruct (String.eqb (nc_ServingTLSKeyFile (cf_Node c)) "") eqn:E2]; cbn [orb negb andb] in *.
  1, 2: destruct diagnostics; [|by simplify_eq]; unfold startLocalDiagnosticsServer, listen_or in Hs;
    destruct (listen _); simplify_eq; done.
  destruct (loadKeyPair _ _); [|done]. destruct (buildServingTLSConfig _ _ _) as [tls|] eqn:Et; [|done].
  unfold listen_or in Hs. destruct (listen _); [|done]. injection Hs as <-. unfold buildServingTLSConfig in Et.
  assert (netJoinHostPort (if negb (String.eqb listenIP "") then listenIP else "127.0.0.1") (Itoa (nc_KubeletPort (cf_Node c))) =
    if String.eqb listenIP "" then "127.0.0.1:" +:+ Itoa (nc_KubeletPort (cf_Node c)) else JoinHostPort listenIP (Itoa (nc_KubeletPort (cf_Node c)))) as ->.
  { destruct (String.eqb listenIP ""); cbn [negb]; [done|by apply netJoinHostPort_std]. }
  assert (JoinHostPort listenIP (Itoa (nc_KubeletPort (cf_Node c))) =
    if String.eqb listenIP "" then ":" +:+ Itoa (nc_KubeletPort (cf_Node c)) else JoinHostPort listenIP (Itoa (nc_KubeletPort (cf_Node c)))) as Haddr.
  { by destruct (String.eqb_spec listenIP "") as [->|]. }
  destruct (String.eqb_spec (nc_ServingClientCAFile (cf_Node c)) "") as [Hca|Hca].
  - simplify_eq. split_and!; done || lia.
  - destruct (readFile _) as [pem|]; [|done]. destruct (hasCerts pem) eqn:Hh; [|done]. simplify_eq. split_and!; try done; [lia|]. eauto.
Qed.

(** ** Witnesses *)

Definition serving_config (cert key ca : string) : Config :=
  let c := demo_config demo_peers in
  let n := cf_Node c in
  mkConfig (cf_NodeName c) (cf_KubeconfigPath c) (cf_RuntimeSocket c) (cf_RuntimeBinary c) (cf_RuntimeDataRoot c) (cf_RuntimeRosetta c)
    (cf_LogLevel c)
    (mkNode (nc_CPU n) (nc_Memory n) (nc_Pods n) (nc_OS n) (nc_Arch n) (nc_InternalIP n) (nc_PodCIDR n) (nc_Labels n) (nc_Annotations n)
      (nc_Taints n) (nc_EnableLease n) (nc_LeaseDurationSeconds n) (nc_PingInterval n) (nc_StatusUpdateInterval n) 10250 cert key ca
      (nc_Volumes n) (nc_ClusterDNS n) (nc_ClusterDomain n))
    (cf_Mesh c) (cf_PodNetwork c) (cf_PrivilegedHelperSocket c) (cf_OrphanCleanup c).

Definition mutual : TLSConfig := mkTLS VersionTLS12 (Some "CERT") true.

Lemma serving_exposure_witness :
  tls_RequireAndVerify mutual = true ∧
  diagnostics_url (serving_config "/c" "/k" "/ca") "fd00::1" = "https://[fd00::1]:10250/healthz/diagnostics".
Proof.
  destruct (serving_exposure (Q := Z) (λ _, Ok "CERT") (λ _, true) (λ _ _, Ok tt) (λ _, Ok tt) (serving_config "/c" "/k" "/ca") "fd00::1" true
    (KubeletAPI "[fd00::1]:10250" mutual true) "v1" ∅ []) as (_ & _ & _ & _ & Hr & _ & Hu); [reflexivity|vm_compute; congruence|reflexivity|].
  split; [|exact Hu]. apply Hr. discriminate.
Defined.

(** A running Pod, and a micro-VM nobody owns, over two passes a grace period apart. *)
Definition kept_pod : Pod := plain_pod "ns" "b" "web".

Definition kept_policy : VolumePolicy := mkVolPolicy "/vols" [].

Definition kept_spec : ContainerSpec :=
  match translatePod kept_pod kept_policy (mkDNS [] "") None None None with Ok (s, _) => s | Err _ => empty_spec end.

Definition kept_volumes : resolvedVolumes := mkVols [] [] [].

Definition enabled_cfg : Config :=
  let c := demo_config demo_peers in
  mkConfig (cf_NodeName c) (cf_KubeconfigPath c) (cf_RuntimeSocket c) (cf_RuntimeBinary c) (cf_RuntimeDataRoot c) (cf_RuntimeRosetta c)
    (cf_LogLevel c) (cf_Node c) (cf_Mesh c) (cf_PodNetwork c) "" (mkOrphan true "1m" "5m" false).

Definition live_cleaner : Cleaner VmSim := mkCleaner None orphanStopTimeout.
Definition live_policy : ReapPolicy := mkReapPolicy (60 * Second) (300 * Second) false.
Definition listed_pods : result string (list (Pod * bool)) := Ok [(kept_pod, false)].

Definition pass1 := reapOnce vm_sim live_cleaner (NewReaper live_policy) 0 (expected_of listed_pods) three_vms.
Definition pass2 := reapOnce vm_sim live_cleaner pass1.1 (300 * Second) (expected_of listed_pods) pass1.2.

Lemma live_pod_never_reaped_witness :
  s_Name kept_spec = "macvz-ns-b-web" ∧ dom (sim_vms pass2.2) = ({["macvz-ns-b-web"; "other"]} : gset string) ∧
  "macvz-ns-b-web" ∈ vms pass2.2.
Proof.
  split; [vm_compute; reflexivity|]. split; [apply (bool_decide_unpack _); vm_compute; exact I|].
  apply (live_pod_never_reaped vm_sim enabled_cfg live_cleaner live_policy pass1.1 (300 * Second) listed_pods pass1.2 pass2.1 pass2.2
    kept_pod kept_policy (mkDNS [] "") None None None kept_spec kept_volumes).
  - vm_compute. reflexivity.
  - unfold pass2. by destruct (reapOnce _ _ _ _ _ _).
  - vm_compute. reflexivity.
  - by left.
  - apply (bool_decide_unpack _). vm_compute. exact I.
Defined.

(** ** A restart that cannot list the Pods *)

Definition restart_cfg : Config := with_pod_cidr (demo_config demo_peers) (IpamOn "10.244.1.0/24" ex_new).

Definition recovered (listed : result string (list (string * string))) : option PodIPAM :=
  match setupIPAM restart_cfg (Err (RDeadline "")) listed with Ok (IpamOn _ a) => Some a | _ => None end.

Definition next_ip (o : option PodIPAM) (key : string) : option string :=
  match o with Some a => match (Allocate a key).2 with Ok ip => Some ip | Err _ => None end | None => None end.

(** After a restart that lists the node's Pods, a new Pod does not get the address
    of a running one; when the listing fails the allocator starts empty, and the first
    new Pod gets the address a running Pod still has, although the documentation of the
    set-up promises that a restart does not reassign a live Pod's address. *)
Theorem failed_listing_reassigns :
  next_ip (recovered (Ok [("ns/live", "10.244.1.2")])) "ns/new" = Some "10.244.1.3" ∧
  next_ip (recovered (Err "connection refused")) "ns/new" = Some "10.244.1.2".
Proof. by vm_compute. Qed.
