(* ===== verification/Doctor.v ===== *)
(** * The join preflight: [pkg/bootstrap/doctor.go] and the [doctor] command

    The checks of a node before it joins, over what their probes observe.  The
    helper is probed through the client the kubelet uses ([PrivHelper]), so a
    green report can be compared with what the kubelet's own gate ([Startup])
    does.  The PEM and X.509 decoders are parameters. *)

From S2P Require Import Prelude GoFloat GoStrings GoNet GoJson GoTime GoFlag GoRegexp Redact OsFs Filepath Bundle Host PodNet PrivPolicy PrivHelper WireGuard NetConfig Driver Config Retry Startup Serving.

Open Scope Z_scope.

Module Doctor.

Inductive Status : Type := StatusOK | StatusWarn | StatusFail.

#[export] Instance Status_eq_dec : EqDecision Status.
Proof. solve_decision. Defined.

Definition Status_String (s : Status) : string :=
  match s with StatusOK => "OK" | StatusWarn => "WARN" | StatusFail => "FAIL" end.

Record Check := mkCheck { ck_Name : string; ck_Status : Status; ck_Detail : string; ck_Remediation : string }.

(** [Result.OK]: no check failed. *)
Definition Result_OK (checks : list Check) : bool := negb (existsb (λ c, bool_decide (ck_Status c = StatusFail)) checks).

(** The first certificate of a file, as the library parses it: the instant it
    expires, that instant's date in UTC, and its IP addresses. *)
Record Leaf := mkLeaf { lf_NotAfter : Z; lf_Date : DateTime; lf_IPAddresses : list IP }.

Definition certCoversIP (cert : Leaf) (ip : string) : bool :=
  match ParseIP ip with None => false | Some target => existsb (λ san, IP_Equal san target) (lf_IPAddresses cert) end.

Definition DefaultBinary : string := "container".

Definition quoteOrDefault (v def : string) : string := Quote (if String.eqb v "" then def else v).

Section doctor.
Context {W : Type} (FS : Os W).
(** [pem.Decode]: the type and bytes of the next block and what follows it;
    [x509.ParseCertificate]. *)
Context (pem_Decode : string → option (string * string * string)) (ParseCertificate : string → result string Leaf).

(** What the probes observe: the runtime, the resolved API server and whether it
    answers, the tools on the path, the helper's answers and the forwarding switch. *)
Record Probes := mkProbes {
  pr_runtime : result string unit;
  pr_rest : result string string;
  pr_api : option string;
  pr_lookPath : string → result string string;
  pr_status : result ClientError HelperStatus; pr_ping : option ClientError; pr_uptime : string;
  pr_forwarding : result string string;
  pr_now : Z;
}.

Definition checkRuntime (c : Config) (p : Probes) : Check :=
  let mk := mkCheck "apple/container runtime" in
  match pr_runtime p with
  | Err e => mk StatusFail e
      ("install apple/container and run `container system start`; ensure the CLI named " +:+
       quoteOrDefault (cf_RuntimeBinary c) DefaultBinary +:+ " is on PATH")
  | Ok _ => mk StatusOK "runtime reachable and healthy" ""
  end.

Definition checkKubeconfig (p : Probes) : Check :=
  let mk := mkCheck "cluster kubeconfig / API server" in
  match pr_rest p with
  | Err e => mk StatusFail e
      ("set kubeconfigPath to a kubeconfig with credentials for the target cluster " +:+
       "(or export KUBECONFIG); the node joins the existing control plane, none is created")
  | Ok host =>
      match pr_api p with
      | Some e => mk StatusWarn ("kubeconfig resolves to " +:+ host +:+ " but it is not reachable yet: " +:+ e)
          ("confirm the API server address is correct and reachable from this host " +:+
           "(if it is routed over the mesh, it becomes reachable once macvz-kubelet brings the data plane up)")
      | None => mk StatusOK ("API server reachable at " +:+ host) ""
      end
  end.

Definition tool_check (p : Probes) (tool : string) : Check :=
  let mk := mkCheck ("wireguard tooling: " +:+ tool) in
  match pr_lookPath p tool with
  | Err _ => mk StatusFail (tool +:+ " not found on PATH")
      "install wireguard-tools (provides `wg`) and wireguard-go, e.g. `brew install wireguard-tools wireguard-go`"
  | Ok path => mk StatusOK path ""
  end.

Definition checkWireGuardTooling (c : Config) (p : Probes) : list Check :=
  if negb (mc_Enabled (cf_Mesh c)) then [] else tool_check p <$> ["wg"; "wireguard-go"].

Definition checkPrivilegedHelper (c : Config) (p : Probes) : list Check :=
  let socket := cf_PrivilegedHelperSocket c in
  if String.eqb socket "" || negb (mc_Enabled (cf_Mesh c) || pn_Enabled (cf_PodNetwork c)) then [] else
  let mk := mkCheck "privileged network helper (macvz-netd)" in
  [match pr_status p with
   | Err e => mk StatusFail ("not reachable at " +:+ socket +:+ ": " +:+ client_error_text e)
       ("start macvz-netd as root with --config (see docs/PRIVILEGED_NETWORKING.md); " +:+
        "the kubelet runs as your user and routes pf/wg/route through this socket")
   | Ok st =>
       match pr_ping p with
       | Some e => mk StatusFail ("socket at " +:+ socket +:+ " answers status but cannot run commands: " +:+ client_error_text e)
           "ensure macvz-netd runs as root so it can execute pf/wg/route/sysctl"
       | None =>
           if negb (st_enforced st) then
             mk StatusFail "helper is running without per-request policy validation"
               "restart macvz-netd with --config so inputs are restricted to configured CIDRs/peers/anchors"
           else mk StatusOK ("reachable at " +:+ socket +:+ " (version " +:+ st_version st +:+ ", policy enforced, uptime " +:+ pr_uptime p +:+ ")") ""
       end
   end].

Definition pfctl_check (p : Probes) : Check :=
  let mk := mkCheck "pod network tooling: pfctl" in
  match pr_lookPath p "pfctl" with
  | Err _ => mk StatusFail "pfctl not found on PATH" "pfctl ships with macOS; ensure /sbin is on PATH"
  | Ok path => mk StatusOK path ""
  end.

Definition forwarding_check (p : Probes) : Check :=
  let mk := mkCheck "IPv4 forwarding" in
  match pr_forwarding p with
  | Err e => mk StatusWarn ("could not read net.inet.ip.forwarding: " +:+ e)
      "macvz-netd enables forwarding at startup; verify with `sysctl net.inet.ip.forwarding`"
  | Ok val =>
      if negb (String.eqb (TrimSpace val) "1") then
        mk StatusWarn ("net.inet.ip.forwarding is " +:+ TrimSpace val)
          ("macvz-netd enables it when podNetwork.enableForwarding is true; " +:+
           "to set it manually run `sudo sysctl -w net.inet.ip.forwarding=1`")
      else mk StatusOK "net.inet.ip.forwarding=1" ""
  end.

Definition checkPodNetworkTooling (c : Config) (p : Probes) : list Check :=
  if negb (pn_Enabled (cf_PodNetwork c)) then [] else [pfctl_check p; forwarding_check p].

(** The blocks of a PEM text in turn; each takes at least one byte, so the length
    of the text bounds their number. *)
Fixpoint leaf_block (fuel : nat) (path data : string) : result string Leaf :=
  match fuel, pem_Decode data with
  | O, _ | _, None => Err ("no CERTIFICATE block in " +:+ path)
  | S m, Some (type, bytes, rest) => if String.eqb type "CERTIFICATE" then ParseCertificate bytes else leaf_block m path rest
  end.

Definition loadLeafCert (path : string) (w : W) : result string Leaf :=
  match os_ReadFile FS path w with
  | Err e => Err e
  | Ok data => leaf_block (S (String.length data)) path data
  end.

Definition checkServingTLS (c : Config) (internalIP : string) (now : Z) (w : W) : Check :=
  let mk := mkCheck "kubelet serving TLS (logs/exec)" in
  let cert := nc_ServingTLSCertFile (cf_Node c) in
  let key := nc_ServingTLSKeyFile (cf_Node c) in
  if String.eqb cert "" || String.eqb key "" then
    mk StatusWarn "serving TLS not configured; `kubectl logs`/`exec` will be unavailable"
      ("set node.servingTLSCertFile/servingTLSKeyFile to a cert whose SAN includes the node InternalIP " +:+
       "(`macvz-kubelet bootstrap --gen-tls` can generate a self-signed pair)")
  else
    match os_Stat FS key w with
    | Some e => mk StatusFail ("serving TLS key not readable: " +:+ e)
        "ensure node.servingTLSKeyFile exists and is readable by the kubelet user"
    | None =>
        match loadLeafCert cert w with
        | Err e => mk StatusFail ("serving TLS cert not usable: " +:+ e)
            "regenerate the serving cert (e.g. `macvz-kubelet bootstrap --gen-tls`)"
        | Ok leaf =>
            if lf_NotAfter leaf <? now then
              mk StatusFail ("serving cert expired on " +:+ rfc3339 (lf_Date leaf)) "regenerate the serving cert"
            else if negb (String.eqb internalIP "") && negb (certCoversIP leaf internalIP) then
              mk StatusWarn ("serving cert SAN does not include node InternalIP " +:+ internalIP +:+ "; the API server may reject logs/exec")
                ("reissue the cert with `subjectAltName=IP:" +:+ internalIP +:+ "`")
            else mk StatusOK ("valid until " +:+ rfc3339 (lf_Date leaf)) ""
        end
    end.

(** [Doctor.Run], the probes made. *)
Definition Run (c : Config) (internalIP : string) (p : Probes) (w : W) : list Check :=
  [checkRuntime c p; checkKubeconfig p] ++ checkWireGuardTooling c p ++ checkPrivilegedHelper c p ++
  checkPodNetworkTooling c p ++ [checkServingTLS c internalIP (pr_now p) w].
End doctor.

(** ** The command *)

(** The em dash and the arrow of the report. *)
Definition em_dash : string := encode_rune 8212.
Definition arrow : string := encode_rune 8594.

Definition pad4 (s : string) : string := s +:+ Concat (replicate (4 - String.length s) " ").

Definition check_report (c : Check) : list string :=
  ["[" +:+ pad4 (Status_String (ck_Status c)) +:+ "] " +:+ ck_Name c] ++
  (if String.eqb (ck_Detail c) "" then [] else ["        " +:+ ck_Detail c]) ++
  (if negb (bool_decide (ck_Status c = StatusOK)) && negb (String.eqb (ck_Remediation c) "")
   then ["        " +:+ arrow +:+ " " +:+ ck_Remediation c] else []).

Definition count_status (s : Status) (l : list Check) : nat := length (filter (λ c, ck_Status c = s) l).

Definition doctor_verdict (l : list Check) : string :=
  let fails := count_status StatusFail l in
  let warns := count_status StatusWarn l in
  if (0 <? fails)%nat then
    "NOT READY: " +:+ Itoa (Z.of_nat fails) +:+ " missing prerequisite(s), " +:+ Itoa (Z.of_nat warns) +:+
    " warning(s). Fix the FAIL items above before starting macvz-kubelet."
  else if (0 <? warns)%nat then
    "READY with " +:+ Itoa (Z.of_nat warns) +:+
    " warning(s). The node can join; warnings note degraded or runtime-confirmed capabilities."
  else "READY: all prerequisites satisfied.".

Definition printDoctorReport (l : list Check) (nodeName : string) : string :=
  text_of (["MacVz node preflight " +:+ em_dash +:+ " " +:+ nodeName; ""] ++ (l ≫= check_report) ++ [""; doctor_verdict l]).

Definition doctor_flags : FlagSet := {["config" := KString]}.

(** [runDoctor]: [load] reads a configuration, [detect] the host's address; the exit
    code and what is printed. *)
Definition runDoctor (load : string → result CfgError Config) (detect : string)
    (examine : Config → string → list Check) (args : list string) : Z * string :=
  match parse_flags doctor_flags args with
  | Err _ => (2, "")
  | Ok (g, _) =>
      match load (flag_string g "config" "") with
      | Err _ => (1, "")
      | Ok cfg =>
          let ip := if String.eqb (nc_InternalIP (cf_Node cfg)) "" then detect else nc_InternalIP (cf_Node cfg) in
          let checks := examine cfg ip in
          (if Result_OK checks then 0 else 1, printDoctorReport checks (cf_NodeName cfg))
      end
  end.

(** ** A green report *)

Lemma Result_OK_spec l : Result_OK l = true ↔ Forall (λ c, ck_Status c ≠ StatusFail) l.
Proof.
  unfold Result_OK. rewrite negb_true_iff. induction l as [|c l IH]; cbn; [by split|].
  rewrite orb_false_iff, IH, Forall_cons, bool_decide_eq_false. done.
Qed.

(** The probes of a doctor that talks to the helper of a host. *)
Definition helper_probes {W} `{!Link W} (p : Probes) (h : option (Server W) * W) : Probes :=
  let '(s, w, st) := client_status h.1 h.2 in
  let '(_, _, pg) := Ping s w in
  mkProbes (pr_runtime p) (pr_rest p) (pr_api p) (pr_lookPath p) st pg (pr_uptime p) (pr_forwarding p) (pr_now p).

(** A check that failed is not part of a green report. *)
Ltac failing H := exfalso; apply H; reflexivity.

(** C24: a green preflight means what the kubelet relies on is there: the runtime
    answers, the kubeconfig resolves, the tools of the enabled features are installed
    and the certificate has not expired; and the kubelet's own gate, run against the
    same helper over a connection that treats it the same, lets the data plane
    through. *)
Theorem green_preflight {W} `{!Link W} (FS : Os W) decode parse c ip p (h : option (Server W) * W) :
  let p' := helper_probes p h in
  let checks := Run FS decode parse c ip p' h.2 in
  Result_OK checks = true →
  (helper_gate c h).2 = Ok tt ∧
  is_ok (pr_runtime p) = true ∧ is_ok (pr_rest p) = true ∧
  (mc_Enabled (cf_Mesh c) = true → is_ok (pr_lookPath p "wg") = true ∧ is_ok (pr_lookPath p "wireguard-go") = true) ∧
  (pn_Enabled (cf_PodNetwork c) = true → is_ok (pr_lookPath p "pfctl") = true) ∧
  (nc_ServingTLSCertFile (cf_Node c) ≠ "" → nc_ServingTLSKeyFile (cf_Node c) ≠ "" →
    os_Stat FS (nc_ServingTLSKeyFile (cf_Node c)) h.2 = None ∧
    ∃ leaf, loadLeafCert FS decode parse (nc_ServingTLSCertFile (cf_Node c)) h.2 = Ok leaf ∧ pr_now p ≤ lf_NotAfter leaf).
Proof.
  cbn zeta. rewrite Result_OK_spec. unfold Run. rewrite !Forall_app, Forall_cons, !Forall_singleton.
  intros ((Hrt & Hkc) & Hwg & Hh & Hpn & Htls). unfold helper_probes in *.
  destruct (client_status h.1 h.2) as [[s w] st] eqn:Est. destruct (Ping s w) as [[s' w'] pg] eqn:Epg. cbn [pr_runtime pr_rest pr_now] in *.
  split_and!.
  - unfold helper_gate, plane_wanted. unfold checkPrivilegedHelper in Hh. cbn [pr_status pr_ping] in Hh.
    destruct (String.eqb (cf_PrivilegedHelperSocket c) ""); [done|]. cbn [orb negb andb] in *.
    destruct (mc_Enabled _ || pn_Enabled _); [|done]. cbn [negb] in Hh. rewrite Forall_singleton in Hh. rewrite Est.
    destruct st as [st|e]; [|failing Hh]. rewrite Epg. destruct pg; [failing Hh|]. cbn [snd].
    destruct (st_enforced st); [done|failing Hh].
  - unfold checkRuntime in Hrt. cbn [pr_runtime] in Hrt. destruct (pr_runtime p); [done|failing Hrt].
  - unfold checkKubeconfig in Hkc. cbn [pr_rest] in Hkc. destruct (pr_rest p); [done|failing Hkc].
  - intros Hm. unfold checkWireGuardTooling in Hwg. rewrite Hm in Hwg. cbn in Hwg. rewrite Forall_cons, Forall_singleton in Hwg.
    unfold tool_check in Hwg. cbn [pr_lookPath] in Hwg.
    destruct Hwg as [H1 H2]. split; [destruct (pr_lookPath p "wg"); [done|failing H1]|destruct (pr_lookPath p "wireguard-go"); [done|failing H2]].
  - intros Hp. unfold checkPodNetworkTooling in Hpn. rewrite Hp in Hpn. cbn [negb] in Hpn. apply Forall_cons in Hpn as [Hpf _].
    unfold pfctl_check in Hpf. cbn [pr_lookPath] in Hpf. destruct (pr_lookPath p "pfctl"); [done|failing Hpf].
  - intros Hc Hk. unfold checkServingTLS in Htls. cbn [pr_now] in Htls.
    destruct (String.eqb_spec (nc_ServingTLSCertFile (cf_Node c)) ""); [done|].
    destruct (String.eqb_spec (nc_ServingTLSKeyFile (cf_Node c)) ""); [done|]. cbn [orb] in Htls.
    destruct (os_Stat FS _ h.2); [failing Htls|]. split; [done|].
    destruct (loadLeafCert _ _ _ _ h.2) as [leaf|]; [|failing Htls]. exists leaf. split; [done|].
    destruct (Z.ltb_spec (lf_NotAfter leaf) (pr_now p)); [failing Htls|done].
Qed.

(** ** What a green report does not cover *)

(** A certificate file with one block, and a decoder that reads it. *)
Definition toy_decode (s : string) : option (string * string * string) :=
  if String.eqb s "CERT" then Some ("CERTIFICATE", "der", "") else None.
Definition toy_leaf : Leaf := mkLeaf 1000 (mkDate 2027 1 1 0 0 0) [mkIP W4 3232235786].
Definition toy_parse (s : string) : result string Leaf := Ok toy_leaf.

Definition joined : FsSim :=
  mkFsSim (<["/c" := File "CERT" 420]> (<["/k" := File "KEY" 384]> ∅)) [] 0.

Definition calm : Probes :=
  mkProbes (Ok tt) (Ok "https://10.0.0.1:6443") None (λ t, Ok ("/usr/bin/" +:+ t)) (Err (EDial "")) None "1h" (Ok "1") 500.

Definition join_server : Server FsSim :=
  mkServer (λ _ w, (w, ("", "", 0, None))) (Some (net_policy (net_of (demo_config demo_peers)))) None "v1" 1 0.

Definition join_report (c : Config) : list Check :=
  Run fs_sim toy_decode toy_parse c "192.168.1.10" (helper_probes (Link0 := reliable) calm (Some join_server, joined)) joined.

Lemma green_preflight_witness :
  Result_OK (join_report (serving_config "/c" "/k" "")) = true ∧
  (helper_gate (Link0 := reliable) (serving_config "/c" "/k" "") (Some join_server, joined)).2 = Ok tt.
Proof.
  assert (Result_OK (join_report (serving_config "/c" "/k" "")) = true) as H by (vm_compute; reflexivity).
  split; [exact H|]. exact (proj1 (green_preflight (Link0 := reliable) fs_sim toy_decode toy_parse (serving_config "/c" "/k" "") "192.168.1.10" calm
    (Some join_server, joined) H)).
Defined.

(** The client CA is not part of the preflight: with a [servingClientCAFile] that
    does not exist every check is green and the kubelet still refuses to start its
    server, although a green preflight is documented to mean that the same code paths
    succeed at startup. *)
Theorem preflight_misses_client_ca :
  let c := serving_config "/c" "/k" "/missing" in
  Forall (λ ck, ck_Status ck = StatusOK) (join_report c) ∧
  startKubeletServer (λ p, os_ReadFile fs_sim p joined) (λ _, true) (λ _ _, Ok tt) (λ _, Ok tt) c "192.168.1.10" true
    = Err (VReadCA "/missing" "no such file").
Proof. split; [|vm_compute; reflexivity]. apply (bool_decide_unpack _). vm_compute. exact I. Qed.
End Doctor.
