(* ===== verification/Bootstrap.v ===== *)
(** * Joining a node: [pkg/bootstrap/generate.go], [tls.go] and the [bootstrap] command

    The generated configuration, the self-check that loads it back, the serving
    certificate and the command that writes them, over the host's files.  The YAML
    decoder, the key generator, the certificate library and the PEM codec are
    parameters. *)

From S2P Require Import Prelude GoFloat GoStrings GoNet GoJson GoTime GoFlag GoRegexp Redact OsFs Filepath Bundle Host PodNet PrivPolicy PrivHelper WireGuard NetConfig Driver Config Retry Startup Serving Doctor.

Open Scope Z_scope.

Record PeerParams := mkPeerParams {
  pp_Name : string; pp_PublicKey : string; pp_Endpoint : string; pp_PodCIDR : string; pp_Address : string;
}.

Record MeshParams := mkMeshParams {
  mp_Interface : string; mp_Address : string; mp_ListenPort : Z; mp_PrivateKeyFile : string; mp_Peers : list PeerParams;
}.

Record PodNetworkParams := mkPodNetParams { np_Interface : string; np_Anchor : string; np_VMNetCIDRs : list string }.

Record JoinParams := mkJoin {
  j_NodeName : string; j_InternalIP : string; j_KubeconfigPath : string; j_PodCIDR : string;
  j_ClusterDNS : list string; j_ClusterDomain : string;
  j_ServingTLSCertFile : string; j_ServingTLSKeyFile : string; j_PrivilegedHelperSocket : string;
  j_Mesh : option MeshParams; j_PodNetwork : option PodNetworkParams;
}.

Definition defaultMeshInterface : string := "utun7".
Definition defaultMeshKeyFile : string := "/etc/macvz/wireguard.key".
Definition defaultPodNetAnchor : string := "macvz/pods".

Inductive JoinError : Type :=
  | JNodeName | JInternalIP | JInternalIPBad (ip : string) | JKubeconfig | JPodCIDR (cidr : string) | JTLSPair
  | JMeshAddress (a : string) | JMeshHelper | JPeerKey (i : nat) (name : string) | JPeerCIDR (i : nat) (name cidr : string)
  | JPodNetInterface | JPodNetHelper | JPodNetCIDR.

Fixpoint validate_peers (i : nat) (l : list PeerParams) : result JoinError unit :=
  match l with
  | [] => Ok tt
  | q :: l' =>
      guard (negb (String.eqb (pp_PublicKey q) "")) (JPeerKey i (pp_Name q)) ;--
      guard (is_cidr (pp_PodCIDR q)) (JPeerCIDR i (pp_Name q) (pp_PodCIDR q)) ;--
      validate_peers (S i) l'
  end.

Definition Join_Validate (p : JoinParams) : result JoinError unit :=
  guard (negb (String.eqb (TrimSpace (j_NodeName p)) "")) JNodeName ;--
  guard (negb (String.eqb (j_InternalIP p) "")) JInternalIP ;--
  guard (bool_decide (is_Some (ParseIP (j_InternalIP p)))) (JInternalIPBad (j_InternalIP p)) ;--
  guard (negb (String.eqb (TrimSpace (j_KubeconfigPath p)) "")) JKubeconfig ;--
  guard (String.eqb (j_PodCIDR p) "" || is_cidr (j_PodCIDR p)) (JPodCIDR (j_PodCIDR p)) ;--
  guard (Bool.eqb (String.eqb (j_ServingTLSCertFile p) "") (String.eqb (j_ServingTLSKeyFile p) "")) JTLSPair ;--
  match j_Mesh p with
  | None => Ok tt
  | Some m =>
      guard (is_cidr (mp_Address m)) (JMeshAddress (mp_Address m)) ;--
      guard (negb (String.eqb (j_PrivilegedHelperSocket p) "")) JMeshHelper ;--
      validate_peers 0 (mp_Peers m)
  end ;--
  match j_PodNetwork p with
  | None => Ok tt
  | Some n =>
      guard (negb (String.eqb (np_Interface n) "")) JPodNetInterface ;--
      guard (negb (String.eqb (j_PrivilegedHelperSocket p) "")) JPodNetHelper ;--
      guard (negb (String.eqb (j_PodCIDR p) "")) JPodNetCIDR
  end.

Definition orDefault (v def : string) : string := if String.eqb (TrimSpace v) "" then def else v.

Definition quoteJoin (items : list string) : string := Join (Quote <$> sort_strings items) ", ".

Definition when (b : bool) (l : list string) : list string := if b then l else [].

Definition peer_lines (q : PeerParams) : list string :=
  ["    - name: " +:+ pp_Name q; "      publicKey: " +:+ Quote (pp_PublicKey q)] ++
  when (negb (String.eqb (pp_Endpoint q) "")) ["      endpoint: " +:+ Quote (pp_Endpoint q)] ++
  ["      podCIDR: " +:+ Quote (pp_PodCIDR q)] ++
  when (negb (String.eqb (pp_Address q) "")) ["      address: " +:+ Quote (pp_Address q)] ++
  ["      persistentKeepalive: 25"].

Definition writeMesh (m : MeshParams) : list string :=
  let port := if mp_ListenPort m =? 0 then DefaultMeshListenPort else mp_ListenPort m in
  ["mesh:"; "  enabled: true"; "  interface: " +:+ orDefault (mp_Interface m) defaultMeshInterface;
   "  privateKeyFile: " +:+ orDefault (mp_PrivateKeyFile m) defaultMeshKeyFile; "  address: " +:+ Quote (mp_Address m);
   "  listenPort: " +:+ Itoa port] ++
  match mp_Peers m with
  | [] => ["  # Add a peer stanza per other MacVz node (publicKey, endpoint, podCIDR, address)."; "  peers: []"; ""]
  | peers => ["  peers:"] ++ (peers ≫= peer_lines) ++ [""]
  end.

Definition writePodNetwork (n : PodNetworkParams) : list string :=
  let cidrs := match np_VMNetCIDRs n with [] => [DefaultVMNetCIDR] | l => l end in
  ["podNetwork:"; "  enabled: true"; "  interface: " +:+ np_Interface n; "  anchor: " +:+ orDefault (np_Anchor n) defaultPodNetAnchor;
   "  enableForwarding: true"; "  vmNetCIDRs: [" +:+ quoteJoin cidrs +:+ "]"; ""].

(** The text of the configuration, line by line. *)
Definition config_lines (p : JoinParams) : list string :=
  ["# macvz-kubelet config generated by `macvz-kubelet bootstrap` (#54).";
   "# Review every value before first start, then run `macvz-kubelet doctor --config <this file>`."; "";
   "nodeName: " +:+ j_NodeName p; "kubeconfigPath: " +:+ j_KubeconfigPath p; "logLevel: info"; "";
   "node:"; "  internalIP: " +:+ Quote (j_InternalIP p)] ++
  when (negb (String.eqb (j_PodCIDR p) ""))
    ["  # Manual Pod CIDR: only for clusters that do not assign node CIDRs."; "  podCIDR: " +:+ Quote (j_PodCIDR p)] ++
  (if negb (String.eqb (j_ServingTLSCertFile p) "") then
     ["  kubeletPort: 10250"; "  servingTLSCertFile: " +:+ j_ServingTLSCertFile p; "  servingTLSKeyFile: " +:+ j_ServingTLSKeyFile p]
   else ["  # servingTLSCertFile/servingTLSKeyFile unset: kubectl logs/exec disabled."]) ++
  match j_ClusterDNS p with
  | [] => []
  | dns => ["  clusterDNS: [" +:+ quoteJoin dns +:+ "]";
            "  clusterDomain: " +:+ Quote (if String.eqb (j_ClusterDomain p) "" then "cluster.local" else j_ClusterDomain p)]
  end ++ [""] ++
  when (negb (String.eqb (j_PrivilegedHelperSocket p) ""))
    ["# Privileged network helper (macvz-netd) socket. The kubelet runs as your";
     "# user; pf/wg/route are executed by the root helper over this socket.";
     "privilegedHelperSocket: " +:+ j_PrivilegedHelperSocket p; ""] ++
  from_option writeMesh [] (j_Mesh p) ++ from_option writePodNetwork [] (j_PodNetwork p).

Inductive GenError : Type :=
  | GInvalid (e : JoinError)
  | GTemp (msg : string)
  | GSelfCheck (e : CfgError)
  | GKey (e : LoadError)
  | GKeyWrite (msg : string)
  | GIP (ip : string)
  | GCreate (msg : string)
  | GPemDir (path msg : string)
  | GPemWrite (path msg : string)
  | GOut (path msg : string).

(** ** The files it writes *)

(** What the certificate is asked to say. *)
Record CertTemplate := mkTemplate { ct_CommonName : string; ct_NotBefore : Z; ct_NotAfter : Z; ct_IPAddresses : list IP }.

Lemma written_data old d mode x : written old d mode x → ∃ m, x = File d m.
Proof. unfold written. destruct old as [[]|]; naive_solver. Qed.

Section files.
Context {W : Type} (FS : Os W).

(** [os.ReadFile] with the test for a missing file. *)
Definition read_opt (path : string) (w : W) : result string (option string) :=
  match os_ReadFile FS path w with
  | Ok d => Ok (Some d)
  | Err e => match os_Stat FS path w with Some _ => Ok None | None => Err e end
  end.

Context {Quantity : Type} (ParseQuantity : string → option Quantity) (visit : list (string * string) → list (string * string)).
Context (host tempDir : string) (yaml : string → Config → result string Config).

Definition load (path : string) (w : W) : result CfgError Config := Load ParseQuantity visit host path (read_opt path w) yaml.

(** Writing covers closing the temporary file; it is removed in the end. *)
Definition loadCheck (text : string) (w : W) : W * result GenError unit :=
  match os_CreateTemp FS tempDir "macvz-bootstrap-" w with
  | (w, Err msg) => (w, Err (GTemp msg))
  | (w, Ok name) =>
      let '(w, r) :=
        match os_WriteFile FS name text 384 w with
        | (w, Some msg) => (w, Err (GTemp msg))
        | (w, None) => (w, match load name w with Err e => Err (GSelfCheck e) | Ok _ => Ok tt end)
        end in
      let '(w, _) := os_Remove FS name w in (w, r)
  end.

Definition GenerateConfig (p : JoinParams) (w : W) : W * result GenError string :=
  match Join_Validate p with
  | Err e => (w, Err (GInvalid e))
  | Ok _ =>
      let out := text_of (config_lines p) in
      let '(w, r) := loadCheck out w in
      (w, match r with Err e => Err e | Ok _ => Ok out end)
  end.

(** [LoadOrCreateKey] with the file it may write. *)
Definition create_key (path : string) (rand : Key) (w : W) : W * result GenError Key :=
  match LoadOrCreateKey (read_opt path w) rand with
  | Err e => (w, Err (GKey e))
  | Ok (k, None) => (w, Ok k)
  | Ok (k, Some text) =>
      let dir := Dir path in
      let '(w, e) := if negb (String.eqb dir "") && negb (String.eqb dir ".") then os_MkdirAll FS dir 448 w else (w, None) in
      match e with
      | Some msg => (w, Err (GKeyWrite msg))
      | None => let '(w, e) := os_WriteFile FS path text 384 w in (w, match e with Some msg => Err (GKeyWrite msg) | None => Ok k end)
      end
  end.

(** The PEM encoder, and a new key pair with a certificate signed by it: the DER
    forms of the certificate and of the key. *)
Context (pem_Encode : string → string → string) (create : CertTemplate → result string (string * string)).

Definition writePEM (path blockType der : string) (mode : Z) (w : W) : W * result GenError unit :=
  let dir := Dir path in
  let '(w, e) := if negb (String.eqb dir "") then os_MkdirAll FS dir 448 w else (w, None) in
  match e with
  | Some msg => (w, Err (GPemDir path msg))
  | None =>
      let '(w, e) := os_WriteFile FS path (pem_Encode blockType der) mode w in
      (w, match e with Some msg => Err (GPemWrite path msg) | None => Ok tt end)
  end.

Definition GenerateServingTLS (nodeName internalIP certPath keyPath : string) (validFor now : Z) (w : W) : W * result GenError unit :=
  match ParseIP internalIP with
  | None => (w, Err (GIP internalIP))
  | Some ip =>
      match create (mkTemplate nodeName (now - Hour) (now + validFor) [ip]) with
      | Err msg => (w, Err (GCreate msg))
      | Ok (der, key) =>
          match writePEM certPath "CERTIFICATE" der 420 w with
          | (w, Err e) => (w, Err e)
          | (w, Ok _) => writePEM keyPath "RSA PRIVATE KEY" key 384 w
          end
      end
  end.

(** ** The command *)

Definition bootstrap_flags : FlagSet :=
  list_to_map (((λ n, (n, KString)) <$>
    ["node-name"; "internal-ip"; "kubeconfig"; "pod-cidr"; "cluster-dns"; "helper-socket"; "out"; "mesh-address"; "mesh-interface";
     "gen-key"; "podnet-interface"; "serving-cert"; "serving-key"]) ++ [("gen-tls", KBool)]).

Definition flagSet (g : Given) (name : string) : bool := bool_decide (is_Some (g !! name)).

Definition servingTLSSelected (g : Given) (genTLS : bool) : bool := genTLS || flagSet g "serving-cert" || flagSet g "serving-key".

Definition join_of_flags (g : Given) : JoinParams :=
  let str n := flag_string g n "" in
  let tls := servingTLSSelected g (flag_bool g "gen-tls" false) in
  mkJoin (str "node-name") (str "internal-ip") (str "kubeconfig") (str "pod-cidr")
    (if String.eqb (str "cluster-dns") "" then [] else [str "cluster-dns"]) ""
    (if tls then flag_string g "serving-cert" "/etc/macvz/pki/kubelet.crt" else "")
    (if tls then flag_string g "serving-key" "/etc/macvz/pki/kubelet.key" else "")
    (str "helper-socket")
    (if String.eqb (str "mesh-address") "" then None
     else Some (mkMeshParams (str "mesh-interface") (str "mesh-address") 0 (str "gen-key") []))
    (if String.eqb (str "podnet-interface") "" then None else Some (mkPodNetParams (str "podnet-interface") "" [])).

(** The exit code and what is printed on the standard output. *)
Definition runBootstrap (rand : Key) (now : Z) (args : list string) (w : W) : W * (Z * string) :=
  match parse_flags bootstrap_flags args with
  | Err _ => (w, (2, ""))
  | Ok (g, _) =>
      let genKey := flag_string g "gen-key" "" in
      let '(w, r) := if String.eqb genKey "" then (w, Ok zero_key) else create_key genKey rand w in
      match r with
      | Err _ => (w, (1, ""))
      | Ok _ =>
          let '(w, r) :=
            if flag_bool g "gen-tls" false then
              GenerateServingTLS (flag_string g "node-name" "") (flag_string g "internal-ip" "")
                (flag_string g "serving-cert" "/etc/macvz/pki/kubelet.crt") (flag_string g "serving-key" "/etc/macvz/pki/kubelet.key")
                (365 * 24 * Hour) now w
            else (w, Ok tt) in
          match r with
          | Err _ => (w, (1, ""))
          | Ok _ =>
              match GenerateConfig (join_of_flags g) w with
              | (w, Err _) => (w, (1, ""))
              | (w, Ok text) =>
                  let out := flag_string g "out" "" in
                  if String.eqb out "" then (w, (0, text)) else
                  let '(w, e) := os_WriteFile FS out text 420 w in
                  (w, (match e with Some _ => 1 | None => 0 end, ""))
              end
          end
      end
  end.

(** ** What it generates is accepted *)

Context `{!FileHost FS}.

Lemma Load_text path path' text :
  path' ≠ "" → is_ok (Load ParseQuantity visit host path (Ok (Some text)) yaml) = true → path ≠ "" →
  is_ok (Load ParseQuantity visit host path' (Ok (Some text)) yaml) = true.
Proof.
  intros Hp Hl Hq. unfold Load in *. destruct (String.eqb_spec path' ""); [done|]. destruct (String.eqb_spec path ""); [done|].
  destruct (yaml text (Default host)); [|done]. by destruct (Validate _ _ _).
Qed.

Lemma loadCheck_sound text w w' : loadCheck text w = (w', Ok tt) →
  ∃ path, path ≠ "" ∧ is_ok (Load ParseQuantity visit host path (Ok (Some text)) yaml) = true.
Proof.
  unfold loadCheck. destruct (os_CreateTemp FS tempDir _ w) as [w1 [name|msg]] eqn:Et; [|done].
  apply fh_temp in Et as ((sfx & Hname) & _ & _). assert (name ≠ "") as Hne by (rewrite Hname; by destruct tempDir). clear Hname.
  destruct (os_WriteFile FS name text 384 w1) as [w2 [msg|]] eqn:Ew; [by destruct (os_Remove FS name w2)|].
  destruct (os_Remove FS name w2) as [w3 e]. intros [= _ Hl].
  destruct (load name w2) as [cfg|] eqn:El; [|done]. exists name. split; [done|].
  apply fh_write in Ew as [_ Hw]. destruct (Hw eq_refl) as (x & Hx & Hwr).
  apply written_data in Hwr as [m ->].
  unfold load, read_opt in El. destruct (os_ReadFile FS name w2) as [d|e2] eqn:Er.
  - apply fh_read in Er as [m' Hd]. rewrite Hx in Hd. injection Hd as <- _. by rewrite El.
  - destruct (os_Stat FS name w2) eqn:Es.
    + assert (os_Stat FS name w2 = None) as Hn by (apply fh_stat; by rewrite Hx). congruence.
    + unfold Load in El. by destruct (String.eqb_spec name "").
Qed.
(** C23: when the bootstrap command succeeds, what it printed or left in its output file
    is the rendering of the inputs it was given, these inputs are valid, and the kubelet
    loads it: [config.Load] of that text, at whatever path, yields a validated
    configuration. *)
Theorem bootstrapped_config_loads rand now args w w' printed :
  runBootstrap rand now args w = (w', (0, printed)) →
  ∃ g rest, parse_flags bootstrap_flags args = Ok (g, rest) ∧ Join_Validate (join_of_flags g) = Ok tt ∧
    let text := text_of (config_lines (join_of_flags g)) in
    let out := flag_string g "out" "" in
    (if String.eqb out "" then printed = text else ∃ m, paths w' !! out = Some (File text m)) ∧
    ∀ path, path ≠ "" → is_ok (Load ParseQuantity visit host path (Ok (Some text)) yaml) = true.
Proof.
  unfold runBootstrap. destruct (parse_flags bootstrap_flags args) as [[g rest]|] eqn:Ep; [|done].
  destruct (if String.eqb _ "" then _ else _) as [w1 [k|]]; [|done]. destruct (if flag_bool _ _ _ then _ else _) as [w2 [[]|]]; [|done].
  unfold GenerateConfig. destruct (Join_Validate (join_of_flags g)) as [[]|] eqn:Ej; [|done].
  destruct (loadCheck _ w2) as [w3 [[]|]] eqn:Elc; [|done]. intros Hr. exists g, rest. split_and!; [done|done|..]; cbn zeta.
  - destruct (String.eqb (flag_string g "out" "") ""); [by injection Hr as _ <-|].
    destruct (os_WriteFile FS _ _ 420 w3) as [w4 [msg|]] eqn:Ew; [done|]. injection Hr as <- _.
    apply fh_write in Ew as [_ Hw]. destruct (Hw eq_refl) as (x & Hx & [m ->]%written_data). eauto.
  - intros path Hp. apply loadCheck_sound in Elc as (path0 & Hp0 & Hl). by eapply Load_text.
Qed.

End files.

(** ** The certificate is the one the preflight wants *)

Section tls.
Context {W : Type} (FS : Os W) `{!FileHost FS}.
Context (pem_Encode : string → string → string) (create : CertTemplate → result string (string * string)).

(** What the PEM codec and the certificate library promise: decoding an encoded block
    yields it, and a created certificate parses to what the template says, its expiry
    cut to the second. *)
Context (pem_Decode : string → option (string * string * string)) (ParseCertificate : string → result string Doctor.Leaf).
Hypothesis pem_roundtrip : ∀ t der, pem_Decode (pem_Encode t der) = Some (t, der, "").
Hypothesis create_parses : ∀ tmpl der key, create tmpl = Ok (der, key) →
  ∃ leaf, ParseCertificate der = Ok leaf ∧ ct_NotAfter tmpl - Second < Doctor.lf_NotAfter leaf ∧
    ∀ ip, ip ∈ ct_IPAddresses tmpl → ∃ san, san ∈ Doctor.lf_IPAddresses leaf ∧ IP_Equal san ip = true.

Lemma writePEM_spec path t der mode w w' : writePEM FS pem_Encode path t der mode w = (w', Ok tt) →
  (∃ m, paths w' !! path = Some (File (pem_Encode t der) m)) ∧
  ∀ q d m, q ≠ path → paths w !! q = Some (File d m) → paths w' !! q = Some (File d m).
Proof.
  unfold writePEM.
  destruct (if negb _ then _ else _) as [w1 [msg|]] eqn:Em; [done|]. destruct (os_WriteFile FS path _ mode w1) as [w2 [msg|]] eqn:Ew; [done|].
  intros [= <-]. apply fh_write in Ew as [Hs Hw]. split.
  - destruct (Hw eq_refl) as (x & Hx & [m ->]%written_data). eauto.
  - intros q d m Hq Hd. rewrite Hs by done. destruct (negb _); [|by simplify_eq]. by apply (fh_mkdir _ _ _ _ _ Em).
Qed.

(** The certificate and key that [bootstrap --gen-tls] writes pass the preflight
    check of the serving TLS for the address they were made for, until a second before
    they expire, whatever the host does to other files, as long as the certificate
    can be read back. *)
Theorem generated_tls_passes nodeName c validFor now now' w w' :
  let cert := nc_ServingTLSCertFile (cf_Node c) in
  let key := nc_ServingTLSKeyFile (cf_Node c) in
  let ip := nc_InternalIP (cf_Node c) in
  GenerateServingTLS FS pem_Encode create nodeName ip cert key validFor now w = (w', Ok tt) →
  cert ≠ "" → key ≠ "" → cert ≠ key → is_ok (os_ReadFile FS cert w') = true → now' ≤ now + validFor - Second →
  Doctor.ck_Status (Doctor.checkServingTLS FS pem_Decode ParseCertificate c ip now' w') = Doctor.StatusOK.
Proof.
  cbn zeta. intros Hg Hc Hk Hne Hr Hnow. unfold GenerateServingTLS in Hg.
  destruct (ParseIP _) as [ip|] eqn:Eip; [|done]. destruct (create _) as [[der kder]|] eqn:Ec; [|done].
  destruct (writePEM _ _ _ "CERTIFICATE" der 420 w) as [w1 [[]|]] eqn:E1; [|done].
  apply writePEM_spec in E1 as [[m1 H1] _]. apply writePEM_spec in Hg as [[m2 H2] Hkeep].
  apply (Hkeep _ _ _ Hne) in H1. clear Hkeep.
  destruct (create_parses _ _ _ Ec) as (leaf & Hleaf & Hafter & Hips). cbn [ct_NotAfter ct_IPAddresses] in *.
  assert (Doctor.loadLeafCert FS pem_Decode ParseCertificate (nc_ServingTLSCertFile (cf_Node c)) w' = Ok leaf) as Hload.
  { unfold Doctor.loadLeafCert. destruct (os_ReadFile FS _ w') as [d|] eqn:Er; [|done].
    apply fh_read in Er as [m Hd]. rewrite H1 in Hd. injection Hd as <- _. cbn [Doctor.leaf_block]. by rewrite pem_roundtrip. }
  unfold Doctor.checkServingTLS. destruct (String.eqb_spec (nc_ServingTLSCertFile (cf_Node c)) ""); [done|].
  destruct (String.eqb_spec (nc_ServingTLSKeyFile (cf_Node c)) ""); [done|]. cbn [orb].
  rewrite (proj2 (fh_stat _ _)) by (by rewrite H2). rewrite Hload. destruct (Z.ltb_spec (Doctor.lf_NotAfter leaf) now'); [lia|].
  destruct (Hips ip) as (san & Hsan & Heq); [by left|].
  assert (Doctor.certCoversIP leaf (nc_InternalIP (cf_Node c)) = true) as ->; [|by rewrite andb_false_r].
  unfold Doctor.certCoversIP. rewrite Eip. apply existsb_exists. exists san. split; [by apply list_elem_of_In|done].
Qed.
End tls.

(** ** Witnesses *)

(** A codec: the length of the type in unary, then the type and the bytes. *)
Definition toy_encode (t der : string) : string := Concat (replicate (String.length t) "1") +:+ "0" +:+ t +:+ der.

Fixpoint toy_pem_go (n : nat) (s : string) : option (string * string * string) :=
  match s with
  | String a r => if Ascii.eqb a "1" then toy_pem_go (S n) r else Some (take n r, drop n r, "")
  | EmptyString => None
  end.
Definition toy_pem : string → option (string * string * string) := toy_pem_go 0.

Lemma toy_pem_roundtrip t der : toy_pem (toy_encode t der) = Some (t, der, "").
Proof.
  unfold toy_pem, toy_encode. set (k := String.length t) at 1.
  assert (∀ k n s, toy_pem_go n (Concat (replicate k "1") +:+ s) = toy_pem_go (k + n) s) as Hgo.
  { clear. induction k as [|k IH]; intros n s; [done|]. cbn [replicate Concat].
    rewrite !sapp_cons, sapp_nil_l. cbn [toy_pem_go Ascii.eqb Bool.eqb]. change (Ascii.eqb "1" "1") with true. cbn iota. rewrite IH. by rewrite Nat.add_succ_r. }
  rewrite Hgo. unfold k. rewrite Nat.add_0_r, !sapp_cons, !sapp_nil_l. cbn [toy_pem_go]. change (Ascii.eqb "0" "1") with false. cbn iota. by rewrite take_app, drop_app.
Qed.

#[export] Instance CertTemplate_eq_dec : EqDecision CertTemplate.
Proof. solve_decision. Defined.

Definition node_ip : IP := To16 (mkIP W4 3232235786).
Definition node_tmpl : CertTemplate := mkTemplate "mac-1" (0 - Hour) (0 + 24 * Hour) [node_ip].

Definition toy_create (t : CertTemplate) : result string (string * string) :=
  if decide (t = node_tmpl) then Ok ("cert", "key") else Err "unexpected template".
Definition toy_x509 (der : string) : result string Doctor.Leaf := Ok (Doctor.mkLeaf (24 * Hour) (mkDate 1970 1 2 0 0 0) [node_ip]).

Definition tls_host : FsSim := mkFsSim ∅ [] 0.
Definition tls_config : Config := serving_config "/pki/kubelet.crt" "/pki/kubelet.key" "".

Definition tls_made := GenerateServingTLS fs_sim toy_encode toy_create "mac-1" "192.168.1.10" "/pki/kubelet.crt" "/pki/kubelet.key" (24 * Hour) 0 tls_host.

Lemma generated_tls_passes_witness :
  Doctor.ck_Status (Doctor.checkServingTLS fs_sim toy_pem toy_x509 tls_config "192.168.1.10" (23 * Hour) tls_made.1) = Doctor.StatusOK.
Proof.
  apply (generated_tls_passes fs_sim toy_encode toy_create toy_pem toy_x509 toy_pem_roundtrip) with (nodeName := "mac-1") (validFor := 24 * Hour) (now := 0) (w := tls_host).
  - intros tmpl der key. unfold toy_create. destruct (decide (tmpl = node_tmpl)) as [->|]; [|done]. intros [= <- <-].
    eexists. split; [reflexivity|]. split; [vm_compute; reflexivity|]. intros ip [->|[]%not_elem_of_nil]%elem_of_cons.
    exists node_ip. split; [left|vm_compute; reflexivity].
  - vm_compute. reflexivity.
  - discriminate.
  - discriminate.
  - discriminate.
  - vm_compute. reflexivity.
  - vm_compute. discriminate.
Defined.

Definition demo_args : list string :=
  ["--node-name"; "mac-1"; "--internal-ip"; "192.168.1.10"; "--kubeconfig"; "/etc/kube.conf"; "--pod-cidr"; "10.244.1.0/24";
   "--helper-socket"; "/var/run/macvz-netd.sock"; "--podnet-interface"; "bridge100"; "--out"; "/etc/macvz/config.yaml"].

(** A decoder that accepts the generated text, and stands for the configuration. *)
Definition toy_yaml (s : string) (d : Config) : result string Config :=
  if Contains s "nodeName: mac-1" then Ok (demo_config demo_peers) else Err "bad".

Definition demo_bootstrap :=
  runBootstrap fs_sim toy_quantity toy_visit "mac-1" "/tmp" toy_yaml toy_encode toy_create demo_rand 0 demo_args tls_host.

Lemma bootstrapped_config_loads_witness :
  demo_bootstrap.2 = (0, "") ∧
  ∃ text m, fs_paths demo_bootstrap.1 = {["/etc/macvz/config.yaml" := File text m]} ∧
    is_ok (Load toy_quantity toy_visit "mac-1" "/etc/macvz/config.yaml" (Ok (Some text)) toy_yaml) = true.
Proof.
  assert (demo_bootstrap.2 = (0, "")) as Hc by (vm_compute; reflexivity). split; [exact Hc|].
  destruct (bootstrapped_config_loads fs_sim toy_quantity toy_visit "mac-1" "/tmp" toy_yaml toy_encode toy_create demo_rand 0 demo_args
    tls_host demo_bootstrap.1 "") as (g & rest & Hg & _ & _ & Hl).
  { rewrite <- Hc. unfold demo_bootstrap. by destruct (runBootstrap _ _ _ _ _ _ _ _ _ _ _ _). }
  eexists _, 420. split; [|apply Hl; discriminate]. vm_compute in Hg. injection Hg as <- _. vm_compute. reflexivity.
Defined.

(** ** A key that was there before *)

Definition open_key : FsSim := mkFsSim {["/pki/kubelet.key" := File "old" 420]} [] 0.

(** The private key is written with the permissions of a file that is already
    there: a key file readable by everyone stays so, although the code asks for 0600.
    And when the key cannot be written after the certificate was replaced, the pair that
    is left does not belong together. *)
Theorem serving_key_permissions :
  let gen := GenerateServingTLS fs_sim toy_encode toy_create "mac-1" "192.168.1.10" "/pki/kubelet.crt" "/pki/kubelet.key" (24 * Hour) 0 in
  fs_paths (gen open_key).1 !! "/pki/kubelet.key" = Some (File (toy_encode "RSA PRIVATE KEY" "key") 420) ∧
  (let r := gen (mkFsSim (fs_paths open_key) [None; None; None; Some "disk full"] 0) in
   is_ok r.2 = false ∧ fs_paths r.1 !! "/pki/kubelet.key" = Some (File "old" 420) ∧
   fs_paths r.1 !! "/pki/kubelet.crt" = Some (File (toy_encode "CERTIFICATE" "cert") 420)).
Proof. by vm_compute. Qed.
