(* ===== verification/BundleCmd.v ===== *)
(** * The bundle command: [cmd/macvz-kubelet/bundle.go] and [Archive]

    Which sources a node's bundle has, what they run and read, and what becomes of
    the collected directory.  The helper is asked over its socket ([PrivHelper]), and
    the health report of a kubelet that does not answer is made in this process
    ([LocalHealth]).  What the Kubernetes API and the YAML and JSON encoders answer
    are parameters, as are the tar and gzip writers. *)

From S2P Require Import Prelude GoFloat GoStrings GoNet GoJson GoTime GoFlag GoRegexp Redact OsFs Filepath Bundle Runtime Driver Host PodNet PrivPolicy PrivHelper WireGuard NetConfig Config NodeStatus Retry Serving Health LocalHealth.

Open Scope Z_scope.

(** [filepath.Base]: the last component, ["."] for an empty path. *)
Definition Base (p : string) : string :=
  if String.eqb p "" then "." else
  match rev (filter (λ c, c ≠ "") (split_on sep p)) with [] => Separator | c :: _ => c end.

Definition emptyOr (s def : string) : string := if String.eqb s "" then def else s.

Definition splitNonEmpty (csv : string) : list string := filter (λ p, p ≠ "") (TrimSpace <$> split_on "," csv).

Definition bool_text (b : bool) : string := if b then "true" else "false".

Record K8sEvent := mkEvent { e_last : string; e_kind : string; e_name : string; e_type : string; e_reason : string; e_message : string }.

Definition tab : string := String (ch 9) "".

Definition event_line (e : K8sEvent) : string :=
  e_last e +:+ tab +:+ e_kind e +:+ "/" +:+ e_name e +:+ tab +:+ e_type e +:+ tab +:+ e_reason e +:+ ": " +:+ e_message e +:+ nl.

(** What the process finds outside of itself: the programs on its PATH, the host's name
    and address, the version text, the loaded configuration as YAML, the helper's state
    as JSON, the Node object as YAML, the latest events, the Node's conditions and
    lease, the kubelet's HTTP answers with the status line of a code, who listens on
    the helper socket, the clock, and the order in which concurrent checkers are done.
    The API is reached with the kubeconfig the configuration names. *)
Record Outside (W : Type) := mkOutside {
  o_LookPath : string → W → option string;
  o_host : string; o_detected : string; o_version : string;
  o_cfg_yaml : Config → result string string;
  o_status_json : HelperStatus → result string string;
  o_node_yaml : Config → W → result string string;
  o_events : Config → Z → W → result string (list K8sEvent);
  o_node : string → W → ApiGet (list NodeCondition);
  o_lease : string → W → ApiGet (option Z);
  o_http : W → string → result string (Z * string);
  o_status_line : Z → string;
  o_daemon : W → option (Server W);
  o_clock : W → Z;
  o_order : list (Checker W) → list (Checker W);
  o_order_perm l : o_order l ≡ₚ l;
}.
Arguments mkOutside {W}. Arguments o_LookPath {W}. Arguments o_host {W}. Arguments o_detected {W}. Arguments o_version {W}.
Arguments o_cfg_yaml {W}. Arguments o_status_json {W}. Arguments o_node_yaml {W}. Arguments o_events {W}. Arguments o_node {W}.
Arguments o_lease {W}. Arguments o_http {W}. Arguments o_status_line {W}. Arguments o_daemon {W}. Arguments o_clock {W}.
Arguments o_order {W}. Arguments o_order_perm {W}.

Section sources.
Context {W : Type} `{!Link W} (FS : Os W) (cli : Runner W) (tool : string → Cli W) (out : Outside W).

Definition collected (r : result string string) : Collected := match r with Ok d => (d, None) | Err e => ("", Some e) end.

(** A collector that only looks. *)
Definition reading (f : W → Collected) : W → W * Collected := λ w, (w, f w).

Definition cmdSource (name : string) (args : list string) (w : W) : W * Collected :=
  let header := "$ " +:+ name +:+ " " +:+ Join args " " +:+ nl in
  match o_LookPath out name w with
  | Some msg => (w, (header, Some (name +:+ " not found on PATH: " +:+ msg)))
  | None => let '(w, (text, err)) := run cli (mkCmd name args "") w in (w, (header +:+ text, ce_err <$> err))
  end.

Definition fileSource (path : string) : W → W * Collected := reading (λ w, collected (os_ReadFile FS path w)).

Definition metadata_text (cfg : Config) (internalIP runtimeBin : string) : string :=
  "macvz-kubelet " +:+ o_version out +:+ nl +:+ "node: " +:+ cf_NodeName cfg +:+ nl +:+ "host: " +:+ o_host out +:+ nl +:+
  "internalIP: " +:+ internalIP +:+ nl +:+ "runtimeBinary: " +:+ runtimeBin +:+ nl +:+
  "mesh.enabled: " +:+ bool_text (mc_Enabled (cf_Mesh cfg)) +:+ nl +:+
  "podNetwork.enabled: " +:+ bool_text (pn_Enabled (cf_PodNetwork cfg)) +:+ nl +:+
  "helperSocket: " +:+ emptyOr (cf_PrivilegedHelperSocket cfg) "(none)" +:+ nl.

Definition events_text (l : list K8sEvent) : string :=
  let text := Concat (event_line <$> l) in if String.eqb text "" then "(no events)" +:+ nl else text.

Definition fetch_error_text (e : FetchError) : string :=
  match e with FRequest msg => msg | FStatus url code => "GET " +:+ url +:+ " returned " +:+ o_status_line out code end.

(** The report of the running kubelet, or this process's own with the failure. *)
Definition diagnostics_source (cfg : Config) (internalIP : string) (w : W) : W * Collected :=
  match fetchLiveDiagnostics (o_http out w) cfg internalIP with
  | (data, None) => (w, (data, None))
  | (_, Some e) =>
      let '(w, fallback) := fallbackDiagnostics cli tool (o_daemon out) (o_node out) (o_lease out) (o_clock out) (o_order out) cfg w in
      (w, (fallback, Some ("live diagnostics unavailable: " +:+ fetch_error_text e)))
  end.

(** The helper's self-report. *)
Definition helper_source (w : W) : W * Collected :=
  let '(_, w, r) := client_status (o_daemon out w) w in
  (w, match r with Ok st => collected (o_status_json out st) | Err e => ("", Some (client_error_text e)) end).

Definition addControlPlaneSources (b : Builder W) (cfg : Config) (internalIP : string) (maxEvents : Z) : Builder W :=
  let b := Add b "kubernetes/node.yaml" (reading (λ w, collected (o_node_yaml out cfg w))) in
  let b := Add b "kubernetes/events.txt" (reading (λ w,
    match o_events out cfg maxEvents w with Err e => ("", Some e) | Ok l => (events_text l, None) end)) in
  Add b "health/diagnostics.txt" (diagnostics_source cfg internalIP).

Definition addBundleSources (b : Builder W) (cfg : Config) (configPath logFiles : string) (maxEvents : Z) : Builder W :=
  let internalIP := emptyOr (nc_InternalIP (cf_Node cfg)) (o_detected out) in
  let runtimeBin := emptyOr (cf_RuntimeBinary cfg) "container" in
  let b := Add b "metadata.txt" (reading (λ _, (metadata_text cfg internalIP runtimeBin, None))) in
  let b := Add b "config/config-loaded.yaml" (reading (λ _, collected (o_cfg_yaml out cfg))) in
  let b := if String.eqb configPath "" then b else Add b "config/config-raw.yaml" (fileSource configPath) in
  let b := Add b "runtime/system-status.txt" (cmdSource runtimeBin ["system"; "status"]) in
  let b := Add b "runtime/containers.txt" (cmdSource runtimeBin ["list"; "--all"]) in
  let b := Add b "runtime/images.txt" (cmdSource runtimeBin ["image"; "ls"]) in
  let b := addControlPlaneSources b cfg internalIP maxEvents in
  let b := if String.eqb (cf_PrivilegedHelperSocket cfg) "" then b
           else Add b "network/helper-status.json" helper_source in
  let b := Add b "network/routes.txt" (cmdSource "netstat" ["-rn"]) in
  let b := Add b "network/ip-forwarding.txt" (cmdSource "sysctl" ["net.inet.ip.forwarding"]) in
  let mesh := mc_Interface (cf_Mesh cfg) in
  let b := if mc_Enabled (cf_Mesh cfg) && negb (String.eqb mesh "")
           then Add (Add b "network/mesh-interface.txt" (cmdSource "ifconfig" [mesh])) "network/wireguard.txt" (cmdSource "wg" ["show"; mesh])
           else b in
  let b := if pn_Enabled (cf_PodNetwork cfg)
           then Add b "network/pf-anchor-rules.txt"
                  (cmdSource "pfctl" ["-a"; emptyOr (pn_Anchor (cf_PodNetwork cfg)) DefaultAnchor; "-s"; "all"])
           else b in
  foldl (λ b lf, Add b ("logs/" +:+ Base lf) (fileSource lf)) b (splitNonEmpty logFiles).

(** ** Packing *)

(** Creating the archive file, walking the directory into the writers, and closing
    them: the tar writer, the gzip writer and the file.  Each may fail. *)
Record Packer := mkPacker {
  pk_create : string → W → W * option string;
  pk_walk : string → string → W → W * option string;
  pk_close : string → W → W * option string;
  pk_removeAll : string → W → W * option string;
}.

(** The closes are deferred: their results are dropped. *)
Definition Archive (pk : Packer) (dir dest : string) (w : W) : W * option string :=
  match pk_create pk dest w with
  | (w, Some msg) => (w, Some ("create archive: " +:+ msg))
  | (w, None) =>
      let '(w, r) := pk_walk pk dir dest w in
      let '(w, _) := pk_close pk dest w in (w, r)
  end.

Definition bundle_flags : FlagSet :=
  list_to_map [("config", KString); ("out", KString); ("no-archive", KBool); ("log-file", KString); ("events", KInt)].

Context (load : string → result CfgError Config) (tempDir : string).

Definition failed_sources (l : list FileResult) : Z := Z.of_nat (length (filter (λ f, fr_Err f ≠ "") l)).

Definition summary (final : string) (files : list FileResult) : string :=
  "diagnostic bundle written: " +:+ final +:+ nl +:+
  "  " +:+ Itoa (Z.of_nat (length files)) +:+ " sources collected, " +:+ Itoa (failed_sources files) +:+ " with errors (recorded in the bundle)." +:+ nl +:+
  "  Secrets were redacted, but review the contents before sharing." +:+ nl.

(** The directory, or the archive that replaces it. *)
Definition packed (pk : Packer) (noArchive : bool) (dir : string) (w : W) : W * string :=
  if noArchive then (w, dir) else
  match Archive pk dir (dir +:+ ".tar.gz") w with
  | (w, Some _) => (w, dir)
  | (w, None) => let '(w, _) := pk_removeAll pk dir w in (w, dir +:+ ".tar.gz")
  end.

Definition runBundle (pk : Packer) (now : DateTime) (args : list string) (w : W) : W * (Z * string) :=
  match parse_flags bundle_flags args with
  | Err _ => (w, (2, ""))
  | Ok (g, _) =>
      let configPath := flag_string g "config" "" in
      match load configPath with
      | Err _ => (w, (1, ""))
      | Ok cfg =>
          let parentDir := emptyOr (flag_string g "out" "") tempDir in
          match os_MkdirAll FS parentDir 448 w with
          | (w, Some _) => (w, (1, ""))
          | (w, None) =>
              let b := addBundleSources (NewBuilder now) cfg configPath (flag_string g "log-file" "") (flag_int g "events" 50) in
              match Build FS b parentDir (cf_NodeName cfg) w with
              | (w, (_, Some _)) => (w, (1, ""))
              | (w, (res, None)) =>
                  let '(w, final) := packed pk (flag_bool g "no-archive" false) (br_Dir res) w in
                  (w, (0, summary final (br_Files res)))
              end
          end
      end
  end.
End sources.

(** ** What a bundle looks at *)



Section looks.
Context {W : Type} `{!Link W} (cli : Runner W) (tool : string → Cli W) (out : Outside W).

Abbreviation sources_of FS b cfg configPath logFiles maxEvents :=
  (b_sources (addBundleSources FS cli tool out b cfg configPath logFiles maxEvents)).



End looks.

Section inspects.
Context {W : Type} `{!Link W} (FS : Os W) (cli : Runner W) (tool : string → Cli W) (out : Outside W).
(** The commands run so far: running one records it, files and archives run none. *)
Context (trace : W → list Command) (pk : Packer (W := W)) `{!Traced cli tool (o_daemon out) trace}.
Hypothesis mkdir_traced : ∀ p m w, trace (os_MkdirAll FS p m w).1 = trace w.
Hypothesis write_traced : ∀ p d m w, trace (os_WriteFile FS p d m w).1 = trace w.
Hypothesis create_traced : ∀ p w, trace (pk_create pk p w).1 = trace w.
Hypothesis walk_traced : ∀ p q w, trace (pk_walk pk p q w).1 = trace w.
Hypothesis close_traced : ∀ p w, trace (pk_close pk p w).1 = trace w.
Hypothesis removeAll_traced : ∀ p w, trace (pk_removeAll pk p w).1 = trace w.

Abbreviation only := (only trace).



Abbreviation bundle_sources OS cfg configPath logFiles maxEvents now :=
  (b_sources (addBundleSources OS cli tool out (NewBuilder now) cfg configPath logFiles maxEvents)).




End inspects.

(** ** Witness, and an archive that was never finished *)

Definition pack_sim (close_error : option string) : Packer (W := FsSim) :=
  mkPacker (λ p w, (with_paths w (<[p := File "" 420]> (fs_paths w)), None))
    (λ _ _ w, (w, None))
    (λ p w, match close_error with
            | None => (with_paths w (<[p := File "the whole bundle" 420]> (fs_paths w)), None)
            | Some msg => (w, Some msg)
            end)
    (λ dir w, (with_paths w (filter (λ '(p, _), HasPrefix p (dir +:+ "/") = false) (fs_paths w)), None)).

(** A host with every program installed, where nobody answers: no kubelet, no helper. *)
Definition quiet {W} (version : string) (daemon : W → option (Server W)) : Outside W :=
  mkOutside (λ _ _, None) "mac-1" "" version (λ _, Ok "") (λ _, Ok "{}") (λ _ _, Ok "kind: Node") (λ _ _ _, Ok []) (λ _ _, ApiNotFound)
    (λ _ _, ApiNotFound) (λ _ _, Err "refused") Itoa daemon (λ _, 0) (@reverse _) (λ l, reverse_Permutation l).

Definition bundle_sim (close_error : option string) (args : list string) : FsSim * (Z * string) :=
  @runBundle _ reliable fs_sim (mkRunner (λ c w, (w, ("", None)))) (λ _, mkCli (λ _ _ w, (w, ("", "", None)))) (quiet "v1" (λ _, None))
    (λ _, Ok (demo_config demo_peers)) "/tmp" (pack_sim close_error) demo_now args (mkFsSim ∅ [] 0).

(** Closing the archive is where its last bytes are written, and [Archive] drops the
    result: when that write fails the command removes the collected directory, keeps a
    truncated archive and reports success with exit code 0. *)
Theorem truncated_archive_reported :
  let '(w, (code, out)) := bundle_sim (Some "no space left on device") [] in
  code = 0 ∧ HasPrefix out "diagnostic bundle written: /tmp/macvz-bundle-mac-1-20260102T030405Z.tar.gz" = true ∧
  fs_paths w = {["/tmp/macvz-bundle-mac-1-20260102T030405Z.tar.gz" := File "" 420]}.
Proof. vm_compute. auto. Qed.







