(* ===== verification/Commands.v ===== *)
(** * The operator's commands: [cleanup.go] and [remove.go] of cmd/macvz-kubelet,
      [pkg/noderemove/report.go]

    Cleaning up after a drain and removing a node for good.  They work on the
    running host: its runtime, its commands and its files.  A call to the privileged
    helper and to the Kubernetes API is an operation on that host. *)

From S2P Require Import Prelude GoFloat GoStrings GoNet GoJson GoTime GoFlag OsFs Filepath Driver Host PodNet PrivPolicy PrivHelper WireGuard NetConfig PodSpec PodEnv Volumes Runtime Cleanup Provider Lifecycle Config Retry Serving Bootstrap.

Open Scope Z_scope.

(** [runtime.Phase] is a string type: what a phase prints as. *)
Definition Phase_String (p : Phase) : string :=
  match p with
  | PhaseUnknown => "Unknown" | PhaseCreated => "Created" | PhaseRunning => "Running"
  | PhaseStopped => "Stopped" | PhaseFailed => "Failed"
  end.

(** ** Flushing the anchor *)

Section host.
Context `{MapRange} {W : Type} (RT : Runtime W) (cli : Runner W).
(** [Client.Run]: output, error output, exit code and error. *)
Context (helper : Request → W → W * (string * string * Z * option ClientError)).

Definition helperFlusher (anchor : string) (w : W) : W * result string unit :=
  let '(w, (_, stderr, code, err)) := helper (mkReq "pfctl" ["-a"; anchor; "-F"; "all"] "") w in
  (w, match err with
      | Some e => Err (client_error_text e)
      | None => if code =? 0 then Ok tt else Err ("pfctl -a " +:+ anchor +:+ " -F all exited " +:+ Itoa code +:+ ": " +:+ stderr)
      end).

Definition pfctlFlusher (anchor : string) (w : W) : W * result string unit :=
  let '(w, (out, err)) := run cli (mkCmd "pfctl" ["-a"; anchor; "-F"; "all"] "") w in
  (w, match err with Some e => Err ("pfctl -a " +:+ anchor +:+ " -F all: " +:+ ce_err e +:+ ": " +:+ out) | None => Ok tt end).

Definition anchorFlusher (c : Config) (enabled : bool) : option (W → W * result string unit) :=
  if negb enabled || negb (pn_Enabled (cf_PodNetwork c)) then None else
  let anchor := if String.eqb (pn_Anchor (cf_PodNetwork c)) "" then DefaultAnchor else pn_Anchor (cf_PodNetwork c) in
  Some (if negb (String.eqb (cf_PrivilegedHelperSocket c) "") then helperFlusher anchor else pfctlFlusher anchor).

Definition flushOnlyAnchor (c : Cleaner W) (w : W) : W :=
  match cl_Flusher c with None => w | Some flush => (flush w).1 end.

(** ** Cleanup *)

Definition cleanup_flags : FlagSet :=
  list_to_map [("config", KString); ("dry-run", KBool); ("all", KBool); ("flush-anchor", KBool); ("stop-timeout", KDuration)].

Context (load : string → result CfgError Config).

(** [expectedWorkloads]; [api]: the client and the listing, or what failed. *)
Definition expectedWorkloads (api : Config → result string (list (Pod * bool))) (c : Config) : result string (gset string) :=
  expected_of (api c).

Definition orphan_line (o : Orphan) : string := "  - " +:+ o_ID o +:+ " (" +:+ Phase_String (o_Phase o) +:+ ")".

Definition reaping_lines (dryRun : bool) (orphans : list Orphan) (node : string) : list string :=
  ((if dryRun then "Would reap" else "Reaping") +:+ " " +:+ Itoa (Z.of_nat (length orphans)) +:+
   " orphan MacVz micro-VM(s) on node " +:+ Quote node +:+ ":") :: (orphan_line <$> orphans).

(** The cleaning pass, the live workloads known. *)
Definition cleanup_pass (cl : Cleaner W) (node : string) (expected : gset string) (dryRun flushed : bool) (w : W) : W * (Z * string) :=
  match Scan RT expected w with
  | (w, Err _) => (w, (1, ""))
  | (w, Ok []) =>
      (if dryRun then w else flushOnlyAnchor cl w, (0, text_of ["No orphan MacVz micro-VMs on node " +:+ Quote node +:+ "."]))
  | (w, Ok orphans) =>
      let head := text_of (reaping_lines dryRun orphans node) in
      match Reap RT cl orphans dryRun w with
      | (w, (_, _ :: _)) => (w, (1, head))
      | (w, (reaped, [])) =>
          let n := Itoa (Z.of_nat (length reaped)) in
          (w, (0, head +:+ nl +:+
             if dryRun then text_of ["Dry run: nothing changed. Re-run without --dry-run to reap " +:+ n +:+ " VM(s)."]
             else text_of ["Reaped " +:+ n +:+ " micro-VM(s)." +:+ (if flushed then " Flushed pf anchor." else "");
                           "Verify with: container list --all  (expect no macvz-* entries)"]))
      end
  end.

Definition is_some_flusher (o : option (W → W * result string unit)) : bool := match o with Some _ => true | None => false end.

Definition runCleanup (api : Config → result string (list (Pod * bool))) (args : list string) (w : W) : W * (Z * string) :=
  match parse_flags cleanup_flags args with
  | Err _ => (w, (2, ""))
  | Ok (g, _) =>
      match load (flag_string g "config" "") with
      | Err _ => (w, (1, ""))
      | Ok cfg =>
          let flushAnchor := flag_bool g "flush-anchor" true in
          match (if flag_bool g "all" false then Ok ∅ else expectedWorkloads api cfg) with
          | Err _ => (w, (1, ""))
          | Ok expected =>
              cleanup_pass (mkCleaner (anchorFlusher cfg flushAnchor) (flag_duration g "stop-timeout" (10 * Second))) (cf_NodeName cfg)
                expected (flag_bool g "dry-run" false) (flushAnchor && is_some_flusher (anchorFlusher cfg true)) w
          end
      end
  end.

(** ** Removal *)

Definition remove_flags : FlagSet :=
  list_to_map [("config", KString); ("dry-run", KBool); ("yes", KBool); ("keep-node", KBool); ("stop-timeout", KDuration)].

(** What deleting the Node object came to. *)
Inductive Deleted : Type := DeleteDone | DeleteNotFound | DeleteFailed (msg : string).

Definition DeleteNode (api_delete : string → W → W * Deleted) (name : string) (w : W) : W * result string unit :=
  let '(w, r) := api_delete name w in (w, match r with DeleteDone | DeleteNotFound => Ok tt | DeleteFailed m => Err m end).

Definition buildVMReaper (timeout : Z) : bool → W → W * (list string * list CleanError) := ReapAll RT (mkCleaner None timeout).

Definition buildPFFlusher (c : Config) : option (W → W * result string unit) := anchorFlusher c true.

(** The mesh's commands, through the helper when one is configured. *)
Definition mesh_runner (c : Config) : Runner W :=
  if String.eqb (cf_PrivilegedHelperSocket c) "" then cli
  else mkRunner (λ cmd w,
    let '(w, (out, errout, code, err)) := helper (mkReq (c_name cmd) (c_args cmd) (c_stdin cmd)) w in
    (w, (out, match err with
              | Some e => Some (mkCE code errout (client_error_text e))
              | None => if code =? 0 then None else Some (mkCE code errout "")
              end))).

Context (FS : Os W) (rand : Key).

(** Resolving the mesh configuration loads the node's key, or makes it. *)
Definition buildMeshRemover (c : Config) (w : W) : W * option (W → W * result string unit) :=
  if negb (mc_Enabled (cf_Mesh c)) then (w, None) else
  let path := mc_PrivateKeyFile (cf_Mesh c) in
  let r := MeshInterfaceConfig (net_of c) (read_opt FS path w) rand in
  let '(w, key) := create_key FS path rand w in
  match key, r with
  | Ok _, Ok ifc => (w, Some (λ w, let '(_, w) := Remove (mesh_runner c) (Mesh_New ifc) w in (w, Ok tt)))
  | _, _ => (w, None)
  end.

Definition step_status (s : StepStatus) : string := match s with StepOK => "OK" | StepSkipped => "SKIP" | StepFailed => "FAIL" end.

Definition em_dash : string := encode_rune 8212.

Definition step_line (s : StepResult) : string :=
  "  [" +:+ step_status (sr_Status s) +:+ "] " +:+ sr_Name s +:+
  (if String.eqb (sr_Detail s) "" then "" else " " +:+ em_dash +:+ " " +:+ sr_Detail s) +:+
  match sr_Err s with None => "" | Some e => " (" +:+ e +:+ ")" end.

Definition Render (node : string) (dryRun : bool) (steps : list StepResult) : string :=
  text_of (["Node removal: " +:+ node +:+ (if dryRun then " (dry-run)" else "")] ++ (step_line <$> steps) ++
    [if dryRun then "Verdict: DRY-RUN (no changes made)"
     else if Result_OK steps then "Verdict: REMOVED (no failed steps)"
     else "Verdict: PARTIAL " +:+ em_dash +:+ " re-run after resolving the failed step(s) above"]).

(** The options of a removal; [api]: the Node deleter, or why there is none. *)
Definition remove_options (api : result string (string → W → W * Deleted)) (cfg : Config) (g : Given) (w : W) : W * RemoveOptions W :=
  let dryRun := flag_bool g "dry-run" false in
  let effectiveDryRun := dryRun || (negb (flag_bool g "yes" false) && negb dryRun) in
  let '(w, mesh) := buildMeshRemover cfg w in
  let nodes := if flag_bool g "keep-node" false then None else match api with Err _ => None | Ok d => Some (DeleteNode d) end in
  (w, mkRemove (cf_NodeName cfg) effectiveDryRun nodes (Some (buildVMReaper (flag_duration g "stop-timeout" (10 * Second))))
        (buildPFFlusher cfg) mesh).

Definition runRemove (api : result string (string → W → W * Deleted)) (args : list string) (w : W) : W * (Z * string) :=
  match parse_flags remove_flags args with
  | Err _ => (w, (2, ""))
  | Ok (g, _) =>
      match load (flag_string g "config" "") with
      | Err _ => (w, (1, ""))
      | Ok cfg =>
          let '(w, o) := remove_options api cfg g w in
          let '(w, steps) := Run o w in
          (w, (if Result_OK steps then 0 else 1, Render (cf_NodeName cfg) (ro_DryRun o) steps))
      end
  end.
End host.

(** ** Subcommands *)

(** The exit code of the subcommand that was named, if the first argument names one. *)
Definition dispatchSubcommand {W} (runDoctor runBootstrap runBundle runCleanup runRemove : list string → W → W * Z) (args : list string) (w : W)
    : W * option Z :=
  let handled r := let '(w, code) := r in (w, Some code) in
  match args with
  | [] => (w, None)
  | name :: rest =>
      if String.eqb name "doctor" then handled (runDoctor rest w)
      else if String.eqb name "bootstrap" then handled (runBootstrap rest w)
      else if String.eqb name "bundle" then handled (runBundle rest w)
      else if String.eqb name "cleanup" then handled (runCleanup rest w)
      else if String.eqb name "remove" then handled (runRemove rest w)
      else (w, None)
  end.

(** An invocation with flags first starts the kubelet. *)
Lemma flags_not_dispatched {W} (d b u c r : list string → W → W * Z) name rest w :
  HasPrefix name "-" = true → dispatchSubcommand d b u c r (name :: rest) w = (w, None).
Proof.
  intros Hp. unfold dispatchSubcommand.
  repeat match goal with |- context [String.eqb name ?s] => destruct (String.eqb_spec name s) as [->|_]; [discriminate Hp|] end. done.
Qed.

(** ** What a cleanup spares and what it takes *)

Section cleanup.
Context `{MapRange} {W : Type} (RT : Runtime W) `{!VmHost RT} (cli : Runner W).
Context (helper : Request → W → W * (string * string * Z * option ClientError)).
(** Commands of the packet filter touch no micro-VM. *)
Hypothesis cli_vms : ∀ c w, vms (run cli c w).1 = vms w.
Hypothesis helper_vms : ∀ r w, vms (helper r w).1 = vms w.

Definition quiet_flusher (o : option (W → W * result string unit)) : Prop := ∀ f w, o = Some f → vms (f w).1 = vms w.

Lemma anchorFlusher_quiet c en : quiet_flusher (anchorFlusher cli helper c en).
Proof.
  intros f w. unfold anchorFlusher. destruct (negb en || _); [done|]. intros [= <-].
  destruct (negb _).
  - unfold helperFlusher. pose proof (helper_vms (mkReq "pfctl" ["-a"; if String.eqb (pn_Anchor (cf_PodNetwork c)) "" then DefaultAnchor
      else pn_Anchor (cf_PodNetwork c); "-F"; "all"] "") w) as Hv. destruct (helper _ w) as [w1 [[[o e] k] err]]. exact Hv.
  - unfold pfctlFlusher. pose proof (cli_vms (mkCmd "pfctl" ["-a"; if String.eqb (pn_Anchor (cf_PodNetwork c)) "" then DefaultAnchor
      else pn_Anchor (cf_PodNetwork c); "-F"; "all"] "") w) as Hv. destruct (run cli _ w) as [w1 [o e]]. exact Hv.
Qed.

(** Reaping with a flusher: as without one, and the flush after it. *)
Lemma Reap_flushed_vms cl l dry w w' reaped errs :
  quiet_flusher (cl_Flusher cl) → Reap RT cl l dry w = (w', (reaped, errs)) →
  (dry = true → vms w' = vms w) ∧ vms w' ⊆ vms w ∧
  (∀ id, id ∈ vms w → id ∉ vms w' → id ∈ o_ID <$> l) ∧
  (dry = false → errs = [] → ∀ id, id ∈ o_ID <$> l → id ∉ vms w').
Proof.
  intros Hq Hr. destruct (Reap RT (mkCleaner None (cl_Timeout cl)) l dry w) as [w1 [reaped1 errs1]] eqn:E.
  apply (Reap_vms RT (mkCleaner None (cl_Timeout cl))) in E as Hv; [|done].
  assert (vms w' = vms w1 ∧ (errs = [] → errs1 = [])) as [-> He].
  { unfold Reap in Hr, E. cbn [cl_Flusher cl_Timeout] in E. destruct dry; [by simplify_eq|].
    destruct (reap_loop _ _ l w) as [w2 [es rs]]. simplify_eq. destruct (cl_Flusher cl) as [f|]; [|by simplify_eq].
    pose proof (Hq f w1 eq_refl) as Hf. destruct (f w1) as [w3 r]. simplify_eq. split; [exact Hf|]. by intros [? _]%app_eq_nil. }
  destruct Hv as (H1 & H2 & H3 & H4). split_and!; auto.
Qed.

Lemma cleanup_pass_vms cl node live dry flushed w w' code out :
  quiet_flusher (cl_Flusher cl) → cleanup_pass RT cl node live dry flushed w = (w', (code, out)) →
  (∀ id, id ∈ live → id ∈ vms w → id ∈ vms w') ∧ (dry = true → vms w' = vms w) ∧
  (dry = false → code = 0 → ∀ id, id ∈ vms w' → IsMacVzVM id = true → id ∈ live).
Proof.
  intros Hq Hc. unfold cleanup_pass in Hc. pose proof (Scan_vms RT live w) as Hv.
  destruct (Scan RT live w) as [w1 [orphans|e]] eqn:Es; cbn in Hv; [|by simplify_eq; rewrite Hv; split_and!].
  pose proof (λ id, Scan_exact RT live w w1 orphans id Es) as Hex. destruct orphans as [|o l].
  - assert (vms w' = vms w) as ->.
    { simplify_eq. destruct dry; [done|]. unfold flushOnlyAnchor. destruct (cl_Flusher cl) as [f|] eqn:Ef; [|done].
      by rewrite (Hq f w1 eq_refl). }
    split_and!; [done|done|]. intros _ _ id Hin Hm. destruct (decide (id ∈ live)) as [|Hn]; [done|].
    destruct (not_elem_of_nil id). apply (Hex id). done.
  - destruct (Reap RT cl (o :: l) dry w1) as [w2 [reaped errs]] eqn:Er.
    assert (w' = w2 ∧ (code = 0 → errs = [])) as [-> Hcode] by (destruct errs; by simplify_eq).
    apply Reap_flushed_vms in Er as (H1 & H2 & H3 & H4); [|done]. rewrite Hv in *. split_and!; [|done|].
    + intros id Hl Hin. destruct (decide (id ∈ vms w2)) as [|Hn]; [done|]. apply H3, Hex in Hn as (_ & _ & []); done.
    + intros Hd Hc0 id Hin Hm. destruct (decide (id ∈ live)) as [|Hn]; [done|].
      destruct (H4 Hd (Hcode Hc0) id); [|done]. apply Hex. set_solver.
Qed.

(** C14: what the cleanup command destroys.  Without [--all] it refuses to guess: when
    the Pods cannot be listed it touches nothing and fails.  The micro-VM of a listed
    Pod that is not being deleted and that translation accepts survives; a dry run
    destroys nothing; and after a real run that succeeded no micro-VM of the node is
    left but those it had to expect. *)
Theorem cleanup_safe load api args w w' code out cfg g rest :
  parse_flags cleanup_flags args = Ok (g, rest) → load (flag_string g "config" "") = Ok cfg →
  runCleanup RT cli helper load api args w = (w', (code, out)) →
  let expected := if flag_bool g "all" false then Ok ∅ else expectedWorkloads api cfg in
  (∀ e, expected = Err e → w' = w ∧ code = 1) ∧
  (∀ ps pod policy dns cms secrets tokens spec vols,
     flag_bool g "all" false = false → api cfg = Ok ps → (pod, false) ∈ ps →
     translatePod pod policy dns cms secrets tokens = Ok (spec, vols) → s_Name spec ∈ vms w → s_Name spec ∈ vms w') ∧
  (flag_bool g "dry-run" false = true → vms w' = vms w) ∧
  (flag_bool g "dry-run" false = false → code = 0 → ∀ id, id ∈ vms w' → IsMacVzVM id = true → ∃ live, expected = Ok live ∧ id ∈ live).
Proof.
  intros Hp Hl Hr. cbn zeta. unfold runCleanup in Hr. rewrite Hp, Hl in Hr.
  destruct (if flag_bool g "all" false then Ok ∅ else expectedWorkloads api cfg) as [live|e] eqn:Ee.
  - apply cleanup_pass_vms in Hr as (H1 & H2 & H3); [|apply anchorFlusher_quiet]. split_and!; [done| |done|eauto].
    intros ps pod policy dns cms secrets tokens spec vols Hall Hps Hin Ht Hv. apply H1; [|done].
    rewrite Hall in Ee. unfold expectedWorkloads in Ee. rewrite Hps in Ee. injection Ee as <-.
    apply elem_of_list_to_set, list_elem_of_bind. exists (pod, false). split; [|done]. cbn [fst snd].
    rewrite (expected_translated _ _ _ _ _ _ _ _ Ht). by left.
  - simplify_eq. split_and!; [done| |done|done]. intros ps. intros. done.
Qed.
End cleanup.

(** ** What a removal needs and what it leaves *)

Section removal.
Context `{MapRange} {W : Type} (RT : Runtime W) `{!VmHost RT} (cli : Runner W) (FS : Os W) (rand : Key).
Context (helper : Request → W → W * (string * string * Z * option ClientError)).
(** Only the runtime makes and destroys micro-VMs. *)
Hypothesis cli_vms : ∀ c w, vms (run cli c w).1 = vms w.
Hypothesis helper_vms : ∀ r w, vms (helper r w).1 = vms w.
Hypothesis mkdir_vms : ∀ p m w, vms (os_MkdirAll FS p m w).1 = vms w.
Hypothesis write_vms : ∀ p d m w, vms (os_WriteFile FS p d m w).1 = vms w.

Lemma mesh_runner_vms c cmd w : vms (run (mesh_runner cli helper c) cmd w).1 = vms w.
Proof.
  unfold mesh_runner. destruct (String.eqb _ _); [apply cli_vms|]. cbn [run].
  rewrite <- (helper_vms (mkReq (c_name cmd) (c_args cmd) (c_stdin cmd)) w). by destruct (helper _ w) as [? [[[? ?] ?] ?]].
Qed.

Lemma tolerating_quiet (R : Runner W) cmd l w : (∀ c w, vms (run R c w).1 = vms w) → vms (runTolerating R cmd l w).1 = vms w.
Proof. intros HR. by rewrite runTolerating_world, HR. Qed.

Lemma delete_all_vms (R : Runner W) i ts w : (∀ c w, vms (run R c w).1 = vms w) → vms (delete_all R i ts w) = vms w.
Proof. intros HR. revert w. induction ts as [|t ts IH]; intros w; [done|]. cbn [delete_all]. by rewrite IH, tolerating_quiet. Qed.

Lemma Remove_vms (R : Runner W) m w : (∀ c w, vms (run R c w).1 = vms w) → vms (Remove R m w).2 = vms w.
Proof. intros HR. unfold Remove, teardownLocked. cbn [snd]. by rewrite !tolerating_quiet, delete_all_vms. Qed.

Lemma create_key_vms path k w : vms (create_key FS path k w).1 = vms w.
Proof.
  unfold create_key. destruct (LoadOrCreateKey _ _) as [[k' [text|]]|]; [|done..].
  assert (vms (if negb (String.eqb (Dir path) "") && negb (String.eqb (Dir path) ".") then os_MkdirAll FS (Dir path) 448 w else (w, None)).1
    = vms w) as Hd by (destruct (_ && _); [apply mkdir_vms|done]).
  destruct (if _ && _ then _ else _) as [w1 [e|]]; [done|]. cbn in Hd. rewrite <- Hd, <- (write_vms path text 384 w1).
  by destruct (os_WriteFile _ _ _ _ _) as [? []].
Qed.

Lemma buildMeshRemover_vms c w :
  vms (buildMeshRemover cli helper FS rand c w).1 = vms w ∧ quiet_flusher RT (buildMeshRemover cli helper FS rand c w).2.
Proof.
  unfold buildMeshRemover. destruct (negb _); [done|]. rewrite <- (create_key_vms (mc_PrivateKeyFile (cf_Mesh c)) rand w).
  destruct (create_key _ _ _ w) as [w1 [k|e]]; [|done]. destruct (MeshInterfaceConfig _ _ _) as [ifc|]; [|done].
  split; [done|]. intros f w2 [= <-]. cbn beta.
  rewrite <- (Remove_vms (mesh_runner cli helper c) (Mesh_New ifc) w2) by apply mesh_runner_vms. reflexivity.
Qed.

Lemma runStep_vms name dry r d act w : quiet_flusher RT act → vms (runStep name dry r d act w).1 = vms w.
Proof.
  intros Hq. unfold runStep. destruct act as [f|]; [|done]. destruct dry; [done|]. rewrite <- (Hq f w eq_refl). by destruct (f w).
Qed.

Lemma runStep_dry name r d act (w : W) : (runStep name true r d act w).1 = w.
Proof. by destruct act. Qed.

(** A dry run: the steps are printed, the micro-VMs only listed. *)
Lemma Run_dry (o : RemoveOptions W) t w :
  ro_VMs o = Some (buildVMReaper RT t) → ro_DryRun o = true → (Run o w).1 = (Scan RT ∅ w).1.
Proof.
  intros Hv Hd. unfold Run, runStep, runReapVMs. rewrite Hd, Hv. unfold buildVMReaper, ReapAll, Reap.
  destruct (Scan RT ∅ w) as [w2 [l|e]] eqn:Es; destruct (ro_Nodes o), (ro_PF o), (ro_Mesh o); by rewrite Es.
Qed.

(** A real run that reports success. *)
Lemma Run_clean (o : RemoveOptions W) t w w' steps id :
  ro_VMs o = Some (buildVMReaper RT t) → ro_DryRun o = false →
  quiet_flusher RT (match ro_Nodes o with Some d => Some (d (ro_Node o)) | None => None end) →
  quiet_flusher RT (ro_PF o) → quiet_flusher RT (ro_Mesh o) →
  Run o w = (w', steps) → Result_OK steps = true → id ∈ vms w' ↔ id ∈ vms w ∧ IsMacVzVM id = false.
Proof.
  intros Hv Hd Qn Qp Qm Hr Hok. unfold Run in Hr. rewrite Hd in Hr.
  destruct (runStep "delete-node" _ _ _ _ w) as [w1 s1] eqn:E1. destruct (runReapVMs o w1) as [w2 s2] eqn:E2.
  destruct (runStep "flush-pf" _ _ _ _ w2) as [w3 s3] eqn:E3. destruct (runStep "mesh-down" _ _ _ _ w3) as [w4 s4] eqn:E4.
  apply (f_equal fst), (f_equal vms) in E1, E3, E4. rewrite runStep_vms in E1, E3, E4 by done. cbn [fst] in *. simplify_eq.
  rewrite <- E4, <- E3, E1. unfold runReapVMs in E2. rewrite Hv, Hd in E2.
  destruct (buildVMReaper RT t false w1) as [w2' [reaped errs]] eqn:Er. simplify_eq. destruct errs as [|e errs].
  - by eapply (ReapAll_exact RT (mkCleaner None t)).
  - unfold Result_OK in Hok. cbn in Hok. by destruct (bool_decide _), (sr_Status s1).
Qed.

(** Preparing the mesh step touches the key file and nothing else. *)
Lemma buildMeshRemover_world c w :
  (buildMeshRemover cli helper FS rand c w).1 =
  if mc_Enabled (cf_Mesh c) then (create_key FS (mc_PrivateKeyFile (cf_Mesh c)) rand w).1 else w.
Proof.
  unfold buildMeshRemover. destruct (mc_Enabled (cf_Mesh c)); [cbn|done].
  destruct (create_key _ _ _ _) as [w1 k]. by repeat case_match.
Qed.

(** C15: what the removal command needs and what it leaves.  Without [--yes], or
    with [--dry-run], it lists the micro-VMs and, when the mesh is enabled,
    reads the WireGuard private key or creates it when there is none, in a file
    and directory it makes, and has no other effect: every micro-VM is still there and no command, deletion
    or flush was issued.  With [--yes], exit code 0 means that the node's
    micro-VMs are gone and that every other workload of the host is still
    there. *)
Theorem remove_confirmed load api args w w' code out cfg g rest
    (node_vms : ∀ d n w, api = Ok d → vms (d n w).1 = vms w) :
  parse_flags remove_flags args = Ok (g, rest) → load (flag_string g "config" "") = Ok cfg →
  runRemove RT cli helper load FS rand api args w = (w', (code, out)) →
  (flag_bool g "yes" false = false ∨ flag_bool g "dry-run" false = true →
     w' = (Scan RT ∅ (if mc_Enabled (cf_Mesh cfg)
                      then (create_key FS (mc_PrivateKeyFile (cf_Mesh cfg)) rand w).1 else w)).1 ∧
     vms w' = vms w) ∧
  (flag_bool g "yes" false = true → flag_bool g "dry-run" false = false → code = 0 →
     ∀ id, id ∈ vms w' ↔ id ∈ vms w ∧ IsMacVzVM id = false).
Proof.
  intros Hp Hl Hr. unfold runRemove in Hr. rewrite Hp, Hl in Hr. unfold remove_options in Hr.
  destruct (buildMeshRemover_vms cfg w) as [Hm Qm]. rewrite <- buildMeshRemover_world.
  destruct (buildMeshRemover cli helper FS rand cfg w) as [w1 mesh]. cbn [fst snd] in *.
  match type of Hr with context [Run ?o w1] => set (opts := o) in * end. destruct (Run opts w1) as [w2 steps] eqn:E.
  injection Hr as <- Hcode _. split.
  - intros Hc. assert ((Run opts w1).1 = (Scan RT ∅ w1).1) as Hd.
    { apply (Run_dry opts (flag_duration g "stop-timeout" (10 * Second))); [done|]. cbn.
      destruct Hc as [->| ->]; [by destruct (flag_bool g "dry-run" false)|done]. }
    rewrite E in Hd. cbn [fst] in Hd. split; [done|]. by rewrite Hd, Scan_vms.
  - intros Hy Hd Hc id. rewrite <- Hm. eapply (Run_clean opts (flag_duration g "stop-timeout" (10 * Second))); [done| | | | |exact E|].
    + cbn. by rewrite Hy, Hd.
    + intros f w0. cbn. destruct (flag_bool g "keep-node" false); [done|]. destruct api as [d|]; [|done]. intros [= <-].
      unfold DeleteNode. rewrite <- (node_vms d (cf_NodeName cfg) w0 eq_refl). by destruct (d _ w0).
    + by apply anchorFlusher_quiet.
    + done.
    + destruct (Result_OK steps); [done|lia].
Qed.
End removal.

(** ** A simulated node with files *)

Definition on_snd {X W A} (f : W → W * A) (xw : X * W) : (X * W) * A :=
  let '(x, w) := xw in let '(w', r) := f w in ((x, w'), r).

Lemma on_snd_inv {X W A} (f : W → W * A) (xw xw' : X * W) r : on_snd f xw = (xw', r) → f xw.2 = (xw'.2, r) ∧ xw'.1 = xw.1.
Proof. destruct xw as [x w]. cbn. destruct (f w) eqn:E. intros; by simplify_eq. Qed.

Lemma on_snd_1 {X W A} (f : W → W * A) (xw : X * W) : (on_snd f xw).1.2 = (f xw.2).1.
Proof. destruct xw as [x w]. cbn. by destruct (f w). Qed.

Definition lift_rt {W} (X : Type) (RT : Runtime W) : Runtime (X * W) :=
  mkRuntime _ (λ i a, on_snd (rt_Pull RT i a)) (λ s, on_snd (rt_Create RT s)) (λ i, on_snd (rt_Start RT i)) (λ i t, on_snd (rt_Stop RT i t))
    (λ i, on_snd (rt_Destroy RT i)) (λ i, on_snd (rt_Status RT i)) (on_snd (rt_List RT)).

#[export] Instance lift_rt_host {W X} (RT : Runtime W) `{!VmHost RT} : VmHost (lift_rt X RT).
Proof.
  refine {| vms := λ xw : X * W, vms xw.2 |};
    cbn [lift_rt rt_Pull rt_Create rt_Start rt_Stop rt_Destroy rt_Status rt_List]; intros; rewrite ?on_snd_1;
    repeat match goal with Hf : on_snd _ _ = _ |- _ => apply on_snd_inv in Hf as [Hf _] end.
  - apply vms_Pull.
  - apply vms_Start.
  - apply vms_Stop.
  - apply vms_Status.
  - apply vms_List.
  - by apply vms_Create.
  - by apply vms_Destroy.
  - by eapply vms_found.
  - by eapply vms_not_found.
  - by eapply vms_listed.
Defined.

Definition lift_run {W} (X : Type) (R : Runner W) : Runner (X * W) := mkRunner (λ c, on_snd (run R c)).

Definition Mac : Type := FsSim * NodeSim.

Definition mac_rt : Runtime Mac := lift_rt FsSim node_rt.
Definition mac_run : Runner Mac := lift_run FsSim node_run.
Definition mac_os : Os Mac := lift_os NodeSim fs_sim.

(** No helper daemon answers. *)
Definition no_helper (_ : Request) (w : Mac) : Mac * (string * string * Z * option ClientError) := (w, ("", "", 0, None)).

(** Two of the node's micro-VMs, one backing a live Pod, a workload of somebody
    else, and the rules of the live Pod. *)
Definition mac_before : Mac := (mkFsSim ∅ [] 0, Lifecycle.mkNode three_vms ({["macvz/pods" := "rdr pass on bridge100"]}, []) []).

Definition mac_anchors (w : Mac) : gmap string string := (nd_pf w.2).1.

Definition mac_load (_ : string) : result CfgError Config := Ok enabled_cfg.

Lemma mac_run_vms c w : vms (RT := mac_rt) (run mac_run c w).1 = vms (RT := mac_rt) w.
Proof. destruct w as [x [v [m s] f]]. cbn. by repeat case_match; simplify_eq. Qed.

#[local] Instance command_range : MapRange := canonical_range.

Definition cleaned : Mac * (Z * string) :=
  runCleanup mac_rt mac_run no_helper mac_load (λ _, Ok [(kept_pod, false)]) ["--config=/etc/macvz.yaml"] mac_before.

Lemma cleanup_safe_witness :
  cleaned.2.1 = 0 ∧ "macvz-ns-b-web" ∈ vms (RT := mac_rt) cleaned.1 ∧
  (∀ id, id ∈ vms (RT := mac_rt) cleaned.1 → IsMacVzVM id = true → ∃ live, expected_of (Ok [(kept_pod, false)]) = Ok live ∧ id ∈ live).
Proof.
  destruct (cleanup_safe mac_rt mac_run no_helper mac_run_vms (λ _ _, eq_refl) mac_load (λ _, Ok [(kept_pod, false)])
    ["--config=/etc/macvz.yaml"] mac_before cleaned.1 cleaned.2.1 cleaned.2.2 enabled_cfg (list_to_map [("config", "/etc/macvz.yaml")]) [])
    as (_ & Hlive & _ & Hall); [vm_compute; reflexivity|vm_compute; reflexivity|unfold cleaned; by destruct (runCleanup _ _ _ _ _ _ _) as [? [? ?]]|].
  split; [vm_compute; reflexivity|]. split; [|apply Hall; vm_compute; reflexivity].
  apply (Hlive [(kept_pod, false)] kept_pod kept_policy (mkDNS [] "") None None None kept_spec kept_volumes).
  - vm_compute. reflexivity.
  - reflexivity.
  - by left.
  - vm_compute. reflexivity.
  - apply (bool_decide_unpack _). vm_compute. exact I.
Defined.

(** Cleaning up takes the live Pods' rules with it.  On a node whose only Pod is
    listed and live, the default [cleanup] reaps the orphan and flushes the Pod
    network's whole anchor: the Pod's micro-VM runs on without its rules.  The orphan
    reaper of the running kubelet sets no flusher, for that very reason. *)
Theorem cleanup_flushes_live :
  cleaned.2.1 = 0 ∧ "macvz-ns-b-web" ∈ vms (RT := mac_rt) cleaned.1 ∧
  mac_anchors mac_before !! "macvz/pods" = Some "rdr pass on bridge100" ∧ mac_anchors cleaned.1 !! "macvz/pods" = None.
Proof. split_and!; [vm_compute; reflexivity|apply (bool_decide_unpack _); vm_compute; exact I|vm_compute; reflexivity..]. Qed.

Definition removed (args : list string) : Mac * (Z * string) :=
  runRemove mac_rt mac_run no_helper mac_load mac_os (replicate 32 7) (Ok (λ _ w, (w, DeleteDone))) args mac_before.

Lemma mac_mkdir_vms p m w : vms (RT := mac_rt) (os_MkdirAll mac_os p m w).1 = vms (RT := mac_rt) w.
Proof. destruct w as [x w]. cbn. unfold on_fst. cbn. by destruct (fs_op _ _ _). Qed.

Lemma mac_write_vms p d m w : vms (RT := mac_rt) (os_WriteFile mac_os p d m w).1 = vms (RT := mac_rt) w.
Proof. destruct w as [x w]. cbn. unfold on_fst. cbn. by destruct (sim_write _ _ _ _). Qed.

Lemma remove_confirmed_witness :
  (removed ["--yes"]).2.1 = 0 ∧
  ("macvz-ns-b-web" ∈ vms (RT := mac_rt) (removed ["--yes"]).1 ↔
     "macvz-ns-b-web" ∈ vms (RT := mac_rt) mac_before ∧ IsMacVzVM "macvz-ns-b-web" = false) ∧
  vms (RT := mac_rt) (removed []).1 = vms (RT := mac_rt) mac_before.
Proof.
  pose proof (λ args, remove_confirmed mac_rt mac_run mac_os (replicate 32 7) no_helper mac_run_vms (λ _ _, eq_refl) mac_mkdir_vms mac_write_vms
    mac_load (Ok (λ _ w, (w, DeleteDone))) args mac_before (removed args).1 (removed args).2.1 (removed args).2.2 enabled_cfg) as H.
  assert (∀ args, removed args = ((removed args).1, ((removed args).2.1, (removed args).2.2))) as E
    by (intros args; by destruct (removed args) as [? [? ?]]).
  split; [vm_compute; reflexivity|]. split.
  - destruct (H ["--yes"] (list_to_map [("yes", "true")]) []) as [_ Hy];
      [by intros d n w [= <-]|vm_compute; reflexivity|reflexivity|unfold removed at 1 in E; apply E|]. apply Hy; vm_compute; reflexivity.
  - destruct (H [] ∅ []) as [Hd _]; [by intros d n w [= <-]|vm_compute; reflexivity|reflexivity|unfold removed at 1 in E; apply E|].
    apply Hd. left. vm_compute. reflexivity.
Defined.

(** Planning a removal writes a private key: on a node whose key file is missing,
    [remove] without [--yes] and [remove --dry-run] both create it, and both print
    that no changes were made. *)
Theorem planning_makes_key :
  let key := mc_PrivateKeyFile (cf_Mesh enabled_cfg) in
  fs_paths mac_before.1 !! key = None ∧
  is_Some (fs_paths (removed []).1.1 !! key) ∧ is_Some (fs_paths (removed ["--dry-run"]).1.1 !! key) ∧
  Contains (removed ["--dry-run"]).2.2 "Verdict: DRY-RUN (no changes made)" = true.
Proof. split_and!; try (vm_compute; reflexivity); vm_compute; eauto. Qed.
