(* ===== verification/MeshCmd.v ===== *)
(** * The mesh helper: [cmd/macvz-mesh/main.go]

    Generating a node's key, exporting its public identity and rendering peers for
    the other nodes.  The commands read and write files; the YAML library and the
    multiplication by the base point are parameters. *)

From S2P Require Import Prelude GoStrings GoNet GoFlag OsFs Filepath Driver WireGuard NetConfig Config Bootstrap.

Open Scope Z_scope.

Inductive MeshCmdError : Type :=
  | XNoSubcommand | XUnknown (name : string) | XFlags (e : FlagError) | XKeyRequired | XConfigRequired
  | XKeyFile (e : GenError) | XLoad (e : CfgError) | XMeta (e : MetaError) | XWrite (path msg : string)
  | XNoFiles | XNegative | XRead (path msg : string) | XParse (path : string) (e : MetaError) | XFormat (format : string).

Section mesh.
Context {W : Type} (FS : Os W).
(** The base point's multiples, the random bytes of a new key, the loader of
    configurations, and the YAML library. *)
Context (base : Key → Key) (rand : Key) (load : string → W → result CfgError Config).
Context (encode : MeshNodeMetadata → result string string) (decode : string → result string MeshNodeMetadata).
Context (encode_peers : list MeshPeerConfig → result string string).

Definition keygen_flags : FlagSet := list_to_map [("key", KString)].
Definition export_flags : FlagSet := list_to_map [("config", KString); ("out", KString)].
Definition peer_flags : FlagSet := list_to_map [("format", KString); ("keepalive", KInt)].

Definition fileExists (path : string) (w : W) : bool := match os_Stat FS (Clean path) w with None => true | Some _ => false end.

(** What a command prints on its standard output and on its error output. *)
Definition runKeygen (args : list string) (w : W) : W * result MeshCmdError (string * string) :=
  match parse_flags keygen_flags args with
  | Err e => (w, Err (XFlags e))
  | Ok (g, _) =>
      let keyPath := flag_string g "key" "" in
      if String.eqb keyPath "" then (w, Err XKeyRequired) else
      let existed := fileExists keyPath w in
      let '(w, r) := create_key FS keyPath rand w in
      (w, match r with
          | Err e => Err (XKeyFile e)
          | Ok key =>
              Ok (Key_String (PublicKey base key) +:+ nl,
                  (if existed then "loaded existing private key from " +:+ keyPath
                   else "generated new private key at " +:+ keyPath +:+ " (mode 0600)") +:+ nl)
          end)
  end.

(** [ExportMeshMetadata] with the key file it may write. *)
Definition export_metadata (cfg : Config) (w : W) : W * result MeshCmdError MeshNodeMetadata :=
  if negb (mc_Enabled (cf_Mesh cfg)) then (w, Err (XMeta MMeshDisabled)) else
  let path := mc_PrivateKeyFile (cf_Mesh cfg) in
  let md := ExportMeshMetadata base cfg (read_opt FS path w) rand in
  let '(w, key) := create_key FS path rand w in
  (w, match key with
      | Err e => Err (XKeyFile e)
      | Ok _ => match md with Err e => Err (XMeta e) | Ok (md, _) => Ok md end
      end).

Definition runExport (args : list string) (w : W) : W * result MeshCmdError (string * string) :=
  match parse_flags export_flags args with
  | Err e => (w, Err (XFlags e))
  | Ok (g, _) =>
      let configPath := flag_string g "config" "" in
      let outPath := flag_string g "out" "" in
      if String.eqb configPath "" then (w, Err XConfigRequired) else
      match load configPath w with
      | Err e => (w, Err (XLoad e))
      | Ok cfg =>
          match export_metadata cfg w with
          | (w, Err e) => (w, Err e)
          | (w, Ok md) =>
              match Meta_Marshal encode md with
              | Err e => (w, Err (XMeta e))
              | Ok data =>
                  if String.eqb outPath "" then (w, Ok (data, "")) else
                  let '(w, e) := os_WriteFile FS outPath data 420 w in
                  (w, match e with
                      | Some msg => Err (XWrite outPath msg)
                      | None => Ok ("", "wrote mesh metadata for " +:+ Quote (md_Name md) +:+ " to " +:+ outPath +:+ nl)
                      end)
              end
          end
      end
  end.

Definition read_metadata (w : W) (f : string) : result MeshCmdError MeshNodeMetadata :=
  match os_ReadFile FS f w with
  | Err msg => Err (XRead f msg)
  | Ok data => match ParseMeshNodeMetadata decode data with Err e => Err (XParse f e) | Ok md => Ok md end
  end.

Definition meta_err {A} (r : result MetaError A) : result MeshCmdError A := match r with Ok x => Ok x | Err e => Err (XMeta e) end.

Definition runPeer (args : list string) (w : W) : result MeshCmdError string :=
  match parse_flags peer_flags args with
  | Err e => Err (XFlags e)
  | Ok (g, files) =>
      let format := flag_string g "format" "macvz" in
      let keepalive := flag_int g "keepalive" DefaultPeerKeepalive in
      guard (negb (bool_decide (files = []))) XNoFiles ;--
      guard (negb (keepalive <? 0)) XNegative ;--
      nodes <-- map_result (read_metadata w) files;
      if String.eqb format "macvz" then meta_err (RenderMeshPeers encode_peers nodes keepalive)
      else if String.eqb format "wg" then meta_err (RenderWireGuardPeers nodes keepalive)
      else Err (XFormat format)
  end.

Context (version_String : string).

Definition run_mesh_cmd (args : list string) (w : W) : W * result MeshCmdError (string * string) :=
  match args with
  | [] => (w, Err XNoSubcommand)
  | name :: rest =>
      if String.eqb name "keygen" then runKeygen rest w
      else if String.eqb name "export" then runExport rest w
      else if String.eqb name "peer" then (w, match runPeer rest w with Ok out => Ok (out, "") | Err e => Err e end)
      else if bool_decide (name ∈ ["version"; "--version"; "-version"]) then (w, Ok (version_String +:+ nl, ""))
      else if bool_decide (name ∈ ["help"; "-h"; "--help"]) then (w, Ok ("", ""))
      else (w, Err (XUnknown name))
  end.
End mesh.

(** ** The key a node keeps *)

Section keys.
Context {W : Type} (FS : Os W) `{!FileHost FS} (base : Key → Key).

(** Where there is a file, only its text counts, and it is not written. *)
Lemma create_key_present path rand w w' k d m :
  paths w !! path = Some (File d m) → create_key FS path rand w = (w', Ok k) → w' = w ∧ ParseKey d = Ok k.
Proof.
  intros Hp. unfold create_key, read_opt. destruct (os_ReadFile FS path w) as [d'|e] eqn:Er.
  - apply fh_read in Er as [m' Hd]. rewrite Hp in Hd. injection Hd as <- _. cbn. destruct (ParseKey d); [|done]. by intros [= <- <-].
  - assert (os_Stat FS path w = None) as -> by (apply fh_stat; by rewrite Hp). done.
Qed.

Lemma create_key_file path rand w w' k :
  key_wf rand → create_key FS path rand w = (w', Ok k) →
  (∃ d m, paths w' !! path = Some (File d m) ∧ ParseKey d = Ok k) ∧ (is_Some (paths w !! path) → w' = w) ∧
  (paths w !! path = None → k = clamp rand ∧ ∃ m, paths w' !! path = Some (File (Key_String k +:+ nl) m) ∧ Z.ldiff m 384 = 0).
Proof.
  intros Hwf Hc. destruct (paths w !! path) as [[d m|]|] eqn:Ep.
  - destruct (create_key_present path rand w w' k d m Ep Hc) as [-> Hk]. split_and!; [eauto|done|done].
  - unfold create_key, read_opt in Hc. destruct (os_ReadFile FS path w) as [d'|e] eqn:Er.
    + apply fh_read in Er as [m' Hd]. congruence.
    + assert (os_Stat FS path w = None) as Hs by (apply fh_stat; by rewrite Ep). by rewrite Hs in Hc.
  - unfold create_key, read_opt in Hc. destruct (os_ReadFile FS path w) as [d'|e] eqn:Er; [apply fh_read in Er as [m' Hd]; congruence|].
    destruct (os_Stat FS path w) eqn:Es; [|apply fh_stat in Es as [x Hx]; congruence]. cbn [LoadOrCreateKey] in Hc.
    destruct (if _ && _ then _ else _) as [w1 [msg|]] eqn:Ed; [done|].
    destruct (os_WriteFile FS path _ 384 w1) as [w2 [msg|]] eqn:Ew; [done|]. injection Hc as <- <-.
    assert (match paths w1 !! path with Some (File _ _) => False | _ => True end) as Hnf.
    { destruct (_ && _); [|by simplify_eq; rewrite Ep]. destruct (fh_mkdir _ _ _ _ _ Ed path) as [_ Hnew].
      destruct (paths w1 !! path) as [x|]; [|done]. destruct (Hnew x eq_refl) as [?| ->]; [congruence|done]. }
    apply fh_write in Ew as [_ Hw]. destruct (Hw eq_refl) as (x & Hx & Hwr).
    assert (∃ m, x = File (Key_String (clamp rand) +:+ nl) m ∧ Z.ldiff m 384 = 0) as (m & -> & Hm)
      by (unfold written in Hwr; destruct (paths w1 !! path) as [[]|]; done).
    split_and!; [|by intros [? ?]|eauto]. eexists _, m. split; [exact Hx|].
    destruct (key_identity_stable rand rand (clamp rand) (Key_String (clamp rand) +:+ nl) Hwf eq_refl) as [Hl _].
    cbn [LoadOrCreateKey] in Hl. destruct (ParseKey _); [|done]. by injection Hl as ->.
Qed.

(** A node's key is made once.  When [keygen] succeeds, the public key it prints is
    that of the private key in the file; a file that was there was not touched, a new
    one holds fresh clamped bytes with no permission bit but the owner's read and write
    bits.  Every later [keygen] on that file that succeeds, on whatever host state and
    with whatever random bytes, prints the same key and changes nothing. *)
Theorem keygen_stable rand args w w' out err :
  key_wf rand → runKeygen FS base rand args w = (w', Ok (out, err)) →
  ∃ path k d m, path ≠ "" ∧ paths w' !! path = Some (File d m) ∧ ParseKey d = Ok k ∧ out = Key_String (PublicKey base k) +:+ nl ∧
    (is_Some (paths w !! path) → w' = w) ∧
    (paths w !! path = None → k = clamp rand ∧ Z.ldiff m 384 = 0) ∧
    (∀ rand' w1 w2 out2 err2, paths w1 !! path = Some (File d m) → runKeygen FS base rand' args w1 = (w2, Ok (out2, err2)) →
       w2 = w1 ∧ out2 = out).
Proof.
  intros Hwf Hr. unfold runKeygen in Hr |- *. destruct (parse_flags keygen_flags args) as [[g rest]|] eqn:Eg; [|done].
  destruct (String.eqb_spec (flag_string g "key" "") "") as [|Hne]; [done|]. set (path := flag_string g "key" "") in *.
  destruct (create_key FS path rand w) as [w1 [k|]] eqn:Ec; [|done]. injection Hr as <- <- _.
  apply create_key_file in Ec as ((d & m & Hp & Hk) & Hold & Hnew); [|done].
  exists path, k, d, m. split_and!; try done.
  - intros Hn. destruct (Hnew Hn) as [-> (m' & Hp' & Hm)]. rewrite Hp in Hp'. by injection Hp' as _ ->.
  - intros rand' w2 w3 out2 err2 Hp2 Hr2. destruct (create_key FS path rand' w2) as [w4 [k2|]] eqn:Ec2; [|done].
    injection Hr2 as <- <- _. destruct (create_key_present path rand' w2 w4 k2 d m Hp2 Ec2) as [-> Hk2]. split; [done|]. congruence.
Qed.
End keys.

(** ** From one node's export to another node's peer *)

Section exchange.
Context {W : Type} (FS : Os W) `{!FileHost FS} (base : Key → Key) (load : string → W → result CfgError Config).
Context (encode : MeshNodeMetadata → result string string) (decode : string → result string MeshNodeMetadata).
Context (encode_peers : list MeshPeerConfig → result string string).
(** The YAML library reads back the documents it wrote; public keys are proper. *)
Hypothesis yaml_roundtrip : ∀ md text, encode md = Ok text → decode (meshMetadataHeader +:+ text) = Ok md.
Hypothesis base_proper : ∀ k, key_wf (base k) ∧ IsZero (base k) = false.

(** The entry [peer] makes of the node with configuration [cfg] and private key
    [priv], and the peer it resolves to, field by field. *)
Definition exported_endpoint (cfg : Config) : string :=
  let port := if mc_ListenPort (cf_Mesh cfg) =? 0 then DefaultMeshListenPort else mc_ListenPort (cf_Mesh cfg) in
  if String.eqb (nc_InternalIP (cf_Node cfg)) "" then "" else JoinHostPort (nc_InternalIP (cf_Node cfg)) (Itoa port).

Definition exported_entry (cfg : Config) (priv : Key) : MeshPeerConfig :=
  mkPeerCfg (cf_NodeName cfg) (Key_String (PublicKey base priv)) (exported_endpoint cfg)
    (nc_PodCIDR (cf_Node cfg)) (mc_Address (cf_Mesh cfg)) DefaultPeerKeepalive.

Definition exported_peer (cfg : Config) (priv : Key) : Peer :=
  mkPeer (cf_NodeName cfg) (PublicKey base priv) (exported_endpoint cfg)
    (nc_PodCIDR (cf_Node cfg) :: (if String.eqb (mc_Address (cf_Mesh cfg)) "" then [] else [mc_Address (cf_Mesh cfg)]))
    DefaultPeerKeepalive.

Lemma exported_entry_spec cfg file rand md written priv :
  ExportMeshMetadata base cfg file rand = Ok (md, written) → LoadOrCreateKey file rand = Ok (priv, written) →
  PeerConfig md DefaultPeerKeepalive = exported_entry cfg priv.
Proof.
  unfold ExportMeshMetadata. destruct (guard (mc_Enabled _) _) as [[]|]; [|done]. intros Hx Hk. rewrite Hk in Hx.
  cbv zeta in Hx. destruct (guard _ _) as [[]|]; [|done]. destruct (Meta_Validate _) as [[]|]; [|done]. by simplify_eq/=.
Qed.

Lemma exported_entry_resolves cfg priv : resolve_peer (exported_entry cfg priv) = Ok (exported_peer cfg priv).
Proof. unfold resolve_peer. cbn. destruct (base_proper priv) as [Hk _]. change (PublicKey base priv) with (base priv). by rewrite (ParseKey_String _ Hk). Qed.

Lemma export_metadata_Ok rand cfg w w' md :
  export_metadata FS base rand cfg w = (w', Ok md) →
  ∃ priv written, ExportMeshMetadata base cfg (read_opt FS (mc_PrivateKeyFile (cf_Mesh cfg)) w) rand = Ok (md, written) ∧
    create_key FS (mc_PrivateKeyFile (cf_Mesh cfg)) rand w = (w', Ok priv) ∧
    LoadOrCreateKey (read_opt FS (mc_PrivateKeyFile (cf_Mesh cfg)) w) rand = Ok (priv, written).
Proof.
  unfold export_metadata. destruct (negb _); [done|]. destruct (create_key _ _ _ w) as [w1 [k|]] eqn:Ec; [|done].
  destruct (ExportMeshMetadata _ _ _ _) as [[md' t]|] eqn:Ex; [|done]. intros [= <- <-]. exists k, t. split_and!; [done|done|].
  apply Export_spec in Ex as (priv & Hk & _). rewrite Hk. unfold create_key in Ec. rewrite Hk in Ec.
  destruct t; [|by simplify_eq]. destruct (if _ && _ then _ else _) as [? []]; [done|]. destruct (os_WriteFile _ _ _ _ _) as [? []]; by simplify_eq.
Qed.

(** Rendering the one document that was exported. *)
Lemma runPeer_one g args f w md :
  parse_flags peer_flags args = Ok (g, [f]) → 0 <= flag_int g "keepalive" DefaultPeerKeepalive →
  read_metadata FS decode w f = Ok md →
  runPeer FS decode encode_peers args w =
    (let format := flag_string g "format" "macvz" in
     let keepalive := flag_int g "keepalive" DefaultPeerKeepalive in
     if String.eqb format "macvz" then meta_err (RenderMeshPeers encode_peers [md] keepalive)
     else if String.eqb format "wg" then meta_err (RenderWireGuardPeers [md] keepalive)
     else Err (XFormat format)).
Proof.
  intros Hp Hk Hm. unfold runPeer. rewrite Hp. destruct (Z.ltb_spec (flag_int g "keepalive" DefaultPeerKeepalive) 0); [lia|].
  cbn [bool_decide negb guard map_result]. by rewrite Hm.
Qed.

(** C19: exporting and importing a node.  When [export --out] succeeds, over a YAML
    library that reads back the documents it wrote, the node has a private key and the
    file holds a document such that [peer], on any host that has it at an absolute path,
    renders exactly one entry for the exporting node, in both formats: the configuration
    format the encoded [exported_entry], which holds the node's name, its public key, its
    address and WireGuard port as endpoint, its Pod range, its mesh address and the
    default keepalive; the wg format the block of [exported_peer], the peer that entry
    resolves to, which passes the mesh's validation. *)
Theorem export_then_peer rand args g rest cfg w w' out err :
  parse_flags export_flags args = Ok (g, rest) → flag_string g "out" "" ≠ "" → load (flag_string g "config" "") w = Ok cfg →
  runExport FS base rand load encode args w = (w', Ok (out, err)) →
  ∃ data m priv, paths w' !! flag_string g "out" "" = Some (File data m) ∧
    (create_key FS (mc_PrivateKeyFile (cf_Mesh cfg)) rand w).2 = Ok priv ∧
    resolve_peer (exported_entry cfg priv) = Ok (exported_peer cfg priv) ∧
    Peer_validate (exported_peer cfg priv) = Ok tt ∧
    ∀ f w1, os_ReadFile FS ("/" +:+ f) w1 = Ok data →
      runPeer FS decode encode_peers ["/" +:+ f] w1 =
        match encode_peers [exported_entry cfg priv] with
        | Ok text => Ok (meshPeersHeader +:+ text)
        | Err e => Err (XMeta (MYaml e))
        end ∧
      runPeer FS decode encode_peers ["--format=wg"; "/" +:+ f] w1 = Ok (ConfigBlock (exported_peer cfg priv)).
Proof.
  intros Hp Ho Hl Hr. unfold runExport in Hr. rewrite Hp, Hl in Hr. destruct (String.eqb (flag_string g "config" "") ""); [done|].
  destruct (export_metadata FS base rand cfg w) as [w1 [md|]] eqn:Ex; [|done]. destruct (Meta_Marshal encode md) as [data|] eqn:Em; [|done].
  destruct (String.eqb_spec (flag_string g "out" "") ""); [done|].
  destruct (os_WriteFile FS _ data 420 w1) as [w2 [msg|]] eqn:Ew; [done|]. injection Hr as <- <- _.
  apply fh_write in Ew as [_ Hw]. destruct (Hw eq_refl) as (x & Hx & [m ->]%written_data).
  apply export_metadata_Ok in Ex as (priv & written & Hx' & Hc & Hk).
  pose proof (exported_entry_spec _ _ _ _ _ _ Hx' Hk) as He. pose proof (exported_entry_resolves cfg priv) as Hres.
  destruct (Export_resolves _ _ _ _ _ _ DefaultPeerKeepalive 0 Hx' base_proper ltac:(vm_compute; discriminate))
    as (priv' & q & _ & Hs & Hv & _ & Hq & Hpv & _). rewrite He, Hres in Hq. injection Hq as <-.
  exists data, m, priv. rewrite Hc. split_and!; try done. intros f w3 Hf.
  assert (read_metadata FS decode w3 ("/" +:+ f) = Ok md) as Hrd.
  { unfold read_metadata. rewrite Hf. unfold Meta_Marshal in Em. rewrite Hs in Em. cbn -[meshMetadataHeader] in Em.
    destruct (encode md) as [text|] eqn:Ee; [|done]. injection Em as <-. unfold ParseMeshNodeMetadata.
    rewrite (yaml_roundtrip _ _ Ee), Hs. cbn -[Meta_Validate]. by rewrite Hv. }
  split.
  - rewrite (runPeer_one ∅ _ ("/" +:+ f) _ md); [|done|done|done]. cbn zeta. cbn -[meshPeersHeader RenderMeshPeers].
    unfold RenderMeshPeers. cbn [map_result]. unfold mesh_peer_entry. rewrite Hv. change (flag_int _ _ _) with DefaultPeerKeepalive.
    rewrite He. cbn -[meshPeersHeader]. by destruct (encode_peers _).
  - rewrite (runPeer_one {["format" := "wg"]} _ ("/" +:+ f) _ md); [|done|done|done]. cbn zeta. cbn -[RenderWireGuardPeers].
    unfold RenderWireGuardPeers. cbn [map_result]. unfold wireguard_peer. rewrite Hv. change (flag_int _ _ _) with DefaultPeerKeepalive.
    by rewrite He, Hres.
Qed.
End exchange.

(** ** Witnesses *)

Definition empty_host : FsSim := mkFsSim ∅ [] 0.

Definition first_keygen := runKeygen fs_sim toy_base demo_rand ["--key"; "/etc/macvz/wg.key"] empty_host.
Definition second_keygen := runKeygen fs_sim toy_base (seqZ 100 32) ["--key"; "/etc/macvz/wg.key"] first_keygen.1.

Lemma keygen_stable_witness :
  (∃ d, fs_paths first_keygen.1 = {["/etc/macvz/wg.key" := File d 384]} ∧ ParseKey d = Ok (clamp demo_rand)) ∧
  second_keygen.1 = first_keygen.1.
Proof.
  split; [eexists; split; vm_compute; reflexivity|].
  destruct first_keygen as [w [[out err]|e]] eqn:E1; [|vm_compute in E1; discriminate].
  destruct (keygen_stable fs_sim toy_base demo_rand ["--key"; "/etc/macvz/wg.key"] empty_host w out err)
    as (path & k & d & m & _ & Hp & _ & _ & _ & _ & Hagain); [|exact E1|].
  { split; [vm_compute; reflexivity|]. apply (bool_decide_unpack _). vm_compute. exact I. }
  destruct second_keygen as [w2 [[out2 err2]|e]] eqn:E2; [|exfalso].
  - unfold second_keygen in E2. rewrite E1 in E2. by destruct (Hagain _ _ _ _ _ Hp E2) as [-> _].
  - vm_compute in E2. discriminate.
Defined.

#[local] Instance meta_eq_dec : EqDecision MeshNodeMetadata.
Proof. solve_decision. Defined.

(** A YAML library that knows the document of the demonstration node. *)
Definition doc_encode (md : MeshNodeMetadata) : result string string := if bool_decide (md = demo_md) then Ok "doc" else Err "unsupported".
Definition doc_decode (_ : string) : result string MeshNodeMetadata := Ok demo_md.
Definition peers_encode (l : list MeshPeerConfig) : result string string := Ok "peers: [mac-1]".

Definition exported :=
  runExport fs_sim toy_base demo_rand (λ _ _, Ok (demo_config [])) doc_encode ["--config"; "/etc/macvz.yaml"; "--out"; "/share/mac-1.yaml"] empty_host.

Lemma export_then_peer_witness :
  runPeer fs_sim doc_decode peers_encode ["/share/mac-1.yaml"] exported.1 = Ok (meshPeersHeader +:+ "peers: [mac-1]") ∧
  ∃ q, Peer_validate q = Ok tt ∧ runPeer fs_sim doc_decode peers_encode ["--format=wg"; "/share/mac-1.yaml"] exported.1 = Ok (ConfigBlock q).
Proof.
  destruct exported as [w [[out err]|e]] eqn:E; [|vm_compute in E; discriminate].
  destruct (export_then_peer fs_sim toy_base (λ _ _, Ok (demo_config [])) doc_encode doc_decode peers_encode) with
    (rand := demo_rand) (args := ["--config"; "/etc/macvz.yaml"; "--out"; "/share/mac-1.yaml"])
    (g := (list_to_map [("out", "/share/mac-1.yaml"); ("config", "/etc/macvz.yaml")] : Given)) (rest := @nil string)
    (cfg := demo_config []) (w := empty_host) (w' := w) (out := out) (err := err) as (data & m & priv & Hp & _ & _ & Hq & Hpeer).
  - intros md text. unfold doc_encode. by destruct (bool_decide_reflect (md = demo_md)) as [->|].
  - intros k. change (toy_base k) with (demo_key 40). split; [|vm_compute; reflexivity].
    split; [reflexivity|]. apply (bool_decide_unpack _). vm_compute. exact I.
  - vm_compute. reflexivity.
  - vm_compute. discriminate.
  - reflexivity.
  - exact E.
  - change (flag_string _ "out" "") with "/share/mac-1.yaml" in Hp.
    destruct (Hpeer "share/mac-1.yaml" w) as [H1 H2]; [|split; [exact H1|]; eexists; by split].
    change ("/" +:+ "share/mac-1.yaml") with "/share/mac-1.yaml". cbn [fs_sim os_ReadFile]. change (paths w) with (fs_paths w) in Hp.
    by rewrite Hp.
Defined.
